(* ===== verification/_CoqProject ===== *)
-Q . S2P
Prelude.v
GoStd.v
GoNet.v
Settings.v
Stream.v
Types.v
StationURL.v
Rmc.v
PrudpLite.v
Matchmaking.v
Reservations.v
Notification.v
Connection.v
Stations.v
Store.v
StoreInv.v
AcnhStructs.v
Tournament.v
TournamentProps.v
Handlers.v
HandlerInv.v
HandlerProps.v
Sha256.v
Dedup.v
Concurrent.v
Crypto.v
Kerberos.v
TicketGranting.v
Endpoint.v
EndpointInv.v
EndpointProps.v
GoTime.v
Base64.v
RankingBoard.v
Ranking.v
Persistence.v
Account.v
ProxyProto.v
NatTraversal.v
Utility.v
Dashboard.v
DashboardProps.v
Ambient.v
Server.v
ServerProps.v
Admin.v
RegistryInv.v
Transport.v
Sockets.v
AuthServer.v
Machine.v
Life.v
Monitor.v
