(* ===== verification/Prelude.v ===== *)
(** * Verification of the Nextendo Mario Kart 8 Deluxe matchmaking server

    The program is a Go reimplementation of a NEX game service.  [src/nextendo-nex] is
    the protocol core: byte streams and structures, RMC messages, PRUDP-Lite packets,
    connections and their endpoint, Kerberos-style tickets, and the matchmaking store
    with its request handlers.  [src/server] is the MK8 server built on it: it opens an
    authentication endpoint and a secure endpoint, registers the handlers and wraps the
    matchmaking ones in a request deduplicator.

    How the parts interact.  A console logs in on the authentication endpoint and gets a
    ticket; it opens a connection to the secure endpoint and proves its account with the
    ticket.  The two endpoints share a table of recent logins by host.  Frames of the socket
    are decoded into packets, packets reassembled into RMC requests, requests dispatched by
    protocol to a handler.  The matchmaking handlers work on one store under one mutex, look
    other players' connections up in the endpoint's registry and push notifications to
    them.  When a connection ends, its player is removed from the store.  A dashboard reads
    the endpoint and the store, counts calls through a hook and can evict a player.

    ** Files

    - Prelude: Go integers, byte slices, map iteration, tactics and shared lemmas.
    - GoStd, GoNet, GoTime, Base64, Sha256, Crypto: what the code uses of Go's strings,
      strconv, net, time, encoding/base64, crypto/sha256, md5, hmac and rc4, written out and
      tested on known values.
    - Settings (settings.go), Stream (stream.go), Types and StationURL (types.go,
      resultcodes.go), Rmc (rmc.go), PrudpLite (prudp_lite.go): the wire formats.  The
      class [Structure] is the contract between a type and the framing of structures; the
      relation [decodes] is the contract between a writer and its reader.
    - Matchmaking (matchmaking.go), AcnhStructs (structures of matchmaking_acnh.go): the
      matchmaking structures.
    - Reservations (matchmaking_reservations.go): one gathering, its seat operations, and
      the abstract seat table they implement.
    - Notification (notification.go and the store of matchmaking_notifdata.go), Connection
      (connections and registry of endpoint.go), Stations (secureconnection.go,
      natbridge.go).
    - Store (state and locked operations of matchmaking_handlers.go, solo_isolate.go),
      StoreInv (its invariant), Tournament and TournamentProps (tournament.go), Handlers
      (every handler of matchmaking_handlers.go, matchmaking_acnh.go and
      matchmaking_notifdata.go), HandlerInv (the invariant across handlers), HandlerProps
      (what the handlers do).
    - Dedup (server/rmc_dedup.go): the deduplicator and its goroutines.  Concurrent
      (rmc_dedup.go around the matchmaking handlers, with the disconnect hook of
      server/main.go): matchmaking calls that overlap, each a goroutine between its arrival
      and its return.
    - Kerberos (kerberos.go), TicketGranting (ticketgranting.go; recalls and the flusher
      also in the steps other goroutines can come between), Endpoint (endpoint.go,
      reaper.go, the signatures of prudp_lite.go; a send also in its two critical
      sections), EndpointInv (what any connection operation
      leaves alone, and what a property of the recall table, the application and the accounts
      of the connections needs to be kept by all traffic), EndpointProps (what connections
      guarantee).
    - RankingBoard (ranking_board.go), Ranking (ranking.go), NatTraversal (nattraversal.go),
      Utility (utility.go): the remaining protocols of the secure endpoint.  Persistence: the
      flusher goroutines of ranking.go, ranking_board.go and tournament.go, interleaved with
      the requests that change their tables; the class [Durable] is what a flusher relies on
      and each table is an instance.
    - Account (the account lookups of server/main.go, server/gates.go and authbinding.go):
      identity tokens, login resolution, anonymous numbers, console identifiers.
    - ProxyProto (proxyproto.go): the listener that reads the client address from a header.
    - Dashboard and DashboardProps (server/dashboard.go, dashboard_data.go): call counters,
      statistics, geolocation cache, administrative requests.  Ambient: settings read from
      the environment, HTTP routes, traversal reports, signature comparison, time stamps
      (diag.go, and the rest of endpoint.go, server.go, types.go, nattraversal.go,
      server/main.go and server/dashboard.go).
    - Server and ServerProps (server/main.go): the secure endpoint with every handler, hook
      and the deduplicator, and the steps it takes.  Admin: an administrative kick on that
      server.  RegistryInv: what an endpoint's traffic does to its registry, as a small
      transition system.  Transport (server.go): the socket table in front of an endpoint;
      the class [Orderly] is what it asks of the endpoint.  Sockets: the secure server behind
      its sockets.  AuthServer: the authentication endpoint, and the process made of both.
      Machine: that process behind the sockets of both servers.  Life: that process over
      restarts, with the recall file (authRecallInit and authRecallFlusher of
      ticketgranting.go).  Monitor: what the dashboard says of such a process.

    ** How the code is modelled

    Integers are [Z] with the wrap-around written where Go converts or overflows; a string
    and a byte slice are lists of [Z].  Maps are finite maps; iterating one takes its order
    from an instance of [GoRange], over which every theorem quantifies; sorting with
    sort.Slice, which is not stable, is an instance of [GoSort], of which only the sorted
    permutation is known.  Pointers that
    several goroutines share (connections, deduplicator entries, station urls while they
    are edited) are handles into a heap.  A handler is a function of the shared state that
    returns the new state, the pushes it sends and its response; a handler that does not
    return is [Hangs], a Go panic is [Panic] or [None].  A panic while a frame is handled is
    recovered by the WebSocket library (server.go sets gws.Recovery): the rest of the frame
    is dropped and the process goes on.  Clock readings, random bytes, file
    contents, environment variables, the JSON decoder and what the account and geolocation
    services answer are arguments.  Code between taking and releasing a
    mutex is one step; where goroutines interleave (deduplicator, seats, sends with
    acknowledgements, logins with recalls and the recall flusher, console lookups,
    overlapping calls, flushers, the sections of a statistics page) the steps form a relation
    or a history and the theorems of the component hold for every one.  A matchmaking handler touches the
    store in one critical section, so running it is one step of an overlapping call.  A file
    is the decoded value it holds; writing and renaming it can fail, and the process can end
    between collecting what is to be written and writing it.  Where a theorem speaks of past
    logins, the state carries their list, which no operation reads; it says which tickets
    clients can hold.  The theorems on identities assume that nobody forges a ticket: of the
    envelopes presented to the secure server, only those it sealed for a login open under its
    key (RC4 and HMAC-MD5 are written out, so this is an assumption on the inputs, not an
    axiom; [genuine]).

    ** What the theorems show

    - Whole server: with every handler, hook, timer and administrative request as a step,
      the matchmaking part of each reachable server is a reachable store, so the theorems on
      stores hold of the server; a retried call runs once and gets the first answer while its
      answer is kept, which it is exactly if the deduplicator's table had room; closing an old connection can remove the player's state made through the newer one.
    - Overlapping calls: whatever the interleaving, the store moves by its own steps, every
      answer comes from an execution of an equal request, no call executes twice and no
      request whose answer is kept is executed again before the answer expires; a call in flight when its player is removed seats the
      player again.
    - Files: a flusher comes to rest soon after the requests stop, and then a new process
      restores boards, profiles and tournaments; the file is never truncated; a failed write
      is not tried again; the number of a deleted tournament can come back; what the recall
      flusher collects for a host restores its last login, with its age counted from the start
      of its second.
    - Sockets: exactly the connected connections are registered, each with one open socket;
      what the end of a socket frees; an evicted connection keeps acting on its socket.
    - Whole process: over any number of restarts and after any traffic on the sockets of both
      servers every connection of the secure server stands for no account or for one that a
      login proved; a CONNECT without a ticket only takes an account that logged in from the
      same host within a day, on this process or an earlier one; a CONNECT with a ticket takes
      the account of the login the presented ticket was sealed for.  The monitoring page,
      whose parts are read at different moments, agrees with the calls made by each moment and
      lists exactly the active players, all of them proved.
    - Seats: a gathering's reservations implement the abstract seat table; races grant
      exactly the free seats; a seat is used once.
    - Store: every reachable store is consistent and never overbooked; AutoMatchmake and
      JoinMatchmakeSession on every branch; nobody deletes another player's lobby;
      secrets do not leak through lookups; notices reach exactly the players concerned;
      removal, browsing, room codes, solo isolation and NAT-aware placement; the places
      where behaviour departs from the comments (closing, migration, attribute index
      overflow, truncated requests).
    - Connections: authentication of CONNECT, the way from login to connection, exact
      reassembly with its 256-fragment limit, the retransmission pool, eviction, lookup by
      account; a repeated CONNECT and requests before CONNECT.
    - Tickets, recall and proxy: the envelope accepts exactly what it produces; the recall
      table names the last login of the host, also behind a proxy, in every interleaving but
      the one in which a deletion begun on an expired entry takes a newer login with it; a
      client that sends no header holds up every later one.
    - Accounts: tokens round trip; lookups of console identifiers stay within their slots
      and give each goroutine the right account, in every interleaving.
    - Ranking: a board keeps the best entry of each player, pages are cut from the sorted
      board, files restore boards and profiles, profiles come back in the order asked; the
      first standings request answers empty unless the file has category 0, and with two
      categories the heading may be another than that of the rows.
    - NAT traversal: a probe request reaches exactly the connections registered under the
      RVCIDs named.
    - Dashboard and administration: the statistics describe the server's rooms, players and
      calls; a kick closes the registered connections of the account and, if one was open,
      frees its seats.
    - Wire formats: round trips of sessions, packet streams, station urls, and exactly which
      RMC messages come back (protocol 0x7F and success methods with bit 0x8000 do not).
    - Tournaments: what creation writes and when it fails; the store's invariant.
    - Deduplicator: single flight, bounded table, no lost wake-up, replay until expiry.

    ** Fuel and bounds

    Loops that are not structural take fuel: the option and packet decoders and the
    tournament walk get the length of their input, of which every turn consumes at least
    one byte; decimal printing gets 20 digits, enough for 64 bits, and hexadecimal groups
    4; IPv6 parsing gets 8 groups; the polling loop takes its clock readings and is proved
    to end once they reach the deadline; the fragment sender is proved to end within 256
    turns; the attribute loop is proved to end for every index but the last, for which it
    runs forever.  Identifier counters are assumed not to have wrapped where a theorem says
    so.

    ** Not modelled

    Sockets, TLS, HTTP and the WebSocket library: a frame is an input and a sent frame an
    output, so the goroutine per message of server.go appears as the order of inputs.  JSON
    text: files and answers are decoded values.  The text of log lines; what the code reads
    or computes for them (time stamps, traversal reports) is in Ambient.

    In the composed server and process frames are handled one at a time, and so a recall or
    the sending of a fragment is undisturbed there (server.go also lets the messages of one
    socket overlap).  Overlapping matchmaking calls are the subject of Concurrent, and the
    interleavings inside the deduplicator, seats, sends, recalls and lookups of the theorems
    on those components.  A statistics page may have been read at any moments, but its loop
    over the connections, which looks up the geolocation cache, is one step.  The recall table's flusher drops what has expired when it writes, so its
    file is not a function of the table alone and it is not an instance of [Durable]; Life
    gives it steps of its own.  The files of boards, profiles and tournaments are restored by
    the theorems of Persistence, not in Life, whose restarts begin with the tournaments given
    and empty boards and profiles until the first request loads them. *)

From stdpp Require Export base gmap list strings fin_maps sorting.
From Stdlib Require Export ZArith Lia.
#[export] Set Default Proof Using "Type".
Open Scope Z_scope.

(** ** Go's machine integers and byte slices

    Every Go integer is a [Z]; a conversion to a [w]-bit unsigned type is the
    remainder modulo [2^w].  A [[]byte] and a Go [string] are both lists of
    values in [0, 256). *)

Abbreviation bytes := (list Z).
Abbreviation gostring := (list Z).

Definition u8 (x : Z) : Z := x mod 2 ^ 8.
Definition u16 (x : Z) : Z := x mod 2 ^ 16.
Definition u32 (x : Z) : Z := x mod 2 ^ 32.
Definition u64 (x : Z) : Z := x mod 2 ^ 64.

(** [is_uint w x]: [x] is a value of the [w]-bit unsigned type. *)
Definition is_uint (w x : Z) : Prop := 0 <= x < 2 ^ w.

(** Two's-complement reading of a [w]-bit word (Go's [intN(x)]). *)
Definition sint (w x : Z) : Z :=
  let r := x mod 2 ^ w in if bool_decide (r < 2 ^ (w - 1)) then r else r - 2 ^ w.

(** [len(l)] as an [int]. *)
Definition len {A} (l : list A) : Z := Z.of_nat (length l).

(** [l[:n]] and [l[n:]] for an [int] index already checked to be in range. *)
Definition ztake {A} (n : Z) (l : list A) : list A := take (Z.to_nat n) l.
Definition zdrop {A} (n : Z) (l : list A) : list A := drop (Z.to_nat n) l.

(** [l[i]] with default 0, used where the source has checked the bound. *)
Definition byte_at (l : bytes) (i : Z) : Z := nth (Z.to_nat i) l 0.

(** Little-endian encoding of the low [n] bytes of [v], and its inverse
    ([encoding/binary.LittleEndian]). *)
Fixpoint le_bytes (n : nat) (v : Z) : bytes :=
  match n with
  | O => []
  | S n => v mod 256 :: le_bytes n (v / 256)
  end.

Fixpoint le_val (bs : bytes) : Z :=
  match bs with
  | [] => 0
  | b :: bs => b + 256 * le_val bs
  end.

Definition is_byte (b : Z) : Prop := 0 <= b < 256.

(** ** Rocq string literals as Go strings *)
Fixpoint str (s : string) : gostring :=
  match s with
  | EmptyString => []
  | String a s => Z.of_N (Ascii.N_of_ascii a) :: str s
  end.

(** ** Iteration over a Go map

    [for k, v := range m] visits the entries of [m] in an unspecified order.
    A value of [GoRange] resolves that choice; every theorem quantifies over
    it, so it holds for any order the runtime picks. *)
Class GoRange := {
  range : forall {K V : Type} `{Countable K}, gmap K V -> list (K * V);
  range_perm : forall {K V : Type} `{Countable K} (m : gmap K V),
    range m ≡ₚ map_to_list m
}.

(** The order [map_to_list] happens to use: an instance for evaluation. *)
Definition canonical_range : GoRange :=
  {| range := fun K V _ _ m => map_to_list m;
     range_perm := fun K V _ _ m => reflexivity (map_to_list m) |}.

(** ** Hint databases and tactics *)
Create Rewrite HintDb golen.
Create HintDb codec.

Ltac destruct_bool_decide :=
  repeat match goal with
  | H : bool_decide _ = true |- _ => apply bool_decide_eq_true_1 in H
  | H : bool_decide _ = false |- _ => apply bool_decide_eq_false_1 in H
  | H : (_ && _)%bool = true |- _ => apply andb_true_iff in H as [? ?]
  | H : (_ || _)%bool = false |- _ => apply orb_false_iff in H as [? ?]
  | H : negb _ = true |- _ => apply negb_true_iff in H
  | H : negb _ = false |- _ => apply negb_false_iff in H
  end.

(** Case analysis on the scrutinee of an [if]/[match] of the goal, keeping the
    equation in propositional form. *)
Ltac case_test :=
  match goal with
  | |- context [if ?b then _ else _] => destruct b eqn:?
  | H : context [if ?b then _ else _] |- _ => destruct b eqn:?
  end; destruct_bool_decide; simplify_eq/=.

(** ** Lengths *)
Section Len.
Context {A : Type}.
Implicit Types l : list A.

Lemma len_nonneg l : 0 <= len l.
Proof. unfold len. lia. Qed.

Lemma len_nil : len (@nil A) = 0.
Proof. done. Qed.

Lemma len_cons x l : len (x :: l) = 1 + len l.
Proof. unfold len. cbn [length]. lia. Qed.

Lemma len_app l1 l2 : len (l1 ++ l2) = len l1 + len l2.
Proof. unfold len. rewrite length_app. lia. Qed.

Lemma len_0_inv l : len l = 0 -> l = [].
Proof. unfold len. intros. apply nil_length_inv. lia. Qed.

Lemma ztake_app l1 l2 n : n = len l1 -> ztake n (l1 ++ l2) = l1.
Proof. intros ->. unfold ztake, len. rewrite Nat2Z.id. apply take_app_length. Qed.

Lemma zdrop_app l1 l2 n : n = len l1 -> zdrop n (l1 ++ l2) = l2.
Proof. intros ->. unfold zdrop, len. rewrite Nat2Z.id. apply drop_app_length. Qed.

Lemma ztake_zdrop n l : ztake n l ++ zdrop n l = l.
Proof. apply take_drop. Qed.

Lemma len_ztake n l : 0 <= n <= len l -> len (ztake n l) = n.
Proof. unfold len, ztake. intros. rewrite length_take. lia. Qed.

Lemma len_zdrop n l : 0 <= n <= len l -> len (zdrop n l) = len l - n.
Proof. unfold len, zdrop. intros. rewrite length_drop. lia. Qed.

Lemma ztake_all n l : len l <= n -> ztake n l = l.
Proof. unfold len, ztake. intros. apply take_ge. lia. Qed.

Lemma zdrop_all n l : len l <= n -> zdrop n l = [].
Proof. unfold len, zdrop. intros. apply drop_ge. lia. Qed.
End Len.

#[export] Hint Rewrite @len_nil @len_cons @len_app : golen.

Lemma len_map {A B} (f : A -> B) l : len (map f l) = len l.
Proof. unfold len. by rewrite length_map. Qed.
Lemma len_fmap {A B} (f : A -> B) (l : list A) : len (f <$> l) = len l.
Proof. unfold len. by rewrite length_fmap. Qed.
Lemma len_replicate {A} n (x : A) : len (replicate n x) = Z.of_nat n.
Proof. unfold len. by rewrite length_replicate. Qed.
#[export] Hint Rewrite @len_map @len_fmap @len_replicate : golen.

(** ** Little-endian words *)
Lemma length_le_bytes n v : length (le_bytes n v) = n.
Proof. revert v; induction n; intros; simpl; auto. Qed.

Lemma len_le_bytes n v : len (le_bytes n v) = Z.of_nat n.
Proof. unfold len. by rewrite length_le_bytes. Qed.
#[export] Hint Rewrite len_le_bytes : golen.

Lemma le_bytes_range n v : Forall is_byte (le_bytes n v).
Proof.
  revert v; induction n; intros; simpl; constructor; auto.
  unfold is_byte. apply Z.mod_pos_bound; lia.
Qed.

Lemma le_val_le_bytes n v : le_val (le_bytes n v) = v mod 2 ^ (8 * Z.of_nat n).
Proof.
  revert v; induction n; intros; cbn [le_bytes le_val].
  - rewrite Z.mod_1_r. done.
  - rewrite IHn. replace (8 * Z.of_nat (S n)) with (8 + 8 * Z.of_nat n) by lia.
    rewrite Z.pow_add_r by lia. change (2 ^ 8) with 256.
    rewrite Z.rem_mul_r by lia. reflexivity.
Qed.

Lemma le_val_small n v :
  is_uint (8 * Z.of_nat n) v -> le_val (le_bytes n v) = v.
Proof. intros H. rewrite le_val_le_bytes. by apply Z.mod_small. Qed.

Lemma le_val_bound bs :
  Forall is_byte bs -> 0 <= le_val bs < 2 ^ (8 * len bs).
Proof.
  induction 1 as [|b bs Hb Hbs IH]; cbn [le_val].
  - change (2 ^ (8 * len [])) with 1. lia.
  - autorewrite with golen. rewrite Z.mul_add_distr_l, Z.pow_add_r by (pose proof (len_nonneg bs); lia).
    unfold is_byte in Hb. change (2 ^ (8 * 1)) with 256. nia.
Qed.

Lemma le_bytes_le_val bs :
  Forall is_byte bs -> le_bytes (length bs) (le_val bs) = bs.
Proof.
  induction 1 as [|b bs Hb Hbs IH]; cbn [length le_bytes le_val]; [done|].
  unfold is_byte in Hb.
  replace (b + 256 * le_val bs) with (le_val bs * 256 + b) by lia.
  rewrite Z.div_add_l by lia. rewrite (Z.div_small b) by lia.
  rewrite Z.add_comm, Z.mod_add by lia. rewrite Z.mod_small by lia.
  by rewrite Z.add_0_r, IH.
Qed.

(** ** Bit fields *)
Lemma lor_shiftl_add a b k :
  0 <= k -> 0 <= b < 2 ^ k -> Z.lor b (Z.shiftl a k) = b + a * 2 ^ k.
Proof.
  intros Hk Hb. rewrite <- Z.shiftl_mul_pow2 by lia.
  symmetry.
  rewrite <- Z.lxor_lor; [apply Z.add_nocarry_lxor|];
  apply Z.bits_inj'; intros i Hi; rewrite Z.land_spec, Z.bits_0;
  (destruct (Z.ltb_spec i k);
   [rewrite Z.shiftl_spec_low by lia; by rewrite andb_false_r
   |rewrite <- (Z.mod_small b (2 ^ k)) by lia;
    by rewrite Z.mod_pow2_bits_high by lia]).
Qed.

Lemma land_ones_mod a k : 0 <= k -> Z.land a (2 ^ k - 1) = a mod 2 ^ k.
Proof. intros. rewrite <- Z.land_ones by lia. f_equal. rewrite Z.ones_equiv. lia. Qed.

Lemma shiftr_div a k : 0 <= k -> Z.shiftr a k = a / 2 ^ k.
Proof. apply Z.shiftr_div_pow2. Qed.

(** ** Masks *)
Lemma ldiff_lor_mask a m : Z.land a m = 0 -> Z.ldiff (Z.lor a m) m = a.
Proof.
  intros H. apply Z.bits_inj'. intros i Hi. rewrite Z.ldiff_spec, Z.lor_spec.
  assert (Z.testbit a i && Z.testbit m i = false) as Hb
    by (by rewrite <- Z.land_spec, H, Z.bits_0).
  destruct (Z.testbit a i), (Z.testbit m i); done.
Qed.

Lemma ldiff_mask_id a m : Z.land a m = 0 -> Z.ldiff a m = a.
Proof.
  intros H. apply Z.bits_inj'. intros i Hi. rewrite Z.ldiff_spec.
  assert (Z.testbit a i && Z.testbit m i = false) as Hb
    by (by rewrite <- Z.land_spec, H, Z.bits_0).
  destruct (Z.testbit a i), (Z.testbit m i); done.
Qed.

Lemma land_lor_mask a m : Z.land (Z.lor a m) m = m.
Proof. rewrite Z.land_lor_distr_l, Z.land_diag. apply Z.bits_inj'. intros i Hi.
  rewrite Z.lor_spec, Z.land_spec. by destruct (Z.testbit a i), (Z.testbit m i). Qed.

Lemma lor_mask_idemp a m : Z.lor (Z.lor a m) m = Z.lor a m.
Proof. by rewrite <- Z.lor_assoc, Z.lor_diag. Qed.

Lemma lor_uint w a b : 0 <= w -> is_uint w a -> is_uint w b -> is_uint w (Z.lor a b).
Proof.
  unfold is_uint. intros Hw Ha Hb.
  replace (Z.lor a b) with (Z.lor a b mod 2 ^ w); [apply Z.mod_pos_bound; lia|].
  rewrite <- Z.land_ones, Z.land_lor_distr_l, !Z.land_ones by lia.
  by rewrite !Z.mod_small by lia.
Qed.

(** A value below [2^k] shares no bit with [2^k]. *)
Lemma land_pow2_small a k : 0 <= k -> 0 <= a < 2 ^ k -> Z.land a (2 ^ k) = 0.
Proof.
  intros Hk Ha. apply Z.bits_inj'. intros i Hi. rewrite Z.land_spec, Z.bits_0.
  destruct (decide (i = k)) as [->|Hne].
  - rewrite <- (Z.mod_small a (2 ^ k)) by lia. by rewrite Z.mod_pow2_bits_high by lia.
  - rewrite Z.pow2_bits_false by lia. by rewrite andb_false_r.
Qed.

Lemma le_bytes_app n m v :
  le_bytes (n + m) v = le_bytes n v ++ le_bytes m (v / 2 ^ (8 * Z.of_nat n)).
Proof.
  revert v; induction n as [|n IH]; intros v.
  - cbn [Nat.add le_bytes app]. by rewrite Z.div_1_r.
  - cbn [Nat.add le_bytes app]. rewrite IH. f_equal. f_equal. f_equal.
    replace (8 * Z.of_nat (S n)) with (8 + 8 * Z.of_nat n) by lia.
    rewrite Z.pow_add_r by lia. change (2 ^ 8) with 256. by rewrite Z.div_div by lia.
Qed.

Lemma le_bytes_mod n v : le_bytes n (v mod 2 ^ (8 * Z.of_nat n)) = le_bytes n v.
Proof.
  rewrite <- le_val_le_bytes. rewrite <- (length_le_bytes n v) at 1.
  apply le_bytes_le_val, le_bytes_range.
Qed.

(** ** Rebuilding a map from its iteration *)
Lemma foldl_insert_union {K V} `{Countable K} (l : list (K * V)) (m0 : gmap K V) :
  NoDup l.*1 -> (forall k, k ∈ l.*1 -> m0 !! k = None) ->
  foldl (fun m kv => <[kv.1 := kv.2]> m) m0 l = list_to_map l ∪ m0.
Proof.
  revert m0. induction l as [|[k v] l IH]; intros m0 Hnd Hfresh; cbn.
  - by rewrite (left_id_L ∅ (∪)).
  - apply NoDup_cons in Hnd as [Hk Hnd]. rewrite IH; [|done|].
    + rewrite <- insert_union_l, insert_union_r; [done|]. by apply not_elem_of_list_to_map.
    + intros k' Hk'. rewrite lookup_insert_ne by (intros ->; done).
      apply Hfresh. cbn. by apply elem_of_cons; right.
Qed.

Lemma foldl_insert_list {K V} `{Countable K} (l : list (K * V)) :
  NoDup l.*1 -> foldl (fun m kv => <[kv.1 := kv.2]> m) ∅ l = list_to_map (M := gmap K V) l.
Proof.
  intros Hnd. rewrite foldl_insert_union by (done || (intros; by rewrite lookup_empty)).
  by rewrite (right_id_L ∅ (∪)).
Qed.

Lemma foldl_insert_perm {K V} `{Countable K} (m : gmap K V) l :
  l ≡ₚ map_to_list m -> foldl (fun m kv => <[kv.1 := kv.2]> m) ∅ l = m.
Proof.
  intros Hp. assert (NoDup l.*1) as Hnd by (rewrite Hp; apply NoDup_fst_map_to_list).
  rewrite foldl_insert_list, (list_to_map_proper _ (map_to_list m)) by done.
  apply list_to_map_to_list.
Qed.

Lemma foldl_insert_range `{GoRange} {K V} `{Countable K} (m : gmap K V) :
  foldl (fun m kv => <[kv.1 := kv.2]> m) ∅ (range m) = m.
Proof. apply foldl_insert_perm, range_perm. Qed.

Lemma length_range `{GoRange} {K V} `{Countable K} (m : gmap K V) :
  length (range m) = size m.
Proof. rewrite (range_perm m). apply length_map_to_list. Qed.

Lemma elem_of_range `{GoRange} {K V} `{Countable K} (m : gmap K V) k v :
  (k, v) ∈ range m <-> m !! k = Some v.
Proof. rewrite (range_perm m). apply elem_of_map_to_list. Qed.

Lemma NoDup_range `{GoRange} {K V} `{Countable K} (m : gmap K V) : NoDup (range m).*1.
Proof. rewrite (range_perm m). apply NoDup_fst_map_to_list. Qed.
