(* ===== verification/GoStd.v ===== *)
(** * The Go standard-library functions the server calls

    [strings] (Index, Split, SplitN, Join, HasPrefix, TrimSpace, Fields) and
    [strconv] (Itoa, Atoi, ParseUint, ParseInt), on byte strings. *)

From S2P Require Import Prelude.

Module GoStrings.

(** [strings.HasPrefix]. *)
Fixpoint has_prefix (p s : gostring) : bool :=
  match p, s with
  | [], _ => true
  | a :: p, b :: s => bool_decide (a = b) && has_prefix p s
  | _ :: _, [] => false
  end.

(** [strings.Index]: the offset of the first occurrence of [p], if any. *)
Fixpoint index (p s : gostring) : option nat :=
  if has_prefix p s then Some O
  else match s with
       | [] => None
       | _ :: s => S <$> index p s
       end.

(** [strings.Split(s, sep)] for a one-byte separator; never empty. *)
Fixpoint split (c : Z) (s : gostring) : list gostring :=
  match s with
  | [] => [[]]
  | b :: s =>
      if bool_decide (b = c) then [] :: split c s
      else match split c s with
           | [] => [[b]]
           | w :: ws => (b :: w) :: ws
           end
  end.

(** [strings.SplitN(s, sep, 2)] for a one-byte separator. *)
Fixpoint splitn2 (c : Z) (s : gostring) : gostring * option gostring :=
  match s with
  | [] => ([], None)
  | b :: s =>
      if bool_decide (b = c) then ([], Some s)
      else let '(h, t) := splitn2 c s in (b :: h, t)
  end.

(** [strings.Join] with a one-byte separator. *)
Fixpoint join (c : Z) (ws : list gostring) : gostring :=
  match ws with
  | [] => []
  | [w] => w
  | w :: ws => w ++ c :: join c ws
  end.

(** ASCII white space. *)
Definition is_space (b : Z) : bool :=
  bool_decide (b = 32) || (bool_decide (9 <= b) && bool_decide (b <= 13)).

(** The other runes of [unicode.IsSpace], as the bytes of their encoding.  A lead byte
    never occurs inside the encoding of another rune, so comparing bytes is exact. *)
Definition wide_spaces : list gostring :=
  [[0xC2; 0x85]; [0xC2; 0xA0]; [0xE1; 0x9A; 0x80]; [0xE2; 0x80; 0xA8]; [0xE2; 0x80; 0xA9];
   [0xE2; 0x80; 0xAF]; [0xE2; 0x81; 0x9F]; [0xE3; 0x80; 0x80]] ++
  ((fun k => [0xE2; 0x80; 0x80 + Z.of_nat k]) <$> seq 0 11).

(** The width of the white space [s] begins with, 0 if it begins with none; [tr] turns
    an encoding into the order [s] is read in. *)
Definition space_width (tr : gostring -> gostring) (s : gostring) : nat :=
  match s with
  | [] => O
  | b :: _ =>
      if is_space b then 1%nat
      else match List.find (fun w => has_prefix (tr w) s) wide_spaces with
           | Some w => length w
           | None => O
           end
  end.

(** [skip] bytes of the current space are still to be passed. *)
Fixpoint drop_space (tr : gostring -> gostring) (skip : nat) (s : gostring) : gostring :=
  match s with
  | [] => []
  | _ :: s' =>
      match skip with
      | S k => drop_space tr k s'
      | O => match space_width tr s with S k => drop_space tr k s' | O => s end
      end
  end.

Definition trim_space (s : gostring) : gostring :=
  reverse (drop_space reverse O (reverse (drop_space id O s))).

(** [strings.Fields]: the maximal runs without white space. *)
Fixpoint fields_acc (skip : nat) (cur : gostring) (s : gostring) : list gostring :=
  let flush rest := match cur with [] => rest | _ => reverse cur :: rest end in
  match s with
  | [] => flush []
  | b :: s' =>
      match skip with
      | S k => fields_acc k cur s'
      | O => match space_width id s with
             | S k => flush (fields_acc k [] s')
             | O => fields_acc O (b :: cur) s'
             end
      end
  end.
Definition fields (s : gostring) : list gostring := fields_acc O [] s.

Lemma has_prefix_app p s : has_prefix p (p ++ s) = true.
Proof. induction p; simpl; [done|]. by rewrite bool_decide_eq_true_2. Qed.

Lemma split_nonempty c s : split c s <> [].
Proof. destruct s; simpl; [done|]. case_bool_decide; [done|]. by destruct (split c s). Qed.

Lemma split_no_sep c w : c ∉ w -> split c w = [w].
Proof.
  induction w as [|b w IH]; simpl; [done|]. intros Hn.
  rewrite not_elem_of_cons in Hn. destruct Hn as [Hne Hn].
  rewrite bool_decide_eq_false_2 by done. by rewrite IH.
Qed.

Lemma split_app c w s : c ∉ w -> split c (w ++ c :: s) = w :: split c s.
Proof.
  induction w as [|b w IH]; simpl; intros Hn.
  - by rewrite bool_decide_eq_true_2.
  - rewrite not_elem_of_cons in Hn. destruct Hn as [Hne Hn].
    rewrite bool_decide_eq_false_2 by done. by rewrite IH.
Qed.

(** Splitting undoes joining when no part contains the separator. *)
Lemma split_join c ws :
  ws <> [] -> Forall (fun w => c ∉ w) ws -> split c (join c ws) = ws.
Proof.
  intros Hne Hall. induction Hall as [|w ws Hw Hws IH]; [done|].
  destruct ws as [|w' ws]; cbn [join].
  - by apply split_no_sep.
  - rewrite split_app by done. f_equal. by apply IH.
Qed.

Lemma splitn2_app c k v : c ∉ k -> splitn2 c (k ++ c :: v) = (k, Some v).
Proof.
  induction k as [|b k IH]; simpl; intros Hn.
  - by rewrite bool_decide_eq_true_2.
  - rewrite not_elem_of_cons in Hn. destruct Hn as [Hne Hn].
    rewrite bool_decide_eq_false_2 by done. by rewrite IH.
Qed.

Lemma index_app p w s a :
  head p = Some a -> a ∉ w -> has_prefix p s = true -> index p (w ++ s) = Some (length w).
Proof.
  destruct p as [|a' p]; [done|]. intros [= ->] Hn Hp.
  induction w as [|b w IH]; cbn [app index length].
  - destruct s; [done|]. unfold index. fold index. by rewrite Hp.
  - rewrite not_elem_of_cons in Hn. destruct Hn as [Hne Hn].
    cbn [has_prefix]. rewrite bool_decide_eq_false_2 by done. cbn.
    by rewrite IH.
Qed.

End GoStrings.

Module GoStrconv.

(** Outcome of [strconv.ParseUint]/[ParseInt]: a value, [ErrRange] with the
    clamped value Go still returns, or [ErrSyntax] (value 0). *)
Inductive num : Type := NumOk (z : Z) | NumRange (z : Z) | NumSyntax.

Definition max_u64 : Z := 2 ^ 64 - 1.
Definition is_digit (b : Z) : bool := bool_decide (48 <= b) && bool_decide (b <= 57).

(** The digit loop of [ParseUint(s, 10, 64)]. *)
Fixpoint parse_loop (s : gostring) (n : Z) : num :=
  match s with
  | [] => NumOk n
  | c :: s =>
      if negb (is_digit c) then NumSyntax
      else if bool_decide (max_u64 / 10 + 1 <= n) then NumRange max_u64
      else let n1 := n * 10 + (c - 48) in
           if bool_decide (max_u64 < n1) then NumRange max_u64
           else parse_loop s n1
  end.

Definition parse_uint (s : gostring) : num :=
  match s with [] => NumSyntax | _ => parse_loop s 0 end.

(** [ParseInt(s, 10, 64)], also the value [strconv.Atoi] computes (both of
    Atoi's paths agree with it on base-10 input). *)
Definition parse_int (s : gostring) : num :=
  let '(neg, body) := match s with
    | 43 :: r => (false, r) | 45 :: r => (true, r) | _ => (false, s) end in
  match parse_uint body with
  | NumSyntax => NumSyntax
  | NumOk un | NumRange un =>
      if negb neg && bool_decide (2 ^ 63 <= un) then NumRange (2 ^ 63 - 1)
      else if neg && bool_decide (2 ^ 63 < un) then NumRange (- 2 ^ 63)
      else NumOk (if neg then - un else un)
  end.

(** [n, _ := strconv.Atoi(s)]: the value with the error dropped. *)
Definition atoi_value (s : gostring) : Z :=
  match parse_int s with NumOk z | NumRange z => z | NumSyntax => 0 end.

(** [n, err := strconv.Atoi(s); err == nil]. *)
Definition atoi (s : gostring) : option Z :=
  match parse_int s with NumOk z => Some z | _ => None end.

(** Decimal digits of a non-negative number below [10^fuel]. *)
Fixpoint digits (fuel : nat) (n : Z) : gostring :=
  match fuel with
  | O => []
  | S f => if bool_decide (n < 10) then [48 + n]
           else digits f (n / 10) ++ [48 + n mod 10]
  end.

(** 20 digits hold every 64-bit value. *)
Definition utoa (n : Z) : gostring := digits 20 n.
Definition itoa (n : Z) : gostring :=
  if bool_decide (n < 0) then 45 :: utoa (- n) else utoa n.

Lemma is_digit_spec d : 0 <= d <= 9 -> is_digit (48 + d) = true.
Proof. intros. unfold is_digit. rewrite !bool_decide_eq_true_2 by lia. done. Qed.

Lemma parse_loop_digits f n rest :
  0 <= n < 10 ^ Z.of_nat f -> n <= max_u64 -> (0 < f)%nat ->
  parse_loop (digits f n ++ rest) 0 = parse_loop rest n.
Proof.
  revert n rest. induction f as [|f IH]; intros n rest Hn Hmax Hf; [lia|].
  cbn [digits]. case_bool_decide as Hlt.
  - cbn [app parse_loop]. rewrite is_digit_spec by lia. cbn [negb].
    rewrite bool_decide_eq_false_2 by (by vm_compute).
    cbn zeta. rewrite bool_decide_eq_false_2 by (unfold max_u64; lia).
    f_equal. lia.
  - rewrite Nat2Z.inj_succ, Z.pow_succ_r in Hn by lia.
    assert (0 <= n / 10 < 10 ^ Z.of_nat f).
    { split; [apply Z.div_pos; lia|]. apply Z.div_lt_upper_bound; lia. }
    pose proof (Z.mod_pos_bound n 10 ltac:(lia)).
    pose proof (Z.div_mod n 10 ltac:(lia)).
    rewrite <- app_assoc, IH; [| lia | lia | ].
    + cbn [app parse_loop]. rewrite is_digit_spec by lia. cbn [negb].
      assert (n / 10 <= max_u64 / 10) by (apply Z.div_le_mono; lia).
      rewrite bool_decide_eq_false_2 by lia.
      cbn zeta. rewrite bool_decide_eq_false_2 by lia. f_equal. lia.
    + destruct f; [|lia]. cbn in *. lia.
Qed.

Lemma digits_nonempty f n : (0 < f)%nat -> digits f n <> [].
Proof. destruct f; [lia|]. intros _. cbn. case_bool_decide; [done|]. by destruct (digits f _). Qed.

(** ParseUint reads back what the decimal printer wrote. *)
Lemma parse_uint_utoa n : is_uint 64 n -> parse_uint (utoa n) = NumOk n.
Proof.
  intros [H0 H1]. unfold parse_uint.
  destruct (utoa n) eqn:E; [by apply digits_nonempty in E; [|lia]|].
  rewrite <- E. unfold utoa. rewrite <- (app_nil_r (digits 20 n)).
  rewrite parse_loop_digits; [done| |unfold max_u64; lia|lia].
  split; [lia|]. eapply Z.lt_trans; [apply H1|]. reflexivity.
Qed.

Lemma digits_head f n : (0 < f)%nat -> 0 <= n ->
  exists d r, digits f n = (48 + d) :: r /\ 0 <= d.
Proof.
  revert n; induction f as [|f IH]; intros n Hf Hn; [lia|]. cbn [digits].
  case_bool_decide; [by exists n, []|].
  destruct f.
  - exists (n mod 10), []. pose proof (Z.mod_pos_bound n 10 ltac:(lia)). split; [done|lia].
  - destruct (IH (n / 10)) as (d & r & -> & ?); [lia|apply Z.div_pos; lia|].
    by exists d, (r ++ [48 + n mod 10]).
Qed.

(** Atoi reads back what Itoa wrote, for every [int]. *)
Lemma parse_int_itoa n : - 2 ^ 63 <= n < 2 ^ 63 -> parse_int (itoa n) = NumOk n.
Proof.
  intros Hn. unfold itoa, parse_int. case_bool_decide as Hneg.
  - rewrite parse_uint_utoa by (unfold is_uint; lia). cbn [negb andb].
    rewrite bool_decide_eq_false_2 by lia. f_equal. lia.
  - destruct (digits_head 20 n ltac:(lia) ltac:(lia)) as (d & r & Hd & Hd0).
    assert (parse_uint (utoa n) = NumOk n) as Hp by (apply parse_uint_utoa; unfold is_uint; lia).
    unfold utoa in *. rewrite Hd in *.
    assert ((match 48 + d :: r with
             | 43 :: r0 => (false, r0) | 45 :: r0 => (true, r0) | _ => (false, 48 + d :: r)
             end) = (false, 48 + d :: r)) as ->.
    { remember (48 + d) as z. destruct z as [|p|p]; try done.
      do 6 (destruct p as [p|p|]; try done; try lia). }
    rewrite Hp. cbn [negb andb]. rewrite bool_decide_eq_false_2 by lia. done.
Qed.

Lemma atoi_value_itoa n : - 2 ^ 63 <= n < 2 ^ 63 -> atoi_value (itoa n) = n.
Proof. intros. unfold atoi_value. by rewrite parse_int_itoa. Qed.

(** Printed numbers are made of digits and at most a sign. *)
Lemma digits_chars f n b : 0 <= n -> b ∈ digits f n -> 48 <= b <= 57.
Proof.
  revert n; induction f as [|f IH]; intros n Hn Hb; cbn in Hb; [by apply elem_of_nil in Hb|].
  case_bool_decide.
  - apply list_elem_of_singleton in Hb. lia.
  - apply elem_of_app in Hb as [Hb|Hb].
    + apply (IH (n / 10)); [apply Z.div_pos; lia|done].
    + apply list_elem_of_singleton in Hb. pose proof (Z.mod_pos_bound n 10 ltac:(lia)). lia.
Qed.

Lemma itoa_chars n b : b ∈ itoa n -> b = 45 \/ 48 <= b <= 57.
Proof.
  unfold itoa, utoa. case_bool_decide; [intros [->|Hb]%elem_of_cons; [by left|]|intros Hb];
    right; (eapply digits_chars; [|exact Hb]; lia).
Qed.

Lemma itoa_no_char c n : c <> 45 -> c < 48 \/ 57 < c -> c ∉ itoa n.
Proof. intros ?? Hb%itoa_chars. lia. Qed.

End GoStrconv.
