(* ===== verification/GoNet.v ===== *)
(** * Go's [net] package, as far as the server uses it

    [net.ParseIP] (netip.ParseAddr without a zone, as a 16-byte address), the
    address predicates, printing addresses, and splitting and joining host and port. *)

From S2P Require Import Prelude GoStd.
Import GoStrings GoStrconv.

Module GoNet.

Definition dot : Z := 46.
Definition colon : Z := 58.
Definition percent : Z := 37.

(** ** IPv4 fields ([parseIPv4Fields]) *)

(** [val]: value of the current field, [digits]: digits read in it, [pos]: fields
    finished; the accumulator holds the finished fields in order. *)
Fixpoint ipv4_fields (s : gostring) (val digits : Z) (acc : list Z) : option (list Z) :=
  match s with
  | [] =>
      if bool_decide (digits = 0) then None
      else if bool_decide (len acc < 3) then None
      else Some (acc ++ [val])
  | c :: r =>
      if is_digit c then
        if bool_decide (digits = 1) && bool_decide (val = 0) then None
        else let val := val * 10 + (c - 48) in
             if bool_decide (255 < val) then None else ipv4_fields r val (digits + 1) acc
      else if bool_decide (c = dot) then
        if bool_decide (digits = 0) || bool_decide (r = []) then None
        else if bool_decide (len acc = 3) then None
        else ipv4_fields r 0 0 (acc ++ [val])
      else None
  end.
Definition parse_ipv4 (s : gostring) : option (list Z) := ipv4_fields s 0 0 [].

(** ** IPv6 ([parseIPv6]) *)
Definition hex_digit (c : Z) : option Z :=
  if is_digit c then Some (c - 48)
  else if bool_decide (97 <= c) && bool_decide (c <= 102) then Some (c - 97 + 10)
  else if bool_decide (65 <= c) && bool_decide (c <= 70) then Some (c - 65 + 10)
  else None.

(** One group: its value, its number of digits and the rest; [None] for a fifth
    digit or a value over 16 bits. *)
Fixpoint hex_group (s : gostring) (acc off : Z) : option (Z * Z * gostring) :=
  match s with
  | [] => Some (acc, off, [])
  | c :: r =>
      match hex_digit c with
      | None => Some (acc, off, s)
      | Some d =>
          let acc := Z.shiftl acc 4 + d in
          if bool_decide (3 < off) then None
          else if bool_decide (65535 < acc) then None
          else hex_group r acc (off + 1)
      end
  end.

(** The group loop: [ip] is what has been written, [ell] the position of "::". *)
Fixpoint ipv6_groups (fuel : nat) (s : gostring) (ip : list Z) (ell : option Z)
    : option (gostring * list Z * option Z) :=
  match fuel with
  | O => Some (s, ip, ell)
  | S fuel =>
      match hex_group s 0 0 with
      | None => None
      | Some (acc, off, rest) =>
          if bool_decide (off = 0) then None
          else match rest with
               | [] => Some ([], ip ++ [acc / 256; acc mod 256], ell)
               | c :: r =>
                   if bool_decide (c = dot) then
                     if bool_decide (ell = None) && bool_decide (len ip <> 12) then None
                     else if bool_decide (16 < len ip + 4) then None
                     else match parse_ipv4 s with
                          | None => None
                          | Some fs => Some ([], ip ++ fs, ell)
                          end
                   else
                     let ip := ip ++ [acc / 256; acc mod 256] in
                     if negb (bool_decide (c = colon)) then None
                     else match r with
                          | [] => None
                          | c2 :: r2 =>
                              if bool_decide (c2 = colon) then
                                match ell with
                                | Some _ => None
                                | None =>
                                    match r2 with
                                    | [] => Some ([], ip, Some (len ip))
                                    | _ => ipv6_groups fuel r2 ip (Some (len ip))
                                    end
                                end
                              else ipv6_groups fuel r ip ell
                          end
               end
      end
  end.

(** Expand "::" to the missing zeros. *)
Definition ipv6_expand (r : gostring * list Z * option Z) : option (list Z) :=
  let '(s, ip, ell) := r in
  if bool_decide (s <> []) then None
  else if bool_decide (len ip < 16) then
    match ell with
    | None => None
    | Some k => Some (ztake k ip ++ replicate (16 - length ip) 0 ++ zdrop k ip)
    end
  else if bool_decide (is_Some ell) then None else Some ip.

Definition parse_ipv6 (s : gostring) : option (list Z) :=
  match s with
  | c1 :: c2 :: r =>
      if bool_decide (c1 = colon) && bool_decide (c2 = colon) then
        if bool_decide (r = []) then Some (replicate 16 0)
        else ipv6_groups 8 r [] (Some 0) ≫= ipv6_expand
      else ipv6_groups 8 s [] None ≫= ipv6_expand
  | _ => ipv6_groups 8 s [] None ≫= ipv6_expand
  end.

(** [netip.ParseAddr] looks for the first '.', ':' or '%'; an address with a zone
    is not an [IP]. *)
Fixpoint addr_kind (s : gostring) : option Z :=
  match s with
  | [] => None
  | c :: r => if bool_decide (c = dot) || bool_decide (c = colon) || bool_decide (c = percent)
              then Some c else addr_kind r
  end.

Definition v4_in_v6 (fs : list Z) : list Z := replicate 10 0 ++ [255; 255] ++ fs.

Definition ParseIP (s : gostring) : option (list Z) :=
  match addr_kind s with
  | None => None
  | Some k =>
      if bool_decide (k = dot) then v4_in_v6 <$> parse_ipv4 s
      else if bool_decide (k = colon) then
        if bool_decide (percent ∈ s) then None else parse_ipv6 s
      else None
  end.

(** [ip.To4()] *)
Definition To4 (ip : list Z) : option (list Z) :=
  if bool_decide (take 12 ip = replicate 10 0 ++ [255; 255]) then Some (drop 12 ip) else None.

Definition at_ (ip : list Z) (i : nat) : Z := nth i ip 0.

Definition IsPrivate (ip : list Z) : bool :=
  match To4 ip with
  | Some q =>
      bool_decide (at_ q 0 = 10) ||
      (bool_decide (at_ q 0 = 172) && bool_decide (Z.land (at_ q 1) 0xf0 = 16)) ||
      (bool_decide (at_ q 0 = 192) && bool_decide (at_ q 1 = 168))
  | None => bool_decide (len ip = 16) && bool_decide (Z.land (at_ ip 0) 0xfe = 0xfc)
  end.

Definition IsLoopback (ip : list Z) : bool :=
  match To4 ip with
  | Some q => bool_decide (at_ q 0 = 127)
  | None => bool_decide (ip = replicate 15 0 ++ [1])
  end.

Definition IsLinkLocalUnicast (ip : list Z) : bool :=
  match To4 ip with
  | Some q => bool_decide (at_ q 0 = 169) && bool_decide (at_ q 1 = 254)
  | None => bool_decide (len ip = 16) && bool_decide (at_ ip 0 = 0xfe) &&
            bool_decide (Z.land (at_ ip 1) 0xc0 = 0x80)
  end.

(** [cgnatRange.Contains], 100.64.0.0/10. *)
Definition cgnat_contains (ip : list Z) : bool :=
  match To4 ip with
  | Some q => bool_decide (at_ q 0 = 100) && bool_decide (Z.land (at_ q 1) 0xc0 = 64)
  | None => false
  end.

(** ** Host and port ([net.SplitHostPort]) *)

(** Index of the last occurrence of [c]. *)
Fixpoint last_index (c : Z) (s : gostring) : option nat :=
  match s with
  | [] => None
  | x :: r => match last_index c r with
              | Some i => Some (S i)
              | None => if bool_decide (x = c) then Some O else None
              end
  end.
Fixpoint first_index (c : Z) (s : gostring) : option nat :=
  match s with
  | [] => None
  | x :: r => if bool_decide (x = c) then Some O else S <$> first_index c r
  end.

Definition lbracket : Z := 91.
Definition rbracket : Z := 93.

(** [None] is a non-nil error. *)
Definition SplitHostPort (hp : gostring) : option (gostring * gostring) :=
  match last_index colon hp with
  | None => None
  | Some i =>
      let finish host j k :=
        if bool_decide (lbracket ∈ drop j hp) then None
        else if bool_decide (rbracket ∈ drop k hp) then None
        else Some (host, drop (S i) hp) in
      match hp with
      | c :: _ =>
          if bool_decide (c = lbracket) then
            match first_index rbracket hp with
            | None => None
            | Some e =>
                if bool_decide (S e = length hp) then None
                else if bool_decide (S e = i) then finish (drop 1 (take e hp)) 1%nat (S e)
                else None
            end
          else
            let host := take i hp in
            if bool_decide (colon ∈ host) then None else finish host O O
      | [] => None
      end
  end.

(** [net.JoinHostPort] *)
Definition JoinHostPort (host port : gostring) : gostring :=
  if bool_decide (colon ∈ host) then lbracket :: host ++ rbracket :: colon :: port
  else host ++ colon :: port.

(** ** Printing addresses ([IP.String], [TCPAddr.String])

    Of the addresses only the 16-byte form occurs: it is what [ParseIP] returns. *)
Fixpoint hex_digits (fuel : nat) (n : Z) : gostring :=
  let digit d := if bool_decide (d < 10) then 48 + d else 87 + d in
  match fuel with
  | O => []
  | S f => if bool_decide (n < 16) then [digit n] else hex_digits f (n / 16) ++ [digit (n mod 16)]
  end.

Definition groups (ip : list Z) : list Z :=
  (fun i => at_ ip (2 * i) * 256 + at_ ip (2 * i + 1)) <$> seq 0 8.

Fixpoint zero_run (gs : list Z) : nat :=
  match gs with
  | g :: gs => if bool_decide (g = 0) then S (zero_run gs) else O
  | [] => O
  end.

(** Start and end of the first longest run of at least two zero groups. *)
Definition longest_zeros (gs : list Z) : option (nat * nat) :=
  foldl (fun best i =>
    let l := zero_run (drop i gs) in
    let prev := match best with Some (a, b) => (b - a)%nat | None => O end in
    if bool_decide (2 <= l)%nat && bool_decide (prev < l)%nat then Some (i, (i + l)%nat) else best)
    None (seq 0 8).

Definition hex_groups (gs : list Z) : gostring := join colon (hex_digits 4 <$> gs).

Definition string6 (ip : list Z) : gostring :=
  let gs := groups ip in
  match longest_zeros gs with
  | Some (a, b) => hex_groups (take a gs) ++ [colon; colon] ++ hex_groups (drop b gs)
  | None => hex_groups gs
  end.

Definition IP_String (ip : list Z) : gostring :=
  match To4 ip with
  | Some q => join dot (itoa <$> q)
  | None => string6 ip
  end.

Record TCPAddr := mkTCPAddr { ta_IP : list Z; ta_Port : Z }.
Definition TCPAddr_String (a : TCPAddr) : gostring :=
  JoinHostPort (IP_String (ta_IP a)) (itoa (ta_Port a)).

(** Splitting undoes joining. *)
Lemma last_index_app c s r : c ∉ r -> last_index c (s ++ c :: r) = Some (length s).
Proof.
  intros Hr. induction s as [|x s IH]; cbn [app last_index length]; [|by rewrite IH].
  assert (last_index c r = None) as ->; [|by rewrite bool_decide_eq_true_2].
  induction r as [|x r IHr]; [done|]. rewrite not_elem_of_cons in Hr. destruct Hr as [Hx Hr].
  cbn. rewrite IHr by done. by rewrite bool_decide_eq_false_2.
Qed.

Lemma first_index_app c s r : c ∉ s -> first_index c (s ++ c :: r) = Some (length s).
Proof.
  intros Hs. induction s as [|x s IH]; cbn [app first_index length]; [by rewrite bool_decide_eq_true_2|].
  rewrite not_elem_of_cons in Hs. destruct Hs as [Hx Hs].
  rewrite bool_decide_eq_false_2 by done. by rewrite IH.
Qed.

Lemma drop_past {A} (c : A) s r : drop (S (length s)) (s ++ c :: r) = r.
Proof. induction s; [done|]. cbn in *. done. Qed.

Lemma split_join_host_port h p :
  lbracket ∉ h -> rbracket ∉ h -> lbracket ∉ p -> rbracket ∉ p -> colon ∉ p ->
  SplitHostPort (JoinHostPort h p) = Some (h, p).
Proof.
  intros Hl Hr Hpl Hpr Hpc. unfold JoinHostPort. case_bool_decide as Hc.
  - set (hp := lbracket :: h ++ rbracket :: colon :: p).
    assert (last_index colon hp = Some (S (S (length h)))) as Hi.
    { replace hp with ((lbracket :: h ++ [rbracket]) ++ colon :: p) by (subst hp; cbn; by rewrite <- app_assoc).
      rewrite last_index_app by done. cbn. rewrite length_app. cbn. do 2 f_equal. lia. }
    assert (first_index rbracket hp = Some (S (length h))) as He.
    { apply (first_index_app rbracket (lbracket :: h)). by rewrite not_elem_of_cons. }
    assert (drop 1 hp = h ++ rbracket :: colon :: p) as Hd1 by done.
    assert (drop (S (S (length h))) hp = colon :: p) as Hd2.
    { exact (drop_past rbracket (lbracket :: h) (colon :: p)). }
    assert (drop (S (S (S (length h)))) hp = p) as Hd3.
    { replace (S (S (S (length h)))) with (1 + S (S (length h)))%nat by lia.
      by rewrite <- drop_drop, Hd2 || (rewrite Nat.add_comm, <- drop_drop, Hd2). }
    assert (drop 1 (take (S (length h)) hp) = h) as Ht by (subst hp; cbn; by rewrite take_app_length).
    assert (length hp = length h + length p + 3)%nat as Hlen
      by (subst hp; cbn; rewrite length_app; cbn; lia).
    unfold SplitHostPort. rewrite Hi, He, Ht, Hd1, Hd2, Hd3, Hlen. cbn [hp].
    rewrite (bool_decide_eq_true_2 (lbracket = lbracket)) by done.
    rewrite bool_decide_eq_false_2 by lia. rewrite bool_decide_eq_true_2 by done.
    rewrite (bool_decide_eq_false_2 (lbracket ∈ _)) by (rewrite not_elem_of_app, !not_elem_of_cons; done).
    by rewrite (bool_decide_eq_false_2 (rbracket ∈ _)) by (by rewrite not_elem_of_cons).
  - unfold SplitHostPort. rewrite last_index_app by done.
    assert (forall x, x ∉ h -> x <> colon -> x ∉ p -> x ∉ h ++ colon :: p) as Hno.
    { intros x ???. by rewrite not_elem_of_app, not_elem_of_cons. }
    pose proof (drop_past colon h p) as Hd.
    assert (take (length h) (h ++ colon :: p) = h) as Ht by apply take_app_length.
    destruct (h ++ colon :: p) as [|c r] eqn:E; [by destruct h|].
    rewrite (bool_decide_eq_false_2 (c = lbracket)).
    + rewrite Ht, Hd. cbn [drop]. rewrite (bool_decide_eq_false_2 (colon ∈ h)) by done.
      by rewrite !bool_decide_eq_false_2 by (by apply Hno).
    + intros ->. apply (Hno lbracket); [done|done|done|]. apply list_elem_of_here.
Qed.

(** Printed addresses contain no brackets. *)
Definition addr_byte (b : Z) : Prop := b = dot \/ b = colon \/ b = 45 \/ 48 <= b < lbracket \/ rbracket < b.

Lemma hex_digits_bytes f n : 0 <= n -> Forall addr_byte (hex_digits f n).
Proof.
  unfold addr_byte, lbracket, rbracket.
  revert n. induction f as [|f IH]; intros n Hn; [done|]. cbn [hex_digits]. case_bool_decide.
  - apply Forall_singleton. case_bool_decide; lia.
  - apply Forall_app. split; [apply IH, Z.div_pos; lia|]. apply Forall_singleton.
    pose proof (Z.mod_pos_bound n 16). case_bool_decide; lia.
Qed.

Lemma join_Forall (P : Z -> Prop) c ws : P c -> Forall (Forall P) ws -> Forall P (join c ws).
Proof.
  intros Hc. induction 1 as [|w ws Hw Hws IH]; [done|]. cbn [join].
  destruct ws; [done|]. apply Forall_app. split; [done|]. by apply Forall_cons.
Qed.

Lemma itoa_bytes n : Forall addr_byte (itoa n).
Proof. apply Forall_forall. intros b Hb%itoa_chars. unfold addr_byte, lbracket. lia. Qed.

Lemma IP_String_bytes ip : Forall is_byte ip -> Forall addr_byte (IP_String ip).
Proof.
  intros Hb. unfold IP_String. destruct (To4 ip) as [q|].
  - apply join_Forall; [by left|]. apply Forall_fmap, Forall_forall. intros x _. apply itoa_bytes.
  - assert (forall i, 0 <= at_ ip i) as Hat.
    { intros i. unfold at_. destruct (nth_in_or_default i ip 0) as [Hin| ->]; [|done].
      apply list_elem_of_In in Hin. rewrite Forall_forall in Hb. apply Hb in Hin. apply Hin. }
    assert (forall gs, Forall (fun g => 0 <= g) gs -> Forall addr_byte (hex_groups gs)) as Hg.
    { intros gs Hgs. apply join_Forall; [right; by left|]. apply Forall_fmap.
      eapply Forall_impl; [done|]. intros g Hg. by apply hex_digits_bytes. }
    assert (Forall (fun g => 0 <= g) (groups ip)) as Hgs.
    { apply Forall_fmap, Forall_forall. intros i _. cbn. pose proof (Hat (2 * i)%nat).
      pose proof (Hat (2 * i + 1)%nat). unfold compose. cbn in *. lia. }
    unfold string6. destruct (longest_zeros (groups ip)) as [[a b]|]; [|by apply Hg].
    rewrite !Forall_app. split_and!; [by apply Hg, Forall_take| |by apply Hg, Forall_drop].
    by repeat (apply Forall_cons_2; [right; by left|]).
Qed.

Lemma addr_byte_brackets s : Forall addr_byte s -> (lbracket ∉ s) /\ rbracket ∉ s.
Proof.
  rewrite Forall_forall. intros Hs. unfold addr_byte, lbracket, rbracket, dot, colon in *.
  split; intros Hin; apply Hs in Hin; lia.
Qed.

(** Host and port are read back from a printed address. *)
Lemma split_TCPAddr a :
  Forall is_byte (ta_IP a) ->
  SplitHostPort (TCPAddr_String a) = Some (IP_String (ta_IP a), itoa (ta_Port a)).
Proof.
  intros Hb. destruct (addr_byte_brackets _ (IP_String_bytes _ Hb)) as [Hl Hr].
  destruct (addr_byte_brackets _ (itoa_bytes (ta_Port a))) as [Hpl Hpr].
  apply split_join_host_port; try done. apply itoa_no_char; unfold colon; lia.
Qed.

(** Reference evaluations. *)
Example parse_v4 : ParseIP (str "192.168.1.20") = Some (v4_in_v6 [192; 168; 1; 20]).
Proof. vm_compute. reflexivity. Qed.
Example parse_v4_leading_zero : ParseIP (str "192.168.01.20") = None.
Proof. vm_compute. reflexivity. Qed.
Example parse_v6_mixed : ParseIP (str "::ffff:10.0.0.1") = Some (v4_in_v6 [10; 0; 0; 1]).
Proof. vm_compute. reflexivity. Qed.
Example parse_v6_short :
  ParseIP (str "fe80::1:2") = Some ([254; 128] ++ replicate 10 0 ++ [0; 1; 0; 2]).
Proof. vm_compute. reflexivity. Qed.
Example parse_v6_bad : ParseIP (str "1:2:3:4:5:6:7") = None.
Proof. vm_compute. reflexivity. Qed.
Example split_v4 : SplitHostPort (str "1.2.3.4:5") = Some (str "1.2.3.4", str "5").
Proof. vm_compute. reflexivity. Qed.
Example print_v6 :
  (fun s => IP_String <$> ParseIP s) <$> [str "FE80:0:0:1:0:0:0:2"; str "::1"; str "1:0:2::"; str "::ffff:1.2.3.4"] =
  [Some (str "fe80:0:0:1::2"); Some (str "::1"); Some (str "1:0:2::"); Some (str "1.2.3.4")].
Proof. vm_compute. reflexivity. Qed.
Example split_v6 : SplitHostPort (str "[::1]:443") = Some (str "::1", str "443").
Proof. vm_compute. reflexivity. Qed.

End GoNet.
