(* ===== verification/Settings.v ===== *)
(** * Wire settings (nextendo-nex/settings.go)

    The version-dependent parameters that drive the encoding.  The two timeouts
    are whole numbers of seconds in every profile. *)

From S2P Require Import Prelude.

Record Settings := mkSettings {
  NexVersion : Z;
  ClientVersion : Z;
  StructHeader : bool;
  PIDSize : Z;
  AccessKey : gostring;
  PrudpVersion : Z;
  PrudpMinorVersion : Z;
  SupportedFunctions : Z;
  Transport : Z;
  Compression : Z;
  Encryption : Z;
  ResendTimeout : Z;
  ResendLimit : Z;
  PingTimeout : Z;
  FragmentSize : Z;
  MaxSubstreamID : Z;
  KerberosKeySize : Z;
  KerberosKeyDerivation : Z;
  KerberosTicketVersion : Z
}.

Definition TransportWebSocket : Z := 2.
Definition CompressionNone : Z := 0.
Definition EncryptionNone : Z := 0.
Definition KeyDerivationOld : Z := 0.
Definition KeyDerivationNew : Z := 1.

(** The Switch (NEX 4) profile; fields the Go literal omits are zero. *)
Definition NewSwitchSettings (accessKey : gostring) (nexVersion : Z) : Settings :=
  {| NexVersion := nexVersion; ClientVersion := 0; StructHeader := true; PIDSize := 8;
     AccessKey := accessKey; PrudpVersion := 2; PrudpMinorVersion := 5;
     SupportedFunctions := 0; Transport := TransportWebSocket;
     Compression := CompressionNone; Encryption := EncryptionNone;
     ResendTimeout := 5; ResendLimit := 0; PingTimeout := 5; FragmentSize := 1300;
     MaxSubstreamID := 0; KerberosKeySize := 32;
     KerberosKeyDerivation := KeyDerivationNew; KerberosTicketVersion := 1 |}.

(** The profile Mario Kart 8 Deluxe runs with (server/main.go). *)
Definition mk8_settings : Settings := NewSwitchSettings (str "09c1c475") 40000.
