(* ===== verification/Stream.v ===== *)
(** * Little-endian streams (nextendo-nex/stream.go)

    A [StreamOut] method is modelled by the bytes it appends to the buffer; a
    [StreamIn] method by a state transformer on the unread bytes and the sticky
    error flag.  [decodes rd bs a] is the contract a reader has with its writer:
    from any error-free stream that starts with [bs], [rd] returns [a], consumes
    exactly [bs] and raises no error. *)

From S2P Require Import Prelude Settings.

Module StreamOut.

Definition U8 (v : Z) : bytes := le_bytes 1 v.
Definition U16 (v : Z) : bytes := le_bytes 2 v.
Definition U32 (v : Z) : bytes := le_bytes 4 v.
Definition U64 (v : Z) : bytes := le_bytes 8 v.
Definition S8 (v : Z) : bytes := U8 (u8 v).
Definition S16 (v : Z) : bytes := U16 (u16 v).
Definition S32 (v : Z) : bytes := U32 (u32 v).
Definition S64 (v : Z) : bytes := U64 (u64 v).

(** A float is represented by its IEEE-754 bit pattern. *)
Definition Float (bits : Z) : bytes := U32 bits.
Definition Double (bits : Z) : bytes := U64 bits.

Definition Bool (v : bool) : bytes := if v then U8 1 else U8 0.

Definition PID (s : Settings) (v : Z) : bytes :=
  if bool_decide (PIDSize s = 8) then U64 v else U32 (u32 v).

Definition GoString (x : gostring) : bytes :=
  let data := x ++ [0] in U16 (u16 (len data)) ++ data.

Definition Buffer (b : bytes) : bytes := U32 (u32 (len b)) ++ b.
Definition QBuffer (b : bytes) : bytes := U16 (u16 (len b)) ++ b.
Definition Result (code : Z) : bytes := U32 code.
Definition DateTime (v : Z) : bytes := U64 v.

Definition WriteList {A} (l : list A) (f : A -> bytes) : bytes :=
  U32 (u32 (len l)) ++ concat (f <$> l).

Definition WriteMap {K V} `{Countable K} `{GoRange} (m : gmap K V)
    (kf : K -> bytes) (vf : V -> bytes) : bytes :=
  U32 (u32 (Z.of_nat (size m))) ++ concat ((fun kv => kf kv.1 ++ vf kv.2) <$> range m).

End StreamOut.

Arguments StreamOut.U8 : simpl never. Arguments StreamOut.U16 : simpl never.
Arguments StreamOut.U32 : simpl never. Arguments StreamOut.U64 : simpl never.
Arguments StreamOut.S64 : simpl never. Arguments StreamOut.Double : simpl never.
Arguments StreamOut.Bool : simpl never. Arguments StreamOut.PID : simpl never.
Arguments StreamOut.GoString : simpl never. Arguments StreamOut.Buffer : simpl never.
Arguments StreamOut.QBuffer : simpl never. Arguments StreamOut.DateTime : simpl never.
Arguments StreamOut.WriteList : simpl never. Arguments StreamOut.WriteMap : simpl never.

Lemma len_U8 v : len (StreamOut.U8 v) = 1.
Proof. apply len_le_bytes. Qed.
Lemma len_U16 v : len (StreamOut.U16 v) = 2.
Proof. apply len_le_bytes. Qed.
Lemma len_U32 v : len (StreamOut.U32 v) = 4.
Proof. apply len_le_bytes. Qed.
Lemma len_U64 v : len (StreamOut.U64 v) = 8.
Proof. apply len_le_bytes. Qed.
Lemma len_S64 v : len (StreamOut.S64 v) = 8.
Proof. apply len_le_bytes. Qed.
Lemma len_Double v : len (StreamOut.Double v) = 8.
Proof. apply len_le_bytes. Qed.
Lemma len_DateTime v : len (StreamOut.DateTime v) = 8.
Proof. apply len_le_bytes. Qed.
Lemma len_Bool v : len (StreamOut.Bool v) = 1.
Proof. by destruct v. Qed.
Lemma len_PID s v : len (StreamOut.PID s v) = if bool_decide (PIDSize s = 8) then 8 else 4.
Proof. unfold StreamOut.PID. case_bool_decide; apply len_le_bytes. Qed.
Lemma len_concat_const {A} (f : A -> bytes) l n :
  (forall a, len (f a) = n) -> len (concat (f <$> l)) = n * len l.
Proof.
  intros Hf. induction l as [|a l IH]; cbn; autorewrite with golen; [lia|]. rewrite Hf, IH. lia.
Qed.
Lemma len_WriteList_U32 l : len (StreamOut.WriteList l StreamOut.U32) = 4 + 4 * len l.
Proof.
  unfold StreamOut.WriteList. rewrite len_app, len_U32.
  by rewrite (len_concat_const StreamOut.U32 l 4) by apply len_U32.
Qed.
Lemma len_GoString x : len (StreamOut.GoString x) = 3 + len x.
Proof. unfold StreamOut.GoString. autorewrite with golen. rewrite len_U16. lia. Qed.
Lemma len_Buffer b : len (StreamOut.Buffer b) = 4 + len b.
Proof. unfold StreamOut.Buffer. by rewrite len_app, len_U32. Qed.
Lemma len_QBuffer b : len (StreamOut.QBuffer b) = 2 + len b.
Proof. unfold StreamOut.QBuffer. by rewrite len_app, len_U16. Qed.
#[export] Hint Rewrite len_U8 len_U16 len_U32 len_U64 len_S64 len_Double len_DateTime
  len_Bool len_PID len_WriteList_U32 len_GoString len_Buffer len_QBuffer : golen.

(** The unread bytes [data[pos:]] and the error flag ([err != nil]). *)
Record StreamIn := mkStreamIn { si_rest : bytes; si_err : bool }.
Definition NewStreamIn (data : bytes) : StreamIn := mkStreamIn data false.

(** ** The reader monad *)
Definition reader (A : Type) : Type := StreamIn -> A * StreamIn.
Definition rret {A} (a : A) : reader A := fun s => (a, s).
Definition rbind {A B} (r : reader A) (k : A -> reader B) : reader B :=
  fun s => let '(a, s') := r s in k a s'.
Declare Scope reader_scope.
Delimit Scope reader_scope with reader.
Notation "x <-- r ;; k" := (rbind r (fun x => k))
  (at level 90, r at next level, right associativity) : reader_scope.

Module StreamInOps.
Local Open Scope reader_scope.

Definition EOF (s : StreamIn) : bool := bool_decide (si_rest s = []).
Definition Remaining (s : StreamIn) : Z := len (si_rest s).

Definition fail_stream (s : StreamIn) : StreamIn := mkStreamIn (si_rest s) true.

(** [Read(n)]: nil (here the empty list) and the error flag on underflow; a
    zero-length read never raises the error. *)
Definition Read (n : Z) : reader bytes := fun s =>
  if si_err s || bool_decide (n < 0) || bool_decide (len (si_rest s) < n)
  then ([], if negb (si_err s) && bool_decide (n <> 0) then fail_stream s else s)
  else (ztake n (si_rest s), mkStreamIn (zdrop n (si_rest s)) (si_err s)).

Definition ReadAll : reader bytes := fun s => Read (Remaining s) s.

(** The common body of U8/U16/U32/U64. *)
Definition get_le (n : Z) : reader Z :=
  b <-- Read n ;; rret (if bool_decide (len b < n) then 0 else le_val b).

Definition U8 : reader Z := get_le 1.
Definition U16 : reader Z := get_le 2.
Definition U32 : reader Z := get_le 4.
Definition U64 : reader Z := get_le 8.
Definition S8 : reader Z := v <-- U8 ;; rret (sint 8 v).
Definition S16 : reader Z := v <-- U16 ;; rret (sint 16 v).
Definition S32 : reader Z := v <-- U32 ;; rret (sint 32 v).
Definition S64 : reader Z := v <-- U64 ;; rret (sint 64 v).
Definition Float : reader Z := U32.
Definition Double : reader Z := U64.
Definition Bool : reader bool := v <-- U8 ;; rret (bool_decide (v <> 0)).

Definition PID (s : Settings) : reader Z :=
  if bool_decide (PIDSize s = 8) then U64 else U32.

(** Drop one trailing null byte. *)
Definition strip_null (b : bytes) : gostring :=
  if bool_decide (last b = Some 0) then take (length b - 1) b else b.

Definition GoString : reader gostring :=
  length <-- U16 ;;
  if bool_decide (length = 0) then rret []
  else b <-- Read length ;;
       rret (if bool_decide (len b < length) then [] else strip_null b).

Definition Buffer : reader bytes := n <-- U32 ;; Read n.
Definition QBuffer : reader bytes := n <-- U16 ;; Read n.
Definition Result : reader Z := U32.
Definition DateTime : reader Z := U64.

(** A fresh stream over a length-prefixed blob: it has its own error flag. *)
Definition Substream : reader StreamIn := b <-- Buffer ;; rret (NewStreamIn b).

Fixpoint read_n {A} (n : nat) (f : reader A) : reader (list A) :=
  match n with
  | O => rret []
  | S n => x <-- f ;; xs <-- read_n n f ;; rret (x :: xs)
  end.

Definition ReadList {A} (f : reader A) : reader (list A) :=
  n <-- U32 ;; fun s =>
  if bool_decide (n < 0) || bool_decide (Remaining s < n) then ([], fail_stream s)
  else read_n (Z.to_nat n) f s.

(** [ReadMap]: [None] is the nil map of the error path. *)
Definition ReadMap {K V} `{Countable K} (kf : reader K) (vf : reader V)
    : reader (option (gmap K V)) :=
  n <-- U32 ;; fun s =>
  if bool_decide (n < 0) || bool_decide (Remaining s < n) then (None, fail_stream s)
  else (kvs <-- read_n (Z.to_nat n) (k <-- kf ;; v <-- vf ;; rret (k, v)) ;;
        rret (Some (foldl (fun m kv => <[kv.1 := kv.2]> m) ∅ kvs))) s.

End StreamInOps.

Arguments StreamInOps.U8 : simpl never. Arguments StreamInOps.U16 : simpl never.
Arguments StreamInOps.U32 : simpl never. Arguments StreamInOps.U64 : simpl never.
Arguments StreamInOps.S64 : simpl never. Arguments StreamInOps.S32 : simpl never.
Arguments StreamInOps.Double : simpl never. Arguments StreamInOps.Bool : simpl never.
Arguments StreamInOps.PID : simpl never. Arguments StreamInOps.GoString : simpl never.
Arguments StreamInOps.Buffer : simpl never. Arguments StreamInOps.QBuffer : simpl never.
Arguments StreamInOps.DateTime : simpl never. Arguments StreamInOps.ReadList : simpl never.
Arguments StreamInOps.ReadMap : simpl never. Arguments StreamInOps.Read : simpl never.
Arguments StreamInOps.ReadAll : simpl never. Arguments StreamInOps.Substream : simpl never.

(** ** The reader/writer contract *)
Definition decodes {A} (rd : reader A) (bs : bytes) (a : A) : Prop :=
  forall rest, rd (NewStreamIn (bs ++ rest)) = (a, NewStreamIn rest).

Lemma decodes_ret {A} (a : A) : decodes (rret a) [] a.
Proof. done. Qed.

Lemma decodes_mono {A} (rd : reader A) bs a rest :
  decodes rd bs a -> (rd (NewStreamIn (bs ++ rest))).1 = a.
Proof. intros H. by rewrite H. Qed.

Lemma decodes_bind {A B} (r : reader A) (k : A -> reader B) b1 b2 a b :
  decodes r b1 a -> decodes (k a) b2 b -> decodes (rbind r k) (b1 ++ b2) b.
Proof.
  intros H1 H2 rest. unfold rbind. rewrite <- app_assoc, H1. apply H2.
Qed.

Lemma decodes_bind_ret {A B} (r : reader A) (f : A -> B) bs a :
  decodes r bs a -> decodes (rbind r (fun x => rret (f x))) bs (f a).
Proof. intros H rest. unfold rbind. by rewrite H. Qed.

Lemma decodes_bind_ret_eq {A B} (r : reader A) (f : A -> B) bs a b :
  decodes r bs a -> f a = b -> decodes (rbind r (fun x => rret (f x))) bs b.
Proof. intros H <-. by apply decodes_bind_ret. Qed.

Lemma decodes_eq {A} (rd : reader A) bs bs' a a' :
  decodes rd bs a -> bs = bs' -> a = a' -> decodes rd bs' a'.
Proof. by intros H -> ->. Qed.

Import StreamInOps.

Lemma decodes_Read n bs : len bs = n -> decodes (Read n) bs bs.
Proof.
  intros Hn rest. unfold Read, NewStreamIn; cbn [si_err si_rest orb].
  pose proof (len_nonneg bs). pose proof (len_nonneg rest).
  rewrite len_app. rewrite !bool_decide_eq_false_2 by lia. cbn [orb].
  by rewrite ztake_app, zdrop_app by done.
Qed.

Lemma decodes_get_le n v :
  is_uint (8 * Z.of_nat n) v -> decodes (get_le (Z.of_nat n)) (le_bytes n v) v.
Proof.
  intros Hv rest. unfold get_le, rbind, rret.
  rewrite decodes_Read by apply len_le_bytes.
  rewrite len_le_bytes, bool_decide_eq_false_2 by lia. by rewrite le_val_small.
Qed.

Lemma decodes_U8 v : is_uint 8 v -> decodes U8 (StreamOut.U8 v) v.
Proof. apply (decodes_get_le 1). Qed.
Lemma decodes_U16 v : is_uint 16 v -> decodes U16 (StreamOut.U16 v) v.
Proof. apply (decodes_get_le 2). Qed.
Lemma decodes_U32 v : is_uint 32 v -> decodes U32 (StreamOut.U32 v) v.
Proof. apply (decodes_get_le 4). Qed.
Lemma decodes_U64 v : is_uint 64 v -> decodes U64 (StreamOut.U64 v) v.
Proof. apply (decodes_get_le 8). Qed.

Lemma decodes_Bool v : decodes Bool (StreamOut.Bool v) v.
Proof.
  destruct v; (eapply decodes_eq; [apply decodes_bind_ret, decodes_U8|done|]);
  try done; by unfold is_uint.
Qed.

(** [v] fits the principal-id width of the settings. *)
Definition is_pid (s : Settings) (v : Z) : Prop :=
  is_uint (if bool_decide (PIDSize s = 8) then 64 else 32) v.

Lemma decodes_PID s v : is_pid s v -> decodes (PID s) (StreamOut.PID s v) v.
Proof.
  unfold is_pid, PID, StreamOut.PID. case_bool_decide; intros Hv.
  - by apply decodes_U64.
  - unfold u32. rewrite Z.mod_small by done. by apply decodes_U32.
Qed.

Lemma sint_uint w v :
  0 < w -> - 2 ^ (w - 1) <= v < 2 ^ (w - 1) -> sint w (v mod 2 ^ w) = v.
Proof.
  intros Hw Hv. assert (2 ^ w = 2 * 2 ^ (w - 1)) as E.
  { rewrite <- Z.pow_succ_r by lia. f_equal. lia. }
  unfold sint. rewrite Z.mod_mod by lia.
  destruct (Z_lt_le_dec v 0).
  - replace (v mod 2 ^ w) with (v + 2 ^ w).
    + rewrite bool_decide_eq_false_2; lia.
    + symmetry. rewrite <- (Z.mod_small (v + 2 ^ w) (2 ^ w)) by lia.
      replace (v + 2 ^ w) with (v + 1 * 2 ^ w) by lia. by rewrite Z.mod_add by lia.
  - rewrite Z.mod_small by lia. rewrite bool_decide_eq_true_2; lia.
Qed.

Lemma u64_uint v : is_uint 64 (u64 v).
Proof. apply Z.mod_pos_bound. lia. Qed.
Lemma u32_uint v : is_uint 32 (u32 v).
Proof. apply Z.mod_pos_bound. lia. Qed.
Lemma u16_uint v : is_uint 16 (u16 v).
Proof. apply Z.mod_pos_bound. lia. Qed.
Lemma u8_uint v : is_uint 8 (u8 v).
Proof. apply Z.mod_pos_bound. lia. Qed.

Lemma decodes_S64 v : - 2 ^ 63 <= v < 2 ^ 63 -> decodes S64 (StreamOut.S64 v) v.
Proof.
  intros Hv. unfold S64, StreamOut.S64.
  eapply decodes_eq; [apply decodes_bind_ret, decodes_U64, u64_uint|done|].
  apply (sint_uint 64); lia.
Qed.

(** The u16 length prefix counts the terminator, so a string round-trips
    exactly when it has at most 65534 bytes. *)
Definition str_ok (x : gostring) : Prop := len x < 65535.

Lemma strip_null_snoc x : strip_null (x ++ [0]) = x.
Proof.
  unfold strip_null. rewrite last_snoc, bool_decide_eq_true_2 by done.
  rewrite length_app. cbn [length]. replace (length x + 1 - 1)%nat with (length x) by lia.
  apply take_app_length.
Qed.

Lemma decodes_GoString x : str_ok x -> decodes GoString (StreamOut.GoString x) x.
Proof.
  intros Hx. unfold StreamOut.GoString, str_ok in *. pose proof (len_nonneg x).
  assert (u16 (len (x ++ [0])) = len (x ++ [0])) as ->.
  { apply Z.mod_small. autorewrite with golen. lia. }
  assert (0 < len (x ++ [0])) by (autorewrite with golen; lia).
  eapply decodes_bind; [apply decodes_U16; unfold is_uint; autorewrite with golen in *; lia|].
  rewrite bool_decide_eq_false_2 by lia.
  intros rest. unfold rbind, rret. rewrite decodes_Read by done.
  rewrite bool_decide_eq_false_2 by lia. by rewrite strip_null_snoc.
Qed.

Lemma decodes_Buffer b : len b < 2 ^ 32 -> decodes Buffer (StreamOut.Buffer b) b.
Proof.
  intros Hb. unfold Buffer, StreamOut.Buffer. pose proof (len_nonneg b).
  unfold u32. rewrite Z.mod_small by lia.
  eapply decodes_bind; [apply decodes_U32; unfold is_uint; lia|]. by apply decodes_Read.
Qed.

Lemma decodes_QBuffer b : len b < 2 ^ 16 -> decodes QBuffer (StreamOut.QBuffer b) b.
Proof.
  intros Hb. unfold QBuffer, StreamOut.QBuffer. pose proof (len_nonneg b).
  unfold u16. rewrite Z.mod_small by lia.
  eapply decodes_bind; [apply decodes_U16; unfold is_uint; lia|]. by apply decodes_Read.
Qed.

Lemma decodes_read_n {A} (f : reader A) (w : A -> bytes) l :
  Forall (fun a => decodes f (w a) a) l -> decodes (read_n (length l) f) (concat (w <$> l)) l.
Proof.
  induction 1 as [|a l Ha Hl IH]; cbn; [done|].
  eapply decodes_bind; [done|]. by apply decodes_bind_ret.
Qed.

Lemma concat_len_ge {A} (w : A -> bytes) l :
  Forall (fun a => 1 <= len (w a)) l -> len l <= len (concat (w <$> l)).
Proof.
  induction 1 as [|a l Ha Hl IH]; cbn; [done|]. autorewrite with golen. lia.
Qed.

(** A list round-trips when its count fits the u32 prefix and every element
    occupies at least one byte (the corruption test of [ReadList]). *)
Lemma decodes_ReadList {A} (f : reader A) (w : A -> bytes) l :
  len l < 2 ^ 32 ->
  Forall (fun a => decodes f (w a) a /\ 1 <= len (w a)) l ->
  decodes (ReadList f) (StreamOut.WriteList l w) l.
Proof.
  intros Hl Hall. apply Forall_and in Hall as [Hd Hw]. pose proof (len_nonneg l).
  unfold ReadList, StreamOut.WriteList. unfold u32. rewrite Z.mod_small by lia.
  eapply decodes_bind; [apply decodes_U32; unfold is_uint; lia|].
  intros rest. unfold Remaining. cbn [si_rest NewStreamIn].
  pose proof (concat_len_ge w l Hw). pose proof (len_nonneg rest).
  rewrite len_app, !bool_decide_eq_false_2 by lia. cbn [orb].
  unfold len. rewrite Nat2Z.id. by apply decodes_read_n.
Qed.

(** A map round-trips whatever order the writer iterated it in. *)
Lemma decodes_ReadMap {K V} `{Countable K} `{GoRange} (m : gmap K V)
    (kf : reader K) (vf : reader V) (kw : K -> bytes) (vw : V -> bytes) :
  Z.of_nat (size m) < 2 ^ 32 ->
  (forall k v, m !! k = Some v -> decodes kf (kw k) k /\ decodes vf (vw v) v /\ 1 <= len (kw k)) ->
  decodes (ReadMap kf vf) (StreamOut.WriteMap m kw vw) (Some m).
Proof.
  intros Hsz Hkv. unfold ReadMap, StreamOut.WriteMap, u32. rewrite Z.mod_small by lia.
  eapply decodes_bind; [apply decodes_U32; unfold is_uint; lia|].
  set (w := fun kv : K * V => kw kv.1 ++ vw kv.2).
  assert (Forall (fun kv => decodes (k <-- kf ;; v <-- vf ;; rret (k, v))%reader (w kv) kv
    /\ 1 <= len (w kv)) (range m)) as [Hd Hw]%Forall_and.
  { apply Forall_forall. intros [k v] Hin%elem_of_range. destruct (Hkv k v Hin) as (H1 & H2 & H3).
    unfold w; cbn. pose proof (len_nonneg (vw v)). split; [|rewrite len_app; lia].
    eapply decodes_bind; [done|]. by apply decodes_bind_ret. }
  intros rest. unfold Remaining. cbn [si_rest NewStreamIn].
  pose proof (concat_len_ge w _ Hw) as Hlen. pose proof (len_nonneg rest).
  unfold len at 1 in Hlen. rewrite length_range in Hlen.
  rewrite len_app, !bool_decide_eq_false_2 by lia. cbn [orb].
  rewrite <- length_range, Nat2Z.id.
  pose proof (decodes_read_n _ w (range m) Hd) as Hr.
  unfold rbind at 1. rewrite Hr. unfold rret. by rewrite foldl_insert_range.
Qed.

Lemma decodes_DateTime v : is_uint 64 v -> decodes DateTime (StreamOut.DateTime v) v.
Proof. apply decodes_U64. Qed.
Lemma decodes_Double v : is_uint 64 v -> decodes Double (StreamOut.Double v) v.
Proof. apply decodes_U64. Qed.

#[export] Hint Resolve decodes_DateTime decodes_Double decodes_U8 decodes_U16 decodes_U32 decodes_U64 decodes_Bool
  decodes_PID decodes_S64 decodes_GoString decodes_Buffer decodes_QBuffer
  decodes_ret : codec.

(** [decode_fields] walks a sequence of binds against the concatenation of the
    written fields, closing each field with the [codec] database. *)
Ltac decode_fields :=
  repeat (rewrite <- ?app_assoc; eapply decodes_bind; [solve [eauto with codec]|]);
  try (eapply decodes_bind_ret_eq; [solve [eauto with codec]|done]);
  try solve [eauto with codec].
