(* ===== verification/Types.v ===== *)
(** * NEX value types (nextendo-nex/types.go)

    The structure framework with its per-level framing, result codes, packed
    timestamps, station URLs, result ranges, variants and data holders. *)

From S2P Require Import Prelude GoStd Settings Stream.

(** ** Structure framework *)

(** One class level.  [Save] writes the level's own fields; [Load] updates the
    value being filled in.  [None] is a nil function. *)
Record Level (A : Type) := mkLevel {
  Version : Z;
  Save : option (Settings -> A -> bytes);
  Load : option (Settings -> A -> reader A)
}.
Arguments mkLevel {A}. Arguments Version {A}. Arguments Save {A}. Arguments Load {A}.

Class Structure (A : Type) := Levels : list (Level A).

Definition level_body {A} (s : Settings) (lvl : Level A) (st : A) : bytes :=
  match Save lvl with Some f => f s st | None => [] end.

Definition WriteStructure {A} `{Structure A} (s : Settings) (st : A) : bytes :=
  concat ((fun lvl =>
    if StructHeader s
    then StreamOut.U8 (Version lvl) ++ StreamOut.Buffer (level_body s lvl st)
    else level_body s lvl st) <$> Levels).

(** With struct headers each level is read from its own substream, whose error
    flag is dropped with it. *)
Definition read_level {A} (s : Settings) (lvl : Level A) (st : A) : reader A :=
  (if StructHeader s then
     _ <-- StreamInOps.U8 ;;
     sub <-- StreamInOps.Substream ;;
     rret (match Load lvl with Some f => (f s st sub).1 | None => st end)
   else match Load lvl with Some f => f s st | None => rret st end)%reader.

Fixpoint read_levels {A} (s : Settings) (ls : list (Level A)) (st : A) : reader A :=
  match ls with
  | [] => rret st
  | lvl :: ls => (st' <-- read_level s lvl st ;; read_levels s ls st')%reader
  end.

Definition ReadStructure {A} `{Structure A} (s : Settings) (st : A) : reader A :=
  read_levels s Levels st.

Arguments WriteStructure {A H} s st : simpl never.
Arguments ReadStructure {A H} s st : simpl never.

(** A level's law for the value [a]: whatever the current value [c], loading what
    [a] saved yields [m c]. *)
Definition level_law {A} (s : Settings) (a : A) (lvl : Level A) (m : A -> A) : Prop :=
  is_uint 8 (Version lvl) /\ len (level_body s lvl a) < 2 ^ 32 /\
  exists ld, Load lvl = Some ld /\ forall c, decodes (ld s c) (level_body s lvl a) (m c).

Lemma decodes_level {A} s (a c : A) lvl m :
  level_law s a lvl m ->
  decodes (read_level s lvl c)
    (if StructHeader s
     then StreamOut.U8 (Version lvl) ++ StreamOut.Buffer (level_body s lvl a)
     else level_body s lvl a) (m c).
Proof.
  intros (Hv & Hlen & ld & Hld & Hdec). unfold read_level. rewrite Hld.
  destruct (StructHeader s); [|done].
  eapply decodes_bind; [by apply decodes_U8|].
  unfold StreamInOps.Substream.
  intros rest. unfold rbind, rret. rewrite decodes_Buffer by done.
  specialize (Hdec c []). rewrite app_nil_r in Hdec. by rewrite Hdec.
Qed.

(** A structure round-trips when each level obeys its law and the updates of the
    levels compose to the written value. *)
Lemma decodes_Structure {A} `{Structure A} s (a c : A) ms :
  Forall2 (level_law s a) Levels ms ->
  foldl (fun x m => m x) c ms = a ->
  decodes (ReadStructure s c) (WriteStructure s a) a.
Proof.
  unfold ReadStructure, WriteStructure. intros Hall. revert c.
  induction Hall as [|lvl m ls ms Hl Hall IH]; intros c Hc; cbn in *.
  - by subst.
  - eapply decodes_bind; [by apply decodes_level|]. by apply IH.
Qed.

(** One-level structures, the common case. *)
Lemma decodes_Structure1 {A} (lvl : Level A) s (a c : A) :
  level_law s a lvl (fun _ => a) ->
  decodes (@ReadStructure A [lvl] s c) (@WriteStructure A [lvl] s a) a.
Proof. intros Hl. apply (@decodes_Structure A [lvl] s a c [fun _ => a]); [|done]. by apply Forall2_cons. Qed.

(** ** Result codes *)
Definition ResultErrorMask : Z := 2 ^ 31.
Record Result := mkResult { Code : Z }.
Definition SuccessResult (code : Z) : Result := mkResult (Z.ldiff code ResultErrorMask).
Definition ErrorResult (code : Z) : Result := mkResult (Z.lor code ResultErrorMask).
Definition IsSuccess (r : Result) : bool := bool_decide (Z.land (Code r) ResultErrorMask = 0).
Definition IsError (r : Result) : bool := bool_decide (Z.land (Code r) ResultErrorMask <> 0).

Definition ResultCoreUnknown : Z := 0x00010001.
Definition ResultCoreNotImplemented : Z := 0x00010002.
Definition ResultCoreAccessDenied : Z := 0x00010006.
Definition ResultCoreInvalidArgument : Z := 0x0001000A.
Definition ResultRendezVousSessionVoid : Z := 0x00030073.
Definition ResultRendezVousSessionFull : Z := 0x000300C8.
Definition ResultAuthTokenParseError : Z := 0x00680002.
Definition ResultAuthUnknown : Z := 0x0068000E.

(** ** DateTime *)
Module DateTime.

Definition Second (d : Z) : Z := Z.land d 63.
Definition Minute (d : Z) : Z := Z.land (Z.shiftr d 6) 63.
Definition Hour (d : Z) : Z := Z.land (Z.shiftr d 12) 31.
Definition Day (d : Z) : Z := Z.land (Z.shiftr d 17) 31.
Definition Month (d : Z) : Z := Z.land (Z.shiftr d 22) 15.
Definition Year (d : Z) : Z := Z.shiftr d 26.

Definition shl64 (v k : Z) : Z := u64 (Z.shiftl (u64 v) k).

Definition MakeDateTime (year month day hour minute second : Z) : Z :=
  Z.lor (Z.lor (Z.lor (Z.lor (Z.lor (u64 second) (shl64 minute 6)) (shl64 hour 12))
    (shl64 day 17)) (shl64 month 22)) (shl64 year 26).

(** Calendar fields that fit their bit fields. *)
Definition fits (year month day hour minute second : Z) : Prop :=
  0 <= year < 2 ^ 38 /\ 0 <= month < 16 /\ 0 <= day < 32 /\
  0 <= hour < 32 /\ 0 <= minute < 64 /\ 0 <= second < 64.

Lemma shl64_small v k n :
  0 <= k -> 0 <= n -> k + n <= 64 -> 0 <= v < 2 ^ n -> shl64 v k = Z.shiftl v k.
Proof.
  intros Hk Hn Hkn Hv. unfold shl64, u64.
  assert (2 ^ n <= 2 ^ 64) by (apply Z.pow_le_mono_r; lia).
  rewrite (Z.mod_small v) by lia. rewrite Z.shiftl_mul_pow2 by lia.
  apply Z.mod_small. split; [apply Z.mul_nonneg_nonneg; lia|].
  apply Z.lt_le_trans with (2 ^ n * 2 ^ k); [apply Z.mul_lt_mono_pos_r; lia|].
  rewrite <- Z.pow_add_r by lia. apply Z.pow_le_mono_r; lia.
Qed.

Lemma MakeDateTime_sum y mo d h mi sec :
  fits y mo d h mi sec ->
  MakeDateTime y mo d h mi sec =
  sec + mi * 2 ^ 6 + h * 2 ^ 12 + d * 2 ^ 17 + mo * 2 ^ 22 + y * 2 ^ 26.
Proof.
  intros (Hy & Hmo & Hd & Hh & Hmi & Hs). unfold MakeDateTime.
  rewrite (shl64_small mi 6 6), (shl64_small h 12 5), (shl64_small d 17 5),
    (shl64_small mo 22 4), (shl64_small y 26 38) by lia.
  unfold u64. rewrite Z.mod_small by lia.
  rewrite (lor_shiftl_add mi sec 6), (lor_shiftl_add h _ 12), (lor_shiftl_add d _ 17),
    (lor_shiftl_add mo _ 22), (lor_shiftl_add y _ 26) by lia. done.
Qed.

Lemma unpack_sum y mo d h mi sec :
  fits y mo d h mi sec ->
  let v := sec + mi * 2 ^ 6 + h * 2 ^ 12 + d * 2 ^ 17 + mo * 2 ^ 22 + y * 2 ^ 26 in
  (Year v, Month v, Day v, Hour v, Minute v, Second v) = (y, mo, d, h, mi, sec).
Proof.
  intros (Hy & Hmo & Hd & Hh & Hmi & Hs). cbn zeta.
  unfold Year, Month, Day, Hour, Minute, Second. rewrite !shiftr_div by lia.
  change 63 with (2 ^ 6 - 1). change 31 with (2 ^ 5 - 1). change 15 with (2 ^ 4 - 1).
  rewrite !land_ones_mod by lia.
  repeat f_equal; Z.div_mod_to_equations; lia.
Qed.

(** Packing a date into a NEX timestamp and unpacking it gives the date back, for
    every year below 2^38 and every field that fits its bits. *)
Theorem datetime_roundtrip y mo d h mi sec :
  fits y mo d h mi sec ->
  let v := MakeDateTime y mo d h mi sec in
  (Year v, Month v, Day v, Hour v, Minute v, Second v) = (y, mo, d, h, mi, sec).
Proof. intros Hf. cbn zeta. rewrite MakeDateTime_sum by done. by apply unpack_sum. Qed.

Lemma datetime_roundtrip_witness :
  let v := MakeDateTime 2026 7 22 23 59 58 in
  (Year v, Month v, Day v, Hour v, Minute v, Second v) = (2026, 7, 22, 23, 59, 58).
Proof. apply datetime_roundtrip. unfold fits. lia. Defined.

End DateTime.

(** ** ResultRange *)
Record ResultRange := mkResultRange { Offset : Z; Size : Z }.
#[export] Instance ResultRange_Structure : Structure ResultRange := [
  {| Version := 0;
     Save := Some (fun _ r => StreamOut.U32 (Offset r) ++ StreamOut.U32 (Size r));
     Load := Some (fun _ _ =>
       (o <-- StreamInOps.U32 ;; z <-- StreamInOps.U32 ;; rret (mkResultRange o z))%reader) |}].

Lemma decodes_ResultRange s r c :
  is_uint 32 (Offset r) -> is_uint 32 (Size r) ->
  decodes (ReadStructure s c) (WriteStructure s r) r.
Proof.
  destruct r as [o z]. intros. apply decodes_Structure1. split; [done|]. split.
  - cbn. autorewrite with golen. lia.
  - eexists; split; [done|]. intros c'. cbn in *. decode_fields.
Qed.

(** ** Variant *)
Definition VariantNil : Z := 0.
Definition VariantInt64 : Z := 1.
Definition VariantDouble : Z := 2.
Definition VariantBool : Z := 3.
Definition VariantString : Z := 4.
Definition VariantDateTime : Z := 5.
Definition VariantUint64 : Z := 6.

Record Variant := mkVariant {
  v_Type : Z; v_Int : Z; v_Double : Z; v_Bool : bool; v_String : gostring;
  v_Date : Z; v_Uint : Z
}.

Definition write_Variant (v : Variant) : bytes :=
  StreamOut.U8 (v_Type v) ++
  (if bool_decide (v_Type v = VariantInt64) then StreamOut.S64 (v_Int v)
   else if bool_decide (v_Type v = VariantDouble) then StreamOut.Double (v_Double v)
   else if bool_decide (v_Type v = VariantBool) then StreamOut.Bool (v_Bool v)
   else if bool_decide (v_Type v = VariantString) then StreamOut.GoString (v_String v)
   else if bool_decide (v_Type v = VariantDateTime) then StreamOut.DateTime (v_Date v)
   else if bool_decide (v_Type v = VariantUint64) then StreamOut.U64 (v_Uint v)
   else []).

Definition read_Variant : reader Variant :=
  (t <-- StreamInOps.U8 ;;
   if bool_decide (t = VariantInt64) then
     x <-- StreamInOps.S64 ;; rret (mkVariant t x 0 false [] 0 0)
   else if bool_decide (t = VariantDouble) then
     x <-- StreamInOps.Double ;; rret (mkVariant t 0 x false [] 0 0)
   else if bool_decide (t = VariantBool) then
     x <-- StreamInOps.Bool ;; rret (mkVariant t 0 0 x [] 0 0)
   else if bool_decide (t = VariantString) then
     x <-- StreamInOps.GoString ;; rret (mkVariant t 0 0 false x 0 0)
   else if bool_decide (t = VariantDateTime) then
     x <-- StreamInOps.DateTime ;; rret (mkVariant t 0 0 false [] x 0)
   else if bool_decide (t = VariantUint64) then
     x <-- StreamInOps.U64 ;; rret (mkVariant t 0 0 false [] 0 x)
   else rret (mkVariant t 0 0 false [] 0 0))%reader.

(** The payload the tag selects is in range, every other field is zero. *)
Definition variant_ok (v : Variant) : Prop :=
  is_uint 8 (v_Type v) /\
  (v_Type v = VariantInt64 \/ v_Int v = 0) /\ (- 2 ^ 63 <= v_Int v < 2 ^ 63) /\
  (v_Type v = VariantDouble \/ v_Double v = 0) /\ is_uint 64 (v_Double v) /\
  (v_Type v = VariantBool \/ v_Bool v = false) /\
  (v_Type v = VariantString \/ v_String v = []) /\ str_ok (v_String v) /\
  (v_Type v = VariantDateTime \/ v_Date v = 0) /\ is_uint 64 (v_Date v) /\
  (v_Type v = VariantUint64 \/ v_Uint v = 0) /\ is_uint 64 (v_Uint v).

Ltac variant_case :=
  subst; destruct_or?; try lia; subst;
  (eapply decodes_bind_ret_eq; [solve [eauto with codec]|done]).

Lemma decodes_Variant v : variant_ok v -> decodes read_Variant (write_Variant v) v.
Proof.
  destruct v as [t i d b x dt u]. unfold variant_ok, write_Variant, read_Variant; cbn.
  intros (Ht & Hi & ? & Hd & ? & Hb & Hs & ? & Hdt & ? & Hu & ?).
  eapply decodes_bind; [by apply decodes_U8|].
  unfold VariantInt64, VariantDouble, VariantBool, VariantString, VariantDateTime,
    VariantUint64 in *.
  case_bool_decide; [variant_case|]. case_bool_decide; [variant_case|].
  case_bool_decide; [variant_case|]. case_bool_decide; [variant_case|].
  case_bool_decide; [variant_case|]. case_bool_decide; [variant_case|].
  destruct_or?; try done; subst; apply decodes_ret.
Qed.

(** ** DataHolder *)
Definition AnyData {A} `{Structure A} (s : Settings) (name : gostring) (d : option A) : bytes :=
  let body := match d with Some st => WriteStructure s st | None => [] end in
  StreamOut.GoString name ++ StreamOut.U32 (u32 (len body + 4)) ++ StreamOut.Buffer body.
