(* ===== verification/StationURL.v ===== *)
(** * Station URLs (nextendo-nex/types.go)

    ["scheme:/k=v;k=v"] addresses: an insertion-ordered key list beside a
    parameter map, with the parser and the printer. *)

From S2P Require Import Prelude GoStd Settings Stream.
Import GoStrings GoStrconv.

Record StationURL := mkStationURL {
  Scheme : gostring;
  keys : list gostring;
  params : gmap gostring gostring
}.

#[export] Instance StationURL_eq_dec : EqDecision StationURL.
Proof. solve_decision. Defined.

Definition semi : Z := 59.
Definition equals : Z := 61.
Definition colon_slash : gostring := [58; 47].

Definition NewStationURL (scheme : gostring) : StationURL :=
  mkStationURL (if bool_decide (scheme = []) then str "prudp" else scheme) [] ∅.

Definition Set_ (u : StationURL) (k v : gostring) : StationURL :=
  mkStationURL (Scheme u)
    (if bool_decide (params u !! k = None) then keys u ++ [k] else keys u)
    (<[k := v]> (params u)).

Definition SetInt (u : StationURL) (k : gostring) (v : Z) : StationURL := Set_ u k (itoa v).
Definition Get (u : StationURL) (k : gostring) : gostring := default [] (params u !! k).
Definition GetInt (u : StationURL) (k : gostring) : Z := atoi_value (Get u k).
Definition Has (u : StationURL) (k : gostring) : bool := bool_decide (is_Some (params u !! k)).

(** The first occurrence of [k] leaves the key list. *)
Fixpoint remove_first (k : gostring) (l : list gostring) : list gostring :=
  match l with
  | [] => []
  | x :: l => if bool_decide (x = k) then l else x :: remove_first k l
  end.

Definition Remove (u : StationURL) (k : gostring) : StationURL :=
  match params u !! k with
  | None => u
  | Some _ => mkStationURL (Scheme u) (remove_first k (keys u)) (delete k (params u))
  end.

(** [Copy] rebuilds the parameter map entry by entry. *)
Definition Copy `{GoRange} (u : StationURL) : StationURL :=
  mkStationURL (Scheme u) (keys u)
    (foldl (fun m kv => <[kv.1 := kv.2]> m) ∅ (range (params u))).

Definition set_field (u : StationURL) (f : gostring) : StationURL :=
  match splitn2 equals f with
  | (k, Some v) => Set_ u k v
  | (_, None) => u
  end.

Definition ParseStationURL (s : gostring) : StationURL :=
  let empty := mkStationURL [] [] ∅ in
  if bool_decide (s = []) then empty
  else match index colon_slash s with
       | None => empty
       | Some i =>
           let fields := drop (i + 2) s in
           let u := mkStationURL (take i s) [] ∅ in
           if bool_decide (fields = []) then u
           else foldl set_field u (split semi fields)
       end.

Definition render (u : StationURL) (k : gostring) : gostring := k ++ equals :: Get u k.

Definition ToString (u : StationURL) : gostring :=
  let joined := join semi (render u <$> keys u) in
  if bool_decide (Scheme u <> []) then Scheme u ++ colon_slash ++ joined else joined.

(** [StreamOut.StationURL] and [StreamIn.StationURLValue]. *)
Definition write_StationURL (u : StationURL) : bytes := StreamOut.GoString (ToString u).
Definition StationURLValue : reader StationURL :=
  (x <-- StreamInOps.GoString ;; rret (ParseStationURL x))%reader.

(** ** The key list and the map describe the same parameters *)
Definition url_wf (u : StationURL) : Prop :=
  NoDup (keys u) /\ forall k, k ∈ keys u <-> is_Some (params u !! k).

Lemma NewStationURL_wf scheme : url_wf (NewStationURL scheme).
Proof.
  split; [constructor|]. intros k. cbn. rewrite lookup_empty.
  split; [by intros ?%elem_of_nil|by intros []].
Qed.

Lemma Set_wf u k v : url_wf u -> url_wf (Set_ u k v).
Proof.
  intros [Hnd Hk]. split; cbn.
  - case_bool_decide as Hn; [|done]. apply NoDup_app. split; [done|]. split; [|by apply NoDup_singleton].
    intros x Hx ->%list_elem_of_singleton. apply Hk in Hx as [? Hx]. congruence.
  - intros k'. destruct (decide (k = k')) as [<-|Hne].
    + rewrite lookup_insert_eq. split; [eauto|]. intros _.
      case_bool_decide as Hn; [apply elem_of_app; right; by apply list_elem_of_singleton|].
      apply Hk. destruct (params u !! k); [eauto|done].
    + rewrite lookup_insert_ne by done. rewrite <- Hk.
      case_bool_decide; [|done]. rewrite elem_of_app, list_elem_of_singleton. naive_solver.
Qed.

Lemma elem_of_remove_first k l x :
  NoDup l -> x ∈ remove_first k l <-> x ∈ l /\ x <> k.
Proof.
  induction 1 as [|y l Hy Hnd IH]; cbn; [split; [by intros ?%elem_of_nil|by intros [?%elem_of_nil ?]]|].
  case_bool_decide; subst.
  - rewrite elem_of_cons. naive_solver.
  - rewrite !elem_of_cons, IH. naive_solver.
Qed.

Lemma NoDup_remove_first k l : NoDup l -> NoDup (remove_first k l).
Proof.
  induction 1 as [|y l Hy Hnd IH]; cbn; [constructor|].
  case_bool_decide; [done|]. constructor; [|done]. rewrite elem_of_remove_first by done. tauto.
Qed.

Lemma Remove_wf u k : url_wf u -> url_wf (Remove u k).
Proof.
  intros [Hnd Hk]. unfold Remove. destruct (params u !! k) eqn:E; [|by split].
  split; cbn; [by apply NoDup_remove_first|]. intros x.
  rewrite elem_of_remove_first, Hk by done.
  destruct (decide (k = x)) as [<-|Hne].
  - rewrite lookup_delete_eq. split; [naive_solver|by intros []].
  - rewrite lookup_delete_ne by done. naive_solver.
Qed.

Lemma set_field_wf u f : url_wf u -> url_wf (set_field u f).
Proof. intros. unfold set_field. destruct (splitn2 _ _) as [k [v|]]; [by apply Set_wf|done]. Qed.

Lemma ParseStationURL_wf s : url_wf (ParseStationURL s).
Proof.
  assert (forall sc, url_wf (mkStationURL sc [] ∅)) as Hempty.
  { intros sc. split; [constructor|]. intros k. cbn. rewrite lookup_empty.
    split; [by intros ?%elem_of_nil|by intros []]. }
  unfold ParseStationURL. case_bool_decide; [done|].
  destruct (index _ _); [|done]. case_bool_decide; [done|].
  generalize (Hempty (take n s)). generalize (mkStationURL (take n s) [] ∅).
  induction (split semi _) as [|f fs IH]; cbn; [done|]. intros u Hu.
  by apply IH, set_field_wf.
Qed.

Lemma Copy_id `{GoRange} u : Copy u = u.
Proof. destruct u. unfold Copy. cbn. by rewrite foldl_insert_range. Qed.

(** ** Reading back what was set *)
Lemma Get_Set u k v : Get (Set_ u k v) k = v.
Proof. unfold Get. cbn. by rewrite lookup_insert_eq. Qed.
Lemma Get_Set_ne u k k' v : k <> k' -> Get (Set_ u k v) k' = Get u k'.
Proof. intros. unfold Get. cbn. by rewrite lookup_insert_ne. Qed.
Lemma GetInt_SetInt u k n : - 2 ^ 63 <= n < 2 ^ 63 -> GetInt (SetInt u k n) k = n.
Proof. intros. unfold GetInt, SetInt. rewrite Get_Set. by apply atoi_value_itoa. Qed.
Lemma Has_Remove u k : Has (Remove u k) k = false.
Proof.
  unfold Has, Remove. destruct (params u !! k) eqn:E; cbn.
  - rewrite lookup_delete_eq. by apply bool_decide_eq_false_2; intros [].
  - rewrite E. by apply bool_decide_eq_false_2; intros [].
Qed.
Lemma Get_Remove_ne u k k' : k <> k' -> Get (Remove u k) k' = Get u k'.
Proof.
  intros. unfold Get, Remove. destruct (params u !! k); [|done]. cbn. by rewrite lookup_delete_ne.
Qed.

(** ** Print/parse round trip *)

(** A URL whose text is unambiguous: a non-empty scheme without [':'], keys
    without [';'] or ['='], values without [';']. *)
Definition url_printable (u : StationURL) : Prop :=
  Scheme u <> [] /\ (58 ∉ Scheme u) /\
  Forall (fun k => (semi ∉ k) /\ (equals ∉ k) /\ (semi ∉ Get u k)) (keys u).

Lemma set_field_render u0 u k :
  equals ∉ k -> set_field u0 (render u k) = Set_ u0 k (Get u k).
Proof. intros. unfold set_field, render. by rewrite splitn2_app. Qed.

Lemma foldl_set_fields u ks u0 :
  Forall (fun k => equals ∉ k) ks ->
  NoDup ks -> (forall k, k ∈ ks -> params u0 !! k = None) ->
  let u' := foldl set_field u0 (render u <$> ks) in
  Scheme u' = Scheme u0 /\ keys u' = keys u0 ++ ks /\
  (forall k, params u' !! k = if bool_decide (k ∈ ks) then Some (Get u k) else params u0 !! k).
Proof.
  revert u0. induction ks as [|k ks IH]; intros u0 Heq Hnd Hfresh; cbn zeta.
  - cbn. rewrite app_nil_r. split_and!; [done|done|]. intros k.
    rewrite bool_decide_eq_false_2; [done|by intros ?%elem_of_nil].
  - apply Forall_cons in Heq as [Hk Heq]. apply NoDup_cons in Hnd as [Hkn Hnd].
    rewrite fmap_cons. cbn [foldl]. rewrite set_field_render by done.
    destruct (IH (Set_ u0 k (Get u k)) Heq Hnd) as (H1 & H2 & H3).
    { intros k' Hk'. cbn. rewrite lookup_insert_ne by (intros ->; done).
      apply Hfresh. by apply elem_of_cons; right. }
    split_and!; [done| |].
    + rewrite H2. cbn. rewrite bool_decide_eq_true_2
        by (apply Hfresh; by apply elem_of_cons; left). by rewrite <- app_assoc.
    + intros k'. rewrite H3. cbn. destruct (decide (k' = k)) as [->|Hne].
      * rewrite bool_decide_eq_false_2, lookup_insert_eq by done.
        by rewrite bool_decide_eq_true_2 by (apply elem_of_cons; by left).
      * rewrite lookup_insert_ne by done.
        case_bool_decide as Hin; case_bool_decide as Hin';
          rewrite ?elem_of_cons in *; naive_solver.
Qed.

Lemma join_render_nonempty u ks : ks <> [] -> join semi (render u <$> ks) <> [].
Proof.
  destruct ks as [|k ks]; [done|]. intros _. cbn [fmap list_fmap]. unfold render at 1.
  destruct ks as [|k' ks]; cbn; by destruct k.
Qed.

Lemma parse_print_url u : url_wf u -> url_printable u -> ParseStationURL (ToString u) = u.
Proof.
  intros [Hnd Hdom] (Hs & Hcolon & Hkeys). unfold ParseStationURL, ToString.
  rewrite (bool_decide_eq_true_2 (Scheme u <> [])) by done.
  rewrite bool_decide_eq_false_2 by (by destruct (Scheme u)).
  erewrite index_app; [|done|done|apply (has_prefix_app colon_slash)].
  rewrite take_app_length.
  rewrite (app_assoc (Scheme u)), drop_app_length' by (rewrite length_app; done).
  case_bool_decide as He.
  - destruct (keys u) as [|k ks] eqn:Ek.
    + destruct u as [sc ks m]; cbn in *. subst. f_equal. symmetry. apply map_eq. intros k.
      rewrite lookup_empty. destruct (m !! k) eqn:E; [|done].
      assert (k ∈ (@nil gostring)) as ?%elem_of_nil; [|done]. apply Hdom. by rewrite E.
    + by apply join_render_nonempty in He.
  - rewrite split_join.
    + destruct (foldl_set_fields u (keys u) (mkStationURL (Scheme u) [] ∅)) as (H1 & H2 & H3).
      * eapply Forall_impl; [done|]. naive_solver.
      * done.
      * intros. apply lookup_empty.
      * cbn in *. destruct (foldl _ _ _) as [sc' ks' m'], u as [sc ks m]; cbn in *. subst.
        f_equal. apply map_eq. intros k. rewrite H3. case_bool_decide as Hin.
        -- apply Hdom in Hin as [v Hv]. unfold Get. cbn. by rewrite Hv.
        -- rewrite lookup_empty. destruct (m !! k) eqn:E; [|done]. exfalso. apply Hin, Hdom. by rewrite E.
    + intros E. apply He. by rewrite E.
    + apply Forall_fmap. eapply Forall_impl; [done|]. cbn. unfold render. intros k (H1 & H2 & H3).
      rewrite elem_of_app, elem_of_cons. intros [?|[?|?]]; done.
Qed.

(** Station URLs survive printing: a well-formed url with a non-empty scheme and
    no separator inside its keys and values is parsed back as it was printed, keys in
    the same order. *)
Theorem station_url_roundtrip u :
  url_wf u -> url_printable u -> ParseStationURL (ToString u) = u.
Proof. apply parse_print_url. Qed.

Definition ex_url : StationURL :=
  SetInt (Set_ (NewStationURL (str "prudp")) (str "address") (str "10.0.0.2")) (str "port") 50000.

Lemma station_url_roundtrip_witness : ParseStationURL (ToString ex_url) = ex_url.
Proof.
  apply station_url_roundtrip.
  - apply Set_wf, Set_wf, NewStationURL_wf.
  - apply (bool_decide_unpack _). vm_compute. exact I.
Defined.
