(* ===== verification/Rmc.v ===== *)
(** * Remote method calls (nextendo-nex/rmc.go)

    The RMC message, its wire encoding and its parser.  The [Settings] pointer a
    message carries never reaches the wire and is left out. *)

From S2P Require Import Prelude Settings Stream Types.

Record RMCMessage := mkRMC {
  Mode : Z;
  Protocol : Z;
  Method : Z;
  CallID : Z;
  Result : Z;
  Body : bytes;
  IsErr : bool
}.

Definition RMCRequest : Z := 0.
Definition RMCResponse : Z := 1.

Definition NewRMCRequest (protocol method callID : Z) (body : bytes) : RMCMessage :=
  mkRMC RMCRequest protocol method callID 0 body false.
Definition NewRMCSuccess (protocol method callID : Z) (body : bytes) : RMCMessage :=
  mkRMC RMCResponse protocol method callID 0 body false.
Definition NewRMCError (protocol callID errorCode : Z) : RMCMessage :=
  mkRMC RMCResponse protocol 0 callID (Z.lor errorCode ResultErrorMask) [] true.

Definition Encode (m : RMCMessage) : bytes :=
  let flag := if bool_decide (Mode m = RMCRequest) then 0x80 else 0 in
  let proto :=
    if bool_decide (Protocol m < 0x80) then StreamOut.U8 (Z.lor (u8 (Protocol m)) flag)
    else StreamOut.U8 (Z.lor 0x7F flag) ++ StreamOut.U16 (Protocol m) in
  let rest :=
    if bool_decide (Mode m = RMCRequest) then
      StreamOut.U32 (CallID m) ++ StreamOut.U32 (Method m) ++ Body m
    else if IsErr m then
      StreamOut.Bool false ++ StreamOut.U32 (Z.lor (Result m) ResultErrorMask) ++
      StreamOut.U32 (CallID m)
    else
      StreamOut.Bool true ++ StreamOut.U32 (CallID m) ++
      StreamOut.U32 (Z.lor (Method m) 0x8000) ++ Body m in
  let payload := proto ++ rest in
  StreamOut.U32 (u32 (len payload)) ++ payload.

(** The body of [ParseRMC] after the size check. *)
Definition parse_body : reader RMCMessage :=
  (proto <-- StreamInOps.U8 ;;
   let p := Z.ldiff proto 0x80 in
   protocol <-- (if bool_decide (p = 0x7F) then StreamInOps.U16 else rret p) ;;
   if bool_decide (Z.land proto 0x80 <> 0) then
     callID <-- StreamInOps.U32 ;;
     method <-- StreamInOps.U32 ;;
     body <-- StreamInOps.ReadAll ;;
     rret (mkRMC RMCRequest protocol method callID 0 body false)
   else
     ok <-- StreamInOps.Bool ;;
     if ok : bool then
       callID <-- StreamInOps.U32 ;;
       method <-- StreamInOps.U32 ;;
       body <-- StreamInOps.ReadAll ;;
       rret (mkRMC RMCResponse protocol (Z.ldiff method 0x8000) callID 0 body false)
     else
       result <-- StreamInOps.U32 ;;
       callID <-- StreamInOps.U32 ;;
       rret (mkRMC RMCResponse protocol 0 callID result [] true))%reader.

(** [ParseRMC]: [None] stands for a non-nil error. *)
Definition ParseRMC (data : bytes) : option RMCMessage :=
  let '(length, s1) := StreamInOps.U32 (NewStreamIn data) in
  if bool_decide (length <> len data - 4) then None
  else let '(m, s2) := parse_body s1 in
       if si_err s2 then None else Some m.

(** [notImplemented] answers a method the server does not know. *)
Definition notImplemented (proto : Z) (req : RMCMessage) : RMCMessage :=
  NewRMCError proto (CallID req) ResultCoreNotImplemented.

(** ** Round trip *)
Lemma ReadAll_all bs : StreamInOps.ReadAll (NewStreamIn bs) = (bs, NewStreamIn []).
Proof.
  unfold StreamInOps.ReadAll. cbn [si_rest NewStreamIn].
  pose proof (decodes_Read _ bs eq_refl []) as H. by rewrite app_nil_r in H.
Qed.

(** The protocol byte(s) and what the parser makes of them. *)
Definition proto_bytes (flag p : Z) : bytes :=
  if bool_decide (p < 0x80) then StreamOut.U8 (Z.lor (u8 p) flag)
  else StreamOut.U8 (Z.lor 0x7F flag) ++ StreamOut.U16 p.

(** Protocol ids the escape byte does not shadow. *)
Definition proto_ok (p : Z) : Prop := is_uint 16 p /\ p <> 0x7F.

Definition parse_proto : reader (Z * bool) :=
  (proto <-- StreamInOps.U8 ;;
   let p := Z.ldiff proto 0x80 in
   protocol <-- (if bool_decide (p = 0x7F) then StreamInOps.U16 else rret p) ;;
   rret (protocol, bool_decide (Z.land proto 0x80 <> 0)))%reader.

Lemma decodes_proto (req : bool) p :
  proto_ok p -> decodes parse_proto (proto_bytes (if req then 0x80 else 0) p) (p, req).
Proof.
  intros [[H0 H1] H7]. unfold proto_bytes, parse_proto. case_bool_decide.
  - assert (u8 p = p) as -> by (apply Z.mod_small; lia).
    assert (Z.land p (2 ^ 7) = 0) by (apply land_pow2_small; lia).
    rewrite <- (app_nil_r (StreamOut.U8 _)).
    eapply decodes_bind; [apply decodes_U8, lor_uint; unfold is_uint; destruct req; lia|].
    change 128 with (2 ^ 7). destruct req; cbn [negb].
    + rewrite ldiff_lor_mask, bool_decide_eq_false_2 by done.
      by rewrite land_lor_mask, bool_decide_eq_true_2 by done.
    + rewrite Z.lor_0_r, ldiff_mask_id, bool_decide_eq_false_2 by done.
      by rewrite bool_decide_eq_false_2 by (intros Hn; done).
  - eapply decodes_bind; [apply decodes_U8; by destruct req|].
    destruct req; cbn; (eapply decodes_bind_ret_eq; [by apply decodes_U16|done]).
Qed.

Lemma parse_body_split req p bs :
  proto_ok p ->
  parse_body (NewStreamIn (proto_bytes (if req : bool then 0x80 else 0) p ++ bs)) =
  (if req then
     callID <-- StreamInOps.U32 ;; method <-- StreamInOps.U32 ;; body <-- StreamInOps.ReadAll ;;
     rret (mkRMC RMCRequest p method callID 0 body false)
   else
     ok <-- StreamInOps.Bool ;;
     if ok : bool then
       callID <-- StreamInOps.U32 ;; method <-- StreamInOps.U32 ;; body <-- StreamInOps.ReadAll ;;
       rret (mkRMC RMCResponse p (Z.ldiff method 0x8000) callID 0 body false)
     else
       result <-- StreamInOps.U32 ;; callID <-- StreamInOps.U32 ;;
       rret (mkRMC RMCResponse p 0 callID result [] true))%reader (NewStreamIn bs).
Proof.
  intros Hp. pose proof (decodes_proto req p Hp bs) as H.
  unfold parse_proto, parse_body, rbind, rret in *. cbn zeta in *.
  destruct (StreamInOps.U8 _) as [proto s1].
  destruct (bool_decide (Z.land proto 0x80 <> 0)), (bool_decide (Z.ldiff proto 0x80 = 0x7F)), req;
    try destruct (StreamInOps.U16 s1) as [q s2]; by simplify_eq/=.
Qed.

Definition frame (payload : bytes) : bytes :=
  StreamOut.U32 (u32 (len payload)) ++ payload.

Lemma ParseRMC_framed payload :
  len payload < 2 ^ 32 ->
  ParseRMC (frame payload) =
  let '(m, s) := parse_body (NewStreamIn payload) in if si_err s then None else Some m.
Proof.
  intros Hlen. pose proof (len_nonneg payload). unfold ParseRMC, frame.
  rewrite decodes_U32 by apply u32_uint. autorewrite with golen.
  unfold u32. rewrite Z.mod_small by lia. by rewrite bool_decide_eq_false_2 by lia.
Qed.

(** The payload of a message stays below the u32 length prefix. *)
Definition rmc_size_ok (body : bytes) : Prop := len body < 2 ^ 32 - 12.

Lemma len_proto_bytes flag p : len (proto_bytes flag p) <= 3.
Proof. unfold proto_bytes. case_bool_decide; autorewrite with golen; lia. Qed.

Lemma request_roundtrip p meth call body :
  proto_ok p -> is_uint 32 meth -> is_uint 32 call -> rmc_size_ok body ->
  ParseRMC (Encode (NewRMCRequest p meth call body)) = Some (NewRMCRequest p meth call body).
Proof.
  intros Hp Hm Hc Hb.
  change (Encode _) with
    (frame (proto_bytes 128 p ++ StreamOut.U32 call ++ StreamOut.U32 meth ++ body)).
  pose proof (len_proto_bytes 128 p). unfold rmc_size_ok in Hb.
  rewrite ParseRMC_framed by (autorewrite with golen; lia).
  rewrite (parse_body_split true) by done. unfold rbind.
  rewrite decodes_U32, decodes_U32, ReadAll_all by done. done.
Qed.

Lemma success_roundtrip p meth call body :
  proto_ok p -> is_uint 32 meth -> Z.land meth 0x8000 = 0 -> is_uint 32 call ->
  rmc_size_ok body ->
  ParseRMC (Encode (NewRMCSuccess p meth call body)) = Some (NewRMCSuccess p meth call body).
Proof.
  intros Hp Hm Hbit Hc Hb.
  change (Encode _) with
    (frame (proto_bytes 0 p ++ StreamOut.Bool true ++ StreamOut.U32 call ++
       StreamOut.U32 (Z.lor meth 0x8000) ++ body)).
  pose proof (len_proto_bytes 0 p). unfold rmc_size_ok in Hb.
  rewrite ParseRMC_framed by (autorewrite with golen; lia).
  rewrite (parse_body_split false) by done. unfold rbind.
  rewrite decodes_Bool, decodes_U32 by done.
  rewrite decodes_U32 by (apply lor_uint; done). rewrite ReadAll_all. cbn.
  by rewrite ldiff_lor_mask.
Qed.

Lemma error_roundtrip p call code :
  proto_ok p -> is_uint 32 code -> is_uint 32 call ->
  ParseRMC (Encode (NewRMCError p call code)) = Some (NewRMCError p call code).
Proof.
  intros Hp Hm Hc.
  change (Encode _) with
    (frame (proto_bytes 0 p ++ StreamOut.Bool false ++
       StreamOut.U32 (Z.lor (Z.lor code ResultErrorMask) ResultErrorMask) ++ StreamOut.U32 call)).
  pose proof (len_proto_bytes 0 p).
  rewrite ParseRMC_framed by (autorewrite with golen; lia).
  rewrite (parse_body_split false) by done. unfold rbind. rewrite lor_mask_idemp.
  rewrite decodes_Bool, decodes_U32 by (apply lor_uint; done).
  rewrite <- (app_nil_r (StreamOut.U32 call)). by rewrite decodes_U32.
Qed.

(** What a read that does not fail takes from the stream. *)
Lemma get_le_takes n s v s' :
  0 < n -> StreamInOps.get_le n s = (v, s') -> si_err s' = false ->
  si_err s = false /\ len (si_rest s) = n + len (si_rest s').
Proof.
  intros Hn. unfold StreamInOps.get_le, rbind, rret, StreamInOps.Read.
  destruct (si_err s) eqn:He; cbn; [by intros [= _ <-]; rewrite He|].
  rewrite (bool_decide_eq_false_2 (n < 0)), (bool_decide_eq_true_2 (n <> 0)) by lia. cbn.
  case_bool_decide; intros [= _ <-]; [done|]. intros _. split; [done|]. cbn.
  unfold zdrop, len in *. rewrite length_drop. lia.
Qed.

Lemma ReadAll_takes s v s' :
  StreamInOps.ReadAll s = (v, s') -> si_err s' = false -> si_err s = false /\ len (si_rest s) = len v.
Proof.
  unfold StreamInOps.ReadAll, StreamInOps.Read, StreamInOps.Remaining. pose proof (len_nonneg (si_rest s)).
  rewrite (bool_decide_eq_false_2 (len (si_rest s) < 0)), (bool_decide_eq_false_2 (len _ < len _)) by lia.
  destruct (si_err s) eqn:He; cbn; [by intros [= _ <-]; rewrite He|]. intros [= <- _] _. split; [done|].
  unfold ztake, len. rewrite length_take. lia.
Qed.

(** Behind the escape byte the parser takes two bytes for the protocol. *)
Lemma escaped_parse b rest m s' :
  is_byte b -> Z.ldiff b 0x80 = 0x7F -> parse_body (NewStreamIn (b :: rest)) = (m, s') -> si_err s' = false ->
  if bool_decide (Mode m = RMCRequest) then len rest = 10 + len (Body m)
  else if IsErr m then 11 <= len rest else len rest = 11 + len (Body m).
Proof.
  intros Hb Hesc. unfold parse_body, rbind, rret. cbn zeta.
  change (b :: rest) with ([b] ++ rest). assert ([b] = StreamOut.U8 b) as ->.
  { unfold StreamOut.U8. cbn. by rewrite Z.mod_small. }
  rewrite decodes_U8, Hesc, bool_decide_eq_true_2 by done.
  destruct (StreamInOps.U16 _) as [q s1] eqn:E1. unfold StreamInOps.U16, StreamInOps.U32, StreamInOps.Bool, StreamInOps.U8 in *.
  destruct (bool_decide (Z.land b 0x80 <> 0)).
  - destruct (StreamInOps.get_le 4 s1) as [c s2] eqn:E2, (StreamInOps.get_le 4 s2) as [d s3] eqn:E3,
      (StreamInOps.ReadAll s3) as [body s4] eqn:E4. intros [= <- <-] He.
    rewrite bool_decide_eq_true_2 by done. cbn [Body].
    apply ReadAll_takes in E4 as [He3 L4]; [|done]. apply get_le_takes in E3 as [He2 L3]; [|done|done].
    apply get_le_takes in E2 as [He1 L2]; [|done|done]. apply get_le_takes in E1 as [_ L1]; [|done|done]. cbn [si_rest NewStreamIn] in L1. lia.
  - unfold rbind, rret. destruct (StreamInOps.get_le 1 s1) as [k s2] eqn:E2. case_bool_decide.
    + destruct (StreamInOps.get_le 4 s2) as [c s3] eqn:E3, (StreamInOps.get_le 4 s3) as [d s4] eqn:E4,
        (StreamInOps.ReadAll s4) as [body s5] eqn:E5. intros [= <- <-] He.
      rewrite bool_decide_eq_false_2 by done. cbn [Body IsErr].
      apply ReadAll_takes in E5 as [He4 L5]; [|done]. apply get_le_takes in E4 as [He3 L4]; [|done|done].
      apply get_le_takes in E3 as [He2 L3]; [|done|done]. apply get_le_takes in E2 as [He1 L2]; [|done|done].
      apply get_le_takes in E1 as [_ L1]; [|done|done]. cbn [si_rest NewStreamIn] in L1. lia.
    + destruct (StreamInOps.get_le 4 s2) as [c s3] eqn:E3, (StreamInOps.get_le 4 s3) as [d s4] eqn:E4.
      intros [= <- <-] He. rewrite bool_decide_eq_false_2 by done. cbn [Body IsErr]. apply get_le_takes in E4 as [He3 L4]; [|done|done].
      apply get_le_takes in E3 as [He2 L3]; [|done|done]. apply get_le_takes in E2 as [He1 L2]; [|done|done].
      apply get_le_takes in E1 as [_ L1]; [|done|done]. cbn [si_rest NewStreamIn] in L1. pose proof (len_nonneg (si_rest s4)). lia.
Qed.

(** So no message on protocol 0x7F comes back as it was sent. *)
Lemma escape_lost m :
  Protocol m = 0x7F -> rmc_size_ok (Body m) ->
  (Mode m = RMCRequest \/ Mode m = RMCResponse) -> ParseRMC (Encode m) <> Some m.
Proof.
  intros Hp Hs Hm. pose proof (len_nonneg (Body m)) as Hl. unfold rmc_size_ok in Hs.
  set (rest := if bool_decide (Mode m = RMCRequest) then StreamOut.U32 (CallID m) ++ StreamOut.U32 (Method m) ++ Body m
    else if IsErr m then StreamOut.Bool false ++ StreamOut.U32 (Z.lor (Result m) ResultErrorMask) ++ StreamOut.U32 (CallID m)
    else StreamOut.Bool true ++ StreamOut.U32 (CallID m) ++ StreamOut.U32 (Z.lor (Method m) 0x8000) ++ Body m).
  set (b := if bool_decide (Mode m = RMCRequest) then 0xFF else 0x7F).
  assert (Encode m = frame (b :: rest)) as ->.
  { unfold Encode, frame. cbv zeta. fold rest. rewrite Hp. change (bool_decide (0x7F < 0x80)) with true.
    subst b. by destruct (bool_decide (Mode m = RMCRequest)). }
  assert (len rest = if bool_decide (Mode m = RMCRequest) then 8 + len (Body m) else if IsErr m then 9 else 9 + len (Body m))
    as Hrest by (subst rest; repeat case_match; autorewrite with golen; lia).
  rewrite ParseRMC_framed by (unfold len in *; cbn [length]; repeat case_match; lia).
  destruct (parse_body _) as [m' s'] eqn:E. destruct (si_err s') eqn:He; [done|]. intros [= ->].
  apply escaped_parse in E; [|subst b; by case_bool_decide|subst b; by case_bool_decide|done].
  repeat case_match; lia.
Qed.

Lemma success_bit_lost p meth call body :
  proto_ok p -> is_uint 32 meth -> is_uint 32 call -> rmc_size_ok body -> Z.land meth 0x8000 <> 0 ->
  ParseRMC (Encode (NewRMCSuccess p meth call body)) <> Some (NewRMCSuccess p meth call body).
Proof.
  intros Hp Hm Hc Hb Hbit.
  change (Encode _) with (frame (proto_bytes 0 p ++ StreamOut.Bool true ++ StreamOut.U32 call ++
       StreamOut.U32 (Z.lor meth 0x8000) ++ body)).
  pose proof (len_proto_bytes 0 p). unfold rmc_size_ok in Hb.
  rewrite ParseRMC_framed by (autorewrite with golen; lia).
  rewrite (parse_body_split false) by done. unfold rbind.
  rewrite decodes_Bool, decodes_U32 by done.
  rewrite decodes_U32 by (apply lor_uint; done). rewrite ReadAll_all. cbn. intros [= E].
  apply Hbit. rewrite <- E. apply Z.land_ldiff.
Qed.

(** [C21] RMC messages on the wire.  Of the messages whose fields fit their widths, a
    request or an error comes back as it was sent exactly when its protocol is not the
    escape value 0x7F, and a success exactly when moreover its method has bit 0x8000
    clear. *)
Theorem rmc_roundtrip p meth call body code :
  is_uint 16 p -> is_uint 32 meth -> is_uint 32 call -> is_uint 32 code -> rmc_size_ok body ->
  (ParseRMC (Encode (NewRMCRequest p meth call body)) = Some (NewRMCRequest p meth call body) <-> p <> 0x7F) /\
  (ParseRMC (Encode (NewRMCSuccess p meth call body)) = Some (NewRMCSuccess p meth call body) <->
     p <> 0x7F /\ Z.land meth 0x8000 = 0) /\
  (ParseRMC (Encode (NewRMCError p call code)) = Some (NewRMCError p call code) <-> p <> 0x7F).
Proof.
  intros Hp Hm Hc Hco Hb. assert (p <> 0x7F -> proto_ok p) as Hok by (by split).
  assert (rmc_size_ok []) as Hnil by done.
  split_and!; split.
  - intros E ->. revert E. apply escape_lost; [done|done|by left].
  - intros Hne. by apply request_roundtrip; [apply Hok|..].
  - intros E. assert (p <> 0x7F) as Hne by (intros ->; revert E; apply escape_lost; [done|done|by right]).
    split; [done|]. destruct (decide (Z.land meth 0x8000 = 0)) as [|Hbit]; [done|].
    exfalso. revert E. apply success_bit_lost; auto.
  - intros [Hne Hbit]. apply success_roundtrip; auto.
  - intros E ->. revert E. apply escape_lost; [done|done|by right].
  - intros Hne. by apply error_roundtrip; [apply Hok|..].
Qed.

Lemma rmc_roundtrip_witness :
  ParseRMC (Encode (NewRMCError 0x6D 7 ResultRendezVousSessionFull)) =
    Some (NewRMCError 0x6D 7 ResultRendezVousSessionFull) /\
  ParseRMC (Encode (NewRMCSuccess 0x7F 0x27 7 [1; 2])) <> Some (NewRMCSuccess 0x7F 0x27 7 [1; 2]).
Proof.
  assert (forall p, is_uint 16 p -> _) as Hr by (intros p Hp;
    refine (rmc_roundtrip p 0x27 7 [1; 2] ResultRendezVousSessionFull Hp _ _ _ _);
    unfold is_uint, rmc_size_ok; vm_compute; intuition discriminate).
  split.
  - apply (proj2 (proj2 (Hr 0x6D ltac:(by unfold is_uint)))). discriminate.
  - intros E. apply (proj1 (proj2 (Hr 0x7F ltac:(by unfold is_uint)))) in E as [E _]. apply E. reflexivity.
Defined.

(** Protocol 0x7F does not survive the wire: the encoder writes it as a plain byte,
    the parser takes that byte for the escape and reads the protocol from the low half
    of the call id.  A request on it is received as one on another protocol. *)
Theorem rmc_escape_protocol_lost :
  let m := NewRMCRequest 0x7F 0x1122 0x33445566 [9; 8; 7; 6] in
  exists m', ParseRMC (Encode m) = Some m' /\ Protocol m' = u16 (CallID m) /\ Protocol m' <> Protocol m.
Proof. eexists. split; [vm_compute; reflexivity|]. split; [vm_compute; reflexivity|]. vm_compute. discriminate. Qed.
