(* ===== verification/PrudpLite.v ===== *)
(** * PRUDP-Lite packets (nextendo-nex/prudp_lite.go)

    The packet header, its options, the encoder and the stream decoder. *)

From S2P Require Import Prelude Settings Stream.

Definition PacketSYN : Z := 0.
Definition PacketCONNECT : Z := 1.
Definition PacketDATA : Z := 2.
Definition PacketDISCONNECT : Z := 3.
Definition PacketPING : Z := 4.

Definition FlagACK : Z := 0x001.
Definition FlagReliable : Z := 0x002.
Definition FlagNeedACK : Z := 0x004.
Definition FlagHasSize : Z := 0x008.
Definition FlagMultiACK : Z := 0x200.

Definition optSupport : Z := 0.
Definition optConnectionSig : Z := 1.
Definition optConnectionSigLite : Z := 128.

Definition liteMagic : Z := 0x80.
Definition liteHeaderSize : Z := 12.

Record Packet := mkPacket {
  p_Type : Z;
  p_Flags : Z;
  p_SourceType : Z;
  p_SourcePort : Z;
  p_DestType : Z;
  p_DestPort : Z;
  p_FragmentID : Z;
  p_PacketID : Z;
  p_Signature : bytes;
  p_ConnectionSig : bytes;
  p_MinorVersion : Z;
  p_SupportedFunc : Z;
  p_Payload : bytes
}.

Definition HasFlag (p : Packet) (f : Z) : bool := bool_decide (Z.land (p_Flags p) f <> 0).

(** ** Encoder *)

(** One option: id, one-byte length, value. *)
Definition put_option (id : Z) (val : bytes) : bytes := [id; u8 (len val)] ++ val.

Definition support_word (p : Packet) : Z :=
  Z.lor (p_MinorVersion p) (u32 (Z.shiftl (p_SupportedFunc p) 8)).

Definition encodeLiteOptions (p : Packet) : bytes :=
  (if bool_decide (p_Type p = PacketSYN) || bool_decide (p_Type p = PacketCONNECT)
   then put_option optSupport (le_bytes 4 (support_word p)) else []) ++
  (if bool_decide (p_Type p = PacketSYN) && HasFlag p FlagACK
   then put_option optConnectionSig (p_ConnectionSig p) else []) ++
  (if bool_decide (p_Type p = PacketCONNECT) && negb (HasFlag p FlagACK)
   then put_option optConnectionSigLite (p_Signature p) else []).

Definition EncodePacket (p : Packet) : bytes :=
  let options := encodeLiteOptions p in
  [liteMagic; u8 (len options)] ++
  le_bytes 2 (u16 (len (p_Payload p))) ++
  [Z.lor (u8 (Z.shiftl (p_SourceType p) 4)) (Z.land (p_DestType p) 0xF)] ++
  [p_SourcePort p; p_DestPort p; p_FragmentID p] ++
  le_bytes 2 (Z.lor (Z.land (p_Type p) 0xF) (u16 (Z.shiftl (p_Flags p) 4))) ++
  le_bytes 2 (p_PacketID p) ++
  options ++ p_Payload p.

(** ** Decoder *)

Definition with_support (p : Packet) (v : Z) : Packet :=
  mkPacket (p_Type p) (p_Flags p) (p_SourceType p) (p_SourcePort p) (p_DestType p)
    (p_DestPort p) (p_FragmentID p) (p_PacketID p) (p_Signature p) (p_ConnectionSig p)
    (u8 (Z.land v 0xFF)) (Z.shiftr v 8) (p_Payload p).
Definition with_ConnectionSig (p : Packet) (sig : bytes) : Packet :=
  mkPacket (p_Type p) (p_Flags p) (p_SourceType p) (p_SourcePort p) (p_DestType p)
    (p_DestPort p) (p_FragmentID p) (p_PacketID p) (p_Signature p) sig
    (p_MinorVersion p) (p_SupportedFunc p) (p_Payload p).
Definition with_Signature (p : Packet) (sig : bytes) : Packet :=
  mkPacket (p_Type p) (p_Flags p) (p_SourceType p) (p_SourcePort p) (p_DestType p)
    (p_DestPort p) (p_FragmentID p) (p_PacketID p) sig (p_ConnectionSig p)
    (p_MinorVersion p) (p_SupportedFunc p) (p_Payload p).
Definition with_Payload (p : Packet) (pl : bytes) : Packet :=
  mkPacket (p_Type p) (p_Flags p) (p_SourceType p) (p_SourcePort p) (p_DestType p)
    (p_DestPort p) (p_FragmentID p) (p_PacketID p) (p_Signature p) (p_ConnectionSig p)
    (p_MinorVersion p) (p_SupportedFunc p) pl.

Definition apply_option (p : Packet) (id : Z) (val : bytes) : Packet :=
  if bool_decide (id = optSupport) then
    if bool_decide (len val = 4) then with_support p (le_val val) else p
  else if bool_decide (id = optConnectionSig) then with_ConnectionSig p val
  else if bool_decide (id = optConnectionSigLite) then with_Signature p val
  else p.

(** The option loop; [None] is a truncated option.  Each round consumes at least
    two bytes, so [length data] rounds always suffice. *)
Fixpoint decode_options_fuel (fuel : nat) (p : Packet) (data : bytes) : option Packet :=
  match fuel, data with
  | _, [] => Some p
  | O, _ => None
  | S fuel, [_] => None
  | S fuel, id :: size :: rest =>
      if bool_decide (len rest < size) then None
      else decode_options_fuel fuel (apply_option p id (ztake size rest)) (zdrop size rest)
  end.
Definition decodeLiteOptions (p : Packet) (data : bytes) : option Packet :=
  decode_options_fuel (length data) p data.

(** One round of [DecodePackets]: wait for more bytes, fail, or yield a packet
    and the remaining buffer. *)
Inductive decoded := NeedMore | BadFrame | Got (p : Packet) (rest : bytes).

Definition decode_one (buf : bytes) : decoded :=
  match buf with
  | b0 :: b1 :: b2 :: b3 :: b4 :: b5 :: b6 :: b7 :: b8 :: b9 :: b10 :: b11 :: body =>
      if bool_decide (b0 <> liteMagic) then BadFrame
      else
        let optSize := b1 in
        let payloadSize := le_val [b2; b3] in
        if bool_decide (len body < optSize + payloadSize) then NeedMore
        else
          let typeFlags := le_val [b8; b9] in
          let p := mkPacket (u8 (Z.land typeFlags 0xF)) (Z.shiftr typeFlags 4)
            (Z.shiftr b4 4) b5 (Z.land b4 0xF) b6 b7 (le_val [b10; b11]) [] [] 0 0 [] in
          match decodeLiteOptions p (ztake optSize body) with
          | None => BadFrame
          | Some p =>
              Got (with_Payload p (ztake payloadSize (zdrop optSize body)))
                (zdrop (optSize + payloadSize) body)
          end
  | _ => NeedMore
  end.

(** [DecodePackets]: packets, unconsumed bytes, error flag.  Every packet takes at
    least 12 bytes, so [length buf] rounds always suffice. *)
Fixpoint decode_packets_fuel (fuel : nat) (buf : bytes) : list Packet * bytes * bool :=
  match fuel with
  | O => ([], buf, false)
  | S fuel =>
      match decode_one buf with
      | NeedMore => ([], buf, false)
      | BadFrame => ([], buf, true)
      | Got p rest =>
          let '(ps, r, e) := decode_packets_fuel fuel rest in (p :: ps, r, e)
      end
  end.
Definition DecodePackets (buf : bytes) : list Packet * bytes * bool :=
  decode_packets_fuel (length buf) buf.

(** ** Every round makes progress *)
Lemma decode_one_shrinks buf p rest :
  decode_one buf = Got p rest -> (length rest < length buf)%nat.
Proof.
  do 12 (destruct buf as [|? buf]; [done|]). cbn [decode_one].
  case_bool_decide; [done|]. case_bool_decide as Hlen; [done|].
  destruct (decodeLiteOptions _ _); [|done]. intros [= <- <-].
  unfold zdrop. rewrite length_drop. cbn [length]. lia.
Qed.

Lemma decode_packets_fuel_enough f1 f2 buf :
  (length buf <= f1)%nat -> (length buf <= f2)%nat ->
  decode_packets_fuel f1 buf = decode_packets_fuel f2 buf.
Proof.
  revert f2 buf. induction f1 as [|f1 IH]; intros f2 buf H1 H2.
  - destruct buf; [|cbn in *; lia]. by destruct f2.
  - destruct f2; [destruct buf; [done|cbn in *; lia]|].
    cbn. destruct (decode_one buf) eqn:E; [done|done|].
    apply decode_one_shrinks in E. by rewrite (IH f2) by lia.
Qed.

(** The unfolding equation of the decoder, free of fuel. *)
Lemma DecodePackets_unfold buf :
  DecodePackets buf =
  match decode_one buf with
  | NeedMore => ([], buf, false)
  | BadFrame => ([], buf, true)
  | Got p rest => let '(ps, r, e) := DecodePackets rest in (p :: ps, r, e)
  end.
Proof.
  unfold DecodePackets. destruct buf as [|b buf]; [done|].
  cbn [length decode_packets_fuel]. destruct (decode_one _) eqn:E; [done|done|].
  apply decode_one_shrinks in E. cbn in E.
  by rewrite (decode_packets_fuel_enough _ (length rest)) by lia.
Qed.

(** ** Extending the buffer never changes what was already decoded *)
Lemma decode_one_app buf more p rest :
  Forall is_byte buf -> decode_one buf = Got p rest -> decode_one (buf ++ more) = Got p (rest ++ more).
Proof.
  do 12 (destruct buf as [|? buf]; [done|]). cbn. intros Hb.
  rewrite !Forall_cons in Hb. unfold is_byte in Hb. destruct_and! Hb.
  case_bool_decide; [done|]. case_bool_decide as Hlen; [done|].
  rewrite bool_decide_eq_false_2 by (rewrite len_app; pose proof (len_nonneg more); lia).
  unfold ztake, zdrop, len in *.
  rewrite take_app_le by lia. destruct (decodeLiteOptions _ _); [|done].
  intros [= <- <-]. rewrite !drop_app_le, take_app_le; [done| |lia|lia].
  rewrite length_drop. lia.
Qed.

Lemma decode_one_bad buf more :
  Forall is_byte buf -> decode_one buf = BadFrame -> decode_one (buf ++ more) = BadFrame.
Proof.
  do 12 (destruct buf as [|? buf]; [done|]). cbn. intros Hb.
  rewrite !Forall_cons in Hb. unfold is_byte in Hb. destruct_and! Hb.
  case_bool_decide; [done|]. case_bool_decide as Hlen; [done|].
  rewrite bool_decide_eq_false_2 by (rewrite len_app; pose proof (len_nonneg more); lia).
  unfold ztake, zdrop, len in *.
  rewrite take_app_le by lia. by destruct (decodeLiteOptions _ _).
Qed.

Lemma decode_one_bytes buf p rest :
  Forall is_byte buf -> decode_one buf = Got p rest -> Forall is_byte rest.
Proof.
  do 12 (destruct buf as [|? buf]; [done|]). cbn. intros Hb.
  case_bool_decide; [done|]. case_bool_decide as Hlen; [done|].
  destruct (decodeLiteOptions _ _); [|done]. intros [= <- <-].
  apply Forall_drop. by do 12 (apply Forall_cons in Hb as [_ Hb]).
Qed.

(** Decoding commutes with the arrival of more bytes. *)
Lemma DecodePackets_app a b ps r :
  Forall is_byte a -> DecodePackets a = (ps, r, false) ->
  DecodePackets (a ++ b) =
  let '(ps', r', e) := DecodePackets (r ++ b) in (ps ++ ps', r', e).
Proof.
  remember (length a) as n eqn:Hn. revert a Hn ps r.
  induction n as [n IH] using lt_wf_ind. intros a -> ps r Hb.
  rewrite (DecodePackets_unfold a). destruct (decode_one a) eqn:E; [|done|].
  - intros [= <- <-]. cbn. by destruct (DecodePackets (a ++ b)) as [[??]?].
  - destruct (DecodePackets rest) as [[ps1 r1] e1] eqn:E1. intros [= <- <- ->].
    rewrite (DecodePackets_unfold (a ++ b)), (decode_one_app _ _ _ _ Hb E).
    rewrite (IH (length rest)) with (ps := ps1) (r := r1);
      eauto using decode_one_shrinks, decode_one_bytes.
    by destruct (DecodePackets (r1 ++ b)) as [[??]?].
Qed.

(** ** Encode/decode round trip *)
Lemma decode_options_fuel_enough f1 f2 p data :
  (length data <= f1)%nat -> (length data <= f2)%nat ->
  decode_options_fuel f1 p data = decode_options_fuel f2 p data.
Proof.
  revert f2 p data. induction f1 as [|f1 IH]; intros f2 p data H1 H2.
  - destruct data; [|cbn in *; lia]. by destruct f2.
  - destruct f2; [destruct data; [done|cbn in *; lia]|].
    destruct data as [|id [|sz rest]]; [done|done|]. cbn in *. case_bool_decide; [done|].
    apply IH; unfold zdrop; rewrite length_drop; lia.
Qed.

Lemma decodeLiteOptions_put p id val rest :
  len val < 256 ->
  decodeLiteOptions p (put_option id val ++ rest) = decodeLiteOptions (apply_option p id val) rest.
Proof.
  intros Hv. pose proof (len_nonneg val). pose proof (len_nonneg rest).
  unfold decodeLiteOptions, put_option, u8. rewrite Z.mod_small by lia.
  cbn [app length decode_options_fuel].
  rewrite len_app, bool_decide_eq_false_2 by lia.
  rewrite ztake_app, zdrop_app by done.
  apply (decode_options_fuel_enough (S (length (val ++ rest)))); rewrite ?length_app; lia.
Qed.

Lemma decodeLiteOptions_nil p : decodeLiteOptions p [] = Some p.
Proof. done. Qed.

(** A packet whose fields fit the wire format, and whose optional fields are empty
    unless its type carries them.  247 bytes is what the one-byte option-area
    length leaves for a signature beside the 6-byte support option. *)
Definition packet_ok (p : Packet) : Prop :=
  is_uint 4 (p_Type p) /\ is_uint 12 (p_Flags p) /\
  is_uint 4 (p_SourceType p) /\ is_uint 4 (p_DestType p) /\
  is_uint 16 (p_PacketID p) /\ len (p_Payload p) < 2 ^ 16 /\
  (if bool_decide (p_Type p = PacketSYN) || bool_decide (p_Type p = PacketCONNECT)
   then is_uint 8 (p_MinorVersion p) /\ is_uint 24 (p_SupportedFunc p)
   else p_MinorVersion p = 0 /\ p_SupportedFunc p = 0) /\
  (if bool_decide (p_Type p = PacketSYN) && HasFlag p FlagACK
   then len (p_ConnectionSig p) <= 247 else p_ConnectionSig p = []) /\
  (if bool_decide (p_Type p = PacketCONNECT) && negb (HasFlag p FlagACK)
   then len (p_Signature p) <= 247 else p_Signature p = []).

Lemma nibbles hi lo :
  is_uint 4 hi -> is_uint 4 lo ->
  let b := Z.lor (u8 (Z.shiftl hi 4)) (Z.land lo 0xF) in
  Z.shiftr b 4 = hi /\ Z.land b 0xF = lo.
Proof.
  unfold is_uint. intros Hh Hl. cbn zeta.
  assert (u8 (Z.shiftl hi 4) = Z.shiftl hi 4) as ->.
  { unfold u8. rewrite Z.shiftl_mul_pow2 by lia. apply Z.mod_small. lia. }
  change 0xF with (2 ^ 4 - 1). rewrite !land_ones_mod, (Z.mod_small lo) by lia.
  rewrite Z.lor_comm, lor_shiftl_add, shiftr_div by lia.
  split; Z.div_mod_to_equations; lia.
Qed.

Lemma type_flags t f :
  is_uint 4 t -> is_uint 12 f ->
  let w := Z.lor (Z.land t 0xF) (u16 (Z.shiftl f 4)) in
  is_uint 16 w /\ u8 (Z.land w 0xF) = t /\ Z.shiftr w 4 = f.
Proof.
  unfold is_uint. intros Ht Hf. cbn zeta.
  assert (u16 (Z.shiftl f 4) = Z.shiftl f 4) as ->.
  { unfold u16. rewrite Z.shiftl_mul_pow2 by lia. apply Z.mod_small. lia. }
  change 0xF with (2 ^ 4 - 1). rewrite !land_ones_mod, (Z.mod_small t) by lia.
  rewrite lor_shiftl_add, shiftr_div by lia. unfold u8.
  split_and!; Z.div_mod_to_equations; lia.
Qed.

Lemma support_word_split p :
  is_uint 8 (p_MinorVersion p) -> is_uint 24 (p_SupportedFunc p) ->
  is_uint 32 (support_word p) /\
  u8 (Z.land (support_word p) 0xFF) = p_MinorVersion p /\
  Z.shiftr (support_word p) 8 = p_SupportedFunc p.
Proof.
  unfold is_uint, support_word. intros Hm Hs.
  assert (u32 (Z.shiftl (p_SupportedFunc p) 8) = Z.shiftl (p_SupportedFunc p) 8) as ->.
  { unfold u32. rewrite Z.shiftl_mul_pow2 by lia. apply Z.mod_small. lia. }
  change 0xFF with (2 ^ 8 - 1). rewrite land_ones_mod by lia.
  rewrite lor_shiftl_add, shiftr_div by lia. unfold u8.
  split_and!; Z.div_mod_to_equations; lia.
Qed.

(** The packet a decoder holds once the fixed header is read. *)
Definition header_of (p : Packet) : Packet :=
  mkPacket (p_Type p) (p_Flags p) (p_SourceType p) (p_SourcePort p) (p_DestType p)
    (p_DestPort p) (p_FragmentID p) (p_PacketID p) [] [] 0 0 [].

Lemma decode_encoded_options p :
  packet_ok p ->
  decodeLiteOptions (header_of p) (encodeLiteOptions p) = Some (with_Payload p []).
Proof.
  intros (Ht & Hf & Hst & Hdt & Hid & Hpl & Hsup & Hcs & Hsg).
  unfold encodeLiteOptions. destruct (_ || _) eqn:Esup.
  - destruct Hsup as [Hm Hs]. destruct (support_word_split p Hm Hs) as (Hw & H1 & H2).
    rewrite decodeLiteOptions_put by by rewrite len_le_bytes.
    unfold apply_option at 1. cbn [bool_decide]. rewrite (bool_decide_eq_true_2 (len _ = 4)) by done.
    rewrite le_val_small by done. unfold with_support. rewrite H1, H2. cbn [header_of p_Type].
    destruct (_ && HasFlag p FlagACK) eqn:Ecs.
    + apply andb_true_iff in Ecs as [Esyn Eack]. apply bool_decide_eq_true_1 in Esyn.
      rewrite Eack in *. rewrite andb_false_r in *.
      rewrite app_nil_r, <- (app_nil_r (put_option _ _)), decodeLiteOptions_put by lia.
      rewrite decodeLiteOptions_nil. destruct p; cbn in *. by subst.
    + cbn [app]. destruct (_ && negb _) eqn:Esg.
      * rewrite <- (app_nil_r (put_option _ _)), decodeLiteOptions_put by lia.
        rewrite decodeLiteOptions_nil. destruct p; cbn in *. by subst.
      * rewrite decodeLiteOptions_nil. destruct p; cbn in *. by subst.
  - apply orb_false_iff in Esup as [E1 E2]. rewrite E1, E2 in *. cbn in *.
    destruct Hsup, p; cbn in *. by subst.
Qed.

Lemma len_encodeLiteOptions p : packet_ok p -> len (encodeLiteOptions p) < 256.
Proof.
  intros (_ & _ & _ & _ & _ & _ & _ & Hcs & Hsg). unfold encodeLiteOptions, put_option.
  destruct (bool_decide (p_Type p = PacketSYN)) eqn:E1;
    destruct (bool_decide (p_Type p = PacketCONNECT)) eqn:E2; destruct_bool_decide;
    try (exfalso; unfold PacketSYN, PacketCONNECT in *; lia);
    cbn [orb andb] in *; destruct (HasFlag p FlagACK); cbn [negb] in *;
    autorewrite with golen; cbn [length]; lia.
Qed.

Lemma decode_encode_one p rest :
  packet_ok p -> decode_one (EncodePacket p ++ rest) = Got p rest.
Proof.
  intros Hok. pose proof (decode_encoded_options p Hok) as Hopt.
  pose proof (len_encodeLiteOptions p Hok) as Hol.
  destruct Hok as (Ht & Hf & Hst & Hdt & Hid & Hpl & _).
  destruct (nibbles _ _ Hst Hdt) as [Hn1 Hn2].
  destruct (type_flags _ _ Ht Hf) as (Hw & Ht1 & Hf1).
  pose proof (len_nonneg (encodeLiteOptions p)). pose proof (len_nonneg (p_Payload p)).
  pose proof (len_nonneg rest).
  unfold EncodePacket. rewrite <- !app_assoc. cbn [le_bytes app decode_one].
  rewrite bool_decide_eq_false_2 by (intros Hx; by apply Hx).
  pose proof (le_val_small 2 _ (u16_uint (len (p_Payload p)))) as Hl1.
  pose proof (le_val_small 2 _ Hw) as Hl2. pose proof (le_val_small 2 _ Hid) as Hl3.
  cbn [le_bytes] in Hl1, Hl2, Hl3. rewrite Hl1, Hl2, Hl3, Hn1, Hn2, Ht1, Hf1.
  unfold u8, u16. rewrite !Z.mod_small by lia.
  rewrite !len_app, bool_decide_eq_false_2 by lia.
  rewrite ztake_app by done. fold (header_of p). rewrite Hopt.
  rewrite (zdrop_app (encodeLiteOptions p)), ztake_app by done.
  rewrite app_assoc, zdrop_app by (by rewrite len_app). by destruct p.
Qed.

(** ** Streams of packets *)
Lemma decode_stream ps :
  Forall packet_ok ps -> DecodePackets (concat (EncodePacket <$> ps)) = (ps, [], false).
Proof.
  induction 1 as [|p ps Hp _ IH]; cbn [fmap list_fmap concat]; [done|].
  rewrite DecodePackets_unfold, decode_encode_one by done.
  change (list_fmap _ _ EncodePacket ps) with (EncodePacket <$> ps). by rewrite IH.
Qed.

Lemma DecodePackets_error a b :
  Forall is_byte a -> (DecodePackets a).2 = true -> (DecodePackets (a ++ b)).2 = true.
Proof.
  remember (length a) as n eqn:Hn. revert a Hn.
  induction n as [n IH] using lt_wf_ind. intros a -> Hb.
  rewrite (DecodePackets_unfold a), (DecodePackets_unfold (a ++ b)).
  destruct (decode_one a) as [| |p rest] eqn:E; [done|by rewrite decode_one_bad|].
  rewrite (decode_one_app _ _ _ _ Hb E). intros He.
  specialize (IH (length rest) (decode_one_shrinks _ _ _ E) rest eq_refl (decode_one_bytes _ _ _ Hb E)).
  destruct (DecodePackets rest) as [[ps1 r1] e1], (DecodePackets (rest ++ b)) as [[ps2 r2] e2].
  cbn in *. auto.
Qed.

(** [C20] Whatever the transport does to the frame boundaries, the packets come out as
    they were sent: cut the encoding of a list of packets anywhere, decode the first
    part, append the second to what was left over and decode again; no error is
    reported, nothing is left over and the packets are the ones encoded. *)
Theorem packet_stream_chunking ps a b :
  Forall packet_ok ps -> concat (EncodePacket <$> ps) = a ++ b -> Forall is_byte a ->
  exists ps1 rest ps2,
    DecodePackets a = (ps1, rest, false) /\ DecodePackets (rest ++ b) = (ps2, [], false) /\
    ps = ps1 ++ ps2.
Proof.
  intros Hok Heq Hb. pose proof (decode_stream ps Hok) as Hall. rewrite Heq in Hall.
  pose proof (DecodePackets_error a b Hb) as Herr. rewrite Hall in Herr. cbn in Herr.
  destruct (DecodePackets a) as [[ps1 rest] e1] eqn:Ha. destruct e1; [discriminate (Herr eq_refl)|].
  rewrite (DecodePackets_app a b ps1 rest Hb Ha) in Hall.
  destruct (DecodePackets (rest ++ b)) as [[ps2 r2] e2] eqn:Hd. injection Hall as <- <- <-.
  by exists ps1, rest, ps2.
Qed.

Definition ex_packet : Packet := mkPacket PacketDATA (Z.lor FlagReliable FlagNeedACK) 10 1 10 2 0 1 [] [] 0 0 [1; 2; 3].

Lemma packet_stream_chunking_witness :
  exists ps1 rest ps2, DecodePackets (take 20 (EncodePacket ex_packet ++ EncodePacket ex_packet)) = (ps1, rest, false) /\
    DecodePackets (rest ++ drop 20 (EncodePacket ex_packet ++ EncodePacket ex_packet)) = (ps2, [], false) /\
    [ex_packet; ex_packet] = ps1 ++ ps2.
Proof.
  apply (packet_stream_chunking [ex_packet; ex_packet]
    (take 20 (EncodePacket ex_packet ++ EncodePacket ex_packet))
    (drop 20 (EncodePacket ex_packet ++ EncodePacket ex_packet))).
  - assert (packet_ok ex_packet) by (vm_compute; intuition discriminate). by repeat constructor.
  - vm_compute. reflexivity.
  - apply (bool_decide_unpack _). vm_compute. exact I.
Defined.
