(* ===== verification/Matchmaking.v ===== *)
(** * Matchmaking structures (nextendo-nex/matchmaking.go)

    Gathering, MatchmakeParam, MatchmakeBlockListParam, MatchmakeSession and
    AutoMatchmakeParam with their wire layout, and the proof that a session
    survives the trip.  A nil [Params] map is the empty map. *)

From S2P Require Import Prelude GoStd Settings Stream Types.

Record Gathering := mkGathering {
  g_ID : Z;
  g_OwnerPID : Z;
  g_HostPID : Z;
  g_MinParticipants : Z;
  g_MaxParticipants : Z;
  g_ParticipationPolicy : Z;
  g_PolicyArgument : Z;
  g_Flags : Z;
  g_State : Z;
  g_Description : gostring
}.
Definition zero_Gathering : Gathering := mkGathering 0 0 0 0 0 0 0 0 0 [].

Definition save_Gathering (s : Settings) (g : Gathering) : bytes :=
  StreamOut.U32 (g_ID g) ++ StreamOut.PID s (g_OwnerPID g) ++ StreamOut.PID s (g_HostPID g) ++
  StreamOut.U16 (g_MinParticipants g) ++ StreamOut.U16 (g_MaxParticipants g) ++
  StreamOut.U32 (g_ParticipationPolicy g) ++ StreamOut.U32 (g_PolicyArgument g) ++
  StreamOut.U32 (g_Flags g) ++ StreamOut.U32 (g_State g) ++ StreamOut.GoString (g_Description g).

Definition load_Gathering (s : Settings) : reader Gathering :=
  (id <-- StreamInOps.U32 ;;
   owner <-- StreamInOps.PID s ;;
   host <-- StreamInOps.PID s ;;
   minp <-- StreamInOps.U16 ;;
   maxp <-- StreamInOps.U16 ;;
   policy <-- StreamInOps.U32 ;;
   arg <-- StreamInOps.U32 ;;
   flags <-- StreamInOps.U32 ;;
   state <-- StreamInOps.U32 ;;
   desc <-- StreamInOps.GoString ;;
   rret (mkGathering id owner host minp maxp policy arg flags state desc))%reader.

#[export] Instance Gathering_Structure : Structure Gathering := [
  {| Version := 0; Save := Some save_Gathering; Load := Some (fun s _ => load_Gathering s) |}].

Record MatchmakeParam := mkMatchmakeParam { Params : gmap gostring Variant }.

Definition save_MatchmakeParam `{GoRange} (p : MatchmakeParam) : bytes :=
  StreamOut.WriteMap (Params p) StreamOut.GoString write_Variant.
Definition load_MatchmakeParam : reader MatchmakeParam :=
  (m <-- StreamInOps.ReadMap StreamInOps.GoString read_Variant ;;
   rret (mkMatchmakeParam (default ∅ m)))%reader.

#[export] Instance MatchmakeParam_Structure `{GoRange} : Structure MatchmakeParam := [
  {| Version := 0; Save := Some (fun _ p => save_MatchmakeParam p);
     Load := Some (fun _ _ => load_MatchmakeParam) |}].

Record MatchmakeBlockListParam := mkBlockList { Options : Z }.
#[export] Instance BlockList_Structure : Structure MatchmakeBlockListParam := [
  {| Version := 0; Save := Some (fun _ p => StreamOut.U32 (Options p));
     Load := Some (fun _ _ => (o <-- StreamInOps.U32 ;; rret (mkBlockList o))%reader) |}].

Record MatchmakeSession := mkSession {
  ms_Gathering : Gathering;
  GameMode : Z;
  Attribs : list Z;
  OpenParticipation : bool;
  MatchmakeSystem : Z;
  ApplicationData : bytes;
  NumParticipants : Z;
  ProgressScore : Z;
  SessionKey : bytes;
  Option_ : Z;
  Param : MatchmakeParam;
  StartedTime : Z;
  UserPassword : gostring;
  ReferGID : Z;
  UserPasswordEnabled : bool;
  SystemPasswordEnabled : bool;
  Codeword : gostring
}.
Definition zero_Session : MatchmakeSession :=
  mkSession zero_Gathering 0 [] false 0 [] 0 0 [] 0 (mkMatchmakeParam ∅) 0 [] 0 false false [].

(** Promoted fields of the embedded Gathering. *)
Definition ms_ID (m : MatchmakeSession) := g_ID (ms_Gathering m).
Definition OwnerPID (m : MatchmakeSession) := g_OwnerPID (ms_Gathering m).
Definition HostPID (m : MatchmakeSession) := g_HostPID (ms_Gathering m).
Definition MinParticipants (m : MatchmakeSession) := g_MinParticipants (ms_Gathering m).
Definition MaxParticipants (m : MatchmakeSession) := g_MaxParticipants (ms_Gathering m).

Definition with_Gathering (g : Gathering) (m : MatchmakeSession) : MatchmakeSession :=
  mkSession g (GameMode m) (Attribs m) (OpenParticipation m) (MatchmakeSystem m)
    (ApplicationData m) (NumParticipants m) (ProgressScore m) (SessionKey m) (Option_ m)
    (Param m) (StartedTime m) (UserPassword m) (ReferGID m) (UserPasswordEnabled m)
    (SystemPasswordEnabled m) (Codeword m).

Definition save_session_level `{GoRange} (s : Settings) (m : MatchmakeSession) : bytes :=
  StreamOut.U32 (GameMode m) ++ StreamOut.WriteList (Attribs m) StreamOut.U32 ++
  StreamOut.Bool (OpenParticipation m) ++ StreamOut.U32 (MatchmakeSystem m) ++
  StreamOut.Buffer (ApplicationData m) ++ StreamOut.U32 (NumParticipants m) ++
  StreamOut.U8 (ProgressScore m) ++ StreamOut.Buffer (SessionKey m) ++
  StreamOut.U32 (Option_ m) ++ WriteStructure s (Param m) ++
  StreamOut.DateTime (StartedTime m) ++ StreamOut.GoString (UserPassword m) ++
  StreamOut.U32 (ReferGID m) ++ StreamOut.Bool (UserPasswordEnabled m) ++
  StreamOut.Bool (SystemPasswordEnabled m) ++ StreamOut.GoString (Codeword m).

Definition load_session_level `{GoRange} (s : Settings) (c : MatchmakeSession)
    : reader MatchmakeSession :=
  (mode <-- StreamInOps.U32 ;;
   attribs <-- StreamInOps.ReadList StreamInOps.U32 ;;
   open <-- StreamInOps.Bool ;;
   system <-- StreamInOps.U32 ;;
   app <-- StreamInOps.Buffer ;;
   num <-- StreamInOps.U32 ;;
   progress <-- StreamInOps.U8 ;;
   key <-- StreamInOps.Buffer ;;
   option <-- StreamInOps.U32 ;;
   param <-- ReadStructure s (Param c) ;;
   started <-- StreamInOps.DateTime ;;
   password <-- StreamInOps.GoString ;;
   refer <-- StreamInOps.U32 ;;
   upe <-- StreamInOps.Bool ;;
   spe <-- StreamInOps.Bool ;;
   code <-- StreamInOps.GoString ;;
   rret (mkSession (ms_Gathering c) mode attribs open system app num progress key option param
     started password refer upe spe code))%reader.

(** The inherited Gathering level followed by the session level. *)
#[export] Instance MatchmakeSession_Structure `{GoRange} : Structure MatchmakeSession := [
  {| Version := 0; Save := Some (fun s m => save_Gathering s (ms_Gathering m));
     Load := Some (fun s c => (g <-- load_Gathering s ;; rret (with_Gathering g c))%reader) |};
  {| Version := 0; Save := Some save_session_level; Load := Some load_session_level |}].

Record AutoMatchmakeParam := mkAutoParam { am_Session : MatchmakeSession }.
#[export] Instance AutoMatchmakeParam_Structure `{GoRange} : Structure AutoMatchmakeParam := [
  {| Version := 0; Save := Some (fun s a => WriteStructure s (am_Session a));
     Load := Some (fun s c =>
       (m <-- ReadStructure s (am_Session c) ;; rret (mkAutoParam m))%reader) |}].

(** ** Well-formed values: every field fits its wire type *)
Definition gathering_ok (s : Settings) (g : Gathering) : Prop :=
  is_uint 32 (g_ID g) /\ is_pid s (g_OwnerPID g) /\ is_pid s (g_HostPID g) /\
  is_uint 16 (g_MinParticipants g) /\ is_uint 16 (g_MaxParticipants g) /\
  is_uint 32 (g_ParticipationPolicy g) /\ is_uint 32 (g_PolicyArgument g) /\
  is_uint 32 (g_Flags g) /\ is_uint 32 (g_State g) /\ str_ok (g_Description g).

Definition param_ok `{GoRange} (p : MatchmakeParam) : Prop :=
  len (save_MatchmakeParam p) < 2 ^ 31 /\
  map_Forall (fun k v => str_ok k /\ variant_ok v) (Params p).

Definition session_ok `{GoRange} (s : Settings) (m : MatchmakeSession) : Prop :=
  gathering_ok s (ms_Gathering m) /\ is_uint 32 (GameMode m) /\
  len (Attribs m) < 2 ^ 20 /\ Forall (is_uint 32) (Attribs m) /\
  is_uint 32 (MatchmakeSystem m) /\ len (ApplicationData m) < 2 ^ 20 /\
  is_uint 32 (NumParticipants m) /\ is_uint 8 (ProgressScore m) /\
  len (SessionKey m) < 2 ^ 20 /\ is_uint 32 (Option_ m) /\ param_ok (Param m) /\
  is_uint 64 (StartedTime m) /\ str_ok (UserPassword m) /\ is_uint 32 (ReferGID m) /\
  str_ok (Codeword m).

(** ** Round trips *)
Lemma decodes_Gathering_level s g :
  gathering_ok s g -> decodes (load_Gathering s) (save_Gathering s g) g.
Proof.
  destruct g. unfold gathering_ok, load_Gathering, save_Gathering; cbn.
  intros. destruct_and!. decode_fields.
Qed.

Lemma len_save_Gathering s g :
  gathering_ok s g -> len (save_Gathering s g) < 2 ^ 17.
Proof.
  unfold gathering_ok. intros. destruct_and!. unfold save_Gathering, str_ok in *. autorewrite with golen.
  case_bool_decide; lia.
Qed.

Lemma size_le_WriteMap `{GoRange} (m : gmap gostring Variant) :
  Z.of_nat (size m) <= len (StreamOut.WriteMap m StreamOut.GoString write_Variant).
Proof.
  unfold StreamOut.WriteMap. rewrite len_app, len_U32.
  assert (len (range m) <=
    len (concat ((fun kv => StreamOut.GoString kv.1 ++ write_Variant kv.2) <$> range m))) as Hl.
  { apply (concat_len_ge (fun kv : gostring * Variant => StreamOut.GoString kv.1 ++ write_Variant kv.2)).
    apply Forall_forall. intros [k v] _. cbn. rewrite len_app, len_GoString.
    pose proof (len_nonneg k). pose proof (len_nonneg (write_Variant v)). lia. }
  unfold len in Hl at 1. rewrite length_range in Hl. lia.
Qed.

Lemma decodes_MatchmakeParam `{GoRange} s p c :
  param_ok p -> decodes (ReadStructure s c) (WriteStructure s p) p.
Proof.
  intros [Hlen Hp]. destruct p as [m]. apply decodes_Structure1. split; [done|].
  unfold level_body; cbn [Save]. split; [lia|]. eexists; split; [done|]. intros c'. cbn.
  unfold load_MatchmakeParam, save_MatchmakeParam in *; cbn in *.
  pose proof (size_le_WriteMap m).
  eapply decodes_bind_ret_eq; [apply decodes_ReadMap; [lia|]|done].
  intros k v Hkv. destruct (Hp k v Hkv) as [Hk Hv].
  split_and!; [by apply decodes_GoString|by apply decodes_Variant|].
  rewrite len_GoString. pose proof (len_nonneg k). lia.
Qed.

Lemma decodes_attribs l :
  len l < 2 ^ 20 -> Forall (is_uint 32) l ->
  decodes (StreamInOps.ReadList StreamInOps.U32) (StreamOut.WriteList l StreamOut.U32) l.
Proof.
  intros Hl Hall. apply decodes_ReadList; [lia|]. eapply Forall_impl; [done|].
  intros x Hx. rewrite len_U32. split; [by apply decodes_U32|lia].
Qed.

#[export] Hint Resolve decodes_MatchmakeParam decodes_attribs : codec.

Lemma decodes_session_level `{GoRange} s m c :
  session_ok s m ->
  decodes (load_session_level s c) (save_session_level s m) (with_Gathering (ms_Gathering c) m).
Proof.
  destruct m. unfold session_ok, load_session_level, save_session_level, with_Gathering; cbn.
  intros. destruct_and!.
  assert (len ApplicationData0 < 2 ^ 32) by lia. assert (len SessionKey0 < 2 ^ 32) by lia.
  decode_fields.
Qed.

Lemma len_WriteParam `{GoRange} s p :
  param_ok p -> len (WriteStructure s p) < 2 ^ 31 + 5.
Proof.
  intros [Hp _]. unfold WriteStructure, level_body; cbn. rewrite app_nil_r.
  destruct (StructHeader s); autorewrite with golen; lia.
Qed.

Lemma len_save_session_level `{GoRange} s m :
  session_ok s m -> len (save_session_level s m) < 2 ^ 32 - 2 ^ 18.
Proof.
  unfold session_ok, save_session_level, str_ok. intros. destruct_and!.
  pose proof (len_WriteParam s (Param m) ltac:(done)).
  autorewrite with golen. lia.
Qed.

Lemma decodes_Session `{GoRange} s m c :
  session_ok s m -> decodes (ReadStructure s c) (WriteStructure s m) m.
Proof.
  intros Hok. pose proof Hok as (Hg & _).
  apply (decodes_Structure _ _ _ [with_Gathering (ms_Gathering m);
    fun x => with_Gathering (ms_Gathering x) m]).
  - repeat apply Forall2_cons_2; [| |apply Forall2_nil_2]; (split; [done|]); split.
    + unfold level_body; cbn. pose proof (len_save_Gathering s _ Hg). lia.
    + eexists; split; [done|]. intros x.
      eapply decodes_bind_ret_eq; [by apply decodes_Gathering_level|done].
    + unfold level_body; cbn. pose proof (len_save_session_level s m Hok). lia.
    + eexists; split; [done|]. intros x. by apply decodes_session_level.
  - by destruct m.
Qed.

Lemma len_WriteSession `{GoRange} s m :
  session_ok s m -> len (WriteStructure s m) < 2 ^ 32.
Proof.
  intros Hok. pose proof (len_save_session_level s m Hok). pose proof Hok as (Hg & _).
  pose proof (len_save_Gathering s _ Hg).
  unfold WriteStructure, level_body; cbn. rewrite app_nil_r.
  destruct (StructHeader s); autorewrite with golen; lia.
Qed.

Lemma decodes_AutoParam `{GoRange} s a c :
  session_ok s (am_Session a) -> decodes (ReadStructure s c) (WriteStructure s a) a.
Proof.
  intros Hok. destruct a as [m]. apply decodes_Structure1. split; [done|]. split.
  - unfold level_body; cbn. by apply len_WriteSession.
  - eexists; split; [done|]. intros c'.
    eapply decodes_bind_ret_eq; [by apply decodes_Session|done].
Qed.

(** A matchmake session survives the trip: whatever object it is read into, and
    whatever follows it in the buffer, the reader gets back the session that was
    written and stops right behind it, for every order in which the writer visits the
    parameter map. *)
Theorem session_wire_roundtrip `{GoRange} s m c rest :
  session_ok s m ->
  ReadStructure s c (NewStreamIn (WriteStructure s m ++ rest)) = (m, NewStreamIn rest).
Proof. intros Hok. apply (decodes_Session s m c Hok). Qed.

Lemma session_wire_roundtrip_witness :
  ReadStructure (H := MatchmakeSession_Structure (H := canonical_range)) mk8_settings zero_Session
    (NewStreamIn (WriteStructure (H := MatchmakeSession_Structure (H := canonical_range)) mk8_settings
       zero_Session ++ [1; 2])) = (zero_Session, NewStreamIn [1; 2]).
Proof.
  apply (session_wire_roundtrip (H := canonical_range)).
  unfold session_ok, gathering_ok, param_ok, is_uint, is_pid, str_ok.
  split_and!; match goal with
    | |- map_Forall _ _ => apply map_Forall_empty
    | |- Forall _ _ => by apply Forall_nil
    | |- _ => vm_compute; try split; first [reflexivity | discriminate]
    end.
Defined.
