(* ===== verification/Reservations.v ===== *)
(** * Atomic expiring seat reservations (nextendo-nex/matchmaking_reservations.go)

    One gathering of the store and the seat operations the store runs on it with
    its mutex held.  Instants are nanoseconds; [now] is the reading of [m.now()]
    the operation makes.  The file ends with the abstract seat table the
    operations implement. *)

From S2P Require Import Prelude GoStd Settings Stream Types Matchmaking.

(** [type gathering]: [g_reservations] maps a PID to the expiry of its seat. *)
Record gathering := mkgathering {
  session : MatchmakeSession;
  participants : list Z;
  hostConnID : Z;
  code : gostring;
  reservations : gmap Z Z
}.

Definition second_ns : Z := 10 ^ 9.
Definition defaultJoinReservationTTL : Z := 8 * second_ns.

Definition with_session (s : MatchmakeSession) (g : gathering) : gathering :=
  mkgathering s (participants g) (hostConnID g) (code g) (reservations g).
Definition with_participants (ps : list Z) (g : gathering) : gathering :=
  mkgathering (session g) ps (hostConnID g) (code g) (reservations g).
Definition with_code (c : gostring) (g : gathering) : gathering :=
  mkgathering (session g) (participants g) (hostConnID g) c (reservations g).
Definition with_reservations (r : gmap Z Z) (g : gathering) : gathering :=
  mkgathering (session g) (participants g) (hostConnID g) (code g) r.

Fixpoint containsPID (l : list Z) (pid : Z) : bool :=
  match l with
  | [] => false
  | p :: l => if bool_decide (p = pid) then true else containsPID l pid
  end.

Fixpoint removePID (l : list Z) (pid : Z) : list Z :=
  match l with
  | [] => []
  | p :: l => if bool_decide (p <> pid) then p :: removePID l pid else removePID l pid
  end.

(** [SetJoinReservationTTL] restores the default for a non-positive duration. *)
Definition SetJoinReservationTTL (ttl : Z) : Z :=
  if bool_decide (ttl <= 0) then defaultJoinReservationTTL else ttl.

(** A reservation is live while [now.Before(expires)]. *)
Definition live (now : Z) (kv : Z * Z) : Prop := now < kv.2.
#[export] Instance live_dec now kv : Decision (live now kv).
Proof. unfold live. apply _. Defined.

Definition expireJoinReservationsLocked (g : gathering) (now : Z) : gathering :=
  with_reservations (filter (live now) (reservations g)) g.

Definition seats (g : gathering) : Z :=
  len (participants g) + Z.of_nat (size (reservations g)).

Definition occupiedSeatsLocked (g : gathering) (now : Z) : Z * gathering :=
  let g' := expireJoinReservationsLocked g now in (seats g', g').

Definition reserveJoinLocked (ttl now : Z) (g : gathering) (pid : Z) : bool * gathering :=
  if containsPID (participants g) pid
  then (true, with_reservations (delete pid (reservations g)) g)
  else
    let g := expireJoinReservationsLocked g now in
    if bool_decide (is_Some (reservations g !! pid))
    then (true, with_reservations (<[pid := now + ttl]> (reservations g)) g)
    else if bool_decide (0 < MaxParticipants (session g)) &&
            bool_decide (MaxParticipants (session g) <= seats g)
    then (false, g)
    else (true, with_reservations (<[pid := now + ttl]> (reservations g)) g).

Definition commitReservedJoinLocked (now : Z) (g : gathering) (pid : Z) : bool * gathering :=
  let g' := with_reservations (delete pid (reservations g)) g in
  if containsPID (participants g) pid then (false, g')
  else match reservations g !! pid with
       | None => (false, g')
       | Some expires =>
           if negb (bool_decide (now < expires)) then (false, g')
           else (true, with_participants (participants g ++ [pid]) g')
       end.

(** ** Membership *)
Lemma containsPID_spec l pid : containsPID l pid = bool_decide (pid ∈ l).
Proof.
  induction l as [|p l IH]; cbn.
  - by rewrite bool_decide_eq_false_2 by (by intros ?%elem_of_nil).
  - destruct (bool_decide_reflect (p = pid)) as [->|Hp].
    + by rewrite bool_decide_eq_true_2 by (apply elem_of_cons; auto).
    + rewrite IH. apply bool_decide_ext. rewrite elem_of_cons. naive_solver.
Qed.

Lemma removePID_filter l pid : removePID l pid = filter (fun p => p <> pid) l.
Proof.
  induction l as [|p l IH]; [done|]. rewrite filter_cons. cbn [removePID]. rewrite IH.
  case_bool_decide; case_decide; done.
Qed.

Lemma elem_of_removePID l pid p : p ∈ removePID l pid <-> p ∈ l /\ p <> pid.
Proof. rewrite removePID_filter, list_elem_of_filter. tauto. Qed.

Lemma removePID_NoDup l pid : NoDup l -> NoDup (removePID l pid).
Proof. rewrite removePID_filter. apply NoDup_filter. Qed.

Lemma removePID_length l pid : (length (removePID l pid) <= length l)%nat.
Proof. rewrite removePID_filter. apply length_filter. Qed.

Lemma removePID_not_in l pid : pid ∉ l -> removePID l pid = l.
Proof.
  induction l as [|p l IH]; cbn; [done|]. rewrite not_elem_of_cons. intros [Hne Hn].
  rewrite bool_decide_eq_true_2 by done. by rewrite IH.
Qed.

(** ** The gathering invariant *)

(** Nobody is listed twice and nobody both sits and holds a promised seat. *)
Definition seats_ok (g : gathering) : Prop :=
  NoDup (participants g) /\ (forall pid, pid ∈ participants g -> reservations g !! pid = None).

(** The taken seats stay within the session's limit. *)
Definition within_capacity (g : gathering) : Prop := seats g <= MaxParticipants (session g).

Lemma size_delete_le (m : gmap Z Z) k : (size (delete k m) <= size m)%nat.
Proof. apply map_subseteq_size, delete_subseteq. Qed.

Lemma size_filter_le (m : gmap Z Z) now : (size (filter (live now) m) <= size m)%nat.
Proof. apply map_subseteq_size, map_filter_subseteq. Qed.

Lemma expire_seats g now : seats (expireJoinReservationsLocked g now) <= seats g.
Proof.
  unfold seats, expireJoinReservationsLocked; cbn.
  pose proof (size_filter_le (reservations g) now). lia.
Qed.

Lemma expire_seats_ok g now : seats_ok g -> seats_ok (expireJoinReservationsLocked g now).
Proof.
  intros [Hnd Hr]. split; [done|]. cbn. intros pid Hp. rewrite map_lookup_filter, (Hr pid Hp). done.
Qed.

Lemma delete_seats_ok g pid :
  seats_ok g -> seats_ok (with_reservations (delete pid (reservations g)) g).
Proof.
  intros [Hnd Hr]. split; [done|]. cbn. intros p Hp. apply lookup_delete_None. auto.
Qed.

Lemma insert_seats_ok g pid e :
  pid ∉ participants g -> seats_ok g ->
  seats_ok (with_reservations (<[pid := e]> (reservations g)) g).
Proof.
  intros Hn [Hnd Hr]. split; [done|]. cbn. intros p Hp.
  rewrite lookup_insert_ne by (intros ->; done). auto.
Qed.

(** ** The abstract seat table

    What the store promises about one gathering: a set of seated players, a
    disjoint set of promised ones and a limit on their number (0: no limit).  Time
    only ever takes promised seats away. *)
Record seat_table := mkTable { seated : gset Z; promised : gset Z; limit : Z }.

Inductive seat_event :=
  | EvReserve (pid : Z) (granted : bool)
  | EvCommit (pid : Z) (joined : bool)
  | EvCancel (pid : Z)
  | EvExpire.

Definition room (t : seat_table) : Prop :=
  limit t <= 0 \/ Z.of_nat (size (seated t)) + Z.of_nat (size (promised t)) < limit t.

#[export] Instance room_dec t : Decision (room t).
Proof. unfold room. apply _. Defined.

Inductive seat_step : seat_table -> seat_event -> seat_table -> Prop :=
  | step_reserve_seated t pid :
      pid ∈ seated t -> seat_step t (EvReserve pid true) t
  | step_reserve_renew t pid :
      pid ∉ seated t -> pid ∈ promised t -> seat_step t (EvReserve pid true) t
  | step_reserve_new t pid :
      pid ∉ seated t -> pid ∉ promised t -> room t ->
      seat_step t (EvReserve pid true) (mkTable (seated t) ({[pid]} ∪ promised t) (limit t))
  | step_reserve_full t pid :
      pid ∉ seated t -> pid ∉ promised t -> ~ room t ->
      seat_step t (EvReserve pid false) t
  | step_commit_join t pid :
      pid ∉ seated t -> pid ∈ promised t ->
      seat_step t (EvCommit pid true)
        (mkTable ({[pid]} ∪ seated t) (promised t ∖ {[pid]}) (limit t))
  | step_commit_stale t pid :
      pid ∈ seated t \/ pid ∉ promised t -> seat_step t (EvCommit pid false) t
  | step_cancel t pid :
      seat_step t (EvCancel pid) (mkTable (seated t) (promised t ∖ {[pid]}) (limit t))
  | step_expire t p :
      p ⊆ promised t -> seat_step t EvExpire (mkTable (seated t) p (limit t)).

Definition table_ok (t : seat_table) : Prop :=
  seated t ## promised t /\
  (0 < limit t -> Z.of_nat (size (seated t)) + Z.of_nat (size (promised t)) <= limit t).

(** The abstract promise: no step overbooks or seats a player twice. *)
Lemma seat_step_ok t e t' : seat_step t e t' -> table_ok t -> table_ok t'.
Proof.
  intros Hs [Hd Hc]. destruct Hs as [| | t pid Hs Hp Hr | | t pid Hs Hp | | t pid | t p Hp]; try done; split; cbn.
  - set_solver.
  - intros Hl. rewrite size_union by set_solver. rewrite size_singleton.
    destruct Hr as [Hr|Hr]; lia.
  - set_solver.
  - intros Hl. specialize (Hc Hl). rewrite size_union by set_solver.
    rewrite size_singleton. rewrite size_difference by set_solver. rewrite size_singleton.
    assert (size (promised t) <> 0%nat); [|lia].
    apply size_non_empty_iff. set_solver.
  - set_solver.
  - intros Hl. specialize (Hc Hl).
    pose proof (subseteq_size (promised t ∖ {[pid]}) (promised t) ltac:(set_solver)). lia.
  - set_solver.
  - intros Hl. specialize (Hc Hl). pose proof (subseteq_size _ _ Hp). lia.
Qed.

(** What an observer at instant [now] sees of a gathering. *)
Definition view (now : Z) (g : gathering) : seat_table :=
  mkTable (list_to_set (participants g)) (dom (filter (live now) (reservations g)))
    (MaxParticipants (session g)).

Lemma filter_live_idem now (m : gmap Z Z) : filter (live now) (filter (live now) m) = filter (live now) m.
Proof. rewrite map_filter_filter. apply map_filter_ext. naive_solver. Qed.

Lemma view_expire now g : view now (expireJoinReservationsLocked g now) = view now g.
Proof. unfold view; cbn. by rewrite filter_live_idem. Qed.

Lemma elem_of_promised now g pid :
  pid ∈ promised (view now g) <-> exists e, reservations g !! pid = Some e /\ now < e.
Proof.
  unfold view; cbn. rewrite elem_of_dom. unfold is_Some.
  setoid_rewrite map_lookup_filter_Some. done.
Qed.

Lemma elem_of_seated now g pid : pid ∈ seated (view now g) <-> pid ∈ participants g.
Proof. unfold view; cbn. apply elem_of_list_to_set. Qed.

Lemma view_size now g :
  seats_ok g ->
  Z.of_nat (size (seated (view now g))) + Z.of_nat (size (promised (view now g))) =
  seats (expireJoinReservationsLocked g now).
Proof.
  intros [Hnd _]. unfold view, seats; cbn. rewrite size_list_to_set by done.
  rewrite size_dom. unfold len. lia.
Qed.

Lemma view_insert now g pid e :
  now < e ->
  view now (with_reservations (<[pid := e]> (reservations g)) g) =
  mkTable (seated (view now g)) ({[pid]} ∪ promised (view now g)) (limit (view now g)).
Proof.
  intros He. unfold view; cbn. f_equal. rewrite map_filter_insert_True by done. set_solver.
Qed.

Lemma view_delete now g pid :
  view now (with_reservations (delete pid (reservations g)) g) =
  mkTable (seated (view now g)) (promised (view now g) ∖ {[pid]}) (limit (view now g)).
Proof. unfold view; cbn. f_equal. rewrite map_filter_delete, dom_delete_L. done. Qed.

Lemma view_room now g :
  seats_ok g ->
  room (view now g) <->
  ~ (0 < MaxParticipants (session g) /\
     MaxParticipants (session g) <= seats (expireJoinReservationsLocked g now)).
Proof. intros Hg. unfold room. rewrite view_size by done. cbn. lia. Qed.

Lemma reserve_ok ttl now g pid :
  seats_ok g -> seats_ok (reserveJoinLocked ttl now g pid).2.
Proof.
  intros Hg. unfold reserveJoinLocked. rewrite containsPID_spec.
  case_bool_decide as Hp; [by apply delete_seats_ok|].
  pose proof (expire_seats_ok g now Hg).
  repeat case_match; cbn [snd]; auto using insert_seats_ok.
Qed.

Lemma commit_ok now g pid :
  seats_ok g -> seats_ok (commitReservedJoinLocked now g pid).2.
Proof.
  intros Hg. pose proof (delete_seats_ok g pid Hg) as Hd. unfold commitReservedJoinLocked.
  rewrite containsPID_spec. case_bool_decide as Hp; [done|].
  case_match; [|done]. case_match; [done|]. destruct Hd as [Hnd Hr]. split; cbn in *.
  - apply NoDup_app. split_and!; [done| |apply NoDup_singleton].
    intros x Hx ->%list_elem_of_singleton. done.
  - intros p [Hp'| ->%list_elem_of_singleton]%elem_of_app; [auto|]. apply lookup_delete_eq.
Qed.

(** A reservation attempt is a step of the table. *)
Lemma reserve_sim ttl now g pid :
  seats_ok g -> 0 < ttl ->
  seat_step (view now g) (EvReserve pid (reserveJoinLocked ttl now g pid).1)
    (view now (reserveJoinLocked ttl now g pid).2).
Proof.
  intros Hg Httl. unfold reserveJoinLocked. rewrite containsPID_spec.
  case_bool_decide as Hp; cbn [fst snd].
  - rewrite view_delete. assert (pid ∉ promised (view now g)) as Hn.
    { rewrite elem_of_promised. intros (e & He & _). destruct Hg as [_ Hg]. by rewrite Hg in He. }
    rewrite difference_disjoint_L by set_solver. cbn [seated promised limit].
    by apply step_reserve_seated, elem_of_seated.
  - assert (pid ∉ seated (view now g)) as Hns by (by rewrite elem_of_seated).
    set (g1 := expireJoinReservationsLocked g now).
    assert (is_Some (reservations g1 !! pid) <-> pid ∈ promised (view now g)) as Hpend.
    { unfold view, g1; cbn. by rewrite elem_of_dom. }
    rewrite <- (view_expire now g) in *. fold g1 in Hpend, Hns |- *.
    case_bool_decide as Hex; cbn [fst snd].
    + rewrite view_insert by lia. rewrite (subseteq_union_1_L {[pid]}) by set_solver.
      destruct (view now g1) eqn:?. apply step_reserve_renew; [done|]. by apply Hpend.
    + assert (seats_ok g1) as Hg1 by (by apply expire_seats_ok).
      pose proof (view_room now g1 Hg1) as Hroom.
      assert (expireJoinReservationsLocked g1 now = g1) as Hidem.
      { unfold g1, expireJoinReservationsLocked, with_reservations; cbn. by rewrite filter_live_idem. }
      rewrite Hidem in Hroom.
      destruct (bool_decide _ && bool_decide _) eqn:Hfull; cbn [fst snd]; destruct_bool_decide.
      * apply step_reserve_full; [done|tauto|tauto].
      * rewrite view_insert by lia. apply step_reserve_new; [done|tauto|].
        apply Hroom. intros [? ?]. rewrite !bool_decide_eq_true_2 in Hfull by done. done.
Qed.

Lemma commit_sim now g pid :
  seats_ok g ->
  seat_step (view now g) (EvCommit pid (commitReservedJoinLocked now g pid).1)
    (view now (commitReservedJoinLocked now g pid).2).
Proof.
  intros Hg. unfold commitReservedJoinLocked. rewrite containsPID_spec.
  assert (pid ∉ promised (view now g) ->
    view now (with_reservations (delete pid (reservations g)) g) = view now g) as Hdel.
  { intros Hn. rewrite view_delete, difference_disjoint_L by set_solver. done. }
  case_bool_decide as Hp; cbn [fst snd].
  - rewrite Hdel; [|rewrite elem_of_promised; intros (e & He & _); destruct Hg as [_ Hg];
      by rewrite Hg in He]. apply step_commit_stale. left. by apply elem_of_seated.
  - destruct (reservations g !! pid) as [e|] eqn:He; cbn [fst snd].
    + case_bool_decide as Hlive; cbn [negb fst snd].
      * assert (view now (with_participants (participants g ++ [pid])
            (with_reservations (delete pid (reservations g)) g)) =
          mkTable ({[pid]} ∪ seated (view now g)) (promised (view now g) ∖ {[pid]})
            (limit (view now g))) as ->.
        { unfold view; cbn. rewrite map_filter_delete, dom_delete_L. f_equal. set_solver. }
        apply step_commit_join; [by rewrite elem_of_seated|].
        rewrite elem_of_promised; eauto.
      * assert (pid ∉ promised (view now g)) as Hn.
        { rewrite elem_of_promised. intros (e' & He' & ?). simplify_eq. lia. }
        rewrite Hdel by done. apply step_commit_stale. auto.
    + assert (pid ∉ promised (view now g)) as Hn.
      { rewrite elem_of_promised. intros (e' & He' & ?). congruence. }
      rewrite Hdel by done. apply step_commit_stale. auto.
Qed.

Lemma time_sim now now' g : now <= now' -> seat_step (view now g) EvExpire (view now' g).
Proof.
  intros Hle.
  assert (view now' g = mkTable (seated (view now g)) (promised (view now' g)) (limit (view now g)))
    as -> by done.
  apply step_expire. intros p. rewrite !elem_of_promised. intros (e & He & ?). exists e. split; [done|lia].
Qed.

(** ** Histories of one gathering *)
Inductive seat_op := OpReserve (pid : Z) | OpCommit (pid : Z) | OpCancel (pid : Z).

(** [CancelJoinReservation] on a gathering that exists. *)
Definition cancelJoin (g : gathering) (pid : Z) : gathering :=
  with_reservations (delete pid (reservations g)) g.

Definition run_seat_op (ttl now : Z) (g : gathering) (o : seat_op) : seat_event * gathering :=
  match o with
  | OpReserve pid => let '(b, g') := reserveJoinLocked ttl now g pid in (EvReserve pid b, g')
  | OpCommit pid => let '(b, g') := commitReservedJoinLocked now g pid in (EvCommit pid b, g')
  | OpCancel pid => (EvCancel pid, cancelJoin g pid)
  end.

Fixpoint run_seat_ops (ttl : Z) (g : gathering) (ops : list (Z * seat_op))
    : list (Z * seat_event) * gathering :=
  match ops with
  | [] => ([], g)
  | (now, o) :: ops =>
      let '(e, g1) := run_seat_op ttl now g o in
      let '(es, g2) := run_seat_ops ttl g1 ops in ((now, e) :: es, g2)
  end.

(** Abstract histories: before each operation the clock may advance. *)
Inductive seat_trace : Z -> seat_table -> list (Z * seat_event) -> seat_table -> Prop :=
  | trace_nil now t : seat_trace now t [] t
  | trace_cons now now' t0 t1 t2 t3 e es :
      now <= now' -> seat_step t0 EvExpire t1 -> seat_step t1 e t2 ->
      seat_trace now' t2 es t3 -> seat_trace now t0 ((now', e) :: es) t3.

Lemma seat_trace_ok now t es t' : seat_trace now t es t' -> table_ok t -> table_ok t'.
Proof. induction 1; eauto using seat_step_ok. Qed.

Fixpoint last_time (now : Z) (ops : list (Z * seat_op)) : Z :=
  match ops with [] => now | (now', _) :: ops => last_time now' ops end.

(** The clock readings of a history never go back. *)
Fixpoint monotone (now : Z) (ops : list (Z * seat_op)) : Prop :=
  match ops with [] => True | (now', _) :: ops => now <= now' /\ monotone now' ops end.

Lemma run_seat_op_sim ttl now g o :
  seats_ok g -> 0 < ttl ->
  seat_step (view now g) (run_seat_op ttl now g o).1 (view now (run_seat_op ttl now g o).2) /\
  seats_ok (run_seat_op ttl now g o).2.
Proof.
  intros Hg Ht. destruct o as [pid|pid|pid]; cbn.
  - pose proof (reserve_sim ttl now g pid Hg Ht). pose proof (reserve_ok ttl now g pid Hg).
    by destruct (reserveJoinLocked ttl now g pid).
  - pose proof (commit_sim now g pid Hg). pose proof (commit_ok now g pid Hg).
    by destruct (commitReservedJoinLocked now g pid).
  - split; [|by apply delete_seats_ok]. unfold cancelJoin. rewrite view_delete. apply step_cancel.
Qed.

Lemma run_seat_ops_sim ttl now g ops :
  seats_ok g -> 0 < ttl -> monotone now ops ->
  seat_trace now (view now g) (run_seat_ops ttl g ops).1
    (view (last_time now ops) (run_seat_ops ttl g ops).2) /\
  seats_ok (run_seat_ops ttl g ops).2.
Proof.
  revert now g. induction ops as [|[now' o] ops IH]; intros now g Hg Ht; cbn.
  - intros _. split; [constructor|done].
  - intros [Hle Hm]. pose proof (run_seat_op_sim ttl now' g o Hg Ht) as [Hs Hok].
    destruct (run_seat_op ttl now' g o) as [e g1]. cbn in *.
    specialize (IH now' g1 Hok Ht Hm) as [Htr Hok2].
    destruct (run_seat_ops ttl g1 ops) as [es g2]. cbn in *. split; [|done].
    econstructor; eauto using time_sim.
Qed.

(** [C9] Any history of reserve, commit and cancel operations on a gathering,
    with a clock that does not go back, is a history of the abstract seat table
    with the same answers, and the table it ends in seats nobody twice and does
    not exceed the session's limit. *)
Theorem seat_history_refines ttl now g ops :
  seats_ok g -> table_ok (view now g) -> 0 < ttl -> monotone now ops ->
  seat_trace now (view now g) (run_seat_ops ttl g ops).1
    (view (last_time now ops) (run_seat_ops ttl g ops).2) /\
  table_ok (view (last_time now ops) (run_seat_ops ttl g ops).2) /\
  NoDup (participants (run_seat_ops ttl g ops).2).
Proof.
  intros Hg Ht Httl Hm. destruct (run_seat_ops_sim ttl now g ops Hg Httl Hm) as [Htr [Hnd Hr]].
  split_and!; [done| |done]. by eapply seat_trace_ok.
Qed.

Definition example_gathering (max : Z) : gathering :=
  mkgathering (with_Gathering (mkGathering 1 7 7 1 max 0 0 0 0 []) zero_Session) [7] 3 [] ∅.

Lemma seat_history_refines_witness :
  (run_seat_ops 8 (example_gathering 2)
     [(0, OpReserve 8); (1, OpReserve 9); (2, OpCommit 8); (2, OpReserve 9)]).1 =
  [(0, EvReserve 8 true); (1, EvReserve 9 false); (2, EvCommit 8 true); (2, EvReserve 9 false)] /\
  NoDup (participants (run_seat_ops 8 (example_gathering 2)
     [(0, OpReserve 8); (1, OpReserve 9); (2, OpCommit 8); (2, OpReserve 9)]).2).
Proof.
  split; [vm_compute; reflexivity|].
  apply (seat_history_refines 8 0 (example_gathering 2)
    [(0, OpReserve 8); (1, OpReserve 9); (2, OpCommit 8); (2, OpReserve 9)]).
  - split; [apply NoDup_singleton|]. intros. apply lookup_empty.
  - split; [|intros _; vm_compute; discriminate].
    intros x _. rewrite elem_of_promised. intros (e & He & _). cbn in He. by rewrite lookup_empty in He.
  - lia.
  - cbn. lia.
Defined.

(** ** Contention for the last seats *)

(** [pids] ask for a seat one after the other at the same instant; the answers. *)
Fixpoint reserve_all (ttl now : Z) (g : gathering) (pids : list Z) : list bool * gathering :=
  match pids with
  | [] => ([], g)
  | pid :: pids =>
      let '(b, g1) := reserveJoinLocked ttl now g pid in
      let '(bs, g2) := reserve_all ttl now g1 pids in (b :: bs, g2)
  end.

Definition granted (bs : list bool) : Z := len (filter (fun b => b = true) bs).

Lemma granted_cons b bs : granted (b :: bs) = (if b then 1 else 0) + granted bs.
Proof.
  unfold granted. rewrite filter_cons. destruct b; case_decide; try done.
  by rewrite len_cons.
Qed.

(** A stranger's attempt: granted exactly when a seat is free. *)
Lemma reserve_stranger ttl now g pid :
  0 < ttl -> pid ∉ participants g -> reservations g !! pid = None ->
  filter (live now) (reservations g) = reservations g -> 0 < MaxParticipants (session g) ->
  let r := reserveJoinLocked ttl now g pid in
  participants r.2 = participants g /\ session r.2 = session g /\
  filter (live now) (reservations r.2) = reservations r.2 /\
  if bool_decide (seats g < MaxParticipants (session g))
  then r.1 = true /\ reservations r.2 = <[pid := now + ttl]> (reservations g)
  else r.1 = false /\ reservations r.2 = reservations g.
Proof.
  intros Ht Hp Hr Hlive Hmax r. subst r. unfold reserveJoinLocked.
  rewrite containsPID_spec, bool_decide_eq_false_2 by done.
  assert (expireJoinReservationsLocked g now = g) as ->
    by (destruct g; unfold expireJoinReservationsLocked, with_reservations in *; cbn in *; by f_equal).
  rewrite Hr, (bool_decide_eq_false_2 (is_Some None)) by (intros [? ?]; done).
  rewrite (bool_decide_eq_true_2 (0 < _)) by done. cbn [andb].
  destruct (decide (seats g < MaxParticipants (session g))).
  - rewrite bool_decide_eq_false_2 by lia. rewrite (bool_decide_eq_true_2 (_ < _)) by lia. cbn.
    split_and!; try done. rewrite map_filter_insert_True by (unfold live; cbn; lia). by rewrite Hlive.
  - rewrite bool_decide_eq_true_2 by lia. rewrite (bool_decide_eq_false_2 (_ < _)) by lia. done.
Qed.

Lemma reserve_all_granted ttl now pids g :
  0 < ttl -> NoDup pids ->
  (forall pid, pid ∈ pids -> pid ∉ participants g /\ reservations g !! pid = None) ->
  filter (live now) (reservations g) = reservations g ->
  0 < MaxParticipants (session g) -> seats g <= MaxParticipants (session g) ->
  granted (reserve_all ttl now g pids).1 = Z.min (len pids) (MaxParticipants (session g) - seats g).
Proof.
  intros Ht. revert g. induction pids as [|pid pids IH]; intros g Hnd Hs Hlive Hmax Hcap; cbn [reserve_all fst].
  - change (0 = Z.min 0 (MaxParticipants (session g) - seats g)). lia.
  - apply NoDup_cons in Hnd as [Hpid Hnd].
    destruct (Hs pid) as [Hp Hr]; [by apply elem_of_cons; left|].
    pose proof (reserve_stranger ttl now g pid Ht Hp Hr Hlive Hmax) as Hres. cbn in Hres.
    destruct (reserveJoinLocked ttl now g pid) as [b g1]. cbn in *.
    destruct Hres as (Hpart & Hses & Hlive1 & Hcase).
    specialize (IH g1 Hnd). rewrite Hses, Hpart in IH.
    destruct (reserve_all ttl now g1 pids) as [bs g2]. cbn in *. rewrite granted_cons, len_cons.
    pose proof (len_nonneg pids).
    destruct (decide (seats g < MaxParticipants (session g))).
    + rewrite bool_decide_eq_true_2 in Hcase by done. destruct Hcase as [-> Hres].
      assert (seats g1 = seats g + 1) as Hseats.
      { unfold seats. rewrite Hpart, Hres, map_size_insert_None by done. lia. }
      rewrite IH, Hseats; [lia| |done..|lia].
      intros p Hp'. rewrite Hres. destruct (Hs p) as [? ?]; [by apply elem_of_cons; right|].
      split; [done|]. rewrite lookup_insert_ne by (intros ->; done). done.
    + rewrite bool_decide_eq_false_2 in Hcase by done. destruct Hcase as [-> Hres].
      assert (seats g1 = seats g) as Hseats by (unfold seats; by rewrite Hpart, Hres).
      rewrite IH, Hseats; [lia| |done..|lia].
      intros p Hp'. rewrite Hres. apply Hs. by apply elem_of_cons; right.
Qed.

(** [C10] When distinct players with no seat race for a gathering, exactly as many
    of them get a reservation as there are free seats. *)
Theorem race_for_seats ttl now pids g :
  0 < ttl -> NoDup pids ->
  (forall pid, pid ∈ pids -> pid ∉ participants g /\ reservations g !! pid = None) ->
  0 < MaxParticipants (session g) ->
  let g0 := expireJoinReservationsLocked g now in
  seats g0 <= MaxParticipants (session g) ->
  granted (reserve_all ttl now g0 pids).1 = Z.min (len pids) (MaxParticipants (session g) - seats g0).
Proof.
  intros Ht Hnd Hs Hmax g0 Hcap. rewrite (reserve_all_granted ttl now pids g0); try done.
  - intros pid Hp. destruct (Hs pid Hp) as [? Hr]. split; [done|]. cbn. by rewrite map_lookup_filter, Hr.
  - cbn. apply filter_live_idem.
Qed.

Lemma race_for_seats_witness :
  granted (reserve_all 8 0 (expireJoinReservationsLocked (example_gathering 3) 0) [8; 9; 10; 11]).1 = 2.
Proof.
  apply (race_for_seats 8 0 [8; 9; 10; 11] (example_gathering 3)).
  - lia.
  - apply (bool_decide_unpack _). vm_compute. done.
  - intros pid Hp. split; [|apply lookup_empty]. intros H. cbn in H.
    apply list_elem_of_singleton in H as ->. rewrite !elem_of_cons, elem_of_nil in Hp. lia.
  - cbn. vm_compute. done.
  - vm_compute. done.
Defined.

(** ** Reserve, then commit *)

(** A granted seat of a player not yet seated, as the table stores it. *)
Lemma reserve_granted ttl now g pid g' :
  reserveJoinLocked ttl now g pid = (true, g') -> pid ∉ participants g ->
  participants g' = participants g /\ session g' = session g /\
  reservations g' !! pid = Some (now + ttl).
Proof.
  unfold reserveJoinLocked. rewrite containsPID_spec. intros Hr Hp.
  rewrite bool_decide_eq_false_2 in Hr by done.
  repeat case_match; simplify_eq; cbn; by rewrite lookup_insert_eq.
Qed.

(** A player with no seat is granted one exactly when it already holds a live
    reservation or there is room. *)
Lemma reserve_answer ttl now g pid :
  seats_ok g -> 0 < ttl -> pid ∉ participants g ->
  (reserveJoinLocked ttl now g pid).1 = true <-> pid ∈ promised (view now g) \/ room (view now g).
Proof.
  intros Hg Ht Hp. pose proof (reserve_sim ttl now g pid Hg Ht) as Hs.
  assert (pid ∉ seated (view now g)) by (by rewrite elem_of_seated).
  inversion Hs; subst; try done; naive_solver.
Qed.

Lemma commit_live now g pid e :
  pid ∉ participants g -> reservations g !! pid = Some e -> now < e ->
  commitReservedJoinLocked now g pid =
  (true, with_participants (participants g ++ [pid])
           (with_reservations (delete pid (reservations g)) g)).
Proof.
  intros Hp He Hlt. unfold commitReservedJoinLocked.
  rewrite containsPID_spec, bool_decide_eq_false_2 by done.
  by rewrite He, bool_decide_eq_true_2 by done.
Qed.

(** A player who is granted a seat and commits before it expires joins; a
    second commit (a replay) reports that nothing was joined and leaves the
    participants alone; a commit at or after the expiry joins nobody. *)
Theorem reserve_commit_once ttl now t t' g pid g1 :
  pid ∉ participants g -> reserveJoinLocked ttl now g pid = (true, g1) ->
  (now <= t < now + ttl ->
   exists g2, commitReservedJoinLocked t g1 pid = (true, g2) /\
     participants g2 = participants g ++ [pid] /\ reservations g2 !! pid = None /\
     (commitReservedJoinLocked t' g2 pid).1 = false /\
     participants (commitReservedJoinLocked t' g2 pid).2 = participants g2) /\
  (now + ttl <= t ->
   (commitReservedJoinLocked t g1 pid).1 = false /\
   participants (commitReservedJoinLocked t g1 pid).2 = participants g).
Proof.
  intros Hp Hr. destruct (reserve_granted ttl now g pid g1 Hr Hp) as (Hpart & _ & He). split.
  - intros Ht. eexists; split; [eapply commit_live; [by rewrite Hpart|done|lia]|]. cbn.
    rewrite Hpart. split_and!; [done|apply lookup_delete_eq|..];
      unfold commitReservedJoinLocked; cbn; rewrite containsPID_spec;
      rewrite bool_decide_eq_true_2 by (apply elem_of_app; right; by apply list_elem_of_singleton);
      by cbn.
  - intros Ht. unfold commitReservedJoinLocked.
    rewrite containsPID_spec, Hpart, bool_decide_eq_false_2 by done.
    rewrite He, bool_decide_eq_false_2 by lia. done.
Qed.

Lemma reserve_commit_once_witness :
  (commitReservedJoinLocked 8 (reserveJoinLocked 8 0 (example_gathering 3) 9).2 9).1 = false.
Proof.
  apply (reserve_commit_once 8 0 8 9 (example_gathering 3) 9
    (reserveJoinLocked 8 0 (example_gathering 3) 9).2).
  - intros H. by apply list_elem_of_singleton in H.
  - reflexivity.
  - lia.
Defined.
