(* ===== verification/Notification.v ===== *)
(** * Notifications (nextendo-nex/notification.go, the store of
      matchmaking_notifdata.go)

    The ProcessNotificationEvent payload, the call-id counter of the server-initiated
    requests, and the per-player store of published notification data. *)

From S2P Require Import Prelude GoStd Settings Stream Types Rmc.

Definition ProtocolNotifications : Z := 0x0E.
Definition MethodProcessNotificationEvent : Z := 0x1.
Definition NotificationParticipate : Z := 3001.
Definition NotificationEndParticipation : Z := 3008.
Definition NotificationAddedToGathering : Z := 122000.
Definition NotificationGatheringUnregistered : Z := 109000.
Definition NotificationHostChanged : Z := 110000.

Record NotificationEvent := mkEvent {
  PIDSource : Z;
  EvType : Z;
  Param1 : Z;
  Param2 : Z;
  StrParam : gostring;
  Param3 : Z
}.
#[export] Instance NotificationEvent_eq_dec : EqDecision NotificationEvent.
Proof. solve_decision. Defined.
Definition zero_Event : NotificationEvent := mkEvent 0 0 0 0 [] 0.

Definition save_Event (s : Settings) (n : NotificationEvent) : bytes :=
  StreamOut.PID s (PIDSource n) ++ StreamOut.U32 (EvType n) ++ StreamOut.U64 (Param1 n) ++
  StreamOut.U64 (Param2 n) ++ StreamOut.GoString (StrParam n) ++ StreamOut.U64 (Param3 n).

Definition load_Event (s : Settings) : reader NotificationEvent :=
  (src <-- StreamInOps.PID s ;;
   typ <-- StreamInOps.U32 ;;
   p1 <-- StreamInOps.U64 ;;
   p2 <-- StreamInOps.U64 ;;
   sp <-- StreamInOps.GoString ;;
   p3 <-- StreamInOps.U64 ;;
   rret (mkEvent src typ p1 p2 sp p3))%reader.

#[export] Instance NotificationEvent_Structure : Structure NotificationEvent := [
  {| Version := 0; Save := Some save_Event; Load := Some (fun s _ => load_Event s) |}].

(** [SendNotification]: the RMC request pushed to the target, and the value of
    [notifCallCounter] after it.  The sum is a [uint32]. *)
Definition SendNotification (s : Settings) (counter : Z) (event : NotificationEvent)
    : RMCMessage * Z :=
  let counter := u32 (counter + 1) in
  (NewRMCRequest ProtocolNotifications MethodProcessNotificationEvent
     (u32 (0xFFFE0000 + counter)) (WriteStructure s event), counter).

Definition event_ok (s : Settings) (n : NotificationEvent) : Prop :=
  is_pid s (PIDSource n) /\ is_uint 32 (EvType n) /\ is_uint 64 (Param1 n) /\
  is_uint 64 (Param2 n) /\ str_ok (StrParam n) /\ is_uint 64 (Param3 n).

Lemma len_save_Event s n : event_ok s n -> len (save_Event s n) < 2 ^ 17.
Proof.
  unfold event_ok, save_Event, str_ok. intros. destruct_and!. autorewrite with golen.
  case_bool_decide; lia.
Qed.

Lemma decodes_Event s n c :
  event_ok s n -> decodes (ReadStructure s c) (WriteStructure s n) n.
Proof.
  intros Hok. pose proof (len_save_Event s n Hok). apply decodes_Structure1. split; [done|]. split.
  - unfold level_body; cbn [Save]. lia.
  - eexists; split; [done|]. intros c'. destruct n. unfold event_ok in Hok; cbn in *.
    destruct_and!. unfold load_Event, save_Event; cbn. decode_fields.
Qed.

(** ** Published notification data *)
Abbreviation notifStore := (gmap Z (gmap Z NotificationEvent)).

Module NotifStore.
Definition put (n : notifStore) (pid typ : Z) (ev : NotificationEvent) : notifStore :=
  <[pid := <[typ := ev]> (default ∅ (n !! pid))]> n.
Definition get (n : notifStore) (pid typ : Z) : option NotificationEvent :=
  match n !! pid with Some byType => byType !! typ | None => None end.
Definition forget (n : notifStore) (pid : Z) : notifStore := delete pid n.

Lemma get_put n pid typ ev pid' typ' :
  get (put n pid typ ev) pid' typ' =
  if bool_decide (pid' = pid /\ typ' = typ) then Some ev else get n pid' typ'.
Proof.
  unfold get, put. destruct (decide (pid' = pid)) as [->|Hp].
  - rewrite lookup_insert_eq. destruct (decide (typ' = typ)) as [->|Ht].
    + rewrite lookup_insert_eq. by rewrite bool_decide_eq_true_2.
    + rewrite lookup_insert_ne by done. rewrite bool_decide_eq_false_2 by naive_solver.
      by destruct (n !! pid).
  - rewrite lookup_insert_ne by done. rewrite bool_decide_eq_false_2 by naive_solver. done.
Qed.

Lemma get_forget n pid pid' typ :
  get (forget n pid) pid' typ = if bool_decide (pid' = pid) then None else get n pid' typ.
Proof.
  unfold get, forget. case_bool_decide; subst.
  - by rewrite lookup_delete_eq.
  - by rewrite lookup_delete_ne by done.
Qed.
End NotifStore.
