(* ===== verification/Connection.v ===== *)
(** * Connections and the endpoint's registry (nextendo-nex/endpoint.go)

    A [Connection] is an object several goroutines hold a pointer to, so the model
    has a heap: a socket handle stands for the pointer, the [heap] gives the object
    behind it, and [connections] is the endpoint's map from connection id to
    pointer.  Station URLs are values: no code mutates one after it is stored. *)

From S2P Require Import Prelude GoStd Settings Stream Types StationURL.

Definition stateConnecting : Z := 0.
Definition stateConnected : Z := 1.
Definition stateClosed : Z := 2.

Record Connection := mkConnection {
  RemoteAddr : gostring;
  ID : Z;
  PID : Z;
  CID : Z;
  stationURLs : list StationURL;
  natMapV : Z;
  natFilterV : Z;
  sessionKey : bytes;
  connectionSig : bytes;
  minorVersion : Z;
  supportedFunc : Z;
  srcType : Z; srcPort : Z; dstType : Z; dstPort : Z;
  recvBuf : bytes;
  fragBuf : bytes;
  outReliable : Z;
  pending : gmap Z bytes;
  cstate : Z;
  lastSeen : Z
}.

Definition NewConnection (remoteAddr : gostring) : Connection :=
  mkConnection remoteAddr 0 0 0 [] 0 0 [] [] 0 0 0 0 0 0 [] [] 1 ∅ stateConnecting 0.

(** Field updates. *)
Definition set_ID (x : Z) (c : Connection) : Connection :=
  mkConnection (RemoteAddr c) x (PID c) (CID c) (stationURLs c) (natMapV c) (natFilterV c)
    (sessionKey c) (connectionSig c) (minorVersion c) (supportedFunc c) (srcType c) (srcPort c)
    (dstType c) (dstPort c) (recvBuf c) (fragBuf c) (outReliable c) (pending c) (cstate c) (lastSeen c).
Definition set_login (pid cid : Z) (key : bytes) (c : Connection) : Connection :=
  mkConnection (RemoteAddr c) (ID c) pid cid (stationURLs c) (natMapV c) (natFilterV c)
    key (connectionSig c) (minorVersion c) (supportedFunc c) (srcType c) (srcPort c)
    (dstType c) (dstPort c) (recvBuf c) (fragBuf c) (outReliable c) (pending c) (cstate c) (lastSeen c).
Definition SetStations (urls : list StationURL) (c : Connection) : Connection :=
  mkConnection (RemoteAddr c) (ID c) (PID c) (CID c) urls (natMapV c) (natFilterV c)
    (sessionKey c) (connectionSig c) (minorVersion c) (supportedFunc c) (srcType c) (srcPort c)
    (dstType c) (dstPort c) (recvBuf c) (fragBuf c) (outReliable c) (pending c) (cstate c) (lastSeen c).
Definition SetNATProps (natMap natFilter : Z) (c : Connection) : Connection :=
  mkConnection (RemoteAddr c) (ID c) (PID c) (CID c) (stationURLs c) natMap natFilter
    (sessionKey c) (connectionSig c) (minorVersion c) (supportedFunc c) (srcType c) (srcPort c)
    (dstType c) (dstPort c) (recvBuf c) (fragBuf c) (outReliable c) (pending c) (cstate c) (lastSeen c).
Definition set_syn (sig : bytes) (minor func st sp dt dp : Z) (c : Connection) : Connection :=
  mkConnection (RemoteAddr c) (ID c) (PID c) (CID c) (stationURLs c) (natMapV c) (natFilterV c)
    (sessionKey c) sig minor func st sp dt dp
    (recvBuf c) (fragBuf c) (outReliable c) (pending c) (cstate c) (lastSeen c).
Definition set_bufs (recv frag : bytes) (c : Connection) : Connection :=
  mkConnection (RemoteAddr c) (ID c) (PID c) (CID c) (stationURLs c) (natMapV c) (natFilterV c)
    (sessionKey c) (connectionSig c) (minorVersion c) (supportedFunc c) (srcType c) (srcPort c)
    (dstType c) (dstPort c) recv frag (outReliable c) (pending c) (cstate c) (lastSeen c).
Definition set_out (n : Z) (p : gmap Z bytes) (c : Connection) : Connection :=
  mkConnection (RemoteAddr c) (ID c) (PID c) (CID c) (stationURLs c) (natMapV c) (natFilterV c)
    (sessionKey c) (connectionSig c) (minorVersion c) (supportedFunc c) (srcType c) (srcPort c)
    (dstType c) (dstPort c) (recvBuf c) (fragBuf c) n p (cstate c) (lastSeen c).
Definition set_state (st : Z) (c : Connection) : Connection :=
  mkConnection (RemoteAddr c) (ID c) (PID c) (CID c) (stationURLs c) (natMapV c) (natFilterV c)
    (sessionKey c) (connectionSig c) (minorVersion c) (supportedFunc c) (srcType c) (srcPort c)
    (dstType c) (dstPort c) (recvBuf c) (fragBuf c) (outReliable c) (pending c) st (lastSeen c).
Definition set_lastSeen (t : Z) (c : Connection) : Connection :=
  mkConnection (RemoteAddr c) (ID c) (PID c) (CID c) (stationURLs c) (natMapV c) (natFilterV c)
    (sessionKey c) (connectionSig c) (minorVersion c) (supportedFunc c) (srcType c) (srcPort c)
    (dstType c) (dstPort c) (recvBuf c) (fragBuf c) (outReliable c) (pending c) (cstate c) t.

(** [IdleFor], at instant [now]; 0 while no packet has arrived. *)
Definition IdleFor (now : Z) (c : Connection) : Z :=
  if bool_decide (lastSeen c = 0) then 0 else now - lastSeen c.

Fixpoint stations_nat (urls : list StationURL) : Z * Z :=
  match urls with
  | [] => (0, 0)
  | u :: urls =>
      let nm := GetInt u (str "natm") in
      let nf := GetInt u (str "natf") in
      if bool_decide (nm <> 0) || bool_decide (nf <> 0) then (u32 nm, u32 nf)
      else stations_nat urls
  end.

Definition NATBehaviour (c : Connection) : Z * Z :=
  if bool_decide (natMapV c <> 0) then (natMapV c, natFilterV c)
  else if bool_decide (natFilterV c <> 0) then (0, natFilterV c)
  else stations_nat (stationURLs c).

(** The part of [Endpoint] that tracks connections. *)
Record Registry := mkRegistry {
  heap : gmap Z Connection;
  connections : gmap Z Z;
  connCounter : Z
}.
Definition empty_registry : Registry := mkRegistry ∅ ∅ 0.

(** A handler updates the object behind a pointer. *)
Definition update_conn (f : Connection -> Connection) (ref : Z) (r : Registry) : Registry :=
  mkRegistry (alter f ref (heap r)) (connections r) (connCounter r).

Definition new_conn (ref : Z) (addr : gostring) (r : Registry) : Registry :=
  mkRegistry (<[ref := NewConnection addr]> (heap r)) (connections r) (connCounter r).

Definition registerConnection (ref : Z) (r : Registry) : Registry :=
  let id := u32 (connCounter r + 1) in
  mkRegistry (alter (set_ID id) ref (heap r)) (<[id := ref]> (connections r)) id.

Definition unregisterConnection (ref : Z) (r : Registry) : Registry :=
  match heap r !! ref with
  | Some c =>
      if bool_decide (ID c = 0) then r
      else mkRegistry (heap r) (delete (ID c) (connections r)) (connCounter r)
  | None => r
  end.

Definition FindConnectionByID (r : Registry) (id : Z) : option Z := connections r !! id.

(** The loop of [FindConnectionByPID] over the entries of the map. *)
Fixpoint newest_for (h : gmap Z Connection) (pid : Z) (entries : list (Z * Z))
    (newest : option (Z * Connection)) : option (Z * Connection) :=
  match entries with
  | [] => newest
  | (_, ref) :: entries =>
      newest_for h pid entries
        match h !! ref with
        | Some c =>
            if bool_decide (PID c = pid) then
              match newest with
              | None => Some (ref, c)
              | Some (_, n) => if bool_decide (ID n < ID c) then Some (ref, c) else newest
              end
            else newest
        | None => newest
        end
  end.

Definition FindConnectionByPID `{GoRange} (r : Registry) (pid : Z) : option (Z * Connection) :=
  newest_for (heap r) pid (range (connections r)) None.

Definition ConnectionIDs `{GoRange} (r : Registry) : list Z := (range (connections r)).*1.

Definition snapshotConns `{GoRange} (r : Registry) : list Z := (range (connections r)).*2.

(** ** The registry invariant *)

(** The object behind [ref] is reachable through the endpoint's map. *)
Definition registered (r : Registry) (ref : Z) (c : Connection) : Prop :=
  heap r !! ref = Some c /\ exists id, connections r !! id = Some ref.

Record registry_wf (r : Registry) : Prop := {
  wf_target : forall id ref, connections r !! id = Some ref ->
    exists c, heap r !! ref = Some c /\ 0 < id <= ID c;
  wf_unique : forall ref1 ref2 c1 c2, heap r !! ref1 = Some c1 -> heap r !! ref2 = Some c2 ->
    ID c1 = ID c2 -> ID c1 <> 0 -> ref1 = ref2;
  wf_bound : forall ref c, heap r !! ref = Some c -> 0 <= ID c <= connCounter r;
  wf_counter : 0 <= connCounter r
}.

Lemma empty_registry_wf : registry_wf empty_registry.
Proof.
  split; cbn; try done; intros *; rewrite lookup_empty; done.
Qed.

(** An update that keeps the connection id keeps the invariant. *)
Lemma update_conn_wf f ref r :
  (forall c, ID (f c) = ID c) -> registry_wf r -> registry_wf (update_conn f ref r).
Proof.
  intros Hf [Ht Hu Hb Hc].
  assert (forall x c, alter f ref (heap r) !! x = Some c ->
    exists c0, heap r !! x = Some c0 /\ ID c = ID c0) as Hold.
  { intros x c. rewrite lookup_alter_Some.
    intros [(-> & c0 & Hc0 & ->)|[? Hx]]; [exists c0; auto|exists c; auto]. }
  split; cbn.
  - intros id x Hx. destruct (Ht id x Hx) as (c & Hh & Hid). destruct (decide (x = ref)) as [->|].
    + exists (f c). rewrite lookup_alter_eq, Hh, Hf. done.
    + exists c. rewrite lookup_alter_ne by done. done.
  - intros x y c1 c2 Hx Hy He Hnz.
    destruct (Hold _ _ Hx) as (d1 & Hd1 & Hi1), (Hold _ _ Hy) as (d2 & Hd2 & Hi2).
    eapply Hu; [exact Hd1|exact Hd2|congruence|congruence].
  - intros x c Hx. destruct (Hold _ _ Hx) as (d & Hd & ->). eauto.
  - done.
Qed.

Lemma new_conn_wf ref addr r :
  heap r !! ref = None -> registry_wf r -> registry_wf (new_conn ref addr r).
Proof.
  intros Hfresh [Ht Hu Hb Hc]. split; cbn.
  - intros id x Hx. destruct (Ht id x Hx) as (c & Hh & Hid). exists c.
    rewrite lookup_insert_ne by congruence. done.
  - intros x y c1 c2. rewrite !lookup_insert_Some.
    intros [[<- <-]|[Hx Hx']] [[<- <-]|[Hy Hy']] He Hnz; cbn in *; (done || congruence || eauto).
  - intros x c. rewrite lookup_insert_Some. intros [[<- <-]|[? ?]]; [cbn; lia|eauto].
  - done.
Qed.

Lemma register_wf ref r :
  is_Some (heap r !! ref) -> connCounter r < 2 ^ 32 - 1 -> registry_wf r ->
  registry_wf (registerConnection ref r).
Proof.
  intros [c0 Hc0] Hlt [Ht Hu Hb Hc].
  assert (u32 (connCounter r + 1) = connCounter r + 1) as Hid by (apply Z.mod_small; lia).
  unfold registerConnection. rewrite Hid.
  assert (forall x c, alter (set_ID (connCounter r + 1)) ref (heap r) !! x = Some c ->
    (x = ref /\ ID c = connCounter r + 1) \/ (x <> ref /\ heap r !! x = Some c)) as Hold.
  { intros x c. rewrite lookup_alter_Some. intros [(-> & d & _ & ->)|[? Hx]]; auto. }
  split; cbn.
  - intros id x. rewrite lookup_insert_Some. intros [[<- <-]|[Hne Hx]].
    + eexists. rewrite lookup_alter_eq, Hc0. cbn. split; [done|cbn; lia].
    + destruct (Ht id x Hx) as (c & Hh & Hbd). destruct (decide (x = ref)) as [->|].
      * eexists. rewrite lookup_alter_eq, Hh. cbn. split; [done|]. pose proof (Hb _ _ Hh). cbn. lia.
      * exists c. rewrite lookup_alter_ne by done. done.
  - intros x y c1 c2 Hx Hy He Hnz.
    destruct (Hold _ _ Hx) as [[-> H1]|[H1 H1']], (Hold _ _ Hy) as [[-> H2]|[H2 H2']]; try done.
    + pose proof (Hb _ _ H2'). lia.
    + pose proof (Hb _ _ H1'). lia.
    + eauto.
  - intros x c Hx. destruct (Hold _ _ Hx) as [[-> ->]|[_ Hx']]; [lia|]. pose proof (Hb _ _ Hx'). lia.
  - lia.
Qed.

Lemma unregister_wf ref r : registry_wf r -> registry_wf (unregisterConnection ref r).
Proof.
  intros [Ht Hu Hb Hc]. unfold unregisterConnection. case_match; [|by split].
  case_bool_decide; [by split|]. split; cbn; try done.
  intros id x [_ Hx]%lookup_delete_Some. eauto.
Qed.

(** ** Looking a player up *)

(** What the loop keeps: a best candidate among the entries visited so far. *)
Lemma newest_for_spec r pid entries acc :
  registry_wf r ->
  (forall id ref, (id, ref) ∈ entries -> connections r !! id = Some ref) ->
  (forall ref c, acc = Some (ref, c) -> heap r !! ref = Some c /\ PID c = pid) ->
  match newest_for (heap r) pid entries acc with
  | Some (ref, c) =>
      heap r !! ref = Some c /\ PID c = pid /\
      (acc = Some (ref, c) \/ exists id, (id, ref) ∈ entries) /\
      (forall ref' c', acc = Some (ref', c') -> ID c' <= ID c) /\
      (forall id ref' c', (id, ref') ∈ entries -> heap r !! ref' = Some c' -> PID c' = pid ->
        ID c' <= ID c)
  | None => acc = None /\
      forall id ref' c', (id, ref') ∈ entries -> heap r !! ref' = Some c' -> PID c' <> pid
  end.
Proof.
  intros Hwf. revert acc. induction entries as [|[id0 ref0] entries IH]; intros acc Hin Hacc; cbn.
  - destruct acc as [[ref c]|].
    + destruct (Hacc ref c eq_refl). split_and!; try done; [by left|naive_solver|].
      intros ??? ?%elem_of_nil. done.
    + split; [done|]. intros ??? ?%elem_of_nil. done.
  - destruct (wf_target r Hwf id0 ref0) as (c0 & Hc0 & _);
      [apply Hin, elem_of_cons; by left|]. rewrite Hc0.
    assert (forall id ref, (id, ref) ∈ entries -> connections r !! id = Some ref) as Hin'
      by (intros; apply Hin, elem_of_cons; by right).
    set (acc' := if bool_decide (PID c0 = pid) then _ else acc).
    assert (forall ref c, acc' = Some (ref, c) -> heap r !! ref = Some c /\ PID c = pid) as Hacc'.
    { intros ref c. subst acc'. case_bool_decide; [|auto]. destruct acc as [[ra ca]|].
      - case_bool_decide; intros; simplify_eq; auto.
      - intros; simplify_eq; auto. }
    specialize (IH acc' Hin' Hacc').
    destruct (newest_for (heap r) pid entries acc') as [[ref c]|].
    + destruct IH as (Hh & Hp & Hfrom & Hge & Hall).
      assert (forall rx cx, acc = Some (rx, cx) -> ID cx <= ID c) as Hge'.
      { intros rx cx ->. subst acc'. destruct (bool_decide (PID c0 = pid)); [|eauto].
        destruct (decide (ID cx < ID c0)).
        - rewrite bool_decide_eq_true_2 in Hge by done. pose proof (Hge _ _ eq_refl). lia.
        - rewrite bool_decide_eq_false_2 in Hge by done. eauto. }
      assert (PID c0 = pid -> ID c0 <= ID c) as Hge0.
      { intros Hp0. subst acc'. rewrite bool_decide_eq_true_2 in Hge by done.
        destruct acc as [[ra ca]|]; [|eauto]. destruct (decide (ID ca < ID c0)).
        - rewrite bool_decide_eq_true_2 in Hge by done. eauto.
        - pose proof (Hge' _ _ eq_refl). lia. }
      split_and!; [done|done| |done|].
      * destruct Hfrom as [Hfrom|[id Hid]]; [|right; exists id; apply elem_of_cons; by right].
        subst acc'. case_bool_decide; [|by left]. destruct acc as [[ra ca]|].
        -- case_bool_decide; [simplify_eq|by left]. right. exists id0. apply elem_of_cons; by left.
        -- simplify_eq. right. exists id0. apply elem_of_cons; by left.
      * intros id ref' c' [He|Hin0]%elem_of_cons Hc' Hp'; [simplify_eq; auto|eauto].
    + destruct IH as [Hnone Hall]. subst acc'. case_bool_decide.
      * destruct acc as [[ra ca]|]; [case_bool_decide|]; done.
      * split; [done|]. intros id ref' c' [He|Hin0]%elem_of_cons Hc'; [simplify_eq; done|eauto].
Qed.

(** The player's newest registered connection, if any. *)
Lemma find_by_pid_spec `{GoRange} r pid :
  registry_wf r ->
  match FindConnectionByPID r pid with
  | Some (ref, c) => registered r ref c /\ PID c = pid /\
      forall ref' c', registered r ref' c' -> PID c' = pid -> ID c' <= ID c
  | None => forall ref' c', registered r ref' c' -> PID c' <> pid
  end.
Proof.
  intros Hwf. unfold FindConnectionByPID.
  pose proof (newest_for_spec r pid (range (connections r)) None Hwf) as Hs.
  specialize (Hs ltac:(intros ??; by rewrite elem_of_range) ltac:(done)).
  destruct (newest_for _ _ _ _) as [[ref c]|].
  - destruct Hs as (Hh & Hp & [?|[id Hid]] & _ & Hall); [done|].
    split_and!; [split; [done|]; exists id; by rewrite elem_of_range in Hid|done|].
    intros ref' c' [Hh' [id' Hid']]. eapply Hall; [|done]. by apply elem_of_range.
  - destruct Hs as [_ Hall]. intros ref' c' [Hh' [id' Hid']]. eapply Hall; [|done].
    by apply elem_of_range.
Qed.

(** ** The registry over time

    What the goroutines of an endpoint do to it: a socket opens, a handshake completes,
    a connection is torn down, an object changes without changing its id. *)
Inductive registry_step : Registry -> Registry -> Prop :=
  | rs_open ref addr r : heap r !! ref = None -> registry_step r (new_conn ref addr r)
  | rs_register ref r : is_Some (heap r !! ref) -> connCounter r < 2 ^ 32 - 1 ->
      registry_step r (registerConnection ref r)
  | rs_unregister ref r : registry_step r (unregisterConnection ref r)
  | rs_update f ref r : (forall c, ID (f c) = ID c) -> registry_step r (update_conn f ref r).

Lemma registry_reachable r : rtc registry_step empty_registry r -> registry_wf r.
Proof.
  intros Hr. remember empty_registry as r0 eqn:E.
  assert (registry_wf r0) as H0 by (subst; apply empty_registry_wf). clear E.
  induction Hr as [|r1 r2 r3 Hstep _ IH]; [done|]. apply IH.
  destruct Hstep; auto using new_conn_wf, register_wf, unregister_wf, update_conn_wf.
Qed.

(** The result does not depend on the order the map is visited in. *)
Lemma find_by_pid_order (G1 G2 : GoRange) r pid :
  registry_wf r -> @FindConnectionByPID G1 r pid = @FindConnectionByPID G2 r pid.
Proof.
  intros Hwf. pose proof (@find_by_pid_spec G1 r pid Hwf) as H1.
  pose proof (@find_by_pid_spec G2 r pid Hwf) as H2.
  destruct (@FindConnectionByPID G1 r pid) as [[ref1 c1]|], (@FindConnectionByPID G2 r pid) as [[ref2 c2]|].
  - destruct H1 as (R1 & P1 & M1), H2 as (R2 & P2 & M2).
    pose proof (M1 _ _ R2 P2). pose proof (M2 _ _ R1 P1).
    destruct R1 as [E1 [id1 Hi1]], R2 as [E2 [id2 Hi2]].
    destruct (wf_target r Hwf id1 ref1 Hi1) as (d & Hd & Hb). rewrite E1 in Hd. injection Hd as <-.
    assert (ref1 = ref2) as -> by (eapply (wf_unique r Hwf); [exact E1|exact E2|lia|lia]). congruence.
  - destruct H1 as (R1 & P1 & _). by destruct (H2 _ _ R1).
  - destruct H2 as (R2 & P2 & _). by destruct (H1 _ _ R2).
  - done.
Qed.

(** Looking a player up: in every registry the endpoint can reach (fewer than
    2^32 - 1 registrations), [FindConnectionByPID] returns a registered connection of the
    account with the greatest id among all of them, and none only if the account has no
    registered connection; the answer is the same in whatever order the map is visited. *)
Theorem newest_connection (G1 G2 : GoRange) r pid :
  rtc registry_step empty_registry r ->
  @FindConnectionByPID G1 r pid = @FindConnectionByPID G2 r pid /\
  match @FindConnectionByPID G1 r pid with
  | Some (ref, c) => registered r ref c /\ PID c = pid /\
      forall ref' c', registered r ref' c' -> PID c' = pid -> ID c' <= ID c
  | None => forall ref' c', registered r ref' c' -> PID c' <> pid
  end.
Proof.
  intros Hr%registry_reachable. split; [by apply find_by_pid_order|]. by apply find_by_pid_spec.
Qed.

Definition ex_registry : Registry :=
  registerConnection 1 (registerConnection 0 (new_conn 1 [] (new_conn 0 [] empty_registry))).

Lemma newest_connection_witness :
  exists c, @FindConnectionByPID canonical_range ex_registry 0 = Some (1, c) /\
    forall ref' c', registered ex_registry ref' c' -> PID c' = 0 -> ID c' <= ID c.
Proof.
  destruct (newest_connection canonical_range canonical_range ex_registry 0) as [_ Hn].
  - eapply rtc_l; [apply (rs_open 0 []); reflexivity|].
    eapply rtc_l; [apply (rs_open 1 []); reflexivity|].
    eapply rtc_l; [apply (rs_register 0); [eexists; reflexivity|cbn; lia]|].
    apply rtc_once, (rs_register 1); [eexists; reflexivity|vm_compute; reflexivity].
  - assert (option_map fst (@FindConnectionByPID canonical_range ex_registry 0) = Some 1) as He
      by (vm_compute; reflexivity).
    destruct (@FindConnectionByPID canonical_range ex_registry 0) as [[ref c]|]; [|discriminate He].
    injection He as ->. exists c. destruct Hn as (_ & _ & Hm). split; [reflexivity|exact Hm].
Defined.
