(* ===== verification/Stations.v ===== *)
(** * Station URLs of a connection (nextendo-nex/secureconnection.go, natbridge.go)

    Register and ReplaceURL, the choice of the local and public stations, the cache
    of NAT observations and the bridge that hands a joiner the host's real UDP
    endpoint.  [selectStations] returns pointers into the reported list, and the two
    may be the same pointer: the model returns positions, and [handleRegister]
    updates the list at those positions. *)

From S2P Require Import Prelude GoStd GoNet Settings Stream Types StationURL Rmc Connection.
Import GoStrings GoStrconv GoNet.

Definition ProtocolSecureConnection : Z := 0x0B.
Definition MethodRegister : Z := 0x1.
Definition MethodReplaceURL : Z := 0x7.
Definition MethodRegisterEx : Z := 0x4.
Definition StationURLFlagBehindNAT : Z := 0x01.
Definition StationURLFlagPublic : Z := 0x02.
Definition stationURLFlagSwitch : Z := 0x08.

Record SecureConnectionConfig := mkSecureConfig { PublicStationType : Z; SetPa : bool }.
Definition SwitchPia519Config : SecureConnectionConfig :=
  mkSecureConfig (Z.lor (Z.lor StationURLFlagBehindNAT StationURLFlagPublic) stationURLFlagSwitch) true.
Definition LegacyPiaConfig : SecureConnectionConfig :=
  mkSecureConfig (Z.lor StationURLFlagBehindNAT StationURLFlagPublic) false.

Definition isPrivateIP (addr : gostring) : bool :=
  match ParseIP addr with
  | None => false
  | Some ip => IsPrivate ip || IsLoopback ip || IsLinkLocalUnicast ip || cgnat_contains ip
  end.

Definition address (u : StationURL) : gostring := Get u (str "address").

(** The first loop of [selectStations], from position [i]. *)
Fixpoint pick_by_address (i : nat) (urls : list StationURL) (local public : option nat)
    : option nat * option nat :=
  match urls with
  | [] => (local, public)
  | u :: urls =>
      if bool_decide (address u = []) then pick_by_address (S i) urls local public
      else if isPrivateIP (address u) then
        pick_by_address (S i) urls (if local then local else Some i) public
      else pick_by_address (S i) urls local (if public then public else Some i)
  end.

(** The fallback: the first url without the public flag. *)
Fixpoint pick_not_public (i : nat) (urls : list StationURL) : option nat :=
  match urls with
  | [] => None
  | u :: urls =>
      if bool_decide (Z.land (u8 (GetInt u (str "type"))) StationURLFlagPublic = 0) then Some i
      else pick_not_public (S i) urls
  end.

Definition selectStations (urls : list StationURL) : option nat * option nat :=
  let '(local, public) := pick_by_address 0 urls None None in
  let local := if local then local else pick_not_public 0 urls in
  let local := match local, urls with None, _ :: _ => Some O | _, _ => local end in
  (local, public).

(** [SetStations] aside, the response of [handleRegister] and the stations it
    stores.  [heap] holds the url objects; positions stand for pointers. *)
Definition registerStations `{GoRange} (cfg : SecureConnectionConfig) (remoteAddr : gostring)
    (pid id : Z) (urls : list StationURL) : StationURL * StationURL :=
  let '(local, public) := selectStations urls in
  let '(l, heap) := match local with
    | Some l => (l, urls)
    | None => (length urls, urls ++ [NewStationURL (str "prudp")]) end in
  let derivedPublic := bool_decide (public = None) in
  let at' (h : list StationURL) i := default (NewStationURL []) (h !! i) in
  let '(p, heap) := match public with
    | Some p => (p, heap)
    | None =>
        let u := Copy (at' heap l) in
        let u := match SplitHostPort remoteAddr with
          | Some (host, port) => Set_ (Set_ u (str "address") host) (str "port") port
          | None => u end in
        (length heap, heap ++ [u]) end in
  let upd i f (h : list StationURL) := alter f i h in
  let heap := upd l (fun u => SetInt u (str "PID") (sint 64 pid)) heap in
  let heap := upd p (fun u => SetInt u (str "PID") (sint 64 pid)) heap in
  let heap := upd l (fun u => SetInt u (str "RVCID") id) heap in
  let heap := upd p (fun u => SetInt u (str "RVCID") id) heap in
  let heap := upd p (fun u => SetInt u (str "type") (PublicStationType cfg)) heap in
  let heap :=
    if SetPa cfg then
      let pa := if derivedPublic then address (at' heap p) else address (at' heap l) in
      if bool_decide (pa <> []) then upd p (fun u => Set_ u (str "Pa") pa) heap else heap
    else heap in
  (at' heap l, at' heap p).

Definition handleRegister `{GoRange} (cfg : SecureConnectionConfig) (s : Settings)
    (c : Connection) (req : RMCMessage) : Connection * RMCMessage :=
  let '(urls, _) := StreamInOps.ReadList StationURLValue (NewStreamIn (Body req)) in
  let '(local, public) := registerStations cfg (RemoteAddr c) (PID c) (ID c) urls in
  (SetStations [local; public] c,
   NewRMCSuccess ProtocolSecureConnection (Method req) (CallID req)
     (StreamOut.U32 ResultCoreUnknown ++ StreamOut.U32 (ID c) ++
      StreamOut.GoString (ToString public))).

(** The station set deduplicated by address, in order of first appearance, the last
    url of an address winning. *)
Definition byAddr_add (acc : list gostring * gmap gostring StationURL) (u : StationURL)
    : list gostring * gmap gostring StationURL :=
  let '(order, m) := acc in
  let a := address u in
  (if bool_decide (is_Some (m !! a)) then order else order ++ [a], <[a := u]> m).

Definition rebuildStations (stations : list StationURL) (new : StationURL) : list StationURL :=
  let '(order, m) := foldl byAddr_add ([], ∅) (stations ++ [new]) in
  omap (fun a => m !! a) order.

Definition handleReplaceURL (c : Connection) (req : RMCMessage) : Connection * RMCMessage :=
  let '(newStation, _) :=
    (_t <-- StationURLValue ;; StationURLValue)%reader (NewStreamIn (Body req)) in
  let newStation := SetInt newStation (str "PID") (sint 64 (PID c)) in
  (SetStations (rebuildStations (stationURLs c) newStation) c,
   NewRMCSuccess ProtocolSecureConnection (Method req) (CallID req) []).

Definition SecureConnectionHandlerWithConfig `{GoRange} (cfg : SecureConnectionConfig)
    (s : Settings) (c : Connection) (req : RMCMessage) : Connection * RMCMessage :=
  if bool_decide (Method req = MethodRegister) || bool_decide (Method req = MethodRegisterEx)
  then handleRegister cfg s c req
  else if bool_decide (Method req = MethodReplaceURL) then handleReplaceURL c req
  else (c, notImplemented ProtocolSecureConnection req).

(** ** NAT observations *)

(** The lines "<public ip> <udp port>" of the responder's file. *)
Definition parse_nat_line (m : gmap gostring Z) (line : gostring) : gmap gostring Z :=
  match fields line with
  | [ip; port] =>
      match atoi port with
      | Some p => if bool_decide (0 < p) && bool_decide (p < 65536) then <[ip := p]> m else m
      | None => m
      end
  | _ => m
  end.
Definition parse_nat_file (data : gostring) : gmap gostring Z :=
  foldl parse_nat_line ∅ (split 10 data).

Definition natCacheTTL : Z := 2 * 10 ^ 9.
Record NatCache := mkNatCache { natCache : option (gmap gostring Z); natCacheRead : Z }.
Definition empty_NatCache : NatCache := mkNatCache None 0.

(** [file] is what [os.ReadFile] returns, [None] an error; [now] and [now'] are the
    two clock readings. *)
Definition natPortForIP (now now' : Z) (file : option gostring) (ip : gostring) (k : NatCache)
    : option Z * NatCache :=
  if bool_decide (ip = []) then (None, k)
  else
    let stale := match natCache k with
      | None => true
      | Some _ => bool_decide (natCacheTTL < now - natCacheRead k) end in
    if stale then
      match file with
      | None => (None, mkNatCache (Some ∅) now')
      | Some data => let m := parse_nat_file data in (m !! ip, mkNatCache (Some m) now')
      end
    else (default ∅ (natCache k) !! ip, k).

Definition natFilePath (NNCS_NAT_FILE : gostring) : gostring :=
  match NNCS_NAT_FILE with [] => str "/data/nat_endpoints.txt" | _ => NNCS_NAT_FILE end.

(** The station relay a game server may announce; nothing in this server turns it on. *)
Record Relay := mkRelay { relayHost : gostring; relayPort : Z }.
Definition no_relay : Relay := mkRelay [] 0.
Definition SetStationRelay (host : gostring) (port : Z) (_ : Relay) : Relay := mkRelay host port.
Definition StationRelay (r : Relay) : gostring * Z * bool :=
  (relayHost r, relayPort r, bool_decide (relayHost r <> []) && bool_decide (0 < relayPort r)).

(** ** The bridge *)
Inductive bridgeStatus := bridgeOK | bridgeNoStations | bridgeNoObservation | bridgeNoRVCID.
#[export] Instance bridgeStatus_eq_dec : EqDecision bridgeStatus.
Proof. solve_decision. Defined.

(** [look] is [natPortForIP] at the instant of the call. *)
Definition natBridgeStations `{GoRange} (look : gostring -> NatCache -> option Z * NatCache)
    (urls : list StationURL) (publicFirst : bool) (k : NatCache)
    : list StationURL * bridgeStatus * NatCache :=
  match selectStations urls with
  | (Some l, Some p) =>
      match urls !! l, urls !! p with
      | Some local, Some public =>
          let publicAddr := address public in
          let privateAddr := address local in
          if bool_decide (publicAddr = []) || bool_decide (privateAddr = []) ||
             bool_decide (publicAddr = privateAddr) then (urls, bridgeNoStations, k)
          else match look publicAddr k with
          | (None, k) => (urls, bridgeNoObservation, k)
          | (Some udpPort, k) =>
              if bool_decide (GetInt local (str "RVCID") = 0) then (urls, bridgeNoRVCID, k)
              else
                let lan := Remove (Remove (SetInt (Copy local) (str "port") udpPort)
                             (str "type")) (str "Pa") in
                let pub := SetInt (SetInt (Copy public) (str "port") udpPort) (str "type")
                  (Z.lor (Z.lor StationURLFlagBehindNAT StationURLFlagPublic) stationURLFlagSwitch) in
                let pub := Set_ pub (str "Pa") (if publicFirst then publicAddr else privateAddr) in
                (if publicFirst then [pub; lan] else [lan; pub], bridgeOK, k)
          end
      | _, _ => (urls, bridgeNoStations, k)
      end
  | _ => (urls, bridgeNoStations, k)
  end.

(** ** ReplaceURL keeps one url per address *)

(** What the loop over the stored stations maintains. *)
Record by_address (seen : list StationURL) (acc : list gostring * gmap gostring StationURL) : Prop := {
  ba_nodup : NoDup acc.1;
  ba_keys : forall a, a ∈ acc.1 <-> is_Some (acc.2 !! a);
  ba_urls : forall a u, acc.2 !! a = Some u -> address u = a /\ u ∈ seen
}.

Lemma byAddr_add_inv seen acc u :
  by_address seen acc -> by_address (seen ++ [u]) (byAddr_add acc u).
Proof.
  destruct acc as [order m]. intros [Hnd Hk Hu]. cbn in *. unfold byAddr_add. split; cbn.
  - case_bool_decide as Hin; [done|]. apply NoDup_app. split_and!; [done| |apply NoDup_singleton].
    intros a Ha ->%list_elem_of_singleton. by apply Hin, Hk.
  - intros a. rewrite lookup_insert_is_Some'. case_bool_decide as Hin.
    + rewrite Hk. split; [auto|]. intros [<-|?]; done.
    + rewrite elem_of_app, list_elem_of_singleton, Hk. naive_solver.
  - intros a v. rewrite lookup_insert_Some. intros [[<- <-]|[Hne Hv]].
    + split; [done|]. apply elem_of_app. right. by apply list_elem_of_singleton.
    + destruct (Hu a v Hv). split; [done|]. apply elem_of_app. by left.
Qed.

Lemma byAddr_fold_inv us seen acc :
  by_address seen acc -> by_address (seen ++ us) (foldl byAddr_add acc us).
Proof.
  revert seen acc; induction us as [|u us IH]; intros seen acc Hi; cbn [foldl].
  - by rewrite app_nil_r.
  - replace (seen ++ u :: us) with ((seen ++ [u]) ++ us) by (by rewrite <- app_assoc).
    apply IH. by apply byAddr_add_inv.
Qed.

Lemma by_address_empty : by_address [] ([], ∅).
Proof.
  split; cbn; [constructor| |].
  - intros a. rewrite lookup_empty. split; [by intros ?%elem_of_nil|by intros [? ?]].
  - intros a u. by rewrite lookup_empty.
Qed.

Lemma omap_address (m : gmap gostring StationURL) (order : list gostring) :
  (forall a, a ∈ order -> is_Some (m !! a)) ->
  (forall a u, m !! a = Some u -> address u = a) ->
  address <$> omap (fun a => m !! a) order = order.
Proof.
  induction order as [|a order IH]; intros Hk Hu; cbn; [done|].
  destruct (Hk a) as [u Hm]; [apply elem_of_cons; by left|]. rewrite Hm. cbn. rewrite (Hu a u Hm).
  f_equal. apply IH; [|done]. intros b Hb. apply Hk, elem_of_cons. by right.
Qed.

(** The rebuilt set, in one statement. *)
Lemma rebuild_spec st new :
  NoDup (address <$> rebuildStations st new) /\ new ∈ rebuildStations st new /\
  forall u, u ∈ rebuildStations st new -> u = new \/ (u ∈ st /\ address u <> address new).
Proof.
  unfold rebuildStations. pose proof (byAddr_fold_inv st [] _ by_address_empty) as H0.
  rewrite foldl_app. cbn [foldl]. set (acc0 := foldl byAddr_add ([], ∅) st) in *.
  pose proof (byAddr_add_inv _ acc0 new H0) as H1.
  assert ((byAddr_add acc0 new).2 = <[address new := new]> acc0.2) as Hm by (by destruct acc0).
  destruct (byAddr_add acc0 new) as [order m]. cbn in *. subst m. destruct H1 as [Hnd Hk Hu]; cbn in *.
  split_and!.
  - rewrite omap_address; [done|intros a Ha; by apply Hk|intros a u Ha; by apply (Hu a u)].
  - apply list_elem_of_omap. exists (address new). split; [|apply lookup_insert_eq].
    apply Hk. rewrite lookup_insert_eq. eauto.
  - intros u. rewrite list_elem_of_omap. intros (a & _ & Ha). apply lookup_insert_Some in Ha.
    destruct Ha as [[_ <-]|[Hne Ha]]; [by left|right]. destruct (ba_urls _ _ H0 a u Ha) as [<- Hin]. done.
Qed.

(** ** Observed ports are ports *)
Definition nat_cache_ok (k : NatCache) : Prop :=
  forall m, natCache k = Some m -> map_Forall (fun _ p => 0 < p < 65536) m.

Lemma parse_nat_file_ok data : map_Forall (fun _ p => 0 < p < 65536) (parse_nat_file data).
Proof.
  unfold parse_nat_file. set (P := map_Forall _).
  assert (forall ls m, P m -> P (foldl parse_nat_line m ls)) as Hgen.
  { induction ls as [|line ls IH]; intros m Hm; cbn [foldl]; [done|]. apply IH.
    unfold parse_nat_line. repeat case_match; try done. destruct_bool_decide.
    apply map_Forall_insert_2; [lia|done]. }
  apply Hgen. apply map_Forall_empty.
Qed.

Lemma natPortForIP_ok now now' file ip k :
  nat_cache_ok k ->
  nat_cache_ok (natPortForIP now now' file ip k).2 /\
  forall p, (natPortForIP now now' file ip k).1 = Some p -> 0 < p < 65536.
Proof.
  intros Hk. unfold natPortForIP. case_bool_decide; [done|].
  assert (nat_cache_ok (mkNatCache (Some ∅) now')) by (intros m [= <-]; apply map_Forall_empty).
  pose proof (parse_nat_file_ok (default [] file)) as Hf.
  destruct (match natCache k with None => true | Some _ => _ end).
  - destruct file as [data|]; cbn in *; [|done]. split; [by intros m [= <-]|].
    intros p Hp. by apply (Hf ip p).
  - split; [done|]. cbn. intros p. destruct (natCache k) as [m|] eqn:Hm; cbn.
    + intros Hp. by apply (Hk m Hm ip p).
    + by rewrite lookup_empty.
Qed.

(** ReplaceURL leaves the connection with at most one url per address, among
    them the reported one, which carries the caller's PID; any other url kept is a
    previous one of another address. *)
Theorem replace_url_dedupes c req c' resp :
  handleReplaceURL c req = (c', resp) ->
  exists new, Get new (str "PID") = itoa (sint 64 (PID c)) /\
    NoDup (address <$> stationURLs c') /\ new ∈ stationURLs c' /\
    (forall u, u ∈ stationURLs c' -> u = new \/ (u ∈ stationURLs c /\ address u <> address new)) /\
    PID c' = PID c /\ ID c' = ID c.
Proof.
  unfold handleReplaceURL. destruct (rbind _ _ _) as [new0 st]. intros [= <- <-].
  set (new := SetInt new0 (str "PID") (sint 64 (PID c))). exists new.
  destruct (rebuild_spec (stationURLs c) new) as (Hnd & Hin & Hall).
  split_and!; [apply Get_Set|done..].
Qed.

Lemma replace_url_dedupes_witness :
  exists new, Get new (str "PID") = itoa 7 /\
    new ∈ stationURLs (handleReplaceURL (set_login 7 0 [] (NewConnection []))
      (NewRMCRequest ProtocolSecureConnection MethodReplaceURL 1
        (StreamOut.GoString [] ++ StreamOut.GoString (str "prudp:/address=10.0.0.2")))).1.
Proof.
  destruct (replace_url_dedupes (set_login 7 0 [] (NewConnection []))
    (NewRMCRequest ProtocolSecureConnection MethodReplaceURL 1
      (StreamOut.GoString [] ++ StreamOut.GoString (str "prudp:/address=10.0.0.2"))) _ _
    (surjective_pairing _)) as (new & H1 & _ & H2 & _). exists new. by split.
Defined.

(** ** The bridge *)
Lemma Get_Copy `{GoRange} u k : Get (Copy u) k = Get u k.
Proof. by rewrite Copy_id. Qed.

Lemma GetInt_eq u v k : Get u k = Get v k -> GetInt u k = GetInt v k.
Proof. unfold GetInt. by intros ->. Qed.

Lemma Has_Remove_ne u k k' : Has u k' = false -> Has (Remove u k) k' = false.
Proof.
  unfold Has, Remove. intros Hb. destruct_bool_decide. apply bool_decide_eq_false_2. case_match; [|done].
  cbn. intros [v [_ Hv]%lookup_delete_Some]. apply Hb. eauto.
Qed.

(** ** Which stations are chosen *)

(** The public station: the first url with an address that is not a local one. *)
Definition public_station (urls : list StationURL) : option StationURL :=
  head (filter (fun u => address u <> [] /\ isPrivateIP (address u) = false) urls).

(** The local station: the first url with a local address; if there is none, the first
    whose type does not have the public bit; if there is none of those, the first. *)
Definition local_station (urls : list StationURL) : option StationURL :=
  head (filter (fun u => isPrivateIP (address u) = true) urls ++
        filter (fun u => Z.testbit (GetInt u (str "type")) 1 = false) urls ++ urls).

Lemma private_address u : isPrivateIP (address u) = true -> address u <> [].
Proof. intros Hp E. by rewrite E in Hp. Qed.

Lemma pick_by_address_spec pre urls l p :
  let '(l', p') := pick_by_address (length pre) urls l p in
  ((pre ++ urls) !!.) <$> l' =
    (if l then ((pre ++ urls) !!.) <$> l
     else Some <$> head (filter (fun u => isPrivateIP (address u) = true) urls)) /\
  ((pre ++ urls) !!.) <$> p' =
    (if p then ((pre ++ urls) !!.) <$> p
     else Some <$> head (filter (fun u => address u <> [] /\ isPrivateIP (address u) = false) urls)).
Proof.
  revert pre l p. induction urls as [|u urls IH]; intros pre l p; cbn [pick_by_address].
  { by destruct l, p. }
  rewrite !filter_cons.
  assert (S (length pre) = length (pre ++ [u])) as Hlen by (rewrite length_app; cbn; lia).
  assert ((pre ++ u :: urls) !! length pre = Some u) as Hu by (by rewrite list_lookup_middle).
  replace (pre ++ u :: urls) with ((pre ++ [u]) ++ urls) in * by (by rewrite <- app_assoc).
  pose proof (private_address u) as Hpa. rewrite Hlen. case_bool_decide as Ha.
  { specialize (IH (pre ++ [u]) l p). destruct (pick_by_address _ _ _ _).
    rewrite !decide_False by naive_solver. done. }
  destruct (isPrivateIP (address u)) eqn:Hp.
  - specialize (IH (pre ++ [u]) (if l then l else Some (length pre)) p). destruct (pick_by_address _ _ _ _).
    rewrite decide_True, decide_False by naive_solver. destruct l; [done|]. cbn in *. by rewrite Hu in IH.
  - specialize (IH (pre ++ [u]) l (if p then p else Some (length pre))). destruct (pick_by_address _ _ _ _).
    rewrite decide_False, decide_True by naive_solver. destruct p; [done|]. cbn in *. by rewrite Hu in IH.
Qed.

Lemma public_bit x : Z.land (u8 x) StationURLFlagPublic = 0 <-> Z.testbit x 1 = false.
Proof.
  assert (Z.testbit (u8 x) 1 = Z.testbit x 1) as E by (unfold u8; by apply Z.mod_pow2_bits_low).
  rewrite <- E. change StationURLFlagPublic with (2 ^ 1). split.
  - intros H0. apply (f_equal (fun z => Z.testbit z 1)) in H0. rewrite Z.land_spec, Z.pow2_bits_true in H0 by lia.
    by rewrite andb_true_r, Z.bits_0 in H0.
  - intros H0. apply Z.bits_inj_0. intros n. rewrite Z.land_spec. destruct (decide (n = 1)) as [->|]; [by rewrite H0|].
    rewrite Z.pow2_bits_false by done. apply andb_false_r.
Qed.

Lemma pick_not_public_spec pre urls :
  ((pre ++ urls) !!.) <$> pick_not_public (length pre) urls =
  Some <$> head (filter (fun u => Z.testbit (GetInt u (str "type")) 1 = false) urls).
Proof.
  revert pre. induction urls as [|u urls IH]; intros pre; cbn [pick_not_public]; [done|]. rewrite filter_cons.
  pose proof (public_bit (GetInt u (str "type"))) as Hb. case_bool_decide as Hp.
  - rewrite decide_True by (by apply Hb). cbn. by rewrite list_lookup_middle.
  - rewrite decide_False by (intros E; by apply Hp, Hb). specialize (IH (pre ++ [u])).
    rewrite <- app_assoc, length_app in IH. cbn in IH. by rewrite Nat.add_1_r in IH.
Qed.

(** [selectStations] returns the positions of the two stations. *)
Lemma selectStations_spec urls :
  (urls !!.) <$> (selectStations urls).1 = Some <$> local_station urls /\
  (urls !!.) <$> (selectStations urls).2 = Some <$> public_station urls.
Proof.
  pose proof (pick_by_address_spec [] urls None None) as Hp. cbn [length app] in Hp. unfold selectStations.
  destruct (pick_by_address 0 urls None None) as [l p]. destruct Hp as [Hl Hp]. split; [|exact Hp]. cbn [fst].
  unfold local_station. pose proof (pick_not_public_spec [] urls) as Hn. cbn [length app] in Hn.
  destruct l as [l|]; destruct (filter (fun u => isPrivateIP (address u) = true) urls) as [|u us]; try done.
  cbn [app]. clear Hl. destruct (pick_not_public 0 urls) as [l|];
    destruct (filter (fun u => Z.testbit (GetInt u (str "type")) 1 = false) urls); try done.
  by destruct urls.
Qed.

(** The two candidates. *)
Lemma bridge_urls `{GoRange} local public port (publicFirst : bool) :
  0 < port < 65536 -> GetInt local (str "RVCID") <> 0 ->
  let lan := Remove (Remove (SetInt (Copy local) (str "port") port) (str "type")) (str "Pa") in
  let pub := Set_ (SetInt (SetInt (Copy public) (str "port") port) (str "type")
      (Z.lor (Z.lor StationURLFlagBehindNAT StationURLFlagPublic) stationURLFlagSwitch)) (str "Pa")
      (if publicFirst then address public else address local) in
  address lan = address local /\ GetInt lan (str "port") = port /\
  Has lan (str "type") = false /\ Has lan (str "Pa") = false /\
  GetInt lan (str "RVCID") = GetInt local (str "RVCID") /\ GetInt lan (str "RVCID") <> 0 /\
  Get lan (str "CID") = Get local (str "CID") /\
  address pub = address public /\ GetInt pub (str "port") = port /\
  GetInt pub (str "type") = 11 /\
  Get pub (str "Pa") = (if publicFirst then address public else address local).
Proof.
  intros Hport Hcid lan pub. subst lan pub. unfold address. split_and!.
  - rewrite !Get_Remove_ne by done. unfold SetInt. rewrite Get_Set_ne by done. apply Get_Copy.
  - erewrite GetInt_eq; [apply (GetInt_SetInt (Copy local)); lia|]. by rewrite !Get_Remove_ne by done.
  - apply Has_Remove_ne, Has_Remove.
  - apply Has_Remove.
  - apply GetInt_eq. rewrite !Get_Remove_ne by done. unfold SetInt. rewrite Get_Set_ne by done. apply Get_Copy.
  - erewrite GetInt_eq; [exact Hcid|]. rewrite !Get_Remove_ne by done. unfold SetInt.
    rewrite Get_Set_ne by done. apply Get_Copy.
  - rewrite !Get_Remove_ne by done. unfold SetInt. rewrite Get_Set_ne by done. apply Get_Copy.
  - unfold SetInt. rewrite !Get_Set_ne by done. apply Get_Copy.
  - erewrite GetInt_eq; [apply (GetInt_SetInt (Copy public)); lia|]. unfold SetInt.
    by rewrite !Get_Set_ne by done.
  - erewrite GetInt_eq; [|by rewrite Get_Set_ne by done]. by rewrite GetInt_SetInt by (vm_compute; done).
  - apply Get_Set.
Qed.


Definition ex_urls : list StationURL :=
  [ParseStationURL (str "prudp:/address=88.161.250.17;port=50000");
   ParseStationURL (str "prudp:/address=192.168.1.9;port=50000;RVCID=4;CID=77;type=2")].


(** ** Which IPv4 addresses count as local *)
Definition dotted (a b c d : Z) : gostring :=
  itoa a ++ dot :: itoa b ++ dot :: itoa c ++ dot :: itoa d.

Definition octets : list Z := Z.of_nat <$> seq 0 256.

Lemma elem_of_octets a : 0 <= a < 256 -> a ∈ octets.
Proof.
  intros Ha. apply list_elem_of_fmap. exists (Z.to_nat a). split; [lia|]. apply elem_of_seq. lia.
Qed.

(** Masking the high bits of a byte selects a block of [2^k]. *)
Lemma mask_high b k q :
  0 <= b < 256 -> 0 <= k <= 8 -> Z.land b (256 - 2 ^ k) = q * 2 ^ k <-> q * 2 ^ k <= b < (q + 1) * 2 ^ k.
Proof.
  intros Hb Hk.
  assert (Z.land b (256 - 2 ^ k) = b / 2 ^ k * 2 ^ k) as ->.
  { rewrite <- Z.shiftr_div_pow2, <- Z.shiftl_mul_pow2 by lia.
    apply Z.bits_inj'. intros i Hi. rewrite Z.land_spec, Z.shiftl_spec by lia.
    replace (256 - 2 ^ k) with (Z.shiftl (Z.ones (8 - k)) k).
    2: { rewrite Z.shiftl_mul_pow2, Z.ones_equiv by lia.
         replace 256 with (2 ^ (8 - k) * 2 ^ k) by (rewrite <- Z.pow_add_r by lia; by replace (8 - k + k) with 8 by lia).
         lia. }
    rewrite Z.shiftl_spec by lia. destruct (decide (i < k)) as [Hlt|Hge].
    - rewrite (Z.testbit_neg_r _ (i - k)) by lia. rewrite (Z.testbit_neg_r _ (i - k)) by lia. apply andb_false_r.
    - rewrite Z.shiftr_spec by lia. replace (i - k + k) with i by lia.
      destruct (decide (i < 8)).
      + rewrite Z.ones_spec_low by lia. apply andb_true_r.
      + rewrite Z.ones_spec_high by lia. rewrite andb_false_r.
        symmetry. rewrite <- (Z.mod_small b (2 ^ 8)) by lia. apply Z.mod_pow2_bits_high. lia. }
  assert (0 < 2 ^ k) by lia.
  split.
  - intros He. assert (b / 2 ^ k = q) by nia. subst q.
    pose proof (Z.mul_div_le b (2 ^ k)). pose proof (Z.mul_succ_div_gt b (2 ^ k)). lia.
  - intros Hr. f_equal. symmetry. apply (Z.div_unique b (2 ^ k) q (b - q * 2 ^ k)); lia.
Qed.

(** The digits of one field. *)
Fixpoint octet_scan (s : gostring) (val digits : Z) : option (Z * Z) :=
  match s with
  | [] => Some (val, digits)
  | c :: r =>
      if is_digit c && negb (bool_decide (digits = 1) && bool_decide (val = 0)) &&
         bool_decide (val * 10 + (c - 48) <= 255)
      then octet_scan r (val * 10 + (c - 48)) (digits + 1) else None
  end.

Lemma ipv4_scan s val digits v n r acc :
  octet_scan s val digits = Some (v, n) ->
  ipv4_fields (s ++ r) val digits acc = ipv4_fields r v n acc.
Proof.
  revert val digits; induction s as [|c s IH]; intros val digits; cbn; [by intros [= -> ->]|].
  destruct (is_digit c); cbn; [|done].
  destruct (bool_decide (digits = 1) && bool_decide (val = 0)); cbn; [done|].
  case_bool_decide; [|done]. rewrite (bool_decide_eq_false_2 (255 < _)) by lia. apply IH.
Qed.

Definition octet_ok (a : Z) : bool :=
  match octet_scan (itoa a) 0 0 with
  | Some (v, n) => bool_decide (v = a) && bool_decide (0 < n)
  | None => false
  end.

Lemma octets_ok a : 0 <= a < 256 -> exists n, octet_scan (itoa a) 0 0 = Some (a, n) /\ 0 < n.
Proof.
  intros Ha. assert (forallb octet_ok octets = true) as Hall by (vm_compute; reflexivity).
  rewrite forallb_forall in Hall. specialize (Hall a). rewrite <- list_elem_of_In in Hall.
  specialize (Hall (elem_of_octets a Ha)). unfold octet_ok in Hall.
  destruct (octet_scan (itoa a) 0 0) as [[v n]|]; [|done]. destruct_bool_decide. subst. eauto.
Qed.

Lemma ipv4_octet a r acc :
  0 <= a < 256 -> len acc < 3 -> r <> [] ->
  ipv4_fields (itoa a ++ dot :: r) 0 0 acc = ipv4_fields r 0 0 (acc ++ [a]).
Proof.
  intros Ha Hl Hr. destruct (octets_ok a Ha) as (n & Hs & Hn). rewrite (ipv4_scan _ _ _ _ _ _ _ Hs).
  cbn. rewrite (bool_decide_eq_false_2 (n = 0)) by lia. rewrite (bool_decide_eq_false_2 (r = [])) by done.
  rewrite (bool_decide_eq_false_2 (len acc = 3)) by lia. done.
Qed.

Lemma ipv4_last a acc :
  0 <= a < 256 -> len acc = 3 -> ipv4_fields (itoa a) 0 0 acc = Some (acc ++ [a]).
Proof.
  intros Ha Hl. destruct (octets_ok a Ha) as (n & Hs & Hn).
  rewrite <- (app_nil_r (itoa a)), (ipv4_scan _ _ _ _ _ _ _ Hs). cbn.
  rewrite !bool_decide_eq_false_2 by lia. done.
Qed.

Lemma itoa_octet_nonempty a : 0 <= a < 256 -> itoa a <> [].
Proof. intros Ha He. destruct (octets_ok a Ha) as (n & Hs & Hn). rewrite He in Hs. cbn in Hs. simplify_eq. Qed.

Lemma parse_dotted a b c d :
  0 <= a < 256 -> 0 <= b < 256 -> 0 <= c < 256 -> 0 <= d < 256 ->
  ParseIP (dotted a b c d) = Some (v4_in_v6 [a; b; c; d]).
Proof.
  intros Ha Hb Hc Hd. unfold ParseIP.
  assert (addr_kind (dotted a b c d) = Some dot) as ->.
  { unfold dotted. destruct (octets_ok a Ha) as (n & Hs & _). revert Hs.
    generalize (itoa a) as s, 0 at 1 as v, 0 at 1 as k. intros s v k.
    revert v k. induction s as [|x s IH]; intros v k; cbn [octet_scan app addr_kind]; [done|].
    unfold is_digit, dot, colon, percent.
    destruct (bool_decide (48 <= x) && bool_decide (x <= 57)) eqn:Hx; [|done]. destruct_bool_decide.
    destruct (_ && _); [|done]. intros Hs. destruct (decide (x = 58)); [lia|].
    rewrite !bool_decide_eq_false_2 by lia. by eapply IH. }
  rewrite bool_decide_eq_true_2 by done. unfold parse_ipv4, dotted.
  do 2 rewrite ipv4_octet by (done || (intros []%app_nil; done)).
  rewrite ipv4_octet by (done || by apply itoa_octet_nonempty). by rewrite ipv4_last by done.
Qed.

(** Of the IPv4 addresses in dotted form, exactly the RFC1918 ranges, loopback,
    link-local and the whole carrier-grade NAT range 100.64/10 count as local. *)
Theorem local_ipv4_ranges a b c d :
  0 <= a < 256 -> 0 <= b < 256 -> 0 <= c < 256 -> 0 <= d < 256 ->
  isPrivateIP (dotted a b c d) = true <->
  a = 10 \/ (a = 172 /\ 16 <= b < 32) \/ (a = 192 /\ b = 168) \/ a = 127 \/
  (a = 169 /\ b = 254) \/ (a = 100 /\ 64 <= b < 128).
Proof.
  intros Ha Hb Hc Hd. unfold isPrivateIP. rewrite parse_dotted by done.
  unfold IsPrivate, IsLoopback, IsLinkLocalUnicast, cgnat_contains.
  change (To4 (v4_in_v6 [a; b; c; d])) with (Some [a; b; c; d]).
  change (at_ [a; b; c; d] 0) with a. change (at_ [a; b; c; d] 1) with b.
  assert (Z.land b 0xf0 = 16 <-> 16 <= b < 32) as H1.
  { apply (mask_high b 4 1); lia. }
  assert (Z.land b 0xc0 = 64 <-> 64 <= b < 128) as H2.
  { apply (mask_high b 6 1); lia. }
  rewrite <- H1, <- H2. rewrite !orb_true_iff, !andb_true_iff, !bool_decide_eq_true. tauto.
Qed.

Lemma local_ipv4_ranges_witness :
  isPrivateIP (dotted 172 217 16 4) = false /\ isPrivateIP (dotted 100 127 0 1) = true.
Proof.
  split.
  - destruct (isPrivateIP (dotted 172 217 16 4)) eqn:E; [|done].
    apply local_ipv4_ranges in E; lia.
  - apply local_ipv4_ranges; lia.
Defined.
