(* ===== verification/Store.v ===== *)
(** * The matchmaking store (nextendo-nex/matchmaking_handlers.go, solo_isolate.go)

    The state of [Matchmaking] and the operations that run on it with the mutex
    held, apart from the wire.  Everything a call reads from outside the store is
    an argument: the caller, the clock readings, the random session key, the date
    and the process environment.  Gatherings are reached only through the map and
    only with the mutex held, so the map holds them as values. *)

From S2P Require Import Prelude GoStd Settings Stream Types Rmc Matchmaking Reservations.
From S2P Require Import Notification StationURL Connection.
Import GoStrings GoStrconv.

(** ** Process environment *)

(** [isSoloPID]: the set parsed once from NEX_SOLO_PIDS. *)
Definition soloPIDs (env : gostring) : gset Z :=
  list_to_set (omap (fun tok =>
    let tok := trim_space tok in
    if bool_decide (tok = []) then None
    else match parse_uint tok with NumOk v => Some v | _ => None end) (split 44 env)).
Definition isSoloPID (env : gostring) (pid : Z) : bool := bool_decide (pid ∈ soloPIDs env).

(** [openParticipationDefault] of NEXTENDO_OPEN_PARTICIPATION. *)
Definition openParticipationDefault (v : gostring) : bool :=
  bool_decide (v = str "1") || bool_decide (v = str "true").

Record ProcEnv := mkProcEnv { NEX_SOLO_PIDS : gostring; NEXTENDO_OPEN_PARTICIPATION : gostring }.

(** What one call draws from outside: the readings of [m.now()] in the order the
    code makes them, [randomBytes(32)] and [NowDateTime()]. *)
Record CallEnv := mkCallEnv {
  t_scan : Z; t_reserve : Z; t_commit : Z; rand_key : bytes; now_date : Z
}.

(** ** Session updates *)
Definition set_NumParticipants (n : Z) (m : MatchmakeSession) : MatchmakeSession :=
  mkSession (ms_Gathering m) (GameMode m) (Attribs m) (OpenParticipation m) (MatchmakeSystem m)
    (ApplicationData m) n (ProgressScore m) (SessionKey m) (Option_ m)
    (Param m) (StartedTime m) (UserPassword m) (ReferGID m) (UserPasswordEnabled m)
    (SystemPasswordEnabled m) (Codeword m).
Definition set_OpenParticipation (b : bool) (m : MatchmakeSession) : MatchmakeSession :=
  mkSession (ms_Gathering m) (GameMode m) (Attribs m) b (MatchmakeSystem m)
    (ApplicationData m) (NumParticipants m) (ProgressScore m) (SessionKey m) (Option_ m)
    (Param m) (StartedTime m) (UserPassword m) (ReferGID m) (UserPasswordEnabled m)
    (SystemPasswordEnabled m) (Codeword m).
Definition set_Attribs (l : list Z) (m : MatchmakeSession) : MatchmakeSession :=
  mkSession (ms_Gathering m) (GameMode m) l (OpenParticipation m) (MatchmakeSystem m)
    (ApplicationData m) (NumParticipants m) (ProgressScore m) (SessionKey m) (Option_ m)
    (Param m) (StartedTime m) (UserPassword m) (ReferGID m) (UserPasswordEnabled m)
    (SystemPasswordEnabled m) (Codeword m).
Definition set_ApplicationData (b : bytes) (m : MatchmakeSession) : MatchmakeSession :=
  mkSession (ms_Gathering m) (GameMode m) (Attribs m) (OpenParticipation m) (MatchmakeSystem m)
    b (NumParticipants m) (ProgressScore m) (SessionKey m) (Option_ m)
    (Param m) (StartedTime m) (UserPassword m) (ReferGID m) (UserPasswordEnabled m)
    (SystemPasswordEnabled m) (Codeword m).
Definition set_GameMode (x : Z) (m : MatchmakeSession) : MatchmakeSession :=
  mkSession (ms_Gathering m) x (Attribs m) (OpenParticipation m) (MatchmakeSystem m)
    (ApplicationData m) (NumParticipants m) (ProgressScore m) (SessionKey m) (Option_ m)
    (Param m) (StartedTime m) (UserPassword m) (ReferGID m) (UserPasswordEnabled m)
    (SystemPasswordEnabled m) (Codeword m).
Definition set_Codeword (c : gostring) (m : MatchmakeSession) : MatchmakeSession :=
  mkSession (ms_Gathering m) (GameMode m) (Attribs m) (OpenParticipation m) (MatchmakeSystem m)
    (ApplicationData m) (NumParticipants m) (ProgressScore m) (SessionKey m) (Option_ m)
    (Param m) (StartedTime m) (UserPassword m) (ReferGID m) (UserPasswordEnabled m)
    (SystemPasswordEnabled m) c.
(** [r.SessionKey = nil; r.UserPassword = ""] on a copy. *)
Definition set_secrets (key : bytes) (pw : gostring) (m : MatchmakeSession) : MatchmakeSession :=
  mkSession (ms_Gathering m) (GameMode m) (Attribs m) (OpenParticipation m) (MatchmakeSystem m)
    (ApplicationData m) (NumParticipants m) (ProgressScore m) key (Option_ m)
    (Param m) (StartedTime m) pw (ReferGID m) (UserPasswordEnabled m)
    (SystemPasswordEnabled m) (Codeword m).
Definition set_MinParticipants (n : Z) (m : MatchmakeSession) : MatchmakeSession :=
  let g := ms_Gathering m in
  with_Gathering (mkGathering (g_ID g) (g_OwnerPID g) (g_HostPID g) n (g_MaxParticipants g)
    (g_ParticipationPolicy g) (g_PolicyArgument g) (g_Flags g) (g_State g) (g_Description g)) m.
Definition set_MaxParticipants (n : Z) (m : MatchmakeSession) : MatchmakeSession :=
  let g := ms_Gathering m in
  with_Gathering (mkGathering (g_ID g) (g_OwnerPID g) (g_HostPID g) (g_MinParticipants g) n
    (g_ParticipationPolicy g) (g_PolicyArgument g) (g_Flags g) (g_State g) (g_Description g)) m.

(** [for len(l) < 6 { l = append(l, 0) }] *)
Definition pad6 (l : list Z) : list Z := l ++ replicate (6 - length l) 0.

Definition finalizeCreatedSession (openDefault : bool) (e : CallEnv) (s : MatchmakeSession)
    (gid ownerPID : Z) : MatchmakeSession :=
  let g := ms_Gathering s in
  let max := if bool_decide (g_MaxParticipants g = 0) then 12 else g_MaxParticipants g in
  let g' := mkGathering gid ownerPID ownerPID (g_MinParticipants g) max
    (g_ParticipationPolicy g) (g_PolicyArgument g) (g_Flags g)
    (if openDefault then 1 else g_State g) (g_Description g) in
  let params := <[str "@GIR" := mkVariant VariantInt64 3 0 false [] 0 0]>
    (<[str "@SR" := mkVariant VariantBool 0 0 true [] 0 0]> (Params (Param s))) in
  mkSession g' (GameMode s) (pad6 (Attribs s))
    (if openDefault then true else OpenParticipation s) (MatchmakeSystem s)
    (ApplicationData s) 1 (ProgressScore s) (rand_key e) (Option_ s)
    (mkMatchmakeParam params) (now_date e) (UserPassword s) (ReferGID s)
    (if openDefault then false else UserPasswordEnabled s) false (Codeword s).

(** ** NAT classes *)
Inductive natClass := natUnknown | natOpen | natModerate | natStrict.
#[export] Instance natClass_eq_dec : EqDecision natClass.
Proof. solve_decision. Defined.

Definition classifyNAT (nat : Z * Z) : natClass :=
  let '(natMap, natFilter) := nat in
  if bool_decide (natMap = 0) && bool_decide (natFilter = 0) then natUnknown
  else if bool_decide (natMap <= 1) && bool_decide (natFilter <= 1) then natOpen
  else if bool_decide (natMap <= 1) then natModerate
  else natStrict.

Definition natCompatible (a b : natClass) : bool :=
  if bool_decide (a = natUnknown) || bool_decide (b = natUnknown) then true
  else if bool_decide (a = natStrict) &&
          (bool_decide (b = natStrict) || bool_decide (b = natModerate)) then false
  else if bool_decide (b = natStrict) &&
          (bool_decide (a = natStrict) || bool_decide (a = natModerate)) then false
  else true.

(** [pidNATClass] of a live endpoint. *)
Definition pidNATClass `{GoRange} (ep : Registry) (pid : Z) : natClass :=
  match FindConnectionByPID ep pid with
  | None => natUnknown
  | Some (_, c) => classifyNAT (NATBehaviour c)
  end.

Fixpoint gatheringNATCompatible `{GoRange} (ep : Registry) (joiner : natClass) (members : list Z)
    (joinerPID : Z) : bool :=
  match members with
  | [] => true
  | pid :: members =>
      if bool_decide (pid = joinerPID) then gatheringNATCompatible ep joiner members joinerPID
      else if negb (natCompatible joiner (pidNATClass ep pid)) then false
      else gatheringNATCompatible ep joiner members joinerPID
  end.

(** ** The store *)

(** The per-title switches and the title's friend hooks ([None] is [nil]).
    [OnFriendSessionCreated] is the game server's callback: what it publishes. *)
Record Config := mkConfig {
  FindByParticipantEnabled : bool;
  SessionPartPersists : bool;
  PublicStationFirst : bool;
  JoinRespExistingCount : bool;
  FriendPIDs : option (Z -> list Z);
  OnFriendSessionCreated : option (Z -> Z -> notifStore -> notifStore)
}.
Definition default_Config : Config := mkConfig false false false false None None.

Record MMStore := mkStore {
  cfg : Config;
  notif : notifStore;
  gatherings : gmap Z gathering;
  byCode : gmap gostring Z;
  nextGID : Z;
  codeRand : Z;
  reservationTTL : Z
}.
Definition NewMatchmaking (c : Config) : MMStore :=
  mkStore c ∅ ∅ ∅ 1 0x1234 defaultJoinReservationTTL.

Definition with_gatherings (gs : gmap Z gathering) (m : MMStore) : MMStore :=
  mkStore (cfg m) (notif m) gs (byCode m) (nextGID m) (codeRand m) (reservationTTL m).
Definition with_notif (n : notifStore) (m : MMStore) : MMStore :=
  mkStore (cfg m) n (gatherings m) (byCode m) (nextGID m) (codeRand m) (reservationTTL m).
Definition put_gathering (gid : Z) (g : gathering) (m : MMStore) : MMStore :=
  with_gatherings (<[gid := g]> (gatherings m)) m.
Definition set_TTL (ttl : Z) (m : MMStore) : MMStore :=
  mkStore (cfg m) (notif m) (gatherings m) (byCode m) (nextGID m) (codeRand m)
    (SetJoinReservationTTL ttl).

(** The caller, as the store sees it. *)
Record Caller := mkCaller { c_pid : Z; c_id : Z }.

Definition createGathering (openDefault : bool) (e : CallEnv) (c : Caller)
    (src : MatchmakeSession) (m : MMStore) : gathering * MMStore :=
  let gid := nextGID m in
  let s := finalizeCreatedSession openDefault e src gid (c_pid c) in
  let g := mkgathering s [c_pid c] (c_id c) [] ∅ in
  (g, mkStore (cfg m) (notif m) (<[gid := g]> (gatherings m)) (byCode m) (u32 (gid + 1))
        (codeRand m) (reservationTTL m)).

(** [g.session.NumParticipants = uint32(len(g.participants))] *)
Definition sync_count (g : gathering) : gathering :=
  with_session (set_NumParticipants (u32 (len (participants g))) (session g)) g.

(** The tests of the candidate loop before the seats are counted. *)
Definition joinable (src : MatchmakeSession) (g : gathering) : bool :=
  bool_decide (GameMode (session g) = GameMode src) && OpenParticipation (session g) &&
  negb (UserPasswordEnabled (session g)).

(** [for _, cand := range m.gatherings]: the chosen gathering, the number of lobbies
    skipped for NAT reasons, and the map with the expired seats purged. *)
Fixpoint findCandidate (compatible : list Z -> bool) (now : Z) (src : MatchmakeSession)
    (entries : list (Z * gathering)) (skipped : Z) (gs : gmap Z gathering)
    : option Z * Z * gmap Z gathering :=
  match entries with
  | [] => (None, skipped, gs)
  | (gid, g) :: entries =>
      if joinable src g then
        let '(n, g') := occupiedSeatsLocked g now in
        let gs := <[gid := g']> gs in
        if bool_decide (u16 n < MaxParticipants (session g)) then
          if negb (compatible (participants g))
          then findCandidate compatible now src entries (skipped + 1) gs
          else (Some gid, skipped, gs)
        else findCandidate compatible now src entries skipped gs
      else findCandidate compatible now src entries skipped gs
  end.

Section AutoMatchmake.
Context `{GoRange} (pe : ProcEnv) (ep : Registry).

(** The part of [autoMatchmake] under the mutex: the gathering the caller ends up
    with, whether it joined one, and the store. *)
Definition autoMatchmakeLocked (e : CallEnv) (c : Caller) (nat : Z * Z)
    (src : MatchmakeSession) (m : MMStore) : gathering * bool * MMStore :=
  let openDefault := openParticipationDefault (NEXTENDO_OPEN_PARTICIPATION pe) in
  let solo := isSoloPID (NEX_SOLO_PIDS pe) (c_pid c) in
  let compatible members :=
    gatheringNATCompatible ep (classifyNAT nat) members (c_pid c) in
  let '(found, _, gs) :=
    if solo then (None, 0, gatherings m)
    else findCandidate compatible (t_scan e) src (range (gatherings m)) 0 (gatherings m) in
  let m := with_gatherings gs m in
  let finish gid g joined m :=
    let g := sync_count g in (g, joined, put_gathering gid g m) in
  match found ≫= (fun gid => (fun g => (gid, g)) <$> gatherings m !! gid) with
  | None =>
      let '(g, m') := createGathering openDefault e c src m in
      let g := if solo then with_session (set_MinParticipants 1 (session g)) g else g in
      finish (nextGID m) g false m'
  | Some (gid, g) =>
      let '(reserved, g) := reserveJoinLocked (reservationTTL m) (t_reserve e) g (c_pid c) in
      if reserved then
        let '(joined, g) := commitReservedJoinLocked (t_commit e) g (c_pid c) in
        finish gid g joined m
      else
        let m := put_gathering gid g m in
        let '(g, m') := createGathering openDefault e c src m in
        finish (nextGID m) g false m'
  end.
End AutoMatchmake.

(** [ReserveJoin] and [CancelJoinReservation]. *)
Definition ReserveJoin (now gid pid : Z) (m : MMStore) : bool * MMStore :=
  if bool_decide (pid = 0) then (false, m)
  else match gatherings m !! gid with
       | None => (false, m)
       | Some g => let '(b, g) := reserveJoinLocked (reservationTTL m) now g pid in
                   (b, put_gathering gid g m)
       end.

Definition CancelJoinReservation (gid pid : Z) (m : MMStore) : MMStore :=
  match gatherings m !! gid with
  | None => m
  | Some g => put_gathering gid (cancelJoin g pid) m
  end.

(** ** Private-room codes *)
Definition alphabet : gostring := str "ABCDEFGHIJKLMNPQRSTUVWXYZ23456789".

Fixpoint code_chars (n : nat) (x : Z) : gostring :=
  match n with
  | O => []
  | S n => byte_at alphabet (x mod len alphabet) :: code_chars n (x / len alphabet)
  end.

Definition makeCode (gid : Z) (m : MMStore) : gostring * MMStore :=
  let r := u32 (codeRand m * 1103515245 + 12345 + gid) in
  let code := code_chars 5 r in
  (code, mkStore (cfg m) (notif m)
     (match gatherings m !! gid with
      | Some g => <[gid := with_code code g]> (gatherings m)
      | None => gatherings m
      end) (<[code := gid]> (byCode m)) (nextGID m) r (reservationTTL m)).

(** ** Leaving *)

(** One turn of the loop of [RemovePlayer]. *)
Definition remove_from (pid : Z) (m : MMStore) (entry : Z * gathering) : MMStore :=
  let '(gid, g) := entry in
  let g := cancelJoin g pid in
  let before := len (participants g) in
  let g := with_participants (removePID (participants g) pid) g in
  if bool_decide (len (participants g) = before) then put_gathering gid g m
  else if bool_decide (len (participants g) = 0) || bool_decide (OwnerPID (session g) = pid) then
    mkStore (cfg m) (notif m) (delete gid (gatherings m))
      (if bool_decide (code g <> []) then delete (code g) (byCode m) else byCode m)
      (nextGID m) (codeRand m) (reservationTTL m)
  else put_gathering gid (sync_count g) m.

Definition RemovePlayer `{GoRange} (pid : Z) (m : MMStore) : MMStore :=
  if bool_decide (pid = 0) then m
  else
    let m := with_notif (NotifStore.forget (notif m) pid) m in
    foldl (remove_from pid) m (range (gatherings m)).

Definition endParticipationLocked (gid pid : Z) (m : MMStore) : MMStore :=
  match gatherings m !! gid with
  | None => m
  | Some g =>
      let g := with_participants (removePID (participants g) pid) (cancelJoin g pid) in
      if bool_decide (len (participants g) = 0)
      then with_gatherings (delete gid (gatherings m)) m
      else put_gathering gid (sync_count g) m
  end.

(** Only the recorded owner may unregister. *)
Definition unregisterLocked (gid pid : Z) (m : MMStore) : MMStore :=
  match gatherings m !! gid with
  | Some g => if bool_decide (OwnerPID (session g) = pid)
              then with_gatherings (delete gid (gatherings m)) m else m
  | None => m
  end.

(** ** Ownership hand-off *)

(** [l[0], l[i] = l[i], l[0]] for the first [i] with [l[i] = c]. *)
Fixpoint index_of (c : Z) (l : list Z) : option nat :=
  match l with
  | [] => None
  | p :: l => if bool_decide (p = c) then Some O else S <$> index_of c l
  end.
Definition swap0 (i : nat) (l : list Z) : list Z :=
  match l !! O, l !! i with
  | Some a, Some b => <[i := a]> (<[O := b]> l)
  | _, _ => l
  end.

Fixpoint migrate (candidates : list Z) (l : list Z) : list Z :=
  match candidates with
  | [] => l
  | c :: candidates =>
      match index_of c l with
      | Some i => swap0 i l
      | None => migrate candidates l
      end
  end.

(** ** Lookups *)
Definition GatheringIDByPID `{GoRange} (pid : Z) (m : MMStore) : option Z :=
  (fun kv => ms_ID (session kv.2)) <$>
  List.find (fun kv => containsPID (participants kv.2) pid) (range (gatherings m)).

Definition SessionByPID `{GoRange} (pid : Z) (m : MMStore) : list Z :=
  match List.find (fun kv => containsPID (participants kv.2) pid) (range (gatherings m)) with
  | Some kv => participants kv.2
  | None => []
  end.
