(* ===== verification/StoreInv.v ===== *)
(** * Invariants of the matchmaking store

    What holds of every gathering between two critical sections, and the proof
    that each locked operation of Store.v keeps it. *)

From S2P Require Import Prelude GoStd Settings Stream Types Rmc Matchmaking Reservations.
From S2P Require Import Notification StationURL Connection Store.
Import GoStrings GoStrconv.

(** A gathering stored under [gid]: its id, its members and its advertised count. *)
Record gathering_core (gid : Z) (g : gathering) : Prop := {
  core_id : ms_ID (session g) = gid;
  core_seats : seats_ok g;
  core_members : participants g <> []
}.
Definition count_ok (g : gathering) : Prop :=
  NumParticipants (session g) = u32 (len (participants g)).

(** Every session has a limit, and the taken seats respect it. *)
Definition cap_ok (g : gathering) : Prop :=
  MaxParticipants (session g) <> 0 /\
  (0 < MaxParticipants (session g) -> seats g <= MaxParticipants (session g)).

(** Partial session updates (when the title turns them on) may lower the limit, so
    capacity is promised where they are off. *)
Definition lobby_ok (c : Config) (gid : Z) (g : gathering) : Prop :=
  gathering_core gid g /\ count_ok g /\ (SessionPartPersists c = false -> cap_ok g).

Record store_inv (m : MMStore) : Prop := {
  inv_gatherings : map_Forall (lobby_ok (cfg m)) (gatherings m);
  inv_gids : forall gid, is_Some (gatherings m !! gid) -> 0 < gid < nextGID m;
  inv_next : 0 < nextGID m;
  inv_ttl : 0 < reservationTTL m
}.

(** ** One gathering *)
Lemma u32_small x : 0 <= x < 2 ^ 32 -> u32 x = x.
Proof. intros. by apply Z.mod_small. Qed.

Lemma sync_ok c gid g :
  gathering_core gid g -> (SessionPartPersists c = false -> cap_ok g) ->
  lobby_ok c gid (sync_count g).
Proof. intros [Hid Hs Hm] Hc. split; [|done]. by split. Qed.

Lemma cancel_core gid g pid : gathering_core gid g -> gathering_core gid (cancelJoin g pid).
Proof. intros [Hid Hs Hm]. split; [done|by apply delete_seats_ok|done]. Qed.

Lemma cancel_cap g pid : cap_ok g -> cap_ok (cancelJoin g pid).
Proof.
  intros [Hz Hc]. split; [done|]. intros Hm. specialize (Hc Hm).
  unfold seats, cancelJoin in *; cbn in *. pose proof (size_delete_le (reservations g) pid). lia.
Qed.

Lemma expire_core gid g now :
  gathering_core gid g -> gathering_core gid (expireJoinReservationsLocked g now).
Proof. intros [Hid Hs Hm]. split; [done|by apply expire_seats_ok|done]. Qed.

Lemma expire_cap g now : cap_ok g -> cap_ok (expireJoinReservationsLocked g now).
Proof.
  intros [Hz Hc]. split; [done|]. intros Hm. specialize (Hc Hm).
  pose proof (expire_seats g now). cbn in *. lia.
Qed.

Lemma reserve_session ttl now g pid :
  session (reserveJoinLocked ttl now g pid).2 = session g /\
  participants (reserveJoinLocked ttl now g pid).2 = participants g /\
  code (reserveJoinLocked ttl now g pid).2 = code g.
Proof. unfold reserveJoinLocked. repeat case_match; done. Qed.

Lemma commit_session now g pid :
  session (commitReservedJoinLocked now g pid).2 = session g /\
  code (commitReservedJoinLocked now g pid).2 = code g.
Proof. unfold commitReservedJoinLocked. repeat case_match; done. Qed.

Lemma reserve_core ttl now gid g pid :
  gathering_core gid g -> gathering_core gid (reserveJoinLocked ttl now g pid).2.
Proof.
  intros [Hid Hs Hm]. destruct (reserve_session ttl now g pid) as (Hse & Hp & _).
  split; [by rewrite Hse|by apply reserve_ok|by rewrite Hp].
Qed.

Lemma reserve_cap ttl now g pid : cap_ok g -> cap_ok (reserveJoinLocked ttl now g pid).2.
Proof.
  intros Hc. unfold reserveJoinLocked. case_match; [by apply cancel_cap|].
  pose proof (expire_cap g now Hc) as Hc'. set (g1 := expireJoinReservationsLocked g now) in *.
  case_bool_decide as Hex; [|destruct (bool_decide _ && bool_decide _) eqn:Hfull]; [|done|];
    destruct Hc' as [Hz Hcap]; (split; [done|]); cbn; intros Hm; specialize (Hcap Hm);
    unfold seats; cbn.
  - rewrite map_size_insert_Some by done. exact Hcap.
  - rewrite map_size_insert_None by (by apply eq_None_not_Some).
    rewrite bool_decide_eq_true_2 in Hfull by done. cbn [andb] in Hfull.
    apply bool_decide_eq_false_1 in Hfull. unfold seats in *. cbn in *. lia.
Qed.

Lemma commit_core now gid g pid :
  gathering_core gid g -> gathering_core gid (commitReservedJoinLocked now g pid).2.
Proof.
  intros [Hid Hs Hm]. destruct (commit_session now g pid) as (Hse & _).
  split; [by rewrite Hse|by apply commit_ok|].
  unfold commitReservedJoinLocked. repeat case_match; cbn; try done. by destruct (participants g).
Qed.

Lemma commit_cap now g pid : cap_ok g -> cap_ok (commitReservedJoinLocked now g pid).2.
Proof.
  intros Hc. pose proof (cancel_cap g pid Hc). unfold commitReservedJoinLocked.
  case_match; [done|]. destruct (reservations g !! pid) eqn:He; [|done]. case_match; [done|].
  destruct Hc as [Hz Hc]. split; [done|]. intros Hm. specialize (Hc Hm).
  unfold seats in *. cbn in *. rewrite len_app, len_cons, len_nil.
  rewrite map_size_delete_Some by eauto.
  assert (size (reservations g) <> 0%nat).
  { intros Hz0. apply map_size_empty_inv in Hz0. rewrite Hz0 in He. done. } lia.
Qed.

Lemma remove_core gid g pid :
  gathering_core gid g -> removePID (participants g) pid <> [] ->
  gathering_core gid (with_participants (removePID (participants g) pid) g).
Proof.
  intros [Hid [Hnd Hr] Hm] Hne. split; [done| |done].
  split; cbn; [by apply removePID_NoDup|]. intros p [Hp _]%elem_of_removePID. auto.
Qed.

Lemma remove_cap g pid :
  cap_ok g -> cap_ok (with_participants (removePID (participants g) pid) g).
Proof.
  intros [Hz Hc]. split; [done|]. intros Hm. specialize (Hc Hm). unfold seats, len in *; cbn in *.
  pose proof (removePID_length (participants g) pid). lia.
Qed.

(** A member list with the same members. *)
Lemma permute_ok c gid g ps :
  ps ≡ₚ participants g -> lobby_ok c gid g -> lobby_ok c gid (with_participants ps g).
Proof.
  intros Hp ([Hid [Hnd Hr] Hm] & Hct & Hcap).
  assert (length ps = length (participants g)) as Hlen by (by rewrite Hp).
  split_and!.
  - split; [done| |].
    + split; cbn; [by rewrite Hp|]. intros p. rewrite Hp. apply Hr.
    + cbn. intros ->. by apply Permutation_nil in Hp.
  - unfold count_ok, len in *. cbn. by rewrite Hlen.
  - intros Hs. destruct (Hcap Hs) as [? Hc]. split; [done|]. unfold seats, len in *. cbn in *.
    by rewrite Hlen.
Qed.

(** A session update that keeps the id, the count and the limit. *)
Lemma session_update_ok c gid g s :
  ms_ID s = ms_ID (session g) -> NumParticipants s = NumParticipants (session g) ->
  MaxParticipants s = MaxParticipants (session g) ->
  lobby_ok c gid g -> lobby_ok c gid (with_session s g).
Proof.
  intros H1 H2 H3 ([Hid Hs Hm] & Hct & Hcap). split_and!.
  - split; cbn; [by rewrite H1|done|done].
  - unfold count_ok in *. cbn. by rewrite H2.
  - intros Hp. destruct (Hcap Hp) as [Hz Hc]. split; cbn; rewrite H3; done.
Qed.

Lemma code_update_ok c gid g cd : lobby_ok c gid g -> lobby_ok c gid (with_code cd g).
Proof. intros ([Hid Hs Hm] & Hct & Hcap). split_and!; [by split|done|done]. Qed.

(** ** The map *)
Lemma put_inv m gid g :
  store_inv m -> 0 < gid < nextGID m -> lobby_ok (cfg m) gid g ->
  store_inv (put_gathering gid g m).
Proof.
  intros [Hg Hid Hn Ht] Hgid Hok. split; cbn; [|..|done|done].
  - by apply map_Forall_insert_2.
  - intros x [y Hx]. destruct (decide (gid = x)) as [<-|]; [done|].
    rewrite lookup_insert_ne in Hx by done. eauto.
Qed.

Lemma put_existing_inv m gid g0 g :
  store_inv m -> gatherings m !! gid = Some g0 -> lobby_ok (cfg m) gid g ->
  store_inv (put_gathering gid g m).
Proof. intros Hm Hg0 Hok. apply put_inv; [done| |done]. apply Hm. eauto. Qed.

Lemma delete_inv m gid : store_inv m -> store_inv (with_gatherings (delete gid (gatherings m)) m).
Proof.
  intros [Hg Hid Hn Ht]. split; cbn; [|..|done|done].
  - by apply map_Forall_delete.
  - intros x [y [_ Hx]%lookup_delete_Some]. eauto.
Qed.

Lemma lookup_ok m gid g :
  store_inv m -> gatherings m !! gid = Some g -> lobby_ok (cfg m) gid g.
Proof. intros [Hg _ _ _] Hx. by apply (Hg gid g). Qed.

Lemma finalize_fields od e s gid pid :
  let s' := finalizeCreatedSession od e s gid pid in
  ms_ID s' = gid /\ OwnerPID s' = pid /\ HostPID s' = pid /\ NumParticipants s' = 1 /\
  MaxParticipants s' <> 0 /\ SessionKey s' = rand_key e /\ GameMode s' = GameMode s.
Proof.
  cbn. split_and!; try done. unfold MaxParticipants; cbn. case_bool_decide; [lia|done].
Qed.

Lemma new_lobby_ok c od e s gid pid id :
  lobby_ok c gid (mkgathering (finalizeCreatedSession od e s gid pid) [pid] id [] ∅).
Proof.
  destruct (finalize_fields od e s gid pid) as (Hid & _ & _ & Hn & Hm & _).
  split_and!.
  - split; [done| |done]. split; [apply NoDup_singleton|]. intros. apply lookup_empty.
  - done.
  - intros _. split; [done|]. cbn. unfold seats; cbn. rewrite map_size_empty. unfold len; cbn. lia.
Qed.

Lemma create_inv od e c src m :
  store_inv m -> nextGID m < 2 ^ 32 - 1 -> store_inv (createGathering od e c src m).2.
Proof.
  intros [Hg Hid Hn Ht] Hlt. unfold createGathering; cbn.
  assert (u32 (nextGID m + 1) = nextGID m + 1) as Hu by (apply u32_small; lia).
  split; cbn; rewrite ?Hu; [|..|lia|done].
  - apply map_Forall_insert_2; [apply new_lobby_ok|done].
  - intros x [y Hx]. destruct (decide (nextGID m = x)) as [<-|]; [lia|].
    rewrite lookup_insert_ne in Hx by done. pose proof (Hid x (mk_is_Some _ _ Hx)). lia.
Qed.

(** ** The candidate scan *)

(** The scan only purges expired seats. *)
Definition purged (now : Z) (gs gs' : gmap Z gathering) : Prop :=
  forall gid, gs' !! gid = gs !! gid \/
    exists g, gs !! gid = Some g /\ gs' !! gid = Some (expireJoinReservationsLocked g now).

Lemma purged_refl now gs : purged now gs gs.
Proof. intros gid. by left. Qed.

Lemma purged_inv now m gs :
  purged now (gatherings m) gs -> store_inv m -> store_inv (with_gatherings gs m).
Proof.
  intros Hp [Hg Hid Hn Ht]. split; cbn; [|..|done|done].
  - intros gid g Hgs. destruct (Hp gid) as [He|(g0 & Hg0 & He)]; rewrite He in Hgs.
    + by apply (Hg gid g).
    + simplify_eq. destruct (Hg gid g0 Hg0) as (Hc & Hct & Hcap). split_and!.
      * by apply expire_core.
      * done.
      * intros Hs. by apply expire_cap, Hcap.
  - intros gid [g Hgs]. apply Hid. destruct (Hp gid) as [He|(g0 & Hg0 & He)]; [|eauto].
    rewrite <- He. eauto.
Qed.

(** The gathering the scan settles on. *)
Definition eligible (compatible : list Z -> bool) (now : Z) (src : MatchmakeSession)
    (g : gathering) : Prop :=
  joinable src g = true /\
  u16 (seats (expireJoinReservationsLocked g now)) < MaxParticipants (session g) /\
  compatible (participants g) = true.

(** What a scan of the listed gatherings of [gs] establishes. *)
Definition scanned (compatible : list Z -> bool) (now : Z) (src : MatchmakeSession)
    (entries : list (Z * gathering)) (gs : gmap Z gathering) (found : option Z) (gs' : gmap Z gathering) : Prop :=
  purged now gs gs' /\
  match found with
  | Some gid => exists g, gs !! gid = Some g /\ eligible compatible now src g /\
      gs' !! gid = Some (expireJoinReservationsLocked g now)
  | None => forall gid g, (gid, g) ∈ entries -> ~ eligible compatible now src g
  end.

Lemma expire_idem g now :
  expireJoinReservationsLocked (expireJoinReservationsLocked g now) now = expireJoinReservationsLocked g now.
Proof. unfold expireJoinReservationsLocked, with_reservations; cbn. by rewrite filter_live_idem. Qed.

(** Purging one gathering before the rest of the scan. *)
Lemma purged_insert now gs gs' gid g :
  gs !! gid = Some g -> purged now (<[gid := expireJoinReservationsLocked g now]> gs) gs' -> purged now gs gs'.
Proof.
  intros Hg Hp x. destruct (decide (x = gid)) as [->|Hx].
  - right. exists g. split; [done|]. destruct (Hp gid) as [He|(h & Hh & He)]; rewrite He, ?lookup_insert_eq; [done|].
    rewrite lookup_insert_eq in Hh. injection Hh as <-. by rewrite expire_idem.
  - specialize (Hp x). by rewrite lookup_insert_ne in Hp.
Qed.

(** The scan passes a gathering that is not eligible, whose seats it has purged. *)
Lemma scanned_skip compatible now src gid g entries gs found gs' :
  gs !! gid = Some g -> ~ eligible compatible now src g ->
  scanned compatible now src entries (<[gid := expireJoinReservationsLocked g now]> gs) found gs' ->
  scanned compatible now src ((gid, g) :: entries) gs found gs'.
Proof.
  intros Hg Hne [Hp Hf]. split; [by eapply purged_insert|]. destruct found as [x|].
  - destruct Hf as (h & Hh & He & Hgs'). destruct (decide (x = gid)) as [->|Hx].
    + rewrite lookup_insert_eq in Hh. injection Hh as <-. exfalso. apply Hne.
      destruct He as (H1 & H2 & H3). rewrite expire_idem in H2. by split_and!.
    + rewrite lookup_insert_ne in Hh by done. eauto.
  - intros x h [Heq|Hx]%elem_of_cons; [by simplify_eq|eauto].
Qed.

Lemma findCandidate_spec compatible now src entries skipped gs :
  NoDup entries.*1 -> (forall gid g, (gid, g) ∈ entries -> gs !! gid = Some g) ->
  let '(found, _, gs') := findCandidate compatible now src entries skipped gs in
  scanned compatible now src entries gs found gs'.
Proof.
  revert skipped gs. induction entries as [|[gid g] entries IH]; intros skipped gs Hnd Hin; cbn.
  { split; [apply purged_refl|]. intros ?? ?%elem_of_nil. done. }
  apply NoDup_cons in Hnd as [Hfresh Hnd].
  assert (gs !! gid = Some g) as Hg by (apply Hin, elem_of_cons; by left).
  set (g1 := expireJoinReservationsLocked g now).
  assert (forall sk, ~ eligible compatible now src g ->
    let '(found, _, gs') := findCandidate compatible now src entries sk (<[gid:=g1]> gs) in
    scanned compatible now src ((gid, g) :: entries) gs found gs') as Hskip.
  { intros sk Hne. specialize (IH sk (<[gid:=g1]> gs) Hnd).
    assert (forall x h, (x, h) ∈ entries -> <[gid:=g1]> gs !! x = Some h) as Hrest.
    { intros x h Hx. rewrite lookup_insert_ne; [apply Hin, elem_of_cons; by right|]. intros <-.
      apply Hfresh, list_elem_of_fmap. by exists (gid, h). }
    specialize (IH Hrest). destruct (findCandidate _ _ _ _ _ _) as [[found sk'] gs']. by apply scanned_skip. }
  destruct (joinable src g) eqn:Hj.
  - case_bool_decide as Hroom; [|apply Hskip; intros (_ & Hs & _); done].
    destruct (compatible (participants g)) eqn:Hc; cbn [negb]; [|apply Hskip; intros (_ & _ & ?); congruence].
    split; [eapply purged_insert; [exact Hg|apply purged_refl]|]. exists g. by rewrite lookup_insert_eq.
  - specialize (IH skipped gs Hnd ltac:(intros; apply Hin, elem_of_cons; by right)).
    destruct (findCandidate _ _ _ _ _ _) as [[found sk'] gs']. destruct IH as [Hp Hf].
    split; [done|]. destruct found; [done|].
    intros x h [Heq|Hx]%elem_of_cons; [|eauto]. simplify_eq. intros (? & _). congruence.
Qed.

(** ** Automatic matchmaking *)

(** The caller's outcome: a gathering of its own, or a seat in an eligible one. *)
Inductive auto_outcome `{GoRange} (pe : ProcEnv) (ep : Registry) (e : CallEnv) (c : Caller)
    (nat : Z * Z) (src : MatchmakeSession) (m : MMStore) (g : gathering) : bool -> Prop :=
  | auto_created :
      ms_ID (session g) = nextGID m -> OwnerPID (session g) = c_pid c ->
      participants g = [c_pid c] -> GameMode (session g) = GameMode src ->
      SessionKey (session g) = rand_key e ->
      auto_outcome pe ep e c nat src m g false
  | auto_joined g0 :
      gatherings m !! ms_ID (session g) = Some g0 ->
      isSoloPID (NEX_SOLO_PIDS pe) (c_pid c) = false ->
      eligible (fun l => gatheringNATCompatible ep (classifyNAT nat) l (c_pid c)) (t_scan e) src g0 ->
      c_pid c ∉ participants g0 -> participants g = participants g0 ++ [c_pid c] ->
      auto_outcome pe ep e c nat src m g true
  | auto_already g0 :
      gatherings m !! ms_ID (session g) = Some g0 ->
      isSoloPID (NEX_SOLO_PIDS pe) (c_pid c) = false ->
      eligible (fun l => gatheringNATCompatible ep (classifyNAT nat) l (c_pid c)) (t_scan e) src g0 ->
      c_pid c ∈ participants g0 -> participants g = participants g0 ->
      auto_outcome pe ep e c nat src m g false.

(** Storing a synchronised gathering. *)
Lemma finish_inv m gid g :
  store_inv m -> 0 < gid < nextGID m -> gathering_core gid g ->
  (SessionPartPersists (cfg m) = false -> cap_ok g) ->
  store_inv (put_gathering gid (sync_count g) m).
Proof. intros. apply put_inv; [done|done|]. by apply sync_ok. Qed.

Lemma min_core gid g n :
  gathering_core gid g -> gathering_core gid (with_session (set_MinParticipants n (session g)) g).
Proof. intros [Hid Hs Hm]. by split. Qed.

Section AutoInv.
Context `{GoRange} (pe : ProcEnv) (ep : Registry) (e : CallEnv) (c : Caller) (nat : Z * Z)
  (src : MatchmakeSession).
Implicit Types m : MMStore.

(** The branch that opens a gathering. *)
Lemma open_own_spec m m1 (f : gathering -> gathering) :
  nextGID m1 = nextGID m -> cfg m1 = cfg m -> store_inv m1 -> nextGID m < 2 ^ 32 - 1 ->
  (forall gid g, gathering_core gid g -> gathering_core gid (f g)) ->
  (forall g, cap_ok g -> cap_ok (f g)) ->
  (forall g, participants (f g) = participants g /\ OwnerPID (session (f g)) = OwnerPID (session g) /\
     GameMode (session (f g)) = GameMode (session g) /\
     SessionKey (session (f g)) = SessionKey (session g) /\
     ms_ID (session (f g)) = ms_ID (session g)) ->
  let '(g, m2) := createGathering (openParticipationDefault (NEXTENDO_OPEN_PARTICIPATION pe)) e c src m1 in
  let g' := sync_count (f g) in
  store_inv (put_gathering (nextGID m1) g' m2) /\ ms_ID (session g') = nextGID m1 /\
  auto_outcome pe ep e c nat src m g' false.
Proof using Type.
  intros Hn Hcfg Hm1 Hlt Hcore Hcap Hf. unfold createGathering.
  set (g := mkgathering _ _ _ _ _). set (m2 := mkStore _ _ _ _ _ _ _).
  assert (store_inv m2) as Hm2.
  { apply (create_inv (openParticipationDefault (NEXTENDO_OPEN_PARTICIPATION pe)) e c src m1 Hm1). lia. }
  pose proof (new_lobby_ok (cfg m1) (openParticipationDefault (NEXTENDO_OPEN_PARTICIPATION pe))
    e src (nextGID m1) (c_pid c) (c_id c)) as (Hgc & _ & Hgcap). fold g in Hgc, Hgcap.
  destruct (finalize_fields (openParticipationDefault (NEXTENDO_OPEN_PARTICIPATION pe)) e src
    (nextGID m1) (c_pid c)) as (Hid & Ho & _ & _ & _ & Hk & Hgm).
  destruct (Hf g) as (Hp & Hfo & Hfg & Hfk & Hfi).
  assert (u32 (nextGID m1 + 1) = nextGID m1 + 1) as Hu.
  { apply u32_small. pose proof (inv_next m1 Hm1). lia. }
  split_and!.
  - apply finish_inv; [done| |by apply Hcore|intros Hs; apply Hcap, Hgcap; exact Hs].
    cbn. pose proof (inv_next m1 Hm1). lia.
  - etrans; [apply Hfi|]. done.
  - apply auto_created.
    + etrans; [apply Hfi|]. cbn. by rewrite Hn.
    + etrans; [apply Hfo|]. done.
    + etrans; [apply Hp|]. done.
    + etrans; [apply Hfg|]. done.
    + etrans; [apply Hfk|]. done.
Qed.

(** A seat in an existing gathering, reserved and committed in one critical section. *)
Lemma take_seat_spec m gid g (g1 g2 : gathering) b :
  store_inv m -> gatherings m !! gid = Some g ->
  reserveJoinLocked (reservationTTL m) (t_reserve e) g (c_pid c) = (true, g1) ->
  commitReservedJoinLocked (t_commit e) g1 (c_pid c) = (b, g2) ->
  store_inv (put_gathering gid (sync_count g2) m) /\
  (t_commit e < t_reserve e + reservationTTL m ->
   if b then c_pid c ∉ participants g /\ participants g2 = participants g ++ [c_pid c]
   else c_pid c ∈ participants g /\ participants g2 = participants g).
Proof using Type.
  intros Hm Hg Hr Hc. pose proof (lookup_ok m gid g Hm Hg) as (Hcore & _ & Hcap).
  pose proof (reserve_core (reservationTTL m) (t_reserve e) gid g (c_pid c) Hcore) as Hc1.
  rewrite Hr in Hc1; cbn in Hc1.
  pose proof (commit_core (t_commit e) gid g1 (c_pid c) Hc1) as Hc2. rewrite Hc in Hc2; cbn in Hc2.
  split.
  - apply finish_inv; [done|apply Hm; eauto|done|]. intros Hs.
    pose proof (commit_cap (t_commit e) g1 (c_pid c)) as Hk. rewrite Hc in Hk. apply Hk.
    pose proof (reserve_cap (reservationTTL m) (t_reserve e) g (c_pid c)) as Hk'.
    rewrite Hr in Hk'. by apply Hk', Hcap.
  - intros Ht. destruct (decide (c_pid c ∈ participants g)) as [Hin|Hin].
    + destruct (reserve_session (reservationTTL m) (t_reserve e) g (c_pid c)) as (_ & Hp & _).
      rewrite Hr in Hp; cbn in Hp. revert Hc. unfold commitReservedJoinLocked.
      rewrite containsPID_spec, Hp, bool_decide_eq_true_2 by done. intros [= <- <-]. by cbn.
    + destruct (reserve_granted _ _ _ _ _ Hr Hin) as (Hp & _ & He).
      rewrite (commit_live (t_commit e) g1 (c_pid c) _ ltac:(by rewrite Hp) He) in Hc by lia.
      simplify_eq. cbn. by rewrite Hp.
Qed.

Let compatible (l : list Z) : bool := gatheringNATCompatible ep (classifyNAT nat) l (c_pid c).
Let solo : bool := isSoloPID (NEX_SOLO_PIDS pe) (c_pid c).

(** What the scan hands to the rest of the call. *)
Lemma scan_spec m :
  let '(found, _, gs) :=
    if solo then (None, 0, gatherings m)
    else findCandidate compatible (t_scan e) src (range (gatherings m)) 0 (gatherings m) in
  purged (t_scan e) (gatherings m) gs /\
  match found with
  | Some gid => solo = false /\ exists g, gatherings m !! gid = Some g /\
      eligible compatible (t_scan e) src g /\
      gs !! gid = Some (expireJoinReservationsLocked g (t_scan e))
  | None => solo = false ->
      forall gid g, gatherings m !! gid = Some g -> ~ eligible compatible (t_scan e) src g
  end.
Proof using Type.
  destruct solo; [split; [apply purged_refl|done]|].
  pose proof (findCandidate_spec compatible (t_scan e) src (range (gatherings m)) 0 (gatherings m)
    (NoDup_range _) ltac:(intros ??; by rewrite elem_of_range)) as Hs.
  destruct (findCandidate _ _ _ _ _ _) as [[[gid|] sk] gs]; destruct Hs as [Hp Hs]; split; eauto.
  intros _ gid g Hg. eapply Hs. by apply elem_of_range.
Qed.

(** A refused reservation leaves a good store behind. *)
Lemma refused_inv m gid g g1 b :
  store_inv m -> gatherings m !! gid = Some g ->
  reserveJoinLocked (reservationTTL m) (t_reserve e) g (c_pid c) = (b, g1) ->
  store_inv (put_gathering gid g1 m).
Proof using Type.
  intros Hm Hg Hr. pose proof (lookup_ok m gid g Hm Hg) as (Hcore & Hct & Hcap).
  pose proof (reserve_core (reservationTTL m) (t_reserve e) gid g (c_pid c) Hcore) as Hc1.
  destruct (reserve_session (reservationTTL m) (t_reserve e) g (c_pid c)) as (Hs1 & Hp1 & _).
  pose proof (reserve_cap (reservationTTL m) (t_reserve e) g (c_pid c)) as Hk.
  rewrite Hr in Hc1, Hs1, Hp1, Hk. cbn in *. apply (put_existing_inv m gid g); [done|done|].
  split_and!; [done|unfold count_ok; by rewrite Hs1, Hp1|auto].
Qed.

Lemma auto_locked_spec m :
  store_inv m -> nextGID m < 2 ^ 32 - 1 ->
  let '(g, joined, m') := autoMatchmakeLocked pe ep e c nat src m in
  store_inv m' /\ gatherings m' !! ms_ID (session g) = Some g /\
  (t_commit e < t_reserve e + reservationTTL m -> auto_outcome pe ep e c nat src m g joined).
Proof using Type.
  intros Hm Hlt. unfold autoMatchmakeLocked. fold solo compatible.
  pose proof (scan_spec m) as Hscan. destruct (if solo then _ else _) as [[found sk] gs].
  destruct Hscan as [Hp Hfound]. pose proof (purged_inv (t_scan e) m gs Hp Hm) as Hm1.
  set (m1 := with_gatherings gs m) in *.
  destruct found as [gid|]; cbn [mbind option_bind].
  - destruct Hfound as (Hsolo & g0 & Hg0 & Hel & Hgs).
    change (gatherings m1) with gs. rewrite Hgs. cbn [fmap option_fmap option_map].
    set (g := expireJoinReservationsLocked g0 (t_scan e)) in *.
    change (reservationTTL m1) with (reservationTTL m).
    destruct (reserveJoinLocked _ _ g _) as [[] g1] eqn:Hr.
    + destruct (commitReservedJoinLocked (t_commit e) g1 (c_pid c)) as [joined g2] eqn:Hc.
      destruct (take_seat_spec m1 gid g g1 g2 joined Hm1 Hgs Hr Hc) as [Hinv Hpart].
      assert (ms_ID (session (sync_count g2)) = gid) as Hid.
      { apply (lookup_ok _ gid (sync_count g2) Hinv). apply lookup_insert_eq. }
      split_and!; [done|rewrite Hid; apply lookup_insert_eq|]. intros Ht. specialize (Hpart Ht).
      destruct joined; [apply (auto_joined _ _ _ _ _ _ _ _ g0)|apply (auto_already _ _ _ _ _ _ _ _ g0)];
        rewrite ?Hid; try done; apply Hpart.
    + pose proof (open_own_spec m (put_gathering gid g1 m1) (fun g => g) eq_refl eq_refl
        (refused_inv m1 gid g g1 false Hm1 Hgs Hr) Hlt ltac:(done) ltac:(done) ltac:(done)) as Hown.
      destruct (createGathering _ _ _ _ _) as [g3 m3]. destruct Hown as (Hi & Hid & Ho).
      split_and!; [done|rewrite Hid; apply lookup_insert_eq|done].
  - pose proof (open_own_spec m m1 (fun g => if solo then with_session (set_MinParticipants 1 (session g)) g else g)
      eq_refl eq_refl Hm1 Hlt) as Hown.
    destruct (createGathering _ _ _ _ _) as [g3 m3].
    destruct Hown as (Hi & Hid & Ho); [destruct solo; auto using min_core|destruct solo; done|destruct solo; done|].
    split_and!; [done|rewrite Hid; apply lookup_insert_eq|done].
Qed.
End AutoInv.

(** ** The other operations *)
Lemma reserve_join_inv now gid pid m : store_inv m -> store_inv (ReserveJoin now gid pid m).2.
Proof.
  intros Hm. unfold ReserveJoin. case_bool_decide; [done|].
  destruct (gatherings m !! gid) as [g|] eqn:Hg; [|done].
  destruct (reserveJoinLocked _ _ _ _) as [b g1] eqn:Hr. cbn.
  by apply (refused_inv (mkCallEnv 0 now 0 [] 0) (mkCaller pid 0) m gid g g1 b).
Qed.

Lemma cancel_join_inv gid pid m : store_inv m -> store_inv (CancelJoinReservation gid pid m).
Proof.
  intros Hm. unfold CancelJoinReservation. destruct (gatherings m !! gid) as [g|] eqn:Hg; [|done].
  destruct (lookup_ok m gid g Hm Hg) as (Hc & Hct & Hcap).
  apply (put_existing_inv m gid g); [done|done|]. split_and!; [by apply cancel_core|done|].
  intros Hs. by apply cancel_cap, Hcap.
Qed.

Lemma set_ttl_inv ttl m : store_inv m -> store_inv (set_TTL ttl m).
Proof.
  intros [Hg Hid Hn Ht]. split; cbn; [done..|]. unfold SetJoinReservationTTL.
  case_bool_decide; [done|lia].
Qed.

Lemma with_notif_inv n m : store_inv m -> store_inv (with_notif n m).
Proof. intros [Hg Hid Hn Ht]. by split. Qed.

Lemma make_code_inv gid m : store_inv m -> store_inv (makeCode gid m).2.
Proof.
  intros Hm. unfold makeCode; cbn. destruct (gatherings m !! gid) as [g|] eqn:Hg.
  - pose proof (put_existing_inv m gid g (with_code (code_chars 5
      (u32 (codeRand m * 1103515245 + 12345 + gid))) g) Hm Hg
      (code_update_ok _ _ _ _ (lookup_ok m gid g Hm Hg))) as [? ? ? ?]. by split.
  - destruct Hm as [? ? ? ?]. by split.
Qed.

Lemma unregister_inv gid pid m : store_inv m -> store_inv (unregisterLocked gid pid m).
Proof. intros Hm. unfold unregisterLocked. repeat case_match; auto using delete_inv. Qed.

Lemma end_participation_inv gid pid m : store_inv m -> store_inv (endParticipationLocked gid pid m).
Proof.
  intros Hm. unfold endParticipationLocked. destruct (gatherings m !! gid) as [g|] eqn:Hg; [|done].
  case_bool_decide as Hl; [by apply delete_inv|].
  destruct (lookup_ok m gid g Hm Hg) as (Hc & _ & Hcap).
  apply finish_inv; [done|apply Hm; eauto| |].
  - apply (remove_core gid (cancelJoin g pid) pid); [by apply cancel_core|]. intros Hn.
    apply Hl. cbn. cbn in Hn. by rewrite Hn.
  - intros Hs. apply (remove_cap (cancelJoin g pid)). by apply cancel_cap, Hcap.
Qed.

Lemma index_of_lookup c l i : index_of c l = Some i -> l !! i = Some c.
Proof.
  revert i; induction l as [|p l IH]; intros i; cbn; [done|]. case_bool_decide; subst.
  - by intros [= <-].
  - destruct (index_of c l); cbn; [|done]. intros [= <-]. by apply IH.
Qed.

Lemma swap0_perm i l : swap0 i l ≡ₚ l.
Proof.
  unfold swap0. destruct l as [|a l]; [done|]. destruct i as [|i]; [done|].
  cbn [lookup list_lookup]. destruct (l !! i) as [b|] eqn:Hb; [|done].
  change (b :: <[i := a]> l ≡ₚ a :: l).
  transitivity (a :: (take i l ++ b :: drop (S i) l)); [|by rewrite (take_drop_middle l i b Hb)].
  rewrite insert_take_drop by (by eapply lookup_lt_Some).
  rewrite <- (Permutation_middle _ _ a), <- (Permutation_middle _ _ b). apply perm_swap.
Qed.

Lemma migrate_perm cs l : migrate cs l ≡ₚ l.
Proof.
  induction cs as [|c cs IH]; cbn; [done|]. destruct (index_of c l); [apply swap0_perm|done].
Qed.

Lemma migrate_inv gid g cs m :
  store_inv m -> gatherings m !! gid = Some g ->
  store_inv (put_gathering gid (with_participants (migrate cs (participants g)) g) m).
Proof.
  intros Hm Hg. apply (put_existing_inv m gid g); [done|done|].
  apply permute_ok; [apply migrate_perm|by apply lookup_ok].
Qed.

Lemma session_inv gid g s m :
  store_inv m -> gatherings m !! gid = Some g ->
  ms_ID s = ms_ID (session g) -> NumParticipants s = NumParticipants (session g) ->
  MaxParticipants s = MaxParticipants (session g) ->
  store_inv (put_gathering gid (with_session s g) m).
Proof.
  intros Hm Hg ???. apply (put_existing_inv m gid g); [done|done|].
  apply session_update_ok; [done..|by apply lookup_ok].
Qed.

(** ** A player leaves *)

(** What is left of a gathering when [pid] goes. *)
Definition after_removal (pid : Z) (g : gathering) : option gathering :=
  let g' := with_participants (removePID (participants g) pid) (cancelJoin g pid) in
  if bool_decide (pid ∈ participants g) then
    if bool_decide (participants g' = []) || bool_decide (OwnerPID (session g) = pid) then None
    else Some (sync_count g')
  else Some g'.

Lemma removePID_len l pid : len (removePID l pid) = len l <-> pid ∉ l.
Proof.
  split; [|intros; by rewrite removePID_not_in].
  intros Hl Hin. rewrite removePID_filter in Hl. unfold len in Hl. apply Nat2Z.inj in Hl.
  assert (length (filter (fun p => p <> pid) l) < length l)%nat; [|lia].
  apply length_filter_lt with pid; naive_solver.
Qed.

Lemma remove_from_lookup pid m gid g x :
  gatherings (remove_from pid m (gid, g)) !! x =
  if bool_decide (x = gid) then after_removal pid g else gatherings m !! x.
Proof.
  unfold remove_from, after_removal. cbn [participants cancelJoin with_reservations with_participants].
  pose proof (removePID_len (participants g) pid) as Hl.
  destruct (decide (pid ∈ participants g)) as [Hin|Hin].
  - rewrite (bool_decide_eq_false_2 (len _ = len _)) by tauto.
    rewrite (bool_decide_eq_true_2 (pid ∈ _)) by done.
    assert (bool_decide (len (removePID (participants g) pid) = 0) =
            bool_decide (removePID (participants g) pid = [])) as ->.
    { apply bool_decide_ext. split; [apply len_0_inv|by intros ->]. }
    cbn. destruct (_ || _); cbn.
    + case_bool_decide; [subst; apply lookup_delete_eq|by apply lookup_delete_ne].
    + case_bool_decide; [subst; apply lookup_insert_eq|by apply lookup_insert_ne].
  - rewrite (bool_decide_eq_true_2 (len _ = len _)) by tauto.
    rewrite (bool_decide_eq_false_2 (pid ∈ _)) by done. cbn.
    case_bool_decide; [subst; apply lookup_insert_eq|by apply lookup_insert_ne].
Qed.

Lemma remove_all_lookup pid entries m x :
  NoDup entries.*1 ->
  gatherings (foldl (remove_from pid) m entries) !! x =
  match (list_to_map entries : gmap Z gathering) !! x with
  | Some g => after_removal pid g
  | None => gatherings m !! x
  end.
Proof.
  revert m; induction entries as [|[gid g] entries IH]; intros m Hnd; [done|].
  apply NoDup_cons in Hnd as [Hf Hnd]. cbn [foldl]. rewrite IH by done.
  rewrite remove_from_lookup, list_to_map_cons.
  destruct (decide (x = gid)) as [->|Hx].
  - rewrite lookup_insert_eq, bool_decide_eq_true_2 by done.
    rewrite not_elem_of_list_to_map_1 by done. done.
  - by rewrite lookup_insert_ne, bool_decide_eq_false_2 by done.
Qed.

Lemma remove_player_gatherings `{GoRange} pid m :
  pid <> 0 -> gatherings (RemovePlayer pid m) = omap (after_removal pid) (gatherings m).
Proof.
  intros Hz. unfold RemovePlayer. rewrite bool_decide_eq_false_2 by done.
  apply map_eq. intros x. rewrite remove_all_lookup by apply NoDup_range. cbn.
  rewrite (list_to_map_proper _ (map_to_list (gatherings m)));
    [|apply NoDup_range|apply range_perm].
  rewrite list_to_map_to_list, lookup_omap. by destruct (gatherings m !! x).
Qed.

(** The other fields: the loop touches only the codes. *)
Lemma remove_all_rest pid entries m :
  let m' := foldl (remove_from pid) m entries in
  cfg m' = cfg m /\ notif m' = notif m /\ nextGID m' = nextGID m /\
  reservationTTL m' = reservationTTL m.
Proof.
  cbn. revert m; induction entries as [|[gid g] entries IH]; intros m; cbn [foldl]; [done|].
  destruct (IH (remove_from pid m (gid, g))) as (-> & -> & -> & ->).
  unfold remove_from. repeat case_match; done.
Qed.

Lemma remove_player_rest `{GoRange} pid m :
  let m' := RemovePlayer pid m in
  cfg m' = cfg m /\ nextGID m' = nextGID m /\ reservationTTL m' = reservationTTL m.
Proof.
  cbn. unfold RemovePlayer. case_bool_decide; [done|].
  destruct (remove_all_rest pid (range (gatherings m))
    (with_notif (NotifStore.forget (notif m) pid) m)) as (H1 & _ & H2 & H3).
  split_and!; [exact H1|exact H2|exact H3].
Qed.

Lemma after_removal_ok c gid g g' pid :
  lobby_ok c gid g -> after_removal pid g = Some g' -> lobby_ok c gid g'.
Proof.
  intros (Hc & Hct & Hcap) Ha. unfold after_removal in Ha.
  assert (SessionPartPersists c = false ->
    cap_ok (with_participants (removePID (participants g) pid) (cancelJoin g pid))) as Hcap'.
  { intros Hs. apply (remove_cap (cancelJoin g pid)). by apply cancel_cap, Hcap. }
  case_bool_decide as Hin.
  - destruct (_ || _) eqn:Hd; [done|]. destruct_bool_decide. simplify_eq. apply sync_ok; [|done].
    apply (remove_core gid (cancelJoin g pid)); [by apply cancel_core|done].
  - simplify_eq. split_and!; [|unfold count_ok; cbn; by rewrite removePID_not_in|done].
    apply (remove_core gid (cancelJoin g pid)); [by apply cancel_core|]. cbn.
    rewrite removePID_not_in by done. apply Hc.
Qed.

Lemma remove_player_inv `{GoRange} pid m : store_inv m -> store_inv (RemovePlayer pid m).
Proof.
  intros Hm. destruct (decide (pid = 0)) as [->|Hz]; [done|].
  pose proof (remove_player_gatherings pid m Hz) as Hg.
  destruct (remove_player_rest pid m) as (Hc & Hn & Ht).
  destruct Hm as [Hall Hid Hnx Httl]. split; rewrite ?Hc, ?Hn, ?Ht, ?Hg; [..|done|done].
  - intros gid g'. rewrite lookup_omap. destruct (gatherings m !! gid) as [g|] eqn:Hgid; cbn; [|done].
    intros Ha. eapply after_removal_ok; [by apply Hall|done].
  - intros gid [g' Hx]. rewrite lookup_omap in Hx. apply Hid.
    destruct (gatherings m !! gid); [done|]. done.
Qed.
