(* ===== verification/AcnhStructs.v ===== *)
(** * Session search and partial updates: structures
      (nextendo-nex/matchmaking_acnh.go, SimplePlayingSession of matchmaking_handlers.go) *)

From S2P Require Import Prelude GoStd Settings Stream Types Matchmaking.

Record SimplePlayingSession := mkPlaying {
  PrincipalID : Z; GatheringID : Z; ps_GameMode : Z; Attribute0 : Z
}.
#[export] Instance SimplePlayingSession_Structure : Structure SimplePlayingSession := [
  {| Version := 0;
     Save := Some (fun s p => StreamOut.PID s (PrincipalID p) ++ StreamOut.U32 (GatheringID p) ++
       StreamOut.U32 (ps_GameMode p) ++ StreamOut.U32 (Attribute0 p));
     Load := Some (fun s _ =>
       (pid <-- StreamInOps.PID s ;; gid <-- StreamInOps.U32 ;;
        mode <-- StreamInOps.U32 ;; a0 <-- StreamInOps.U32 ;;
        rret (mkPlaying pid gid mode a0))%reader) |}].

Record MatchmakeSessionSearchCriteria := mkCriteria {
  cr_Attribs : list gostring;
  cr_GameMode : gostring;
  cr_MinParticipants : gostring;
  cr_MaxParticipants : gostring;
  cr_MatchmakeSystem : gostring;
  VacantOnly : bool;
  ExcludeLocked : bool;
  ExcludeNonHostPID : bool;
  SelectionMethod : Z;
  VacantParticipants : Z;
  cr_Param : MatchmakeParam;
  ExcludeUserPassword : bool;
  ExcludeSysPassword : bool;
  cr_ReferGID : Z;
  cr_Codeword : gostring;
  Range : ResultRange
}.
Definition zero_Criteria : MatchmakeSessionSearchCriteria :=
  mkCriteria [] [] [] [] [] false false false 0 0 (mkMatchmakeParam ∅) false false 0 []
    (mkResultRange 0 0).

Definition save_Criteria `{GoRange} (s : Settings) (c : MatchmakeSessionSearchCriteria) : bytes :=
  StreamOut.WriteList (cr_Attribs c) StreamOut.GoString ++ StreamOut.GoString (cr_GameMode c) ++
  StreamOut.GoString (cr_MinParticipants c) ++ StreamOut.GoString (cr_MaxParticipants c) ++
  StreamOut.GoString (cr_MatchmakeSystem c) ++ StreamOut.Bool (VacantOnly c) ++
  StreamOut.Bool (ExcludeLocked c) ++ StreamOut.Bool (ExcludeNonHostPID c) ++
  StreamOut.U32 (SelectionMethod c) ++
  (if bool_decide (30500 <= NexVersion s) then StreamOut.U16 (VacantParticipants c) else []) ++
  (if bool_decide (40000 <= NexVersion s) then
     WriteStructure s (cr_Param c) ++ StreamOut.Bool (ExcludeUserPassword c) ++
     StreamOut.Bool (ExcludeSysPassword c) ++ StreamOut.U32 (cr_ReferGID c) ++
     StreamOut.GoString (cr_Codeword c) ++ WriteStructure s (Range c)
   else []).

Definition load_Criteria `{GoRange} (s : Settings) (c : MatchmakeSessionSearchCriteria)
    : reader MatchmakeSessionSearchCriteria :=
  (attribs <-- StreamInOps.ReadList StreamInOps.GoString ;;
   mode <-- StreamInOps.GoString ;;
   minp <-- StreamInOps.GoString ;;
   maxp <-- StreamInOps.GoString ;;
   system <-- StreamInOps.GoString ;;
   vacant <-- StreamInOps.Bool ;;
   locked <-- StreamInOps.Bool ;;
   nonhost <-- StreamInOps.Bool ;;
   sel <-- StreamInOps.U32 ;;
   vp <-- (if bool_decide (30500 <= NexVersion s) then StreamInOps.U16
           else rret (VacantParticipants c)) ;;
   if bool_decide (40000 <= NexVersion s) then
     (param <-- ReadStructure s (cr_Param c) ;;
      eup <-- StreamInOps.Bool ;;
      esp <-- StreamInOps.Bool ;;
      refer <-- StreamInOps.U32 ;;
      code <-- StreamInOps.GoString ;;
      rg <-- ReadStructure s (Range c) ;;
      rret (mkCriteria attribs mode minp maxp system vacant locked nonhost sel vp param eup esp
              refer code rg))
   else rret (mkCriteria attribs mode minp maxp system vacant locked nonhost sel vp (cr_Param c)
          (ExcludeUserPassword c) (ExcludeSysPassword c) (cr_ReferGID c) (cr_Codeword c)
          (Range c)))%reader.

#[export] Instance Criteria_Structure `{GoRange} : Structure MatchmakeSessionSearchCriteria := [
  {| Version := 0; Save := Some save_Criteria; Load := Some load_Criteria |}].

Record FindByParticipantParam := mkFindParam {
  PrincipalIDs : list Z; fp_Options : Z; BlockList : MatchmakeBlockListParam
}.
Definition zero_FindParam : FindByParticipantParam := mkFindParam [] 0 (mkBlockList 0).
#[export] Instance FindByParticipantParam_Structure : Structure FindByParticipantParam := [
  {| Version := 0;
     Save := Some (fun s p => StreamOut.WriteList (PrincipalIDs p) (StreamOut.PID s) ++
       StreamOut.U32 (fp_Options p) ++ WriteStructure s (BlockList p));
     Load := Some (fun s c =>
       (pids <-- StreamInOps.ReadList (StreamInOps.PID s) ;;
        o <-- StreamInOps.U32 ;;
        b <-- ReadStructure s (BlockList c) ;;
        rret (mkFindParam pids o b))%reader) |}].

Record FindByParticipantResult := mkFindResult { fr_PrincipalID : Z; fr_Session : MatchmakeSession }.
#[export] Instance FindByParticipantResult_Structure `{GoRange} : Structure FindByParticipantResult := [
  {| Version := 0;
     Save := Some (fun s r => StreamOut.PID s (fr_PrincipalID r) ++ WriteStructure s (fr_Session r));
     Load := Some (fun s c =>
       (pid <-- StreamInOps.PID s ;; m <-- ReadStructure s (fr_Session c) ;;
        rret (mkFindResult pid m))%reader) |}].

Definition modFlagOpenParticipation : Z := 0x2.
Definition modFlagCodeword : Z := 0x4000.

Record UpdateMatchmakeSessionParam := mkUpdate {
  up_GID : Z;
  ModificationFlags : Z;
  Attributes : list Z;
  up_OpenParticipation : bool;
  ApplicationBuffer : bytes;
  up_ProgressScore : Z;
  up_Param : MatchmakeParam;
  up_StartedTime : Z;
  up_UserPassword : gostring;
  up_GameMode : Z;
  up_Description : gostring;
  up_MinParticipants : Z;
  up_MaxParticipants : Z;
  up_MatchmakeSystem : Z;
  up_ParticipationPolicy : Z;
  up_PolicyArgument : Z;
  up_Codeword : gostring
}.
Definition zero_Update : UpdateMatchmakeSessionParam :=
  mkUpdate 0 0 [] false [] 0 (mkMatchmakeParam ∅) 0 [] 0 [] 0 0 0 0 0 [].

Definition save_Update `{GoRange} (s : Settings) (p : UpdateMatchmakeSessionParam) : bytes :=
  StreamOut.U32 (up_GID p) ++ StreamOut.U32 (ModificationFlags p) ++
  StreamOut.WriteList (Attributes p) StreamOut.U32 ++ StreamOut.Bool (up_OpenParticipation p) ++
  StreamOut.Buffer (ApplicationBuffer p) ++ StreamOut.U8 (up_ProgressScore p) ++
  WriteStructure s (up_Param p) ++ StreamOut.DateTime (up_StartedTime p) ++
  StreamOut.GoString (up_UserPassword p) ++ StreamOut.U32 (up_GameMode p) ++
  StreamOut.GoString (up_Description p) ++ StreamOut.U16 (up_MinParticipants p) ++
  StreamOut.U16 (up_MaxParticipants p) ++ StreamOut.U32 (up_MatchmakeSystem p) ++
  StreamOut.U32 (up_ParticipationPolicy p) ++ StreamOut.U32 (up_PolicyArgument p) ++
  StreamOut.GoString (up_Codeword p).

Definition load_Update `{GoRange} (s : Settings) (c : UpdateMatchmakeSessionParam)
    : reader UpdateMatchmakeSessionParam :=
  (gid <-- StreamInOps.U32 ;;
   flags <-- StreamInOps.U32 ;;
   attrs <-- StreamInOps.ReadList StreamInOps.U32 ;;
   open <-- StreamInOps.Bool ;;
   app <-- StreamInOps.Buffer ;;
   score <-- StreamInOps.U8 ;;
   param <-- ReadStructure s (up_Param c) ;;
   started <-- StreamInOps.DateTime ;;
   pw <-- StreamInOps.GoString ;;
   mode <-- StreamInOps.U32 ;;
   desc <-- StreamInOps.GoString ;;
   minp <-- StreamInOps.U16 ;;
   maxp <-- StreamInOps.U16 ;;
   system <-- StreamInOps.U32 ;;
   policy <-- StreamInOps.U32 ;;
   arg <-- StreamInOps.U32 ;;
   code <-- StreamInOps.GoString ;;
   rret (mkUpdate gid flags attrs open app score param started pw mode desc minp maxp system
           policy arg code))%reader.

#[export] Instance Update_Structure `{GoRange} : Structure UpdateMatchmakeSessionParam := [
  {| Version := 0; Save := Some save_Update; Load := Some load_Update |}].

(** ** Round trips *)
Definition update_ok `{GoRange} (p : UpdateMatchmakeSessionParam) : Prop :=
  is_uint 32 (up_GID p) /\ is_uint 32 (ModificationFlags p) /\
  len (Attributes p) < 2 ^ 20 /\ Forall (is_uint 32) (Attributes p) /\
  len (ApplicationBuffer p) < 2 ^ 20 /\ is_uint 8 (up_ProgressScore p) /\ param_ok (up_Param p) /\
  is_uint 64 (up_StartedTime p) /\ str_ok (up_UserPassword p) /\ is_uint 32 (up_GameMode p) /\
  str_ok (up_Description p) /\ is_uint 16 (up_MinParticipants p) /\
  is_uint 16 (up_MaxParticipants p) /\ is_uint 32 (up_MatchmakeSystem p) /\
  is_uint 32 (up_ParticipationPolicy p) /\ is_uint 32 (up_PolicyArgument p) /\
  str_ok (up_Codeword p).

Lemma len_save_Update `{GoRange} s p : update_ok p -> len (save_Update s p) < 2 ^ 32.
Proof.
  unfold update_ok, save_Update, str_ok. intros. destruct_and!.
  pose proof (len_WriteParam s (up_Param p) ltac:(done)). autorewrite with golen. lia.
Qed.

Lemma decodes_Update `{GoRange} s p c :
  update_ok p -> decodes (ReadStructure s c) (WriteStructure s p) p.
Proof.
  intros Hok. pose proof (len_save_Update s p Hok). apply decodes_Structure1. split; [done|]. split.
  - unfold level_body; cbn [Save]. lia.
  - eexists; split; [done|]. intros c'. destruct p. unfold update_ok in Hok; cbn in *.
    destruct_and!. unfold load_Update, save_Update; cbn.
    assert (len ApplicationBuffer0 < 2 ^ 32) by lia. decode_fields.
Qed.
