(* ===== verification/Tournament.v ===== *)
(** * Player-made tournaments (nextendo-nex/tournament.go)

    The process-wide tournament store.  The server touches a tournament structure in
    three places only (id, mark, code) and returns the rest verbatim.  The JSON file
    is not modelled: [tournamentInit] takes the decoded list. *)

From S2P Require Import Prelude GoStd Settings Stream Types Rmc.
Import GoStrings GoStrconv.

Definition tournamentCodeLen : Z := 12.
Definition tournamentMaxBlob : Z := 4096.
Definition tournamentMax : Z := 2000.
Definition tournamentNameLengthOffset : Z := 0x69.

Record Tournament := mkTournament {
  t_ID : Z;
  t_Owner : Z;
  t_Code : gostring;
  t_Mark : bytes;
  t_Blob : bytes;
  t_Participants : list Z;
  t_CreatedAt : Z
}.

Record tournamentStore := mkTStore {
  byID : gmap Z Tournament;
  quarantined : list Tournament;
  nextID : Z;
  dirty : bool
}.
Definition empty_tournaments : tournamentStore := mkTStore ∅ [] 1000 false.

(** [b[i:j]] within bounds. *)
Definition slice (b : bytes) (i j : Z) : bytes := ztake (j - i) (zdrop i b).
Definition le16_at (b : bytes) (i : Z) : Z := le_val (slice b i (i + 2)).

(** Twelve random bytes as decimal digits. *)
Definition newTournamentCode (rnd : bytes) : gostring :=
  (fun v => 48 + v mod 10) <$> take 12 rnd.

(** The bounded scan for an empty string [1 0 0]. *)
Fixpoint scan100 (fuel : nat) (b : bytes) (i : Z) : option Z :=
  match fuel with
  | O => None
  | S fuel =>
      if bool_decide (i + 3 <= len b) then
        if bool_decide (slice b i (i + 3) = [1; 0; 0]) then Some i else scan100 fuel b (i + 1)
      else None
  end.

(** The property walk; every turn moves at least 4 bytes, so [length b] turns are
    enough. *)
Fixpoint walk_rules (fuel : nat) (b : bytes) (pos : Z) : option Z :=
  match fuel with
  | O => None
  | S fuel =>
      if bool_decide (pos < len b) then
        if bool_decide (byte_at b pos = 0xff) then
          if bool_decide (pos + 5 + 3 <= len b) then Some (pos + 5) else None
        else if bool_decide (len b < pos + 2) then None
        else let t := byte_at b (pos + 1) in
          if bool_decide (t = 1) then walk_rules fuel b (pos + 4)
          else if bool_decide (t = 2) then walk_rules fuel b (pos + 5)
          else if bool_decide (t = 4) then walk_rules fuel b (pos + 7)
          else scan100 (length b) b pos
      else None
  end.

(** [None] is the code's -1. *)
Definition tournamentCodeOffset (b : bytes) : option Z :=
  if bool_decide (len b < tournamentNameLengthOffset + 2) then None
  else
    let nameLen := le16_at b tournamentNameLengthOffset in
    if bool_decide (nameLen < 2) || bool_decide (Z.land nameLen 1 <> 0) then None
    else
      let pos := tournamentNameLengthOffset + 2 + nameLen in
      if bool_decide (len b <= pos) then None else walk_rules (length b) b pos.

Definition validTournamentCode (code : gostring) : bool :=
  bool_decide (len code = tournamentCodeLen) && forallb is_digit code.

Definition tournamentCodeMatches (b : bytes) (code : gostring) : bool :=
  match tournamentCodeOffset b with
  | None => false
  | Some i =>
      if negb (validTournamentCode code) then false
      else if bool_decide (len b < i + 2) then false
      else
        let n := le16_at b i in
        if bool_decide (n <> tournamentCodeLen + 1) || bool_decide (len b < i + 2 + n) ||
           bool_decide (byte_at b (i + 2 + n - 1) <> 0) then false
        else bool_decide (slice b (i + 2) (i + 2 + tournamentCodeLen) = code)
  end.

Definition validStoredTournament (t : Tournament) : bool :=
  if bool_decide (t_ID t = 0) || bool_decide (len (t_Blob t) < 12) ||
     bool_decide (tournamentMaxBlob + tournamentCodeLen < len (t_Blob t)) then false
  else if bool_decide (le_val (ztake 4 (t_Blob t)) <> t_ID t) then false
  else tournamentCodeMatches (t_Blob t) (t_Code t).

Definition stampTournament (payload : bytes) (id : Z) (mark : bytes) (code : gostring) : bytes :=
  if bool_decide (len payload < 12) then payload
  else
    let out := le_bytes 4 id ++ mark ++ zdrop 12 payload in
    match tournamentCodeOffset out with
    | None => out
    | Some i =>
        if negb (validTournamentCode code) || bool_decide (slice out i (i + 3) <> [1; 0; 0]) then out
        else ztake i out ++ (le_bytes 2 (len code + 1) ++ code ++ [0]) ++ zdrop (i + 3) out
    end.

(** What a creation draws: the mark, the code's random bytes, the time. *)
Record TournamentEnv := mkTEnv { te_mark : bytes; te_code : bytes; te_now : Z }.

Definition CreateTournament (e : TournamentEnv) (owner : Z) (payload : bytes)
    (s : tournamentStore) : option Tournament * tournamentStore :=
  match tournamentCodeOffset payload with
  | None => (None, s)
  | Some i =>
      if bool_decide (len payload = 0) || bool_decide (tournamentMaxBlob < len payload) ||
         bool_decide (slice payload i (i + 3) <> [1; 0; 0]) then (None, s)
      else if bool_decide (tournamentMax <= Z.of_nat (size (byID s))) then (None, s)
      else
        let id := nextID s in
        let s := mkTStore (byID s) (quarantined s) (u32 (id + 1)) (dirty s) in
        let code := newTournamentCode (te_code e) in
        let t := mkTournament id owner code (te_mark e)
          (stampTournament payload id (te_mark e) code) [owner] (te_now e) in
        if negb (validStoredTournament t) then (None, s)
        else (Some t, mkTStore (<[id := t]> (byID s)) (quarantined s) (nextID s) true)
  end.

Definition tournamentByID (s : tournamentStore) (id : Z) : option Tournament :=
  match byID s !! id with
  | Some t => if validStoredTournament t then Some t else None
  | None => None
  end.

Definition allTournaments `{GoRange} (s : tournamentStore) : list Tournament :=
  filter (fun t => validStoredTournament t = true) (range (byID s)).*2.

Definition set_participants (l : list Z) (t : Tournament) : Tournament :=
  mkTournament (t_ID t) (t_Owner t) (t_Code t) (t_Mark t) (t_Blob t) l (t_CreatedAt t).

Definition joinTournament (id pid : Z) (s : tournamentStore) : bool * tournamentStore :=
  match tournamentByID s id with
  | None => (false, s)
  | Some t =>
      if bool_decide (pid ∈ t_Participants t) then (true, s)
      else (true, mkTStore (<[id := set_participants (t_Participants t ++ [pid]) t]> (byID s))
                    (quarantined s) (nextID s) true)
  end.

Definition deleteTournament (id pid : Z) (s : tournamentStore) : bool * tournamentStore :=
  match tournamentByID s id with
  | None => (false, s)
  | Some t =>
      if bool_decide (t_Owner t <> pid) then (false, s)
      else (true, mkTStore (delete id (byID s)) (quarantined s) (nextID s) true)
  end.

(** One entry of the restored file; [None] is a JSON null. *)
Definition restore_one (s : tournamentStore) (o : option Tournament) : tournamentStore :=
  match o with
  | None => s
  | Some t =>
      if bool_decide (t_ID t = 0) then s
      else
        let next := if bool_decide (nextID s <= t_ID t) then u32 (t_ID t + 1) else nextID s in
        if negb (validStoredTournament t)
        then mkTStore (byID s) (quarantined s ++ [t]) next (dirty s)
        else mkTStore (<[t_ID t := t]> (byID s)) (quarantined s) next (dirty s)
  end.
Definition tournamentInit (file : list (option Tournament)) : tournamentStore :=
  foldl restore_one empty_tournaments file.

(** What [tournamentFlusher] writes when the store is dirty. *)
Definition flush_list `{GoRange} (s : tournamentStore) : list Tournament :=
  quarantined s ++ (range (byID s)).*2.

(** ** Handlers *)
Definition ProtocolMatchmakeExtension : Z := 0x6D.

Definition createTournament (e : TournamentEnv) (pid : Z) (req : RMCMessage) (s : tournamentStore)
    : RMCMessage * tournamentStore :=
  let bad := NewRMCError ProtocolMatchmakeExtension (CallID req) ResultCoreInvalidArgument in
  let body := Body req in
  if bool_decide (len body < 5) then (bad, s)
  else
    let ver := byte_at body 0 in
    let ln := le_val (slice body 1 5) in
    if bool_decide (ln <= 0) || bool_decide (len body < 5 + ln) then (bad, s)
    else match CreateTournament e pid (slice body 5 (5 + ln)) s with
         | (None, s) => (bad, s)
         | (Some t, s) =>
             (NewRMCSuccess ProtocolMatchmakeExtension (Method req) (CallID req)
                (StreamOut.U8 ver ++ StreamOut.U32 (u32 (len (t_Blob t))) ++ t_Blob t), s)
         end.

Definition writeTournamentList (l : list Tournament) : bytes :=
  let valid := filter (fun t => validStoredTournament t = true) l in
  StreamOut.U32 (u32 (len valid)) ++
  concat ((fun t => StreamOut.U8 1 ++ StreamOut.U32 (u32 (len (t_Blob t))) ++ t_Blob t) <$> valid).

(** [for i := 0; i < n && in.Err() == nil; i++] *)
Fixpoint read_ids (s : tournamentStore) (n : nat) (st : StreamIn) : list Tournament :=
  match n with
  | O => []
  | S n =>
      if si_err st then []
      else let '(id, st) := StreamInOps.U32 st in
           match tournamentByID s id with
           | Some t => t :: read_ids s n st
           | None => read_ids s n st
           end
  end.

Definition tournamentsByIDs (req : RMCMessage) (s : tournamentStore) : RMCMessage :=
  let '(n, st) := StreamInOps.U32 (NewStreamIn (Body req)) in
  NewRMCSuccess ProtocolMatchmakeExtension (Method req) (CallID req)
    (writeTournamentList (read_ids s (Z.to_nat n) st)).

Definition searchTournaments `{GoRange} (req : RMCMessage) (s : tournamentStore) : RMCMessage :=
  NewRMCSuccess ProtocolMatchmakeExtension (Method req) (CallID req)
    (writeTournamentList (take 100 (allTournaments s))).

Definition removeTournament (pid : Z) (req : RMCMessage) (s : tournamentStore)
    : RMCMessage * tournamentStore :=
  (NewRMCSuccess ProtocolMatchmakeExtension (Method req) (CallID req) [],
   if bool_decide (4 <= len (Body req))
   then (deleteTournament (le_val (ztake 4 (Body req))) pid s).2 else s).

Definition registerTournament (pid : Z) (req : RMCMessage) (s : tournamentStore)
    : RMCMessage * tournamentStore :=
  (NewRMCSuccess ProtocolMatchmakeExtension (Method req) (CallID req) [],
   if bool_decide (4 <= len (Body req))
   then (joinTournament (le_val (ztake 4 (Body req))) pid s).2 else s).

Definition TournamentSummaries `{GoRange} (s : tournamentStore) : bytes :=
  let l := allTournaments s in
  le_bytes 4 (len l) ++
  concat ((fun t => [1] ++ le_bytes 4 28 ++ le_bytes 4 (t_ID t) ++
    le_bytes 4 (len (t_Participants t)) ++ le_bytes 4 4 ++ le_bytes 4 0 ++ le_bytes 4 0 ++
    le_bytes 4 0 ++ le_bytes 4 0) <$> l).
