(* ===== verification/TournamentProps.v ===== *)
(** * What the tournament store guarantees

    Which structures can be created and what the server writes into them, and the
    invariant of the store. *)

From S2P Require Import Prelude GoStd Settings Stream Types Rmc Tournament.
Import GoStrings GoStrconv.

(** ** Reading a structure *)
Lemma byte_at_lookup (b : bytes) i v : 0 <= i -> b !! Z.to_nat i = Some v -> byte_at b i = v.
Proof. intros Hi Hl. unfold byte_at. by apply nth_lookup_Some. Qed.

(** Two structures agree on [[lo, hi)]. *)
Definition same_on (lo hi : Z) (b b' : bytes) : Prop :=
  forall i, lo <= i < hi -> b !! Z.to_nat i = b' !! Z.to_nat i.

Lemma same_on_byte lo hi b b' i : same_on lo hi b b' -> lo <= i < hi -> byte_at b i = byte_at b' i.
Proof. intros Hs Hi. unfold byte_at. rewrite !nth_lookup. by rewrite Hs. Qed.

Lemma slice_lookup b i j (k : nat) :
  0 <= i -> slice b i j !! k = if bool_decide (Z.of_nat k < j - i) then b !! (Z.to_nat i + k)%nat else None.
Proof.
  intros Hi. unfold slice, ztake, zdrop. case_bool_decide.
  - rewrite lookup_take_lt by lia. by rewrite lookup_drop.
  - rewrite lookup_take_ge by lia. done.
Qed.

Lemma same_on_slice lo hi b b' i j :
  same_on lo hi b b' -> 0 <= lo <= i -> j <= hi -> slice b i j = slice b' i j.
Proof.
  intros Hs Hi Hj. apply list_eq. intros k. rewrite !slice_lookup by lia. case_bool_decide; [|done].
  specialize (Hs (i + Z.of_nat k) ltac:(lia)). by replace (Z.to_nat i + k)%nat with (Z.to_nat (i + Z.of_nat k)) by lia.
Qed.

(** Where the walk over the rule properties stops: at the terminator, with the offset
    of the code, or at a property of unknown type. *)
Inductive stop := AtCode (i : Z) | AtUnknown (pos : Z).

Fixpoint walk_stop (fuel : nat) (b : bytes) (pos : Z) : option stop :=
  match fuel with
  | O => None
  | S fuel =>
      if bool_decide (pos < len b) then
        if bool_decide (byte_at b pos = 0xff) then
          if bool_decide (pos + 5 + 3 <= len b) then Some (AtCode (pos + 5)) else None
        else if bool_decide (len b < pos + 2) then None
        else let t := byte_at b (pos + 1) in
          if bool_decide (t = 1) then walk_stop fuel b (pos + 4)
          else if bool_decide (t = 2) then walk_stop fuel b (pos + 5)
          else if bool_decide (t = 4) then walk_stop fuel b (pos + 7)
          else Some (AtUnknown pos)
      else None
  end.

Lemma walk_rules_stop fuel b pos :
  walk_rules fuel b pos = walk_stop fuel b pos ≫= fun s =>
    match s with AtCode i => Some i | AtUnknown p => scan100 (length b) b p end.
Proof.
  revert pos; induction fuel as [|fuel IH]; intros pos; [done|]. cbn [walk_rules walk_stop].
  repeat match goal with |- context [bool_decide ?P] => destruct (bool_decide P) end; by rewrite ?IH.
Qed.

Lemma scan100_spec fuel b p i :
  0 <= p -> scan100 fuel b p = Some i -> p <= i /\ i + 3 <= len b /\ slice b i (i + 3) = [1; 0; 0].
Proof.
  revert p; induction fuel as [|fuel IH]; intros p Hp; cbn [scan100]; [done|].
  destruct (bool_decide (p + 3 <= len b)) eqn:H1; [|done].
  destruct (bool_decide (slice b p (p + 3) = _)) eqn:H2; destruct_bool_decide.
  - intros [= <-]. done.
  - intros Hs. apply IH in Hs as (? & ? & ?); [|lia]. split_and!; [lia|done|done].
Qed.

Definition stop_at (s : stop) : Z := match s with AtCode i => i - 5 | AtUnknown p => p end.

(** Everything the walk reads lies between its start and the byte after its stop. *)
Lemma walk_stop_bounds fuel b pos s :
  walk_stop fuel b pos = Some s -> pos <= stop_at s /\ stop_at s + 2 <= len b.
Proof.
  revert pos; induction fuel as [|fuel IH]; intros pos; cbn [walk_stop]; [done|].
  repeat case_bool_decide; try done; intros Hs;
    first [injection Hs as <-; cbn; lia | apply IH in Hs; lia].
Qed.

(** What makes the walk stop where it does. *)
Definition stops_here (b : bytes) (s : stop) : Prop :=
  match s with
  | AtCode i => byte_at b (i - 5) = 255
  | AtUnknown p => byte_at b p <> 255 /\ byte_at b (p + 1) <> 1 /\ byte_at b (p + 1) <> 2 /\
      byte_at b (p + 1) <> 4
  end.

Lemma walk_stop_here fuel b pos s : walk_stop fuel b pos = Some s -> stops_here b s.
Proof.
  revert pos; induction fuel as [|fuel IH]; intros pos; cbn [walk_stop]; [done|].
  repeat case_bool_decide; try done; intros Hs;
    first [injection Hs as <-; cbn; rewrite ?Z.add_simpl_r; done | by apply IH in Hs
          | injection Hs as <-; cbn; by replace (pos + 5 - 5) with pos by lia].
Qed.

Lemma walk_stop_same fuel fuel' b b' pos s :
  walk_stop fuel b pos = Some s -> 0 <= pos -> same_on pos (stop_at s) b b' -> stops_here b' s ->
  len b <= len b' -> (fuel <= fuel')%nat -> walk_stop fuel' b' pos = Some s.
Proof.
  revert fuel' pos; induction fuel as [|fuel IH]; intros fuel' pos Hs Hpos Hsame Hst Hlen Hf; [done|].
  destruct fuel' as [|fuel']; [lia|]. pose proof (walk_stop_bounds _ _ _ _ Hs) as Hb.
  destruct (decide (stop_at s = pos)) as [Heq|Hne].
  - (* the walk stops at once *)
    cbn [walk_stop] in *. rewrite bool_decide_eq_true_2 by lia.
    destruct s as [i|p]; cbn in *.
    + replace (i - 5) with pos in Hst by lia. rewrite bool_decide_eq_true_2 by done.
      repeat case_bool_decide; try done; try (apply walk_stop_bounds in Hs; cbn in Hs; lia).
      exfalso. lia.
    + subst p. destruct Hst as (Hn & H1 & H2 & H4).
      rewrite !bool_decide_eq_false_2 by (done || lia). done.
  - cbn [walk_stop] in *.
    destruct (bool_decide (pos < len b)) eqn:E1; [|done]. destruct_bool_decide.
    rewrite bool_decide_eq_true_2 by lia.
    rewrite <- (same_on_byte pos (stop_at s) b b' pos) by (done || lia).
    destruct (bool_decide (byte_at b pos = 255)) eqn:E2; destruct_bool_decide.
    { destruct (bool_decide (pos + 5 + 3 <= len b)) eqn:E3; [|done].
      injection Hs as <-. cbn in Hne. lia. }
    destruct (bool_decide (len b < pos + 2)) eqn:E3; [done|]. destruct_bool_decide.
    rewrite bool_decide_eq_false_2 by lia.
    assert (forall d, 4 <= d -> walk_stop fuel b (pos + d) = Some s ->
      byte_at b' (pos + 1) = byte_at b (pos + 1) /\ walk_stop fuel' b' (pos + d) = Some s) as Hstep.
    { intros d Hd Hs'. pose proof (walk_stop_bounds _ _ _ _ Hs'). split.
      - symmetry. apply (same_on_byte pos (stop_at s)); [done|lia].
      - apply IH; try done; [lia| |lia]. intros i Hi. apply Hsame. lia. }
    repeat case_bool_decide; simplify_eq; try done;
      try (edestruct (Hstep 4) as [Hx ?]; [lia|done|]; congruence);
      try (edestruct (Hstep 5) as [Hx ?]; [lia|done|]; congruence);
      try (edestruct (Hstep 7) as [Hx ?]; [lia|done|]; congruence).
Qed.

(** The guards before the walk. *)
Definition structure_stop (b : bytes) : option stop :=
  if bool_decide (len b < tournamentNameLengthOffset + 2) then None
  else
    let nameLen := le16_at b tournamentNameLengthOffset in
    if bool_decide (nameLen < 2) || bool_decide (Z.land nameLen 1 <> 0) then None
    else
      let pos := tournamentNameLengthOffset + 2 + nameLen in
      if bool_decide (len b <= pos) then None else walk_stop (length b) b pos.

Definition offset_of (b : bytes) (s : stop) : option Z :=
  match s with AtCode i => Some i | AtUnknown p => scan100 (length b) b p end.

Lemma tournamentCodeOffset_stop b :
  tournamentCodeOffset b = structure_stop b ≫= offset_of b.
Proof.
  unfold tournamentCodeOffset, structure_stop. rewrite walk_rules_stop.
  repeat match goal with |- context [bool_decide ?P] => destruct (bool_decide P) end; done.
Qed.

Lemma structure_stop_bounds b s :
  structure_stop b = Some s -> 109 <= stop_at s /\ stop_at s + 2 <= len b /\ stops_here b s.
Proof.
  unfold structure_stop, tournamentNameLengthOffset.
  destruct (bool_decide _) eqn:E1; [done|]. destruct (_ || _) eqn:E2; [done|]. destruct_bool_decide.
  destruct (bool_decide (len b <= _)) eqn:E3; [done|]. intros Hs.
  pose proof (walk_stop_bounds _ _ _ _ Hs). pose proof (walk_stop_here _ _ _ _ Hs).
  split_and!; [lia|lia|done].
Qed.

(** The stop depends only on the bytes from the twelfth to it. *)
Lemma structure_stop_same b b' s :
  structure_stop b = Some s -> same_on 12 (stop_at s) b b' -> stops_here b' s -> len b <= len b' ->
  structure_stop b' = Some s.
Proof.
  intros Hs Hsame Hst Hlen. pose proof (structure_stop_bounds b s Hs) as (Hlo & _).
  unfold structure_stop in *. unfold tournamentNameLengthOffset, le16_at in *.
  rewrite <- (same_on_slice 12 (stop_at s) b b' 105 (105 + 2)) by (done || lia).
  destruct (bool_decide (len b < _)) eqn:E1; [done|]. destruct_bool_decide.
  rewrite bool_decide_eq_false_2 by lia.
  destruct (_ || _) eqn:E2; [done|]. destruct_bool_decide.
  destruct (bool_decide (len b <= _)) eqn:E3; [done|]. destruct_bool_decide.
  rewrite bool_decide_eq_false_2 by lia.
  eapply walk_stop_same; [exact Hs|lia| |done|done|unfold len in *; lia].
  intros i Hi. apply Hsame. lia.
Qed.

(** ** Stamping *)
Lemma lookup_app_Z (a b : bytes) i :
  0 <= i -> (a ++ b) !! Z.to_nat i =
    if bool_decide (i < len a) then a !! Z.to_nat i else b !! Z.to_nat (i - len a).
Proof.
  intros Hi. unfold len. case_bool_decide.
  - apply lookup_app_l. lia.
  - rewrite lookup_app_r by lia. f_equal. lia.
Qed.

Lemma lookup_zdrop (b : bytes) n i : 0 <= n -> 0 <= i -> zdrop n b !! Z.to_nat i = b !! Z.to_nat (n + i).
Proof. intros. unfold zdrop. rewrite lookup_drop. f_equal. lia. Qed.

Lemma lookup_ztake (b : bytes) n i : 0 <= i < n -> ztake n b !! Z.to_nat i = b !! Z.to_nat i.
Proof. intros. unfold ztake. apply lookup_take_lt. lia. Qed.

Definition headed (id : Z) (mark payload : bytes) : bytes := le_bytes 4 id ++ mark ++ zdrop 12 payload.

Lemma len_headed id mark payload :
  len mark = 8 -> 12 <= len payload -> len (headed id mark payload) = len payload.
Proof. intros Hm Hp. unfold headed. autorewrite with golen. rewrite len_zdrop by lia. lia. Qed.

Lemma headed_same id mark payload hi :
  len mark = 8 -> same_on 12 hi payload (headed id mark payload).
Proof.
  intros Hm i Hi. unfold headed. rewrite app_assoc, lookup_app_Z by lia.
  rewrite len_app, len_le_bytes, Hm. rewrite bool_decide_eq_false_2 by lia.
  rewrite lookup_zdrop by lia. f_equal. lia.
Qed.

Lemma stops_here_same b b' s lo hi :
  same_on lo hi b b' -> lo <= stop_at s -> stop_at s + 2 <= hi -> stops_here b s -> stops_here b' s.
Proof.
  intros Hs Hlo Hhi. destruct s as [i|p]; cbn in *.
  - by rewrite (same_on_byte lo hi b b') by (done || lia).
  - by rewrite !(same_on_byte lo hi b b') by (done || lia).
Qed.

Lemma scan100_same fuel b b' p :
  (forall hi, same_on 12 hi b b') -> len b = len b' -> 12 <= p -> scan100 fuel b p = scan100 fuel b' p.
Proof.
  intros Hs Hl. revert p; induction fuel as [|fuel IH]; intros p Hp; cbn [scan100]; [done|].
  rewrite Hl, (same_on_slice 12 (p + 3) b b') by (done || lia). by rewrite IH by lia.
Qed.

(** The header the server writes is not read when the code is located. *)
Lemma headed_offset id mark payload s :
  len mark = 8 -> structure_stop payload = Some s ->
  structure_stop (headed id mark payload) = Some s /\
  offset_of (headed id mark payload) s = offset_of payload s.
Proof.
  intros Hm Hs. destruct (structure_stop_bounds payload s Hs) as (Hlo & Hhi & Hst).
  pose proof (len_headed id mark payload Hm ltac:(lia)) as Hl. split.
  - apply (structure_stop_same payload); [done|by apply headed_same| |lia].
    by apply (stops_here_same payload _ s 12 (len payload)); [apply headed_same|lia|lia|].
  - destruct s as [i|p]; cbn [offset_of stop_at] in *; [done|]. unfold len in Hl.
    replace (length (headed id mark payload)) with (length payload) by lia.
    symmetry. apply scan100_same; [intros; by apply headed_same|unfold len; lia|lia].
Qed.

(** The code as a string of the structure. *)
Definition code_field (code : gostring) : bytes := le_bytes 2 (len code + 1) ++ code ++ [0].

Definition stamped (i : Z) (out : bytes) (code : gostring) : bytes :=
  ztake i out ++ code_field code ++ zdrop (i + 3) out.

Lemma len_code_field code : len (code_field code) = len code + 3.
Proof. unfold code_field. autorewrite with golen. lia. Qed.

Lemma stamped_before i out code lo :
  0 <= lo -> i <= len out -> same_on lo i out (stamped i out code).
Proof.
  intros Hlo Hi k Hk. unfold stamped. rewrite lookup_app_Z, len_ztake by lia.
  rewrite bool_decide_eq_true_2 by lia. by rewrite lookup_ztake by lia.
Qed.

Lemma len_stamped i out code : 0 <= i -> i + 3 <= len out -> len (stamped i out code) = len out + len code.
Proof.
  intros. unfold stamped. rewrite !len_app, len_ztake, len_zdrop, len_code_field by lia. lia.
Qed.

Lemma stamped_field i out code :
  0 <= i <= len out -> slice (stamped i out code) i (i + len (code_field code)) = code_field code.
Proof.
  intros Hi. unfold slice, stamped. rewrite zdrop_app by (rewrite len_ztake; lia).
  rewrite ztake_app; [done|lia].
Qed.

Lemma slice_prefix b i j k : 0 <= i -> i <= j <= k -> slice b i j = ztake (j - i) (slice b i k).
Proof. intros. unfold slice, ztake. rewrite take_take. f_equal. lia. Qed.

Lemma byte_at_app (a b : bytes) v i : i = len a -> byte_at (a ++ v :: b) i = v.
Proof.
  intros ->. apply byte_at_lookup; [apply len_nonneg|]. unfold len. rewrite Nat2Z.id.
  by rewrite lookup_app_r, Nat.sub_diag by lia.
Qed.

Lemma slice_app (a b c : bytes) i j : i = len a -> j = i + len b -> slice (a ++ b ++ c) i j = b.
Proof. intros -> ->. unfold slice. rewrite zdrop_app by done. apply ztake_app. lia. Qed.

(** A structure whose walk ends at the terminator matches the code stamped into it. *)
Lemma stamped_at_code out i code :
  structure_stop out = Some (AtCode i) -> i + 3 <= len out -> validTournamentCode code = true ->
  tournamentCodeMatches (stamped i out code) code = true.
Proof.
  intros Hs Hi Hcode. pose proof (structure_stop_bounds out _ Hs) as (Hlo & Hhi & Hst). cbn in Hlo, Hhi.
  assert (len code = 12) as Hlen by (unfold validTournamentCode in Hcode; destruct_bool_decide; done).
  pose proof (len_stamped i out code ltac:(lia) Hi) as Hls. pose proof (len_ztake i out ltac:(lia)) as Hlt.
  unfold tournamentCodeMatches. rewrite tournamentCodeOffset_stop.
  rewrite (structure_stop_same out (stamped i out code) (AtCode i)); [|done| | |lia].
  2: { intros k Hk. apply (stamped_before i out code 12); cbn in *; lia. }
  2: { apply (stops_here_same out _ (AtCode i) 12 i); [apply stamped_before; lia|cbn; lia|cbn; lia|done]. }
  cbn [mbind option_bind offset_of]. rewrite Hcode. cbn [negb].
  assert (le16_at (stamped i out code) i = 13) as Hn.
  { unfold le16_at, stamped, code_field. rewrite <- app_assoc.
    rewrite slice_app by (rewrite ?len_le_bytes; lia). rewrite le_val_small; [lia|unfold is_uint; cbn; lia]. }
  assert (byte_at (stamped i out code) (i + 2 + 13 - 1) = 0) as Hz.
  { unfold stamped, code_field. rewrite <- !app_assoc. rewrite !app_assoc, <- (app_assoc _ [0]).
    apply byte_at_app. rewrite !len_app, len_le_bytes. lia. }
  assert (slice (stamped i out code) (i + 2) (i + 2 + tournamentCodeLen) = code) as Hc.
  { unfold stamped, code_field, tournamentCodeLen. rewrite <- !app_assoc, (app_assoc (ztake i out)).
    apply slice_app; [rewrite len_app, len_le_bytes; lia|lia]. }
  rewrite Hn, Hz, Hc. rewrite !bool_decide_eq_false_2 by (unfold tournamentCodeLen; lia).
  by rewrite bool_decide_eq_true_2.
Qed.

(** A field found by the fallback scan is lost once stamped: the scan of the stamped
    structure can only return another empty string. *)
Lemma stamped_at_unknown out p i code :
  structure_stop out = Some (AtUnknown p) -> scan100 (length out) out p = Some i -> len code = 12 ->
  tournamentCodeMatches (stamped i out code) code = false.
Proof.
  intros Hs Hscan Hlen. pose proof (structure_stop_bounds out _ Hs) as (Hlo & Hhi & Hst). cbn in Hlo, Hhi.
  destruct (scan100_spec (length out) out p i ltac:(lia) Hscan) as (Hpi & Hi3 & Hsl).
  pose proof (len_stamped i out code ltac:(lia) Hi3) as Hls. pose proof (len_ztake i out ltac:(lia)) as Hlt.
  assert (stops_here (stamped i out code) (AtUnknown p)) as Hst'.
  { destruct Hst as (Hn & H1 & H2 & H4). destruct (decide (i = p)) as [->|Hne].
    - assert (byte_at (stamped p out code) p = 13) as E0.
      { unfold stamped, code_field. cbn [le_bytes app]. rewrite Hlen. apply byte_at_app. lia. }
      assert (byte_at (stamped p out code) (p + 1) = 0) as E1.
      { unfold stamped, code_field. cbn [le_bytes app]. rewrite Hlen.
        match goal with |- context [ztake p out ++ ?a :: ?b :: ?c] =>
          change (ztake p out ++ a :: b :: c) with (ztake p out ++ [a] ++ b :: c) end.
        rewrite app_assoc.
        apply byte_at_app. rewrite len_app, len_cons, len_nil. lia. }
      cbn. rewrite E0, E1. lia.
    - assert (i <> p + 1) as Hne1.
      { intros ->. apply H1. apply byte_at_lookup; [lia|].
        pose proof (slice_lookup out (p + 1) (p + 1 + 3) 0 ltac:(lia)) as Hk. rewrite Hsl in Hk.
        rewrite bool_decide_eq_true_2, Nat.add_0_r in Hk by lia. cbn in Hk. done. }
      apply (stops_here_same out _ (AtUnknown p) 12 i); [apply stamped_before; lia|cbn; lia|cbn; lia|done]. }
  unfold tournamentCodeMatches. rewrite tournamentCodeOffset_stop.
  rewrite (structure_stop_same out (stamped i out code) (AtUnknown p)); [|done| |done|lia].
  2: { intros k Hk. cbn in Hk. apply (stamped_before i out code 12); lia. }
  cbn [mbind option_bind offset_of].
  destruct (scan100 _ (stamped i out code) p) as [j|] eqn:Hj; [|done].
  destruct (scan100_spec _ _ p j ltac:(lia) Hj) as (Hpj & Hj3 & Hslj).
  destruct (negb _); [done|]. destruct (bool_decide (len _ < j + 2)); [done|].
  unfold le16_at. rewrite (slice_prefix _ j (j + 2) (j + 3)), Hslj by lia.
  replace (j + 2 - j) with 2 by lia. change (le_val (ztake 2 [1; 0; 0])) with 1.
  by rewrite bool_decide_eq_true_2.
Qed.

Lemma stamped_headed id mark payload i code :
  len mark = 8 -> 12 <= i ->
  stamped i (headed id mark payload) code =
  le_bytes 4 id ++ mark ++ slice payload 12 i ++ code_field code ++ zdrop (i + 3) payload.
Proof.
  intros Hm Hi. unfold stamped, headed, slice, ztake, zdrop.
  assert (length (le_bytes 4 id ++ mark) = 12%nat) as H12.
  { unfold len in Hm. rewrite length_app, length_le_bytes. lia. }
  rewrite (app_assoc (le_bytes 4 id) mark (drop _ _)), take_app, drop_app, H12.
  rewrite (take_ge (_ ++ mark)), (drop_ge (_ ++ mark)) by lia.
  rewrite drop_drop, <- !app_assoc. cbn [app].
  replace (Z.to_nat (i - 12)) with (Z.to_nat i - 12)%nat by lia.
  by replace (Z.to_nat 12 + (Z.to_nat (i + 3) - 12))%nat with (Z.to_nat (i + 3)) by lia.
Qed.

(** ** Creation *)
Definition creatable (payload : bytes) (s : tournamentStore) (i : Z) : Prop :=
  tournamentCodeOffset payload = Some i /\ slice payload i (i + 3) = [1; 0; 0] /\
  len payload <= tournamentMaxBlob /\ Z.of_nat (size (byID s)) < tournamentMax.

Lemma newTournamentCode_valid rnd :
  12 <= len rnd -> validTournamentCode (newTournamentCode rnd) = true.
Proof.
  intros Hl. unfold validTournamentCode, newTournamentCode, tournamentCodeLen. apply andb_true_iff. split.
  - apply bool_decide_eq_true. unfold len in *. rewrite length_fmap, length_take. lia.
  - apply forallb_forall. intros x Hx. apply list_elem_of_In, list_elem_of_fmap in Hx as (v & -> & _).
    unfold is_digit. apply andb_true_iff.
    pose proof (Z.mod_pos_bound v 10 ltac:(lia)). split; apply bool_decide_eq_true; lia.
Qed.

Lemma stamp_spec payload s i id mark code :
  structure_stop payload = Some s -> offset_of payload s = Some i -> len mark = 8 ->
  slice payload i (i + 3) = [1; 0; 0] -> validTournamentCode code = true ->
  stampTournament payload id mark code = stamped i (headed id mark payload) code /\
  structure_stop (headed id mark payload) = Some s /\
  offset_of (headed id mark payload) s = Some i /\ 109 <= i /\ i + 3 <= len (headed id mark payload) /\
  slice (headed id mark payload) i (i + 3) = [1; 0; 0].
Proof.
  intros Hs Ho Hm Hsl Hc. destruct (structure_stop_bounds payload s Hs) as (Hlo & Hhi & _).
  destruct (headed_offset id mark payload s Hm Hs) as [Hs' Ho']. rewrite Ho in Ho'.
  assert (109 <= i) as Hi.
  { destruct s as [j|p]; cbn in Ho, Hlo; [injection Ho as <-; lia|].
    apply scan100_spec in Ho as (? & _); lia. }
  pose proof (len_headed id mark payload Hm ltac:(lia)) as Hl.
  assert (slice (headed id mark payload) i (i + 3) = [1; 0; 0]) as Hsl'.
  { rewrite <- Hsl. symmetry. apply (same_on_slice 12 (i + 3)); [by apply headed_same|lia|lia]. }
  assert (i + 3 <= len (headed id mark payload)) as Hi3.
  { pose proof (slice_lookup (headed id mark payload) i (i + 3) 2 ltac:(lia)) as Hk.
    rewrite Hsl', bool_decide_eq_true_2 in Hk by lia. symmetry in Hk. apply lookup_lt_Some in Hk.
    unfold len. lia. }
  split_and!; try done. unfold stampTournament. rewrite bool_decide_eq_false_2 by lia.
  fold (headed id mark payload). rewrite tournamentCodeOffset_stop, Hs'. cbn [mbind option_bind].
  rewrite Ho', Hc, Hsl'. cbn [negb orb]. by rewrite bool_decide_eq_false_2 by (intros Hx; by apply Hx).
Qed.

(** [C29] Creating a tournament: of a payload that passes the checks (an empty code string
    where the code is located, at most 4096 bytes, room in the store), the server changes
    exactly three places.  If the walk over the rule properties reaches the terminator, the
    tournament is stored under the next id as the payload with the id, the mark and the
    12-digit code written in, is found under that id, and belongs to its creator.  If it
    meets a property of unknown type and the code is located by the fallback scan, nothing
    is stored and the request fails, although an id has been used up. *)
Theorem tournament_create_outcome e owner payload s i st :
  creatable payload s i -> structure_stop payload = Some st ->
  len (te_mark e) = 8 -> len (te_code e) = 12 -> 0 < nextID s < 2 ^ 32 ->
  let id := nextID s in
  let code := newTournamentCode (te_code e) in
  match st with
  | AtCode _ =>
      let t := mkTournament id owner code (te_mark e)
        (le_bytes 4 id ++ te_mark e ++ slice payload 12 i ++ code_field code ++ zdrop (i + 3) payload)
        [owner] (te_now e) in
      exists s', CreateTournament e owner payload s = (Some t, s') /\
        byID s' = <[id := t]> (byID s) /\ nextID s' = u32 (id + 1) /\ tournamentByID s' id = Some t
  | AtUnknown _ =>
      CreateTournament e owner payload s =
        (None, mkTStore (byID s) (quarantined s) (u32 (id + 1)) (dirty s))
  end.
Proof.
  intros (Hoff & Hsl & Hmax & Hroom) Hst Hm Hc Hid. cbn zeta.
  pose proof Hoff as Ho. rewrite tournamentCodeOffset_stop, Hst in Ho. cbn [mbind option_bind] in Ho.
  pose proof (newTournamentCode_valid (te_code e) ltac:(lia)) as Hv.
  set (code := newTournamentCode (te_code e)) in *.
  destruct (stamp_spec payload st i (nextID s) (te_mark e) code Hst Ho Hm Hsl Hv)
    as (Hstamp & Hs' & Ho' & Hi & Hi3 & Hsl').
  destruct (structure_stop_bounds payload st Hst) as (Hlo & Hhi & _).
  pose proof (len_headed (nextID s) (te_mark e) payload Hm ltac:(lia)) as Hl.
  assert (len code = 12) as Hlc by (unfold validTournamentCode in Hv; destruct_bool_decide; done).
  pose proof (len_stamped i (headed (nextID s) (te_mark e) payload) code ltac:(lia) Hi3) as Hls.
  pose proof (stamped_headed (nextID s) (te_mark e) payload i code Hm ltac:(lia)) as Hblob.
  assert (CreateTournament e owner payload s =
    let t := mkTournament (nextID s) owner code (te_mark e)
      (stamped i (headed (nextID s) (te_mark e) payload) code) [owner] (te_now e) in
    if negb (validStoredTournament t)
    then (None, mkTStore (byID s) (quarantined s) (u32 (nextID s + 1)) (dirty s))
    else (Some t, mkTStore (<[nextID s := t]> (byID s)) (quarantined s) (u32 (nextID s + 1)) true))
    as Hcreate.
  { unfold CreateTournament. rewrite Hoff, Hsl. unfold tournamentMaxBlob, tournamentMax in *.
    rewrite !(bool_decide_eq_false_2) by (lia || intros Hx; by apply Hx). cbn [orb].
    fold code. by rewrite Hstamp. }
  assert (forall o, validStoredTournament (mkTournament (nextID s) o code (te_mark e)
    (stamped i (headed (nextID s) (te_mark e) payload) code) [owner] (te_now e)) =
    tournamentCodeMatches (stamped i (headed (nextID s) (te_mark e) payload) code) code) as Hvalid.
  { intros o. unfold validStoredTournament, tournamentMaxBlob, tournamentCodeLen in *. cbn [t_ID t_Blob t_Code].
    rewrite !(bool_decide_eq_false_2 (_ < _)), (bool_decide_eq_false_2 (_ = 0)) by lia. cbn [orb].
    rewrite Hblob. rewrite ztake_app by (rewrite len_le_bytes; lia).
    rewrite le_val_small by (unfold is_uint; cbn; lia).
    by rewrite bool_decide_eq_false_2 by (intros Hx; by apply Hx). }
  destruct st as [j|p].
  - cbn in Ho'. injection Ho' as ->.
    rewrite (stamped_at_code _ _ _ Hs' Hi3 Hv) in Hvalid. rewrite Hblob in *.
    cbn zeta in Hcreate. rewrite Hvalid in Hcreate. cbn [negb] in Hcreate.
    eexists. split; [exact Hcreate|]. cbn. split; [done|]. split; [done|].
    unfold tournamentByID. cbn. rewrite lookup_insert_eq. by rewrite Hvalid.
  - cbn in Ho'. rewrite (stamped_at_unknown _ _ _ _ Hs' Ho' Hlc) in Hvalid.
    cbn zeta in Hcreate. rewrite Hvalid in Hcreate. exact Hcreate.
Qed.

Definition ex_payload : bytes :=
  replicate 105 0 ++ [2; 0] ++ [0; 0] ++ [255; 0; 0; 0; 0] ++ [1; 0; 0] ++ [9].
Definition ex_tenv : TournamentEnv := mkTEnv (replicate 8 7) (replicate 12 5) 0.

Lemma tournament_create_outcome_witness :
  exists t s', CreateTournament ex_tenv 42 ex_payload empty_tournaments = (Some t, s') /\
    tournamentByID s' 1000 = Some t.
Proof.
  destruct (tournament_create_outcome ex_tenv 42 ex_payload empty_tournaments 114 (AtCode 114))
    as (s' & Hc & _ & _ & Hf).
  - split; [vm_compute; reflexivity|]. split; [vm_compute; reflexivity|].
    split; [vm_compute; discriminate|vm_compute; reflexivity].
  - vm_compute. reflexivity.
  - reflexivity.
  - reflexivity.
  - cbn. lia.
  - eexists _, s'. split; [exact Hc|exact Hf].
Defined.

(** ** The store over time *)
Inductive tournament_step : tournamentStore -> tournamentStore -> Prop :=
  | ts_create e owner payload s : nextID s < 2 ^ 32 - 1 ->
      tournament_step s (CreateTournament e owner payload s).2
  | ts_join id pid s : tournament_step s (joinTournament id pid s).2
  | ts_delete id pid s : tournament_step s (deleteTournament id pid s).2.

Record tournaments_ok (s : tournamentStore) : Prop := {
  to_entry : forall id t, byID s !! id = Some t ->
    t_ID t = id /\ validStoredTournament t = true /\ id < nextID s /\
    t_Owner t ∈ t_Participants t /\ NoDup (t_Participants t);
  to_size : Z.of_nat (size (byID s)) <= tournamentMax;
  to_next : 1000 <= nextID s < 2 ^ 32
}.

Lemma valid_set_participants l t :
  validStoredTournament (set_participants l t) = validStoredTournament t.
Proof. done. Qed.

Lemma create_ok e owner payload s :
  tournaments_ok s -> nextID s < 2 ^ 32 - 1 -> tournaments_ok (CreateTournament e owner payload s).2.
Proof.
  intros [He Hs Hn] Hlt. unfold CreateTournament.
  assert (u32 (nextID s + 1) = nextID s + 1) as Hu by (apply Z.mod_small; lia).
  assert (forall d, tournaments_ok (mkTStore (byID s) (quarantined s) (nextID s + 1) d)) as Hbump.
  { intros d. split; cbn; [|done|lia]. intros id t Ht. destruct (He id t Ht) as (? & ? & ? & ? & ?).
    split_and!; (done || lia). }
  destruct (tournamentCodeOffset payload); [|done]. destruct (_ || _); [done|].
  destruct (bool_decide (tournamentMax <= _)) eqn:Hroom; [done|]. destruct_bool_decide. rewrite Hu.
  destruct (validStoredTournament _) eqn:Hv; cbn [negb]; [|apply Hbump]. split; cbn in *.
  - intros id t [[<- <-]|[Hne Ht]]%lookup_insert_Some; cbn.
    + split_and!; [done|done|lia|by apply list_elem_of_singleton|apply NoDup_singleton].
    + destruct (He id t Ht) as (? & ? & ? & ? & ?). split_and!; (done || lia).
  - rewrite map_size_insert. case_match; unfold id; lia.
  - lia.
Qed.

Lemma join_ok id pid s : tournaments_ok s -> tournaments_ok (joinTournament id pid s).2.
Proof.
  intros [He Hs Hn]. unfold joinTournament, tournamentByID.
  destruct (byID s !! id) as [t|] eqn:Ht; [|done].
  destruct (validStoredTournament t) eqn:Hv; [|done].
  destruct (bool_decide (pid ∈ t_Participants t)) eqn:Hin; [done|]. destruct_bool_decide.
  destruct (He id t Ht) as (Hid & _ & Hlt & Ho & Hnd). split; cbn.
  - intros id' t' [[<- <-]|[Hne Ht']]%lookup_insert_Some; [|by apply He]. cbn.
    split_and!; try done; [apply elem_of_app; by left|]. apply NoDup_app. split_and!; [done| |apply NoDup_singleton].
    intros x Hx ->%list_elem_of_singleton. done.
  - rewrite map_size_insert_Some by eauto. done.
  - done.
Qed.

Lemma delete_ok id pid s : tournaments_ok s -> tournaments_ok (deleteTournament id pid s).2.
Proof.
  intros [He Hs Hn]. unfold deleteTournament. destruct (tournamentByID s id); [|done].
  destruct (bool_decide _); [done|]. split; cbn; [|  |done].
  - intros id' t' [_ Ht']%lookup_delete_Some. by apply He.
  - pose proof (map_subseteq_size _ _ (delete_subseteq (byID s) id)). lia.
Qed.

Lemma tournaments_reachable s : rtc tournament_step empty_tournaments s -> tournaments_ok s.
Proof.
  intros Hr. remember empty_tournaments as s0 eqn:E. assert (tournaments_ok s0) as H0.
  { subst. split; cbn; [intros ??; by rewrite lookup_empty|unfold tournamentMax; rewrite map_size_empty; lia|lia]. }
  clear E. induction Hr as [|s1 s2 s3 Hstep _ IH]; [done|]. apply IH.
  destruct Hstep; auto using create_ok, join_ok, delete_ok.
Qed.

(** [C30] The tournament store: after any sequence of creations, registrations and
    deletions it holds at most 2000 tournaments, each valid, under its own id below the
    next id to be given, with its owner among its participants and no participant twice;
    only the owner's deletion removes a tournament; registering adds the player and
    nobody else, and registering again changes nothing. *)
Theorem tournament_store_laws s id pid t :
  rtc tournament_step empty_tournaments s -> tournamentByID s id = Some t ->
  tournaments_ok s /\
  (t_Owner t <> pid -> deleteTournament id pid s = (false, s)) /\
  (t_Owner t = pid -> (deleteTournament id pid s).1 = true /\
     byID (deleteTournament id pid s).2 = delete id (byID s)) /\
  (let s' := (joinTournament id pid s).2 in
   joinTournament id pid s' = (true, s') /\
   exists t', tournamentByID s' id = Some t' /\ t_Blob t' = t_Blob t /\ t_Owner t' = t_Owner t /\
     forall p, p ∈ t_Participants t' <-> p ∈ t_Participants t \/ p = pid).
Proof.
  intros Hr Ht. split; [by apply tournaments_reachable|]. split_and!.
  - intros Ho. unfold deleteTournament. rewrite Ht. by rewrite bool_decide_eq_true_2.
  - intros Ho. unfold deleteTournament. rewrite Ht.
    by rewrite bool_decide_eq_false_2 by (intros Hx; by apply Hx).
  - cbn zeta. destruct (decide (pid ∈ t_Participants t)) as [Hin|Hin].
    + assert (joinTournament id pid s = (true, s)) as Hj.
      { unfold joinTournament. rewrite Ht. by rewrite bool_decide_eq_true_2. }
      rewrite Hj. cbn. rewrite Hj. split; [done|]. exists t. split_and!; try done.
      intros p. split; [by left|]. by intros [? | ->].
    + set (t' := set_participants (t_Participants t ++ [pid]) t).
      assert (joinTournament id pid s =
        (true, mkTStore (<[id := t']> (byID s)) (quarantined s) (nextID s) true)) as Hj.
      { unfold joinTournament. rewrite Ht. by rewrite bool_decide_eq_false_2. }
      rewrite Hj. cbn [snd].
      assert (tournamentByID (mkTStore (<[id := t']> (byID s)) (quarantined s) (nextID s) true) id
        = Some t') as Ht'.
      { unfold tournamentByID in *. cbn. rewrite lookup_insert_eq. unfold t'.
        rewrite valid_set_participants. destruct (byID s !! id); [|done].
        destruct (validStoredTournament t0) eqn:Hv; [|done]. injection Ht as ->. by rewrite Hv. }
      split.
      * unfold joinTournament. rewrite Ht'. rewrite bool_decide_eq_true_2; [done|].
        apply elem_of_app. right. by apply list_elem_of_singleton.
      * exists t'. split_and!; try done. intros p. unfold t'. cbn.
        rewrite elem_of_app, list_elem_of_singleton. done.
Qed.

Lemma tournament_store_laws_witness :
  exists s t, tournamentByID s 1000 = Some t /\ deleteTournament 1000 7 s = (false, s).
Proof.
  destruct (CreateTournament ex_tenv 42 ex_payload empty_tournaments) as [ot s] eqn:Hc.
  exists s. destruct (tournamentByID s 1000) as [t|] eqn:Ht.
  - exists t. split; [reflexivity|].
    destruct (tournament_store_laws s 1000 7 t) as (_ & Hd & _ & _).
    + eapply rtc_once. replace s with (CreateTournament ex_tenv 42 ex_payload empty_tournaments).2
        by (rewrite Hc; reflexivity). constructor. vm_compute. reflexivity.
    + exact Ht.
    + apply Hd.
      assert (option_map t_Owner (tournamentByID
        (CreateTournament ex_tenv 42 ex_payload empty_tournaments).2 1000) = Some 42) as Ho
        by (vm_compute; reflexivity).
      rewrite Hc in Ho. cbn in Ho. rewrite Ht in Ho. cbn in Ho. injection Ho as Ho. rewrite Ho. discriminate.
  - assert (is_Some (tournamentByID (CreateTournament ex_tenv 42 ex_payload empty_tournaments).2 1000)) as Hx
      by (vm_compute; eexists; reflexivity).
    rewrite Hc in Hx. cbn in Hx. rewrite Ht in Hx. destruct Hx as [? Hx]. discriminate Hx.
Defined.
