(* ===== verification/Handlers.v ===== *)
(** * Matchmaking RMC handlers (nextendo-nex/matchmaking_handlers.go,
      matchmaking_acnh.go, matchmaking_notifdata.go)

    One definition per handler, from the request bytes to the response bytes, and the
    three dispatchers.  A handler reads the endpoint's registry, updates the world
    (store, tournaments, NAT cache) and emits notifications, in order; the
    notifications precede the response on the wire. *)

From S2P Require Import Prelude GoStd GoNet Settings Stream Types StationURL Rmc Matchmaking.
From S2P Require Import Reservations Notification Connection Stations Store AcnhStructs.
From S2P Require Import Tournament.
Import GoStrings GoStrconv.

Definition ProtocolMatchMaking : Z := 0x15.
Definition ProtocolMatchMakingExt : Z := 0x32.
Definition MethodUnregisterGathering : Z := 0x02.
Definition MethodFindBySingleID15 : Z := 0x15.
Definition MethodUpdateSessionURL : Z := 0x1B.
Definition MethodUpdateSessionHostV1 : Z := 0x28.
Definition MethodGetSessionURLs : Z := 0x29.
Definition MethodUpdateSessionHost : Z := 0x2A.
Definition MethodMigrateGatheringOwnershipV1 : Z := 0x24.
Definition MethodUpdateGatheringOwnership : Z := 0x2B.
Definition MethodMigrateGatheringOwnership : Z := 0x2C.
Definition MethodCloseParticipation : Z := 0x01.
Definition MethodOpenParticipation : Z := 0x02.
Definition MethodCreateMatchmakeSessionWithParam : Z := 0x26.
Definition MethodJoinMatchmakeSessionWithParam : Z := 0x27.
Definition MethodAutoMatchmakeWithParamPostpone : Z := 0x28.
Definition MethodUpdateApplicationBuffer : Z := 0x0B.
Definition MethodModifyCurrentGameAttribute : Z := 0x08.
Definition MethodUpdateMatchmakeSessionPart : Z := 0x2C.
Definition MethodUpdateProgressScore : Z := 0x22.
Definition MethodFindMatchmakeSessionBySingleID : Z := 0x31.
Definition MethodCustomPlayingSession : Z := 0x3C.
Definition MethodCustomFriendsQuery : Z := 0x41.
Definition MethodCustomPrivateRoomCreate : Z := 0x44.
Definition MethodCustomResolveCode : Z := 0x45.
Definition MethodFindByParticipant : Z := 0x33.
Definition MethodBrowseNoHolder : Z := 0x34.
Definition MethodSSBUArenaCode : Z := 0x37.
Definition MethodSSBUArenaResolve : Z := 0x38.
Definition MethodFindByGidList : Z := 0x30.
Definition MethodSSBUPreMatch : Z := 0x3A.
Definition MethodTournamentSearch : Z := 0x39.
Definition MethodTournamentJoin : Z := 0x3F.
Definition MethodTournamentCreate : Z := 0x3D.
Definition MethodTournamentDelete : Z := 0x3E.
Definition MethodEndParticipation : Z := 0x1.
Definition MethodUpdateNotificationData : Z := 9.
Definition MethodGetFriendNotificationData : Z := 10.
Definition MethodGetFriendNotificationDataList : Z := 13.

Record World := mkWorld { w_mm : MMStore; w_ts : tournamentStore; w_nat : NatCache }.
Definition with_mm (m : MMStore) (w : World) : World := mkWorld m (w_ts w) (w_nat w).
Definition with_ts (t : tournamentStore) (w : World) : World := mkWorld (w_mm w) t (w_nat w).
Definition with_nat (k : NatCache) (w : World) : World := mkWorld (w_mm w) (w_ts w) k.

(** What a call draws from outside the world. *)
Record HEnv := mkHEnv {
  he_call : CallEnv; he_tour : TournamentEnv;
  he_now : Z; he_now' : Z; he_natfile : option gostring
}.

(** The calling connection: its handle and its object. *)
Record Conn := mkConn { cref : Z; cobj : Connection }.
Definition caller (c : Conn) : Caller := mkCaller (PID (cobj c)) (ID (cobj c)).

(** A handler returns a world, the notifications it sent, the response ([None]: it
    sends nothing) and possibly a host whose stations a background task waits for;
    or it never returns, with the store's mutex held. *)
Inductive Outcome :=
  | Returns (w : World) (pushes : list (Z * NotificationEvent)) (resp : option RMCMessage)
      (waiting : option Z)
  | Hangs.

Definition answer (w : World) (r : RMCMessage) : Outcome := Returns w [] (Some r) None.

Definition boolResponse (proto : Z) (req : RMCMessage) (v : bool) : RMCMessage :=
  NewRMCSuccess proto (Method req) (CallID req) (StreamOut.Bool v).
Definition emptyList (proto : Z) (req : RMCMessage) : RMCMessage :=
  NewRMCSuccess proto (Method req) (CallID req) (StreamOut.U32 0).
Definition extSuccess (req : RMCMessage) (body : bytes) : RMCMessage :=
  NewRMCSuccess ProtocolMatchmakeExtension (Method req) (CallID req) body.
Definition extError (req : RMCMessage) (code : Z) : RMCMessage :=
  NewRMCError ProtocolMatchmakeExtension (CallID req) code.

Section Handlers.
Context `{GoRange} (s : Settings) (pe : ProcEnv) (ep : Registry).

(** ** Participation notifications *)
Definition participate (callerPID gid about count : Z) (msg : gostring) : NotificationEvent :=
  mkEvent callerPID NotificationParticipate gid about msg count.

Definition notifyParticipation (c : Conn) (participants : list Z) (gid : Z) (msg : gostring)
    : list (Z * NotificationEvent) :=
  let me := PID (cobj c) in
  let count := len participants in
  omap (fun pid => (fun t => (fst t, participate me gid me count msg)) <$>
                   FindConnectionByPID ep pid) participants ++
  omap (fun pid => if bool_decide (pid = me) then None
                   else Some (cref c, participate me gid pid count msg)) participants.

(** ** Creating and joining *)
Definition read_auto (body : bytes) : AutoMatchmakeParam * StreamIn :=
  ReadStructure s (mkAutoParam zero_Session) (NewStreamIn body).

Definition autoMatchmake (e : CallEnv) (c : Conn) (req : RMCMessage) (w : World) : Outcome :=
  let '(param, st) := read_auto (Body req) in
  if si_err st then answer w (extError req ResultCoreInvalidArgument)
  else
    let '(g, _, m) := autoMatchmakeLocked pe ep e (caller c) (NATBehaviour (cobj c))
      (am_Session param) (w_mm w) in
    Returns (with_mm m w)
      (notifyParticipation c (participants g) (ms_ID (session g)) [])
      (Some (extSuccess req (WriteStructure s (session g)))) None.

Definition createSession (e : CallEnv) (c : Conn) (req : RMCMessage) (w : World) : Outcome :=
  let '(param, st) := read_auto (Body req) in
  if si_err st then answer w (extError req ResultCoreInvalidArgument)
  else
    let '(g, m) := createGathering (openParticipationDefault (NEXTENDO_OPEN_PARTICIPATION pe)) e
      (caller c) (am_Session param) (w_mm w) in
    let gid := ms_ID (session g) in
    let m := match OnFriendSessionCreated (cfg m) with
      | Some f => with_notif (f (PID (cobj c)) gid (notif m)) m
      | None => m end in
    Returns (with_mm m w) (notifyParticipation c (participants g) gid [])
      (Some (extSuccess req (WriteStructure s (session g)))) None.

(** The struct version byte and the substream length, then the gathering id. *)
Definition read_join_gid (body : bytes) : Z :=
  let '(sub, _) := (_v <-- StreamInOps.U8 ;; StreamInOps.Substream)%reader (NewStreamIn body) in
  (StreamInOps.U32 sub).1.

Definition joinSession (e : CallEnv) (c : Conn) (req : RMCMessage) (w : World) : Outcome :=
  let m := w_mm w in
  let pid := PID (cobj c) in
  let gid := read_join_gid (Body req) in
  match gatherings m !! gid with
  | None => answer w (extError req ResultRendezVousSessionVoid)
  | Some g =>
      let existing := len (participants g) in
      let finish (joined : bool) g :=
        let g := sync_count g in
        let result := if JoinRespExistingCount (cfg m) && joined
                      then set_NumParticipants (u32 existing) (session g) else session g in
        Returns (with_mm (put_gathering gid g m) w)
          (if joined then notifyParticipation c (participants g) gid [] else [])
          (Some (extSuccess req (WriteStructure s result))) None in
      if containsPID (participants g) pid then finish false g
      else
        let '(reserved, g) := reserveJoinLocked (reservationTTL m) (t_reserve e) g pid in
        if negb reserved
        then answer (with_mm (put_gathering gid g m) w) (extError req ResultRendezVousSessionFull)
        else let '(joined, g) := commitReservedJoinLocked (t_commit e) g pid in finish joined g
  end.

(** ** Lookups *)
Definition read_gid (body : bytes) : Z := (StreamInOps.U32 (NewStreamIn body)).1.

Definition findBySingleID (req : RMCMessage) (w : World) : Outcome :=
  match gatherings (w_mm w) !! read_gid (Body req) with
  | None => answer w (extError req ResultRendezVousSessionVoid)
  | Some g => answer w (extSuccess req (WriteStructure s (set_secrets [] [] (session g))))
  end.

(** [u32 count] and the sessions. *)
Definition session_list (l : list MatchmakeSession) : bytes :=
  StreamOut.U32 (u32 (len l)) ++ concat (WriteStructure s <$> l).

Definition findByGidList (req : RMCMessage) (w : World) : Outcome :=
  let '(gids, _) := StreamInOps.ReadList StreamInOps.U32 (NewStreamIn (Body req)) in
  let sessions := omap (fun gid => (fun g => set_secrets [] [] (session g)) <$>
                                   gatherings (w_mm w) !! gid) gids in
  answer w (extSuccess req (session_list sessions)).

Definition browse_visible (wantCode : gostring) (g : gathering) : bool :=
  OpenParticipation (session g) &&
  (if bool_decide (wantCode <> [])
   then bool_decide (Codeword (session g) = wantCode) || bool_decide (code g = wantCode)
   else negb (UserPasswordEnabled (session g))).

Definition browse_result (wantCode : gostring) (g : gathering) : MatchmakeSession :=
  set_secrets (if bool_decide (wantCode = []) then [] else SessionKey (session g)) [] (session g).

Definition browse_code (body : bytes) : gostring :=
  if bool_decide (0 < len body) then
    let '(criteria, st) := ReadStructure s zero_Criteria (NewStreamIn body) in
    if si_err st then [] else cr_Codeword criteria
  else [].

Definition browseNoHolder (req : RMCMessage) (w : World) : Outcome :=
  let wantCode := browse_code (Body req) in
  let visible := filter (fun g => browse_visible wantCode g = true)
                   (range (gatherings (w_mm w))).*2 in
  answer w (extSuccess req (session_list (browse_result wantCode <$> visible))).

Definition findBySingleID15 (req : RMCMessage) (w : World) : Outcome :=
  answer w (NewRMCSuccess ProtocolMatchMaking (Method req) (CallID req)
    match gatherings (w_mm w) !! read_gid (Body req) with
    | None => StreamOut.Bool false
    | Some g => StreamOut.Bool true ++ WriteStructure s (session g)
    end).

(** For each asked PID, the first gathering of the iteration that lists it. *)
Definition playing_of (m : MMStore) (self : Z) (includeSelf : bool) (pid : Z)
    : option SimplePlayingSession :=
  if bool_decide (pid = self) && negb includeSelf then None
  else match List.find (fun kv => containsPID (participants kv.2) pid) (range (gatherings m)) with
       | None => None
       | Some (gid, g) =>
           Some (mkPlaying pid gid (GameMode (session g))
                   (match Attribs (session g) with a :: _ => a | [] => 0 end))
       end.

Definition playingSession (c : Conn) (req : RMCMessage) (w : World) : Outcome :=
  let '((pids, includeSelf), _) :=
    (l <-- StreamInOps.ReadList (StreamInOps.PID s) ;;
     b <-- StreamInOps.Bool ;; rret (l, b))%reader (NewStreamIn (Body req)) in
  let sessions := omap (playing_of (w_mm w) (PID (cobj c)) includeSelf) pids in
  answer w (extSuccess req (StreamOut.WriteList sessions (WriteStructure s))).

(** [sessionOfParticipant]: the most recently started session [pid] takes part in. *)
Definition newer_session (pid : Z) (best : option gathering) (kv : Z * gathering)
    : option gathering :=
  if containsPID (participants kv.2) pid then
    match best with
    | None => Some kv.2
    | Some b => if bool_decide (StartedTime (session b) < StartedTime (session kv.2))
                then Some kv.2 else best
    end
  else best.
Definition sessionOfParticipant (m : MMStore) (pid : Z) : option gathering :=
  foldl (newer_session pid) None (range (gatherings m)).

Definition findByParticipant (req : RMCMessage) (w : World) : Outcome :=
  let '(param, _) := ReadStructure s zero_FindParam (NewStreamIn (Body req)) in
  let results := omap (fun pid => (fun g =>
      mkFindResult pid (set_secrets (SessionKey (session g)) [] (session g))) <$>
      sessionOfParticipant (w_mm w) pid) (PrincipalIDs param) in
  answer w (extSuccess req (StreamOut.U32 (u32 (len results)) ++
                            concat (WriteStructure s <$> results))).

(** ** Private rooms *)
Definition privateRoomCreate (req : RMCMessage) (w : World) : Outcome :=
  let '(code, m) := makeCode (read_gid (Body req)) (w_mm w) in
  answer (with_mm m w) (extSuccess req
    (StreamOut.U8 0 ++ StreamOut.Buffer (StreamOut.GoString code ++ StreamOut.U64 0))).

Definition resolve_read (body : bytes) : gostring :=
  let code := (StreamInOps.GoString (NewStreamIn body)).1 in
  if bool_decide (len code <> 5) && bool_decide (5 < len body)
  then (StreamInOps.GoString (NewStreamIn (zdrop 5 body))).1 else code.

Definition resolveCode (req : RMCMessage) (w : World) : Outcome :=
  answer w (extSuccess req
    (StreamOut.U32 (default 0 (byCode (w_mm w) !! resolve_read (Body req))))).

(** ** The host's updates *)
Definition setParticipation (req : RMCMessage) (open : bool) (w : World) : Outcome :=
  let gid := read_gid (Body req) in
  let m := match gatherings (w_mm w) !! gid with
    | Some g => put_gathering gid
        (with_session (set_OpenParticipation open (session g)) g) (w_mm w)
    | None => w_mm w end in
  answer (with_mm m w) (extSuccess req []).

(** [g.participants[0]], 0 for an empty list. *)
Definition owner_of (g : gathering) : Z :=
  match participants g with p :: _ => p | [] => 0 end.

Definition updateApplicationBuffer (c : Conn) (req : RMCMessage) (w : World) : Outcome :=
  let '((gid, buf), _) :=
    (gid <-- StreamInOps.U32 ;; b <-- StreamInOps.Buffer ;; rret (gid, b))%reader
      (NewStreamIn (Body req)) in
  match gatherings (w_mm w) !! gid with
  | None => answer w (extError req ResultRendezVousSessionVoid)
  | Some g =>
      if bool_decide (owner_of g = PID (cobj c)) then
        answer (with_mm (put_gathering gid
                  (with_session (set_ApplicationData buf (session g)) g) (w_mm w)) w)
          (extSuccess req [])
      else answer w (extError req ResultCoreAccessDenied)
  end.

(** [for uint32(len(l)) <= idx { l = append(l, 0) }]; [None]: more turns needed. *)
Fixpoint grow_attribs (fuel : nat) (idx : Z) (l : list Z) : option (list Z) :=
  if bool_decide (u32 (len l) <= idx) then
    match fuel with O => None | S fuel => grow_attribs fuel idx (l ++ [0]) end
  else Some l.

(** Enough turns whenever the loop ends: it needs [idx + 1 - len l]. *)
Definition grow_fuel (idx : Z) (l : list Z) : nat := Z.to_nat (idx + 1 - len l).

Definition modifyCurrentGameAttribute (c : Conn) (req : RMCMessage) (w : World) : Outcome :=
  let '((gid, idx, v), _) :=
    (gid <-- StreamInOps.U32 ;; i <-- StreamInOps.U32 ;; v <-- StreamInOps.U32 ;;
     rret (gid, i, v))%reader (NewStreamIn (Body req)) in
  match gatherings (w_mm w) !! gid with
  | Some g =>
      if bool_decide (participants g <> []) && bool_decide (owner_of g = PID (cobj c)) then
        match grow_attribs (grow_fuel idx (Attribs (session g))) idx (Attribs (session g)) with
        | None => Hangs
        | Some l =>
            answer (with_mm (put_gathering gid (with_session
              (set_Attribs (<[Z.to_nat idx := v]> l) (session g)) g) (w_mm w)) w) (extSuccess req [])
        end
      else answer w (extSuccess req [])
  | None => answer w (extSuccess req [])
  end.

(** [applySessionPart]; [false] for an unknown gathering. *)
Definition applySessionPart (p : UpdateMatchmakeSessionParam) (m : MMStore) : bool * MMStore :=
  match gatherings m !! up_GID p with
  | None => (false, m)
  | Some g =>
      let write_code := bool_decide (Z.land (ModificationFlags p) modFlagCodeword <> 0) ||
                        bool_decide (up_Codeword p <> []) in
      let ss := session g in
      let ss := if write_code then set_Codeword (up_Codeword p) ss else ss in
      let ss := if bool_decide (0 < len (Attributes p)) then set_Attribs (Attributes p) ss else ss in
      let ss := if bool_decide (0 < len (ApplicationBuffer p))
                then set_ApplicationData (ApplicationBuffer p) ss else ss in
      let ss := if bool_decide (up_GameMode p <> 0) then set_GameMode (up_GameMode p) ss else ss in
      let ss := if bool_decide (up_MaxParticipants p <> 0)
                then set_MaxParticipants (up_MaxParticipants p) ss else ss in
      let ss := if bool_decide (Z.land (ModificationFlags p) modFlagOpenParticipation <> 0)
                then set_OpenParticipation (up_OpenParticipation p) ss else ss in
      let g := with_session ss g in
      let g := if write_code then with_code (up_Codeword p) g else g in
      (true, mkStore (cfg m) (notif m) (<[up_GID p := g]> (gatherings m))
         (if write_code && bool_decide (up_Codeword p <> [])
          then <[up_Codeword p := up_GID p]> (byCode m) else byCode m)
         (nextGID m) (codeRand m) (reservationTTL m))
  end.

Definition updateSessionPart (req : RMCMessage) (w : World) : Outcome :=
  if SessionPartPersists (cfg (w_mm w)) then
    let '(p, st) := ReadStructure s zero_Update (NewStreamIn (Body req)) in
    if si_err st then answer w (extSuccess req [])
    else answer (with_mm (applySessionPart p (w_mm w)).2 w) (extSuccess req [])
  else answer w (extSuccess req []).

(** ** Notification data *)
Definition thousand (t : Z) : Z := u32 (t * 1000).
Definition presence (ev : NotificationEvent) : NotificationEvent :=
  mkEvent (PIDSource ev) (thousand (EvType ev)) (Param1 ev) (Param2 ev) (StrParam ev) 0.

Definition pushNotifDataToFriends (m : MMStore) (c : Conn) (ev : NotificationEvent)
    : list (Z * NotificationEvent) :=
  match FriendPIDs (cfg m) with
  | None => []
  | Some f => omap (fun friend => (fun t => (fst t, presence ev)) <$>
                                  FindConnectionByPID ep friend) (f (PID (cobj c)))
  end.

Definition updateNotificationData (c : Conn) (req : RMCMessage) (w : World) : Outcome :=
  let '((typ, p1, p2, sp), st) :=
    (typ <-- StreamInOps.U32 ;; p1 <-- StreamInOps.PID s ;; p2 <-- StreamInOps.PID s ;;
     sp <-- StreamInOps.GoString ;; rret (typ, p1, p2, sp))%reader (NewStreamIn (Body req)) in
  if si_err st then answer w (extError req ResultCoreInvalidArgument)
  else
    let ev := mkEvent (PID (cobj c)) typ p1 p2 sp 0 in
    let m := with_notif (NotifStore.put (notif (w_mm w)) (PID (cobj c)) typ ev) (w_mm w) in
    Returns (with_mm m w) (pushNotifDataToFriends m c ev) (Some (extSuccess req [])) None.

(** Published by friends, door open ([Param2] not 0). *)
Definition PublishNotification (pid typ : Z) (ev : option NotificationEvent) (m : MMStore) : MMStore :=
  match ev with Some ev => with_notif (NotifStore.put (notif m) pid typ ev) m | None => m end.

Definition friendNotificationsFor (m : MMStore) (pid : Z) (types : list Z)
    : list NotificationEvent :=
  match FriendPIDs (cfg m) with
  | None => []
  | Some f => concat ((fun friend => omap (fun typ =>
      match NotifStore.get (notif m) friend typ with
      | Some ev => if bool_decide (Param2 ev = 0) then None else Some ev
      | None => None
      end) types) <$> f pid)
  end.

Definition getFriendNotificationData (c : Conn) (req : RMCMessage) (is_list : bool) (w : World)
    : Outcome :=
  let '(types, st) :=
    (if is_list then StreamInOps.ReadList StreamInOps.U32
     else (t <-- StreamInOps.S32 ;; rret [u32 t]))%reader (NewStreamIn (Body req)) in
  if si_err st then answer w (extError req ResultCoreInvalidArgument)
  else
    let events := friendNotificationsFor (w_mm w) (PID (cobj c)) types in
    Returns w ((fun ev => (cref c, presence ev)) <$> events)
      (Some (extSuccess req (StreamOut.U32 (u32 (len events)) ++
                             concat (WriteStructure s <$> events)))) None.

(** ** MatchMaking and MatchMakingExt *)
Definition sessionURLsResponse (req : RMCMessage) (urls : list StationURL) : RMCMessage :=
  NewRMCSuccess ProtocolMatchMaking (Method req) (CallID req)
    (StreamOut.WriteList urls write_StationURL).

Definition getSessionURLs (e : HEnv) (req : RMCMessage) (w : World) : Outcome :=
  let host := match gatherings (w_mm w) !! read_gid (Body req) with
    | Some g => FindConnectionByID ep (hostConnID g)
    | None => None end in
  match host ≫= fun ref => (fun c => (ref, c)) <$> heap ep !! ref with
  | None => answer w (sessionURLsResponse req [])
  | Some (ref, hostc) =>
      let '(urls, status, k) :=
        natBridgeStations (fun ip => natPortForIP (he_now e) (he_now' e) (he_natfile e) ip)
          (stationURLs hostc) (PublicStationFirst (cfg (w_mm w))) (w_nat w) in
      if bool_decide (status <> bridgeNoRVCID)
      then answer (with_nat k w) (sessionURLsResponse req urls)
      else Returns (with_nat k w) [] None (Some ref)
  end.

Definition migrateGatheringOwnership (c : Conn) (req : RMCMessage) (w : World) : Outcome :=
  let '((gid, candidates), _) :=
    (gid <-- StreamInOps.U32 ;; l <-- StreamInOps.ReadList (StreamInOps.PID s) ;;
     rret (gid, l))%reader (NewStreamIn (Body req)) in
  let resp := NewRMCSuccess ProtocolMatchMaking (Method req) (CallID req) [] in
  match gatherings (w_mm w) !! gid with
  | Some g =>
      if bool_decide (participants g <> []) then
        let ps := migrate candidates (participants g) in
        Returns (with_mm (put_gathering gid (with_participants ps g) (w_mm w)) w)
          (notifyParticipation c ps gid []) (Some resp) None
      else answer w resp
  | None => answer w resp
  end.

(** Reads its arguments and reports the ownership as settled. *)
Definition updateGatheringOwnership (req : RMCMessage) (w : World) : Outcome :=
  answer w (boolResponse ProtocolMatchMaking req true).

(** ** Dispatch *)
Definition isTournamentIDList (body : bytes) : bool :=
  if bool_decide (len body < 8) || bool_decide (len body mod 4 <> 0) then false
  else let n := le_val (ztake 4 body) in
       bool_decide (0 < n) && bool_decide (n <= 4096) && bool_decide (n * 4 + 4 = len body).

Definition ExtensionHandler (e : HEnv) (c : Conn) (req : RMCMessage) (w : World) : Outcome :=
  let method := Method req in
  let meth k := bool_decide (method = k) in
  if meth MethodCloseParticipation || meth MethodOpenParticipation
  then setParticipation req (meth MethodOpenParticipation) w
  else if meth MethodAutoMatchmakeWithParamPostpone then autoMatchmake (he_call e) c req w
  else if meth MethodCreateMatchmakeSessionWithParam then createSession (he_call e) c req w
  else if meth MethodJoinMatchmakeSessionWithParam then joinSession (he_call e) c req w
  else if meth MethodFindMatchmakeSessionBySingleID then findBySingleID req w
  else if meth MethodCustomPrivateRoomCreate then privateRoomCreate req w
  else if meth MethodCustomResolveCode then resolveCode req w
  else if meth MethodCustomPlayingSession then playingSession c req w
  else if meth MethodFindByParticipant then
    if FindByParticipantEnabled (cfg (w_mm w)) then findByParticipant req w
    else answer w (emptyList ProtocolMatchmakeExtension req)
  else if meth MethodCustomFriendsQuery then answer w (emptyList ProtocolMatchmakeExtension req)
  else if meth MethodUpdateNotificationData then updateNotificationData c req w
  else if meth MethodGetFriendNotificationData then getFriendNotificationData c req false w
  else if meth MethodGetFriendNotificationDataList then getFriendNotificationData c req true w
  else if meth MethodUpdateMatchmakeSessionPart then updateSessionPart req w
  else if meth MethodUpdateApplicationBuffer then updateApplicationBuffer c req w
  else if meth MethodModifyCurrentGameAttribute then modifyCurrentGameAttribute c req w
  else if meth MethodSSBUArenaCode then privateRoomCreate req w
  else if meth MethodSSBUArenaResolve then resolveCode req w
  else if meth MethodFindByGidList then findByGidList req w
  else if meth MethodBrowseNoHolder then browseNoHolder req w
  else if meth MethodSSBUPreMatch then
    if isTournamentIDList (Body req) then answer w (tournamentsByIDs req (w_ts w))
    else answer w (extSuccess req (StreamOut.U32 2))
  else if meth MethodTournamentSearch then answer w (searchTournaments req (w_ts w))
  else if meth MethodTournamentCreate then
    let '(r, t) := createTournament (he_tour e) (PID (cobj c)) req (w_ts w) in
    answer (with_ts t w) r
  else if meth MethodTournamentDelete then
    let '(r, t) := removeTournament (PID (cobj c)) req (w_ts w) in answer (with_ts t w) r
  else if meth MethodTournamentJoin then
    let '(r, t) := registerTournament (PID (cobj c)) req (w_ts w) in answer (with_ts t w) r
  else if meth MethodUpdateProgressScore then answer w (extSuccess req [])
  else answer w (notImplemented ProtocolMatchmakeExtension req).

Definition MatchMakingHandler (e : HEnv) (c : Conn) (req : RMCMessage) (w : World) : Outcome :=
  let meth k := bool_decide (Method req = k) in
  let ok := NewRMCSuccess ProtocolMatchMaking (Method req) (CallID req) [] in
  if meth MethodGetSessionURLs then getSessionURLs e req w
  else if meth MethodUnregisterGathering then
    answer (with_mm (unregisterLocked (read_gid (Body req)) (PID (cobj c)) (w_mm w)) w)
      (boolResponse ProtocolMatchMaking req true)
  else if meth MethodUpdateSessionURL then answer w (boolResponse ProtocolMatchMaking req true)
  else if meth MethodUpdateSessionHost || meth MethodUpdateSessionHostV1 then answer w ok
  else if meth MethodMigrateGatheringOwnership || meth MethodMigrateGatheringOwnershipV1
  then migrateGatheringOwnership c req w
  else if meth MethodUpdateGatheringOwnership then updateGatheringOwnership req w
  else if meth MethodFindBySingleID15 then findBySingleID15 req w
  else answer w (notImplemented ProtocolMatchMaking req).

Definition MatchMakingExtHandler (c : Conn) (req : RMCMessage) (w : World) : Outcome :=
  if bool_decide (Method req = MethodEndParticipation) then
    answer (with_mm (endParticipationLocked (read_gid (Body req)) (PID (cobj c)) (w_mm w)) w)
      (boolResponse ProtocolMatchMakingExt req true)
  else answer w (notImplemented ProtocolMatchMakingExt req).

(** ** The deferred answer to GetSessionURLs *)
Definition hostReplaceURLWait : Z := 2500 * 10 ^ 6.
Definition hostReplaceURLPoll : Z := 100 * 10 ^ 6.

(** The polling loop of [answerSessionURLsWhenHostIsReady].  [clock i] is the [i]-th
    reading of the loop condition, [stations i] and [nat i] what the [i]-th poll sees;
    [None]: more turns needed. *)
Fixpoint answerWhenReady (fuel : nat) (deadline : Z) (clock : nat -> Z)
    (stations : nat -> list StationURL)
    (bridge : nat -> list StationURL -> list StationURL * bridgeStatus) (i : nat)
    (req : RMCMessage) : option RMCMessage :=
  if bool_decide (clock i < deadline) then
    match fuel with
    | O => None
    | S fuel =>
        let '(urls, status) := bridge i (stations i) in
        if bool_decide (status = bridgeOK) then Some (sessionURLsResponse req urls)
        else answerWhenReady fuel deadline clock stations bridge (S i) req
    end
  else Some (sessionURLsResponse req (stations i)).
End Handlers.
