(* ===== verification/HandlerInv.v ===== *)
(** * The handlers keep the store's invariant

    Every RMC request, disconnection and reservation call is a step of the world; the
    invariant of StoreInv.v holds in every state reachable from the initial one. *)

From S2P Require Import Prelude GoStd GoNet Settings Stream Types StationURL Rmc Matchmaking.
From S2P Require Import Reservations Notification Connection Stations Store StoreInv.
From S2P Require Import AcnhStructs Tournament Handlers.
Import GoStrings GoStrconv.

Definition outcome_inv (o : Outcome) : Prop :=
  match o with Returns w _ _ _ => store_inv (w_mm w) | Hangs => True end.

Section HandlerInv.
Context `{GoRange} (s : Settings) (pe : ProcEnv) (ep : Registry).

Lemma answer_inv w r : store_inv (w_mm w) -> outcome_inv (answer w r).
Proof using Type. done. Qed.

Lemma autoMatchmake_inv e c req w :
  store_inv (w_mm w) -> nextGID (w_mm w) < 2 ^ 32 - 1 ->
  outcome_inv (autoMatchmake s pe ep e c req w).
Proof using Type.
  intros Hm Hlt. unfold autoMatchmake. destruct (read_auto _ _) as [param st].
  destruct (si_err st); [done|].
  pose proof (auto_locked_spec pe ep e (caller c) (NATBehaviour (cobj c)) (am_Session param)
    (w_mm w) Hm Hlt) as Hs.
  destruct (autoMatchmakeLocked _ _ _ _ _ _ _) as [[g j] m]. apply Hs.
Qed.

Lemma createSession_inv e c req w :
  store_inv (w_mm w) -> nextGID (w_mm w) < 2 ^ 32 - 1 ->
  outcome_inv (createSession s pe ep e c req w).
Proof using Type.
  intros Hm Hlt. unfold createSession. destruct (read_auto _ _) as [param st].
  destruct (si_err st); [done|].
  pose proof (create_inv (openParticipationDefault (NEXTENDO_OPEN_PARTICIPATION pe)) e (caller c)
    (am_Session param) (w_mm w) Hm Hlt) as Hs.
  destruct (createGathering _ _ _ _ _) as [g m]. cbn in Hs |- *.
  case_match; [by apply with_notif_inv|done].
Qed.

Lemma joinSession_inv e c req w :
  store_inv (w_mm w) -> outcome_inv (joinSession s ep e c req w).
Proof using Type.
  intros Hm. unfold joinSession. destruct (gatherings (w_mm w) !! _) as [g|] eqn:Hg; [|done].
  destruct (containsPID _ _).
  - apply (put_existing_inv _ _ g); [done|done|].
    destruct (lookup_ok _ _ _ Hm Hg) as (Hc & _ & Hcap). by apply sync_ok.
  - destruct (reserveJoinLocked _ _ _ _) as [reserved g1] eqn:Hr.
    pose proof (refused_inv e (caller c) (w_mm w) _ g g1 reserved Hm Hg Hr) as Href.
    destruct reserved; cbn [negb]; [|done].
    destruct (commitReservedJoinLocked _ _ _) as [joined g2] eqn:Hc.
    apply (take_seat_spec e (caller c) (w_mm w) _ g g1 g2 joined Hm Hg Hr Hc).
Qed.

Lemma setParticipation_inv req open w :
  store_inv (w_mm w) -> outcome_inv (setParticipation req open w).
Proof using Type.
  intros Hm. unfold setParticipation. apply answer_inv. cbn.
  destruct (gatherings (w_mm w) !! _) as [g|] eqn:Hg; [|done]. by apply session_inv.
Qed.

Lemma updateApplicationBuffer_inv c req w :
  store_inv (w_mm w) -> outcome_inv (updateApplicationBuffer c req w).
Proof using Type.
  intros Hm. unfold updateApplicationBuffer. destruct (rbind _ _ _) as [[gid buf] st].
  destruct (gatherings (w_mm w) !! gid) as [g|] eqn:Hg; [|done].
  case_bool_decide; [|done]. by apply (session_inv gid g).
Qed.

Lemma modifyAttribute_inv c req w :
  store_inv (w_mm w) -> outcome_inv (modifyCurrentGameAttribute c req w).
Proof using Type.
  intros Hm. unfold modifyCurrentGameAttribute. destruct (rbind _ _ _) as [[[gid idx] v] st].
  destruct (gatherings (w_mm w) !! gid) as [g|] eqn:Hg; [|done].
  destruct (_ && _); [|done]. destruct (grow_attribs _ _ _); [|done].
  by apply (session_inv gid g).
Qed.

Lemma applySessionPart_inv p m :
  SessionPartPersists (cfg m) = true -> store_inv m -> store_inv (applySessionPart p m).2.
Proof using Type.
  intros Hpers Hm. unfold applySessionPart. destruct (gatherings m !! up_GID p) as [g|] eqn:Hg; [|done].
  set (ss := if bool_decide (Z.land _ modFlagOpenParticipation <> 0) then _ else _).
  destruct (lookup_ok m _ g Hm Hg) as ([Hid Hs Hp] & Hct & _).
  assert (ms_ID ss = ms_ID (session g) /\ NumParticipants ss = NumParticipants (session g)) as [E1 E2].
  { subst ss. repeat case_match; done. }
  clearbody ss. set (g' := if _ || _ then _ else _).
  assert (lobby_ok (cfg m) (up_GID p) g') as Hok.
  { subst g'. case_match; (split_and!; [split; cbn; [by rewrite E1|done|done]|
      unfold count_ok; cbn; by rewrite E2|congruence]). }
  destruct (put_existing_inv m (up_GID p) g g' Hm Hg Hok) as [? ? ? ?]. by split.
Qed.

Lemma updateSessionPart_inv req w : store_inv (w_mm w) -> outcome_inv (updateSessionPart s req w).
Proof using Type.
  intros Hm. unfold updateSessionPart. destruct (SessionPartPersists _) eqn:Hp; [|done].
  destruct (ReadStructure _ _ _) as [p st]. destruct (si_err st); [done|].
  by apply applySessionPart_inv.
Qed.

Lemma migrate_handler_inv c req w :
  store_inv (w_mm w) -> outcome_inv (migrateGatheringOwnership s ep c req w).
Proof using Type.
  intros Hm. unfold migrateGatheringOwnership. destruct (rbind _ _ _) as [[gid cs] st].
  destruct (gatherings (w_mm w) !! gid) as [g|] eqn:Hg; [|done].
  case_bool_decide; [|done]. by apply migrate_inv.
Qed.

Lemma notif_handler_inv c req w :
  store_inv (w_mm w) -> outcome_inv (updateNotificationData s ep c req w).
Proof using Type.
  intros Hm. unfold updateNotificationData. destruct (rbind _ _ _) as [[[[t p1] p2] sp] st].
  destruct (si_err st); [done|]. by apply with_notif_inv.
Qed.

Lemma privateRoom_inv req w : store_inv (w_mm w) -> outcome_inv (privateRoomCreate req w).
Proof using Type.
  intros Hm. unfold privateRoomCreate. pose proof (make_code_inv (read_gid (Body req)) (w_mm w) Hm).
  by destruct (makeCode _ _).
Qed.

(** The read-only handlers return the store they were given. *)
Lemma lookup_handlers_inv c req w :
  store_inv (w_mm w) ->
  outcome_inv (findBySingleID s req w) /\ outcome_inv (findByGidList s req w) /\
  outcome_inv (browseNoHolder s req w) /\ outcome_inv (playingSession s c req w) /\
  outcome_inv (findByParticipant s req w) /\
  (forall b, outcome_inv (getFriendNotificationData s c req b w)).
Proof using Type.
  intros Hm. unfold findBySingleID, findByGidList, browseNoHolder, playingSession,
    findByParticipant, getFriendNotificationData.
  split_and!; [by case_match|by case_match|done|repeat case_match; done|by case_match|].
  intros b. repeat case_match; done.
Qed.

Lemma extension_inv e c req w :
  store_inv (w_mm w) -> nextGID (w_mm w) < 2 ^ 32 - 1 ->
  outcome_inv (ExtensionHandler s pe ep e c req w).
Proof using Type.
  intros Hm Hlt. destruct (lookup_handlers_inv c req w Hm) as (L1 & L2 & L3 & L4 & L5 & L6).
  unfold ExtensionHandler. cbv zeta.
  repeat (case_match; try solve [auto using setParticipation_inv, autoMatchmake_inv,
    createSession_inv, joinSession_inv, privateRoom_inv, notif_handler_inv, updateSessionPart_inv,
    updateApplicationBuffer_inv, modifyAttribute_inv, answer_inv]).
Qed.

Lemma matchmaking_inv e c req w :
  store_inv (w_mm w) -> outcome_inv (MatchMakingHandler s ep e c req w).
Proof using Type.
  intros Hm. unfold MatchMakingHandler. cbv zeta.
  case_match; [unfold getSessionURLs; repeat case_match; done|].
  case_match; [by apply unregister_inv|].
  repeat (case_match; try solve [auto using answer_inv, migrate_handler_inv]).
Qed.

Lemma matchmaking_ext_inv c req w :
  store_inv (w_mm w) -> outcome_inv (MatchMakingExtHandler c req w).
Proof using Type.
  intros Hm. unfold MatchMakingExtHandler. case_match; [|done]. by apply end_participation_inv.
Qed.
End HandlerInv.
