(* ===== verification/HandlerProps.v ===== *)
(** * Properties of the matchmaking service

    Reachable states, the outcome of the join paths, what lookups reveal, who may
    change what, and the corner cases. *)

From S2P Require Import Prelude GoStd GoNet Settings Stream Types StationURL Rmc Matchmaking.
From S2P Require Import Reservations Notification Connection Stations Store StoreInv.
From S2P Require Import AcnhStructs Tournament Handlers HandlerInv.
Import GoStrings GoStrconv.

(** ** Reachable worlds *)

(** One critical section after another: an RMC request of any connection, a
    disconnection, or a call of the reservation interface.  The side condition says
    that the 32-bit gathering counter has not wrapped. *)
Inductive world_step `{GoRange} (s : Settings) (pe : ProcEnv) : World -> World -> Prop :=
  | ws_extension ep e c req w w' ps r wt :
      nextGID (w_mm w) < 2 ^ 32 - 1 ->
      ExtensionHandler s pe ep e c req w = Returns w' ps r wt -> world_step s pe w w'
  | ws_matchmaking ep e c req w w' ps r wt :
      MatchMakingHandler s ep e c req w = Returns w' ps r wt -> world_step s pe w w'
  | ws_matchmaking_ext c req w w' ps r wt :
      MatchMakingExtHandler c req w = Returns w' ps r wt -> world_step s pe w w'
  | ws_disconnect pid w : world_step s pe w (with_mm (RemovePlayer pid (w_mm w)) w)
  | ws_reserve now gid pid w :
      world_step s pe w (with_mm (ReserveJoin now gid pid (w_mm w)).2 w)
  | ws_cancel gid pid w : world_step s pe w (with_mm (CancelJoinReservation gid pid (w_mm w)) w)
  | ws_nat k w : world_step s pe w (with_nat k w).

(** The server's start: an empty store with the configured reservation time. *)
Definition initial_world (c : Config) (ttl : Z) (ts : tournamentStore) : World :=
  mkWorld (set_TTL ttl (NewMatchmaking c)) ts empty_NatCache.

Lemma initial_inv c ttl ts : store_inv (w_mm (initial_world c ttl ts)).
Proof.
  apply set_ttl_inv. split; cbn; [apply map_Forall_empty| |done|done].
  intros gid. rewrite lookup_empty. by intros [? ?].
Qed.

Lemma world_step_inv `{GoRange} s pe w w' :
  world_step s pe w w' -> store_inv (w_mm w) -> store_inv (w_mm w').
Proof.
  intros Hs Hm. destruct Hs as [ep e c req w w' ps r wt Hlt Ho|ep e c req w w' ps r wt Ho|
    c req w w' ps r wt Ho|pid w|now gid pid w|gid pid w|k w].
  - pose proof (extension_inv s pe ep e c req w Hm Hlt) as Hi. by rewrite Ho in Hi.
  - pose proof (matchmaking_inv s ep e c req w Hm) as Hi. by rewrite Ho in Hi.
  - pose proof (matchmaking_ext_inv c req w Hm) as Hi. by rewrite Ho in Hi.
  - by apply remove_player_inv.
  - by apply reserve_join_inv.
  - by apply cancel_join_inv.
  - done.
Qed.

Lemma reachable_inv `{GoRange} s pe w0 w :
  rtc (world_step s pe) w0 w -> store_inv (w_mm w0) -> store_inv (w_mm w).
Proof. induction 1; eauto using world_step_inv. Qed.

(** [C11] In every reachable state, whatever requests, disconnections and reservation
    calls led there: each gathering is stored under its own id, has a member, lists
    nobody twice, holds no reservation for a member, and advertises exactly the
    number of its members. *)
Theorem reachable_gatherings_consistent `{GoRange} s pe c ttl ts w gid g :
  rtc (world_step s pe) (initial_world c ttl ts) w ->
  gatherings (w_mm w) !! gid = Some g ->
  ms_ID (session g) = gid /\ participants g <> [] /\ NoDup (participants g) /\
  (forall pid, pid ∈ participants g -> reservations g !! pid = None) /\
  NumParticipants (session g) = u32 (len (participants g)) /\ 0 < gid < nextGID (w_mm w).
Proof.
  intros Hr Hg. pose proof (reachable_inv s pe _ _ Hr (initial_inv c ttl ts)) as Hm.
  destruct (lookup_ok _ _ _ Hm Hg) as ([Hid [Hnd Hres] Hne] & Hct & _).
  split_and!; try done; apply Hm; eauto.
Qed.

(** ** Sample run used by the witnesses: one player opens a lobby *)
Definition ex_env : ProcEnv := mkProcEnv [] [].
Definition ex_henv : HEnv := mkHEnv (mkCallEnv 0 0 0 [1; 2; 3] 7) (mkTEnv [] [] 0) 0 0 None.
Definition ex_conn (pid id : Z) : Conn := mkConn id (set_ID id (set_login pid 0 [] (NewConnection []))).
Definition ex_registry : Registry := empty_registry.
Definition ex_session (mode : Z) (open : bool) (max : Z) : MatchmakeSession :=
  set_OpenParticipation open (set_GameMode mode
    (with_Gathering (mkGathering 0 0 0 2 max 0 0 0 0 []) zero_Session)).
Definition ex_request (method : Z) (m : MatchmakeSession) : RMCMessage :=
  NewRMCRequest ProtocolMatchmakeExtension method 1
    (WriteStructure (H := AutoMatchmakeParam_Structure (H := canonical_range)) mk8_settings (mkAutoParam m)).
Definition ex_world0 : World := initial_world default_Config 0 empty_tournaments.
Definition world_of (o : Outcome) (w : World) : World :=
  match o with Returns w' _ _ _ => w' | Hangs => w end.
Definition ex_auto_request : RMCMessage :=
  ex_request MethodAutoMatchmakeWithParamPostpone (ex_session 2 true 2).
Local Notation ex_auto pid w :=
  (ExtensionHandler (H := canonical_range) mk8_settings ex_env ex_registry ex_henv (ex_conn pid pid)
    ex_auto_request w) (only parsing).
Definition ex_world1 : World := world_of (ex_auto 11 ex_world0) ex_world0.
Definition ex_world2 : World := world_of (ex_auto 12 ex_world1) ex_world1.
Definition ex_g1 : gathering :=
  default (example_gathering 0) (gatherings (w_mm ex_world1) !! 1).

Definition returns (o : Outcome) : bool := match o with Returns _ _ _ _ => true | Hangs => false end.

Lemma ex_auto_step pid w :
  returns (ex_auto pid w) = true -> nextGID (w_mm w) < 2 ^ 32 - 1 ->
  world_step (H := canonical_range) mk8_settings ex_env w (world_of (ex_auto pid w) w).
Proof.
  intros Hr Hlt. destruct (ExtensionHandler _ _ _ _ _ _ _) as [w' ps r wt|] eqn:Ho; [|done].
  exact (ws_extension (H := canonical_range) _ _ _ _ _ _ _ _ _ _ _ Hlt Ho).
Qed.

Lemma ex_step1 : world_step (H := canonical_range) mk8_settings ex_env ex_world0 ex_world1.
Proof.
  assert (returns (ex_auto 11 ex_world0) = true) as H1 by (vm_compute; reflexivity).
  assert (nextGID (w_mm ex_world0) < 2 ^ 32 - 1) as H2 by (vm_compute; reflexivity).
  exact (ex_auto_step 11 ex_world0 H1 H2).
Qed.

(** Two callers of a two-seat lobby end up in it together. *)
Example ex_two_players :
  participants (default ex_g1 (gatherings (w_mm ex_world2) !! 1)) = [11; 12].
Proof. vm_compute. reflexivity. Qed.

Lemma reachable_gatherings_consistent_witness :
  gatherings (w_mm ex_world1) !! 1 = Some ex_g1 /\ NumParticipants (session ex_g1) = 1.
Proof.
  assert (gatherings (w_mm ex_world1) !! 1 = Some ex_g1) as Hg by (vm_compute; reflexivity).
  split; [exact Hg|].
  destruct (reachable_gatherings_consistent (H := canonical_range) mk8_settings ex_env default_Config 0
    empty_tournaments ex_world1 1 ex_g1 (rtc_once _ _ ex_step1) Hg) as (_ & _ & _ & _ & Hn & _).
  rewrite Hn. vm_compute. reflexivity.
Defined.

(** [C12] Where the title does not persist partial session updates, no reachable
    gathering is overbooked: members and pending reservations together stay within
    the session's limit. *)
Theorem reachable_never_overbooked `{GoRange} s pe c ttl ts w gid g :
  rtc (world_step s pe) (initial_world c ttl ts) w ->
  SessionPartPersists (cfg (w_mm w)) = false ->
  gatherings (w_mm w) !! gid = Some g ->
  MaxParticipants (session g) <> 0 /\
  (0 < MaxParticipants (session g) ->
   len (participants g) + Z.of_nat (size (reservations g)) <= MaxParticipants (session g)).
Proof.
  intros Hr Hp Hg. pose proof (reachable_inv s pe _ _ Hr (initial_inv c ttl ts)) as Hm.
  destruct (lookup_ok _ _ _ Hm Hg) as (_ & _ & Hcap). exact (Hcap Hp).
Qed.

Lemma reachable_never_overbooked_witness :
  SessionPartPersists (cfg (w_mm ex_world1)) = false /\ MaxParticipants (session ex_g1) <> 0.
Proof.
  assert (gatherings (w_mm ex_world1) !! 1 = Some ex_g1) as Hg by (vm_compute; reflexivity).
  assert (SessionPartPersists (cfg (w_mm ex_world1)) = false) as Hp by (vm_compute; reflexivity).
  split; [exact Hp|].
  exact (proj1 (reachable_never_overbooked (H := canonical_range) mk8_settings ex_env default_Config 0
    empty_tournaments ex_world1 1 ex_g1 (rtc_once _ _ ex_step1) Hp Hg)).
Defined.

(** ** Automatic matchmaking *)

Lemma auto_matchmake_seats `{GoRange} s pe ep e c req w param st :
  store_inv (w_mm w) -> nextGID (w_mm w) < 2 ^ 32 - 1 ->
  t_commit e < t_reserve e + reservationTTL (w_mm w) ->
  read_auto s (Body req) = (param, st) -> si_err st = false ->
  exists g joined w',
    autoMatchmake s pe ep e c req w =
      Returns w' (notifyParticipation ep c (participants g) (ms_ID (session g)) [])
        (Some (extSuccess req (WriteStructure s (session g)))) None /\
    gatherings (w_mm w') !! ms_ID (session g) = Some g /\ PID (cobj c) ∈ participants g /\
    auto_outcome pe ep e (caller c) (NATBehaviour (cobj c)) (am_Session param) (w_mm w) g joined.
Proof.
  intros Hm Hlt Ht Hread Herr. unfold autoMatchmake. rewrite Hread, Herr.
  pose proof (auto_locked_spec pe ep e (caller c) (NATBehaviour (cobj c)) (am_Session param)
    (w_mm w) Hm Hlt) as Hs.
  destruct (autoMatchmakeLocked _ _ _ _ _ _ _) as [[g joined] m]. destruct Hs as (_ & Hg & Ho).
  specialize (Ho Ht). eexists g, joined, _. split_and!; [reflexivity|done| |done].
  inversion Ho as [? ? Hp|g0 ? ? ? ? Hp|g0 ? ? ? ? Hp]; rewrite Hp; cbn; set_solver.
Qed.

(** [C13] A well-formed AutoMatchmake request always succeeds, provided the
    reservation it makes has not expired when it commits it a moment later: the
    caller is a member of the gathering whose session is returned, that gathering is
    in the store, and it is either a fresh one the caller owns or an open,
    passwordless one of the asked mode with a free seat whose members' NATs are all
    compatible with the caller's.  Its members are then notified. *)
Theorem auto_matchmake_outcome `{GoRange} s pe ep e c req w param st :
  store_inv (w_mm w) -> nextGID (w_mm w) < 2 ^ 32 - 1 ->
  t_commit e < t_reserve e + reservationTTL (w_mm w) ->
  read_auto s (Body req) = (param, st) -> si_err st = false ->
  exists g joined w',
    autoMatchmake s pe ep e c req w =
      Returns w' (notifyParticipation ep c (participants g) (ms_ID (session g)) [])
        (Some (extSuccess req (WriteStructure s (session g)))) None /\
    gatherings (w_mm w') !! ms_ID (session g) = Some g /\ PID (cobj c) ∈ participants g /\
    auto_outcome pe ep e (caller c) (NATBehaviour (cobj c)) (am_Session param) (w_mm w) g joined.
Proof. apply auto_matchmake_seats. Qed.

Lemma ex_reads : read_auto (H := canonical_range) mk8_settings (Body ex_auto_request) =
  (mkAutoParam (ex_session 2 true 2), NewStreamIn []).
Proof. vm_compute. reflexivity. Qed.

Lemma ex_world1_inv : store_inv (w_mm ex_world1).
Proof.
  apply (world_step_inv (H := canonical_range) mk8_settings ex_env ex_world0); [apply ex_step1|].
  apply initial_inv.
Qed.

Lemma auto_matchmake_outcome_witness :
  exists g joined, auto_outcome (H := canonical_range) ex_env ex_registry (he_call ex_henv)
    (caller (ex_conn 12 12)) (NATBehaviour (cobj (ex_conn 12 12))) (ex_session 2 true 2)
    (w_mm ex_world1) g joined.
Proof.
  destruct (auto_matchmake_outcome (H := canonical_range) mk8_settings ex_env ex_registry
    (he_call ex_henv) (ex_conn 12 12) ex_auto_request ex_world1 _ _ ex_world1_inv
    ltac:(vm_compute; reflexivity) ltac:(vm_compute; reflexivity) ex_reads eq_refl)
    as (g & joined & w' & _ & _ & _ & Ho). by exists g, joined.
Defined.

(** A PID listed in NEX_SOLO_PIDS never joins anybody: it gets a gathering of its
    own that starts with one player. *)
Theorem solo_player_alone `{GoRange} pe ep e c nat src m :
  isSoloPID (NEX_SOLO_PIDS pe) (c_pid c) = true ->
  let '(g, joined, m') := autoMatchmakeLocked pe ep e c nat src m in
  joined = false /\ participants g = [c_pid c] /\ MinParticipants (session g) = 1 /\
  ms_ID (session g) = nextGID m /\ OwnerPID (session g) = c_pid c.
Proof. intros Hs. unfold autoMatchmakeLocked. rewrite Hs. done. Qed.

Lemma solo_player_alone_witness :
  isSoloPID (str " 1800000042, x,7") 7 = true /\
  (autoMatchmakeLocked (H := canonical_range) (mkProcEnv (str " 1800000042, x,7") [])
    ex_registry (he_call ex_henv) (mkCaller 7 1) (0, 0) (ex_session 2 true 2) (w_mm ex_world1)).1.2 = false.
Proof.
  assert (isSoloPID (str " 1800000042, x,7") 7 = true) as Hs by (vm_compute; reflexivity).
  split; [exact Hs|].
  pose proof (solo_player_alone (H := canonical_range) (mkProcEnv (str " 1800000042, x,7") [])
    ex_registry (he_call ex_henv) (mkCaller 7 1) (0, 0) (ex_session 2 true 2) (w_mm ex_world1) Hs) as Ht.
  destruct (autoMatchmakeLocked _ _ _ _ _ _ _) as [[g j] m]. exact (proj1 Ht).
Defined.

(** ** NAT-aware placement *)
Lemma natCompatible_comm a b : natCompatible a b = natCompatible b a.
Proof. by destruct a, b. Qed.

Lemma gathering_nat_spec `{GoRange} ep j members pid :
  gatheringNATCompatible ep j members pid = true <->
  forall p, p ∈ members -> p <> pid -> natCompatible j (pidNATClass ep p) = true.
Proof.
  induction members as [|p members IH]; cbn; [split; [intros _ ? []%elem_of_nil|done]|].
  setoid_rewrite elem_of_cons. case_bool_decide; subst; [rewrite IH; naive_solver|].
  destruct (natCompatible j (pidNATClass ep p)) eqn:Hc; cbn; [rewrite IH; naive_solver|].
  split; [done|]. intros Hall. rewrite <- Hc. apply Hall; auto.
Qed.

(** Two peers are refused a common lobby exactly when one has a symmetric NAT and
    the other a symmetric or a restricted one; the relation does not depend on who
    joins whom, and a joiner is admitted only if it is compatible with every other
    member as their live connections report it. *)
Theorem nat_placement `{GoRange} ep joiner members pid :
  (forall a b, natCompatible a b = natCompatible b a) /\
  (forall a b, natCompatible a b = false <->
     (a = natStrict /\ (b = natStrict \/ b = natModerate)) \/
     (b = natStrict /\ (a = natStrict \/ a = natModerate))) /\
  (gatheringNATCompatible ep joiner members pid = true <->
   forall p, p ∈ members -> p <> pid -> natCompatible joiner (pidNATClass ep p) = true).
Proof.
  split_and!; [apply natCompatible_comm| |apply gathering_nat_spec].
  intros a b. destruct a, b; cbn; split; naive_solver.
Qed.

(** ** Joining by id *)

(** What a granted reservation leaves, and what a refused one leaves. *)
Lemma reserve_result ttl now g pid b g' :
  reserveJoinLocked ttl now g pid = (b, g') -> pid ∉ participants g ->
  g' = with_reservations (if b then <[pid := now + ttl]> (filter (live now) (reservations g))
                          else filter (live now) (reservations g)) g.
Proof.
  unfold reserveJoinLocked. rewrite containsPID_spec. intros Hr Hp.
  rewrite bool_decide_eq_false_2 in Hr by done. repeat case_match; by simplify_eq.
Qed.

(** The notices of a newcomer: everybody who is online learns of it, and it learns of
    everybody who was there. *)
Lemma newcomer_notices `{GoRange} ep c ps gid :
  PID (cobj c) ∉ ps ->
  notifyParticipation ep c (ps ++ [PID (cobj c)]) gid [] =
  omap (fun p => (fun t => (t.1, mkEvent (PID (cobj c)) NotificationParticipate gid (PID (cobj c)) [] (len ps + 1)))
                 <$> FindConnectionByPID ep p) (ps ++ [PID (cobj c)]) ++
  ((fun p => (cref c, mkEvent (PID (cobj c)) NotificationParticipate gid p [] (len ps + 1))) <$> ps).
Proof.
  intros Hni. unfold notifyParticipation, participate.
  assert (len (ps ++ [PID (cobj c)]) = len ps + 1) as -> by (unfold len; rewrite length_app; cbn; lia).
  f_equal. rewrite omap_app. cbn. rewrite bool_decide_eq_true_2, app_nil_r by done.
  revert Hni. generalize (len ps + 1). induction ps as [|p ps IH]; intros n Hni; [done|].
  apply not_elem_of_cons in Hni as [Hne Hni]. cbn. rewrite bool_decide_eq_false_2 by congruence. f_equal. by apply IH.
Qed.

(** [C14] JoinMatchmakeSession on a consistent store, when the reservation outlives the
    call.  An unknown id is refused as void.  A member is answered with the session, and
    nothing changes.  A stranger gets a seat exactly when one is free (counting live
    reservations) or held for it: it becomes the last member, its reservation is used up,
    the count goes up, nothing else of the store changes but expired reservations; it is
    answered with the session, showing the new count, or the old one for titles that ask
    for it; every member that is online is told of it, and it of every member that was
    there.  Otherwise it is refused as full, and only expired reservations are gone. *)
Theorem join_session_outcome `{GoRange} s ep e c req w :
  store_inv (w_mm w) -> t_commit e < t_reserve e + reservationTTL (w_mm w) ->
  let gid := read_join_gid (Body req) in
  let pid := PID (cobj c) in
  joinSession s ep e c req w =
  match gatherings (w_mm w) !! gid with
  | None => answer w (extError req ResultRendezVousSessionVoid)
  | Some g =>
      let ps := participants g in
      let held := filter (live (t_reserve e)) (reservations g) in
      let counted n := set_NumParticipants (u32 n) (session g) in
      let becomes session ps held :=
        with_mm (put_gathering gid (mkgathering session ps (hostConnID g) (code g) held) (w_mm w)) w in
      let told p := mkEvent pid NotificationParticipate gid p [] (len ps + 1) in
      if bool_decide (pid ∈ ps) then
        Returns w [] (Some (extSuccess req (WriteStructure s (session g)))) None
      else if bool_decide (pid ∈ promised (view (t_reserve e) g) \/ room (view (t_reserve e) g)) then
        Returns (becomes (counted (len ps + 1)) (ps ++ [pid]) (delete pid held))
          (omap (fun p => (fun t => (t.1, told pid)) <$> FindConnectionByPID ep p) (ps ++ [pid]) ++
           ((fun p => (cref c, told p)) <$> ps))
          (Some (extSuccess req (WriteStructure s
             (counted (if JoinRespExistingCount (cfg (w_mm w)) then len ps else len ps + 1))))) None
      else answer (becomes (session g) ps held) (extError req ResultRendezVousSessionFull)
  end.
Proof.
  intros Hm Ht gid pid. unfold joinSession. fold gid pid.
  destruct (gatherings (w_mm w) !! gid) as [g|] eqn:Hg; [|done].
  destruct (lookup_ok _ _ _ Hm Hg) as ([_ Hseats _] & Hct & _). cbv zeta.
  rewrite containsPID_spec. case_bool_decide as Hin.
  { rewrite andb_false_r. assert (sync_count g = g) as -> by (unfold sync_count; rewrite <- Hct; by destruct g as [[]]).
    assert (with_mm (put_gathering gid g (w_mm w)) w = w) as ->; [|done].
    unfold put_gathering. rewrite insert_id by done. by destruct w as [[]]. }
  pose proof (reserve_answer (reservationTTL (w_mm w)) (t_reserve e) g pid Hseats (inv_ttl _ Hm) Hin) as Ha.
  destruct (reserveJoinLocked _ _ _ _) as [b g1] eqn:Hr. cbn [fst] in Ha.
  pose proof (reserve_result _ _ _ _ _ _ Hr Hin) as ->. destruct b; cbn [negb].
  - rewrite (commit_live (t_commit e) (with_reservations _ g) pid (t_reserve e + reservationTTL (w_mm w)) Hin) by (apply lookup_insert_eq || lia).
    rewrite bool_decide_eq_true_2 by tauto. cbn [participants reservations with_participants with_reservations sync_count
      with_session session hostConnID code]. rewrite newcomer_notices by done. rewrite delete_insert_eq.
    assert (len (participants g ++ [pid]) = len (participants g) + 1) as Hlen by (unfold len; rewrite length_app; cbn; lia).
    unfold sync_count. cbn. rewrite Hlen. rewrite andb_true_r. by destruct (JoinRespExistingCount _).
  - rewrite bool_decide_eq_false_2 by (intros Hb; by apply Ha in Hb). done.
Qed.

Definition ex_join (pid gid : Z) : RMCMessage :=
  NewRMCRequest ProtocolMatchmakeExtension MethodJoinMatchmakeSessionWithParam 2
    (StreamOut.U8 0 ++ StreamOut.Buffer (StreamOut.U32 gid)).

(** The player who opened the lobby joins it again, a second one joins it and takes its
    last seat, and a lobby that does not exist is refused. *)
Lemma join_session_outcome_witness :
  let join c gid := joinSession (H := canonical_range) mk8_settings ex_registry (he_call ex_henv) (ex_conn c c)
    (ex_join c gid) ex_world1 in
  join 12 5 = answer ex_world1 (extError (ex_join 12 5) ResultRendezVousSessionVoid) /\
  join 11 1 = Returns ex_world1 [] (Some (extSuccess (ex_join 11 1) (WriteStructure (H := MatchmakeSession_Structure (H := canonical_range)) mk8_settings (session ex_g1)))) None /\
  exists w' ps, join 12 1 = Returns w' ps (Some (extSuccess (ex_join 12 1)
      (WriteStructure (H := MatchmakeSession_Structure (H := canonical_range)) mk8_settings (set_NumParticipants 2 (session ex_g1))))) None /\
    (participants <$> gatherings (w_mm w') !! 1) = Some [11; 12].
Proof.
  intros join.
  assert (forall c gid : Z, t_commit (he_call ex_henv) < t_reserve (he_call ex_henv) + reservationTTL (w_mm ex_world1))
    as Ht by (intros; vm_compute; reflexivity).
  pose proof (fun c gid => join_session_outcome (H := canonical_range) mk8_settings ex_registry (he_call ex_henv)
    (ex_conn c c) (ex_join c gid) ex_world1 ex_world1_inv (Ht c gid)) as Hj.
  split; [|split]; subst join; cbv beta; rewrite Hj.
  - reflexivity.
  - vm_compute. reflexivity.
  - eexists _, _. split; vm_compute; reflexivity.
Defined.

(** Closing a gathering does not keep a joiner who names it out: after
    CloseParticipation, a stranger who asks for the gathering by id while a seat is
    free still becomes a member (the flag is consulted by automatic matchmaking and
    browsing only). *)
Theorem closed_gathering_joinable `{GoRange} s ep e c reqc reqj w g :
  let gid := read_join_gid (Body reqj) in
  store_inv (w_mm w) -> t_commit e < t_reserve e + reservationTTL (w_mm w) ->
  gatherings (w_mm w) !! gid = Some g -> read_gid (Body reqc) = gid ->
  PID (cobj c) ∉ participants g -> room (view (t_reserve e) g) ->
  let w1 := world_of (setParticipation reqc false w) w in
  let w2 := world_of (joinSession s ep e c reqj w1) w1 in
  exists g1 g2, gatherings (w_mm w1) !! gid = Some g1 /\ OpenParticipation (session g1) = false /\
    gatherings (w_mm w2) !! gid = Some g2 /\ PID (cobj c) ∈ participants g2.
Proof.
  intros gid Hm Ht Hg Hgid Hn Hroom. cbn [setParticipation answer world_of]. rewrite Hgid, Hg.
  set (g1 := with_session (set_OpenParticipation false (session g)) g).
  set (w1 := with_mm (put_gathering gid g1 (w_mm w)) w). cbv zeta.
  assert (store_inv (w_mm w1)) as Hm1 by (apply (session_inv gid g); done).
  assert (gatherings (w_mm w1) !! gid = Some g1) as Hg1 by apply lookup_insert_eq.
  destruct (lookup_ok _ _ _ Hm1 Hg1) as ([_ Hseats _] & _ & _).
  exists g1. unfold joinSession. fold gid. rewrite Hg1.
  rewrite containsPID_spec, bool_decide_eq_false_2 by done.
  pose proof (reserve_answer (reservationTTL (w_mm w1)) (t_reserve e) g1 (PID (cobj c)) Hseats
    (inv_ttl _ Hm1) Hn) as Ha.
  destruct (reserveJoinLocked _ _ _ _) as [b g2] eqn:Hr. cbn [fst] in Ha.
  assert (b = true) as -> by (apply Ha; by right). cbn [negb].
  destruct (reserve_granted _ _ _ _ _ Hr Hn) as (Hp & _ & He).
  rewrite (commit_live (t_commit e) g2 _ _ ltac:(by rewrite Hp) He) by (cbn; lia).
  eexists. split_and!; [done|done|apply lookup_insert_eq|]. cbn. rewrite Hp. set_solver.
Qed.

Definition ex_gid (proto method gid : Z) : RMCMessage := NewRMCRequest proto method 3 (StreamOut.U32 gid).

Lemma closed_gathering_joinable_witness :
  exists g2, gatherings (w_mm (world_of (joinSession (H := canonical_range) mk8_settings ex_registry
      (he_call ex_henv) (ex_conn 12 12) (ex_join 12 1)
      (world_of (setParticipation (ex_gid ProtocolMatchmakeExtension MethodCloseParticipation 1) false
         ex_world1) ex_world1))
      (world_of (setParticipation (ex_gid ProtocolMatchmakeExtension MethodCloseParticipation 1) false
         ex_world1) ex_world1))) !! 1 = Some g2 /\ 12 ∈ participants g2.
Proof.
  assert (read_join_gid (Body (ex_join 12 1)) = 1) as Hj by (vm_compute; reflexivity).
  pose proof (closed_gathering_joinable (H := canonical_range) mk8_settings ex_registry
    (he_call ex_henv) (ex_conn 12 12) (ex_gid ProtocolMatchmakeExtension MethodCloseParticipation 1)
    (ex_join 12 1) ex_world1 ex_g1) as Ht. cbv zeta in Ht. rewrite Hj in Ht.
  destruct Ht as (g1 & g2 & _ & _ & H2 & H3); [apply ex_world1_inv|vm_compute; reflexivity|
    vm_compute; reflexivity|vm_compute; reflexivity| | |exists g2; exact (conj H2 H3)].
  - replace (participants ex_g1) with [11] by (vm_compute; reflexivity). set_solver.
  - apply (bool_decide_unpack _). vm_compute. exact I.
Defined.

(** ** Participation notifications *)

(** Participation notices: every listed player with a live connection is told of
    the caller once, on its newest connection; the caller is told once of every other
    listed player; nothing else is sent, and each notice carries the number of
    participants. *)
Theorem participation_notices `{GoRange} ep c ps gid msg ref ev :
  registry_wf ep ->
  (ref, ev) ∈ notifyParticipation ep c ps gid msg <->
  (exists pid o, pid ∈ ps /\ registered ep ref o /\ PID o = pid /\
     (forall r' o', registered ep r' o' -> PID o' = pid -> ID o' <= ID o) /\
     ev = participate (PID (cobj c)) gid (PID (cobj c)) (len ps) msg) \/
  (exists pid, pid ∈ ps /\ pid <> PID (cobj c) /\ ref = cref c /\
     ev = participate (PID (cobj c)) gid pid (len ps) msg).
Proof.
  intros Hwf. unfold notifyParticipation. rewrite elem_of_app, !list_elem_of_omap. split.
  - intros [(pid & Hin & Hf)|(pid & Hin & Hf)].
    + left. pose proof (find_by_pid_spec ep pid Hwf) as Hs.
      destruct (FindConnectionByPID ep pid) as [[r o]|]; cbn in Hf; simplify_eq.
      destruct Hs as (Hr & Hp & Hmax). by exists pid, o.
    + right. exists pid. case_bool_decide; simplify_eq. done.
  - intros [(pid & o & Hin & Hr & Hp & Hmax & ->)|(pid & Hin & Hne & -> & ->)].
    + left. exists pid. split; [done|]. pose proof (find_by_pid_spec ep pid Hwf) as Hs.
      destruct (FindConnectionByPID ep pid) as [[r o']|]; cbn.
      * destruct Hs as (Hr' & Hp' & Hmax'). do 2 f_equal.
        pose proof (Hmax _ _ Hr' Hp'). pose proof (Hmax' _ _ Hr Hp).
        destruct Hr as [Hh [id Hid]], Hr' as [Hh' _]. eapply (wf_unique ep Hwf); [done|done|lia|].
        destruct (wf_target ep Hwf id ref Hid) as (o2 & Ho2 & ?). simplify_eq. lia.
      * exfalso. by eapply Hs.
    + right. exists pid. by rewrite bool_decide_eq_false_2.
Qed.

Lemma participation_notices_witness :
  (12, participate 12 1 11 2 []) ∈
  notifyParticipation (H := canonical_range) empty_registry (ex_conn 12 12) [11; 12] 1 [].
Proof.
  apply (participation_notices (H := canonical_range) empty_registry (ex_conn 12 12) [11; 12] 1 []).
  - apply empty_registry_wf.
  - right. exists 11. split_and!; [set_solver|vm_compute; discriminate|reflexivity|reflexivity].
Defined.

(** ** What lookups reveal *)

(** The store with every session key and password blanked. *)
Definition blanked (m : MMStore) : gmap Z gathering :=
  (fun g => with_session (set_secrets [] [] (session g)) g) <$> gatherings m.

Lemma blanked_lookup m1 m2 gid :
  blanked m1 = blanked m2 ->
  (fun g => set_secrets [] [] (session g)) <$> gatherings m1 !! gid =
  (fun g => set_secrets [] [] (session g)) <$> gatherings m2 !! gid.
Proof.
  intros Heq. assert (blanked m1 !! gid = blanked m2 !! gid) as Hl by (by rewrite Heq).
  unfold blanked in Hl. rewrite !lookup_fmap in Hl.
  destruct (gatherings m1 !! gid), (gatherings m2 !! gid); cbn in *; simplify_eq; [|done].
  f_equal. by destruct (session g), (session g0); cbn in *; simplify_eq.
Qed.

Definition response (o : Outcome) : option RMCMessage :=
  match o with Returns _ _ r _ => r | Hangs => None end.

(** Session secrets do not flow into the read-by-id answers: two stores that
    differ only in session keys and passwords answer FindMatchmakeSessionBySingleID
    and FindMatchmakeSessionByGatheringID with the same bytes. *)
Theorem lookups_hide_secrets `{GoRange} s req w1 w2 :
  blanked (w_mm w1) = blanked (w_mm w2) ->
  response (findBySingleID s req w1) = response (findBySingleID s req w2) /\
  response (findByGidList s req w1) = response (findByGidList s req w2).
Proof.
  intros Heq. split.
  - unfold findBySingleID. pose proof (blanked_lookup _ _ (read_gid (Body req)) Heq) as Hl.
    destruct (gatherings (w_mm w1) !! _), (gatherings (w_mm w2) !! _); try done.
    apply (inj Some) in Hl. cbn. by rewrite Hl.
  - unfold findByGidList. destruct (StreamInOps.ReadList _ _) as [gids st]. cbn [response answer].
    erewrite (list_omap_ext _ _ gids gids); [reflexivity|].
    apply Forall_Forall2_diag, Forall_forall. intros gid _. by apply blanked_lookup.
Qed.

Definition ex_secret_world (key : bytes) : World :=
  with_mm (put_gathering 1 (with_session (set_secrets key [] (session ex_g1)) ex_g1) (w_mm ex_world1)) ex_world1.

Lemma lookups_hide_secrets_witness :
  response (findBySingleID (H := canonical_range) mk8_settings
    (ex_gid ProtocolMatchmakeExtension MethodFindMatchmakeSessionBySingleID 1) (ex_secret_world [9])) =
  response (findBySingleID (H := canonical_range) mk8_settings
    (ex_gid ProtocolMatchmakeExtension MethodFindMatchmakeSessionBySingleID 1) (ex_secret_world [5])).
Proof.
  apply (lookups_hide_secrets (H := canonical_range) mk8_settings _ (ex_secret_world [9]) (ex_secret_world [5])).
  vm_compute. reflexivity.
Defined.

(** The MatchMaking method 0x15 answers with the stored session as it is: two
    stores that differ only in a session key are told apart by its answer. *)
Theorem find_by_id_15_reveals_key :
  exists (w1 w2 : World) req, blanked (w_mm w1) = blanked (w_mm w2) /\
    response (findBySingleID15 (H := canonical_range) mk8_settings req w1) <>
    response (findBySingleID15 (H := canonical_range) mk8_settings req w2).
Proof.
  exists (ex_secret_world [9]), (ex_secret_world [5]), (ex_gid ProtocolMatchMaking MethodFindBySingleID15 1).
  split; [vm_compute; reflexivity|]. vm_compute. discriminate.
Qed.

(** Browsing without a code lists exactly the open gatherings without a password,
    each with its key and password removed; with a code, exactly the open gatherings
    that carry that code, with the password removed. *)
Theorem browse_lists `{GoRange} s req w :
  exists l, browseNoHolder s req w = answer w (extSuccess req (session_list s l)) /\
  forall m, m ∈ l <-> exists gid g, gatherings (w_mm w) !! gid = Some g /\
    OpenParticipation (session g) = true /\
    let code := browse_code s (Body req) in
    if bool_decide (code = []) then
      UserPasswordEnabled (session g) = false /\ m = set_secrets [] [] (session g)
    else (Codeword (session g) = code \/ Reservations.code g = code) /\
      m = set_secrets (SessionKey (session g)) [] (session g).
Proof.
  unfold browseNoHolder. eexists; split; [reflexivity|]. intros m.
  set (cd := browse_code s (Body req)). rewrite list_elem_of_fmap. unfold browse_result, browse_visible.
  split.
  - intros (g & -> & [Hv Hin]%list_elem_of_filter).
    apply list_elem_of_fmap in Hin as ([gid g'] & -> & Hin%elem_of_range). cbn in *.
    apply andb_true_iff in Hv as [Ho Hv]. exists gid, g'. cbv zeta.
    split_and!; [done|done|]. destruct (decide (cd = [])) as [Hc|Hc].
    + rewrite !(bool_decide_eq_true_2 (cd = [])) by done. rewrite bool_decide_eq_false_2 in Hv by tauto.
      apply negb_true_iff in Hv. done.
    + rewrite !(bool_decide_eq_false_2 (cd = [])) by done. rewrite bool_decide_eq_true_2 in Hv by done.
      rewrite orb_true_iff, !bool_decide_eq_true in Hv. done.
  - intros (gid & g & Hg & Ho & Hm). cbv zeta in Hm. exists g. split.
    + destruct (decide (cd = [])) as [Hc|Hc].
      * rewrite !(bool_decide_eq_true_2 (cd = [])) in * by done. tauto.
      * rewrite !(bool_decide_eq_false_2 (cd = [])) in * by done. tauto.
    + apply list_elem_of_filter. split.
      * rewrite Ho. cbn. destruct (decide (cd = [])) as [Hc|Hc].
        -- rewrite (bool_decide_eq_true_2 (cd = [])) in Hm by done.
           rewrite (bool_decide_eq_false_2 (cd <> [])) by tauto. destruct Hm as [-> _]. done.
        -- rewrite (bool_decide_eq_false_2 (cd = [])) in Hm by done.
           rewrite (bool_decide_eq_true_2 (cd <> [])) by tauto.
           rewrite orb_true_iff, !bool_decide_eq_true. tauto.
      * apply list_elem_of_fmap. exists (gid, g). split; [done|]. by apply elem_of_range.
Qed.

(** ** Who may change a gathering *)

(** The gatherings of [gs] are still there in [gs']. *)
Definition keeps (gs gs' : gmap Z gathering) : Prop :=
  forall gid, is_Some (gs !! gid) -> is_Some (gs' !! gid).
Definition outcome_keeps (w : World) (o : Outcome) : Prop :=
  match o with Returns w' _ _ _ => keeps (gatherings (w_mm w)) (gatherings (w_mm w')) | Hangs => True end.

Lemma keeps_insert gs gs' gid g : keeps gs gs' -> keeps gs (<[gid := g]> gs').
Proof. intros Hk x Hx. apply lookup_insert_is_Some'. right. auto. Qed.

Lemma keeps_refl gs : keeps gs gs.
Proof. by intros x. Qed.

Lemma keeps_purged now gs gs' : purged now gs gs' -> keeps gs gs'.
Proof. intros Hp x [g Hx]. destruct (Hp x) as [->|(g0 & _ & ->)]; eauto. Qed.

Create HintDb keeps.
#[local] Hint Resolve keeps_insert keeps_refl keeps_purged : keeps.

Lemma autoMatchmake_keeps `{GoRange} s pe ep e c req w :
  outcome_keeps w (autoMatchmake s pe ep e c req w).
Proof.
  unfold autoMatchmake. destruct (read_auto _ _) as [param st]. destruct (si_err st); [apply keeps_refl|].
  unfold autoMatchmakeLocked.
  pose proof (scan_spec pe ep e (caller c) (NATBehaviour (cobj c)) (am_Session param) (w_mm w)) as Hs.
  destruct (if isSoloPID _ _ then _ else _) as [[found sk] gs].
  destruct Hs as [Hp%keeps_purged _]. cbn [gatherings with_gatherings].
  destruct (found ≫= _) as [[gid g]|]; [destruct (reserveJoinLocked _ _ _ _) as [[] g1];
    [destruct (commitReservedJoinLocked _ _ _) as [j g2]|]|]; cbn; auto with keeps.
Qed.

Lemma writers_keep `{GoRange} s pe ep e c req w :
  (forall b, outcome_keeps w (setParticipation req b w)) /\
  outcome_keeps w (createSession s pe ep e c req w) /\
  outcome_keeps w (joinSession s ep e c req w) /\
  outcome_keeps w (privateRoomCreate req w) /\
  outcome_keeps w (updateNotificationData s ep c req w) /\
  outcome_keeps w (updateSessionPart s req w) /\
  outcome_keeps w (updateApplicationBuffer c req w) /\
  outcome_keeps w (modifyCurrentGameAttribute c req w).
Proof.
  split_and!.
  - intros b. unfold setParticipation. cbn. case_match; cbn; auto with keeps.
  - unfold createSession, createGathering. destruct (read_auto _ _) as [p st].
    destruct (si_err st); [apply keeps_refl|]. cbn. case_match; cbn; auto with keeps.
  - unfold joinSession. case_match; [|apply keeps_refl].
    case_match; [cbn; auto with keeps|]. destruct (reserveJoinLocked _ _ _ _) as [[] g1]; cbn [negb].
    + destruct (commitReservedJoinLocked _ _ _). cbn. auto with keeps.
    + cbn. auto with keeps.
  - unfold privateRoomCreate, makeCode. cbn. case_match; cbn; auto with keeps.
  - unfold updateNotificationData. destruct (rbind _ _ _) as [[[[? ?] ?] ?] st].
    destruct (si_err st); apply keeps_refl.
  - unfold updateSessionPart. case_match; [|apply keeps_refl].
    destruct (ReadStructure _ _ _) as [p st]. destruct (si_err st); [apply keeps_refl|].
    unfold applySessionPart. cbn. destruct (gatherings _ !! _); cbn; auto with keeps.
  - unfold updateApplicationBuffer. destruct (rbind _ _ _) as [[gid buf] st].
    destruct (gatherings _ !! _); [|apply keeps_refl]. case_match; cbn; auto with keeps.
  - unfold modifyCurrentGameAttribute. destruct (rbind _ _ _) as [[[gid idx] v] st].
    destruct (gatherings _ !! _); [|apply keeps_refl]. case_match; [|apply keeps_refl].
    destruct (grow_attribs _ _ _); cbn; auto with keeps.
Qed.

Lemma readers_keep `{GoRange} s c req w :
  outcome_keeps w (findBySingleID s req w) /\ outcome_keeps w (findByGidList s req w) /\
  outcome_keeps w (browseNoHolder s req w) /\ outcome_keeps w (playingSession s c req w) /\
  outcome_keeps w (findByParticipant s req w) /\
  (forall b, outcome_keeps w (getFriendNotificationData s c req b w)).
Proof.
  unfold findBySingleID, findByGidList, browseNoHolder, playingSession,
    findByParticipant, getFriendNotificationData.
  split_and!; try (intros b); repeat case_match; apply keeps_refl.
Qed.

Lemma extension_keeps `{GoRange} s pe ep e c req w :
  outcome_keeps w (ExtensionHandler s pe ep e c req w).
Proof.
  destruct (writers_keep s pe ep (he_call e) c req w) as (W1 & W2 & W3 & W4 & W5 & W6 & W7 & W8).
  destruct (readers_keep s c req w) as (L1 & L2 & L3 & L4 & L5 & L6).
  unfold ExtensionHandler. cbv zeta.
  repeat match goal with
  | |- outcome_keeps _ (if ?b then _ else _) => destruct b; try solve [auto using autoMatchmake_keeps]
  | |- outcome_keeps _ (let '(_, _) := ?p in _) => destruct p
  end; apply keeps_refl.
Qed.

(** [C15] No request removes somebody else's lobby: whatever the request and whoever
    sends it, a gathering that is there before and gone after was owned by the caller
    (UnregisterGathering) or had no member but the caller (EndParticipation). *)
Theorem no_foreign_deletion `{GoRange} s pe ep e c req w w' ps r wt gid g :
  ExtensionHandler s pe ep e c req w = Returns w' ps r wt \/
  MatchMakingHandler s ep e c req w = Returns w' ps r wt \/
  MatchMakingExtHandler c req w = Returns w' ps r wt ->
  gatherings (w_mm w) !! gid = Some g -> gatherings (w_mm w') !! gid = None ->
  OwnerPID (session g) = PID (cobj c) \/ (forall p, p ∈ participants g -> p = PID (cobj c)).
Proof.
  intros Ho Hg Hgone. assert (outcome_keeps w (Returns w' ps r wt) -> False) as Hk.
  { intros Hk. destruct (Hk gid) as [? Hx]; [eauto|]. cbn in Hx. congruence. }
  destruct Ho as [Ho|[Ho|Ho]].
  - exfalso. apply Hk. rewrite <- Ho. apply extension_keeps.
  - destruct (decide (Method req = MethodUnregisterGathering)) as [Hu|Hu].
    + unfold MatchMakingHandler in Ho. rewrite Hu in Ho. cbv zeta in Ho.
      rewrite bool_decide_eq_false_2, bool_decide_eq_true_2 in Ho by done. unfold answer in Ho. simplify_eq.
      left. cbn in Hgone. unfold unregisterLocked in Hgone.
      destruct (gatherings (w_mm w) !! read_gid (Body req)) as [g0|] eqn:Hg0; [|cbn in Hgone; congruence].
      case_bool_decide; cbn in Hgone; [|congruence].
      apply lookup_delete_None in Hgone as [Heq|Hgone]; [|congruence].
      rewrite Heq, Hg in Hg0. by simplify_eq.
    + exfalso. apply Hk. rewrite <- Ho. unfold MatchMakingHandler. cbv zeta.
      rewrite (bool_decide_eq_false_2 (Method req = MethodUnregisterGathering)) by done.
      repeat match goal with
      | |- outcome_keeps _ (if ?b then _ else _) => destruct b
      end; try apply keeps_refl.
      * unfold getSessionURLs. destruct (_ ≫= _) as [[ref hc]|]; [|apply keeps_refl].
        destruct (natBridgeStations _ _ _ _) as [[urls st] k]. case_match; apply keeps_refl.
      * unfold migrateGatheringOwnership. destruct (rbind _ _ _) as [[x cs] st].
        destruct (gatherings _ !! x); [|apply keeps_refl]. case_match; cbn; auto with keeps.
  - right. unfold MatchMakingExtHandler, answer in Ho. case_bool_decide; [|exfalso; apply Hk; simplify_eq; apply keeps_refl].
    simplify_eq. cbn in Hgone. unfold endParticipationLocked in Hgone.
    destruct (gatherings (w_mm w) !! read_gid (Body req)) as [g0|] eqn:Hg0; [|cbn in Hgone; congruence].
    case_bool_decide as Hl; cbn in Hgone.
    + apply lookup_delete_None in Hgone as [Heq|Hgone]; [|congruence]. rewrite Heq, Hg in Hg0. injection Hg0 as <-.
      apply len_0_inv in Hl. cbn in Hl. intros p Hp. destruct (decide (p = PID (cobj c))); [done|].
      assert (p ∈ removePID (participants g) (PID (cobj c))) as Hin by (by apply elem_of_removePID).
      rewrite Hl in Hin. by apply elem_of_nil in Hin.
    + apply lookup_insert_None in Hgone as [Hgone _]. congruence.
Qed.

Definition ex_unregister : RMCMessage := ex_gid ProtocolMatchMaking MethodUnregisterGathering 1.
Definition ex_world3 : World :=
  with_mm (unregisterLocked 1 11 (w_mm ex_world1)) ex_world1.

Lemma no_foreign_deletion_witness :
  OwnerPID (session ex_g1) = 11 \/ (forall p, p ∈ participants ex_g1 -> p = 11).
Proof.
  refine (no_foreign_deletion (H := canonical_range) mk8_settings ex_env ex_registry ex_henv
    (ex_conn 11 11) ex_unregister ex_world1 ex_world3 []
    (Some (boolResponse ProtocolMatchMaking ex_unregister true)) None 1 ex_g1 _ _ _).
  - right; left. vm_compute. reflexivity.
  - vm_compute. reflexivity.
  - vm_compute. reflexivity.
Defined.

(** UnregisterGathering forgets the gathering but not its code: after a room code
    was handed out, the owner's unregistration leaves the code resolving to an id
    that no longer names a gathering. *)
Theorem unregister_leaves_code gid pid g m :
  gatherings m !! gid = Some g -> OwnerPID (session g) = pid ->
  let '(code, m1) := makeCode gid m in
  let m2 := unregisterLocked gid pid m1 in
  byCode m2 !! code = Some gid /\ gatherings m2 !! gid = None.
Proof.
  intros Hg Ho. unfold makeCode. cbv zeta. rewrite Hg. unfold unregisterLocked. cbn [gatherings].
  rewrite lookup_insert_eq. cbn [session with_code]. rewrite bool_decide_eq_true_2 by done. cbn.
  split; [apply lookup_insert_eq|apply lookup_delete_eq].
Qed.

Lemma unregister_leaves_code_witness :
  byCode (unregisterLocked 1 11 (makeCode 1 (w_mm ex_world1)).2) !! (makeCode 1 (w_mm ex_world1)).1 = Some 1.
Proof.
  pose proof (unregister_leaves_code 1 11 ex_g1 (w_mm ex_world1) ltac:(vm_compute; reflexivity)
    ltac:(vm_compute; reflexivity)) as Ht.
  destruct (makeCode 1 (w_mm ex_world1)) as [code m1]. exact (proj1 Ht).
Defined.

(** UpdateApplicationBuffer: unknown gatherings are refused as void, callers other
    than the first participant as access denied, both without effect; the first
    participant's buffer is stored verbatim and nothing else changes. *)
Theorem application_buffer_owner_only c req w gid buf st :
  (gid <-- StreamInOps.U32 ;; b <-- StreamInOps.Buffer ;; rret (gid, b))%reader
    (NewStreamIn (Body req)) = ((gid, buf), st) ->
  match gatherings (w_mm w) !! gid with
  | None => updateApplicationBuffer c req w = answer w (extError req ResultRendezVousSessionVoid)
  | Some g =>
      if bool_decide (owner_of g = PID (cobj c)) then
        exists w', updateApplicationBuffer c req w = answer w' (extSuccess req []) /\
          gatherings (w_mm w') =
            <[gid := with_session (set_ApplicationData buf (session g)) g]> (gatherings (w_mm w))
      else updateApplicationBuffer c req w = answer w (extError req ResultCoreAccessDenied)
  end.
Proof.
  intros Hr. unfold updateApplicationBuffer. rewrite Hr.
  destruct (gatherings (w_mm w) !! gid); [|done]. case_bool_decide; [|done]. by eexists.
Qed.

Definition ex_buffer_request : RMCMessage :=
  NewRMCRequest ProtocolMatchmakeExtension MethodUpdateApplicationBuffer 4
    (StreamOut.U32 1 ++ StreamOut.Buffer [1; 2]).

Lemma application_buffer_owner_only_witness :
  updateApplicationBuffer (ex_conn 12 12) ex_buffer_request ex_world1 =
  answer ex_world1 (extError ex_buffer_request ResultCoreAccessDenied).
Proof.
  pose proof (application_buffer_owner_only (ex_conn 12 12) ex_buffer_request ex_world1 1 [1; 2]
    (NewStreamIn []) ltac:(vm_compute; reflexivity)) as Ht.
  replace (gatherings (w_mm ex_world1) !! 1) with (Some ex_g1) in Ht by (vm_compute; reflexivity).
  replace (owner_of ex_g1) with 11 in Ht by (vm_compute; reflexivity).
  rewrite bool_decide_eq_false_2 in Ht by (vm_compute; discriminate). exact Ht.
Defined.

(** MigrateGatheringOwnership moves the first listed candidate who takes part to
    the front and keeps the members; but the session's recorded owner stays, so after
    it the caller that may publish the application buffer and the caller that may
    unregister the gathering can be two different players. *)
Theorem migration_splits_ownership cs l :
  migrate cs l ≡ₚ l /\
  (forall c, c ∈ cs -> c ∈ l -> exists c', c' ∈ cs /\ c' ∈ l /\ head (migrate cs l) = Some c') /\
  (forall g, OwnerPID (session (with_participants (migrate cs (participants g)) g)) = OwnerPID (session g)).
Proof.
  split_and!; [apply migrate_perm| |done].
  induction cs as [|x cs IH]; intros c Hc Hl; [by apply elem_of_nil in Hc|]. cbn.
  destruct (index_of x l) as [i|] eqn:Hi.
  - apply index_of_lookup in Hi. exists x. split_and!; [set_solver|by eapply list_elem_of_lookup_2|].
    unfold swap0. destruct l as [|a l]; [done|]. cbn [lookup list_lookup]. rewrite Hi.
    destruct i; cbn; [cbn in Hi; by simplify_eq|done].
  - apply elem_of_cons in Hc as [->|Hc].
    + exfalso. clear IH. induction l as [|p l IH]; [by apply elem_of_nil in Hl|]. cbn in Hi.
      case_bool_decide; [done|]. apply elem_of_cons in Hl as [->|Hl]; [done|].
      apply IH; [done|]. by destruct (index_of x l).
    + destruct (IH c Hc Hl) as (c' & ? & ? & ?). exists c'. set_solver.
Qed.

(** ** A player goes offline *)

(** After RemovePlayer the player sits in no gathering, holds no reservation and
    has no published notification data; a gathering it was not in keeps its members,
    and one it was in survives without it exactly when somebody else is left and it
    was not its recorded owner. *)
Theorem remove_player_clears `{GoRange} pid m :
  pid <> 0 -> store_inv m ->
  (forall gid g, gatherings (RemovePlayer pid m) !! gid = Some g ->
     pid ∉ participants g /\ reservations g !! pid = None) /\
  (forall typ, NotifStore.get (notif (RemovePlayer pid m)) pid typ = None) /\
  (forall gid g, gatherings m !! gid = Some g ->
     if bool_decide (pid ∈ participants g) then
       is_Some (gatherings (RemovePlayer pid m) !! gid) <->
       OwnerPID (session g) <> pid /\ exists p, p ∈ participants g /\ p <> pid
     else exists g', gatherings (RemovePlayer pid m) !! gid = Some g' /\
       participants g' = participants g /\ session g' = session g).
Proof.
  intros Hz Hm. pose proof (remove_player_gatherings pid m Hz) as Hg. split_and!.
  - intros gid g'. rewrite Hg, lookup_omap. destruct (gatherings m !! gid) as [g|]; cbn; [|done].
    unfold after_removal. repeat case_match; intros; simplify_eq; cbn;
      (split; [rewrite elem_of_removePID; tauto|apply lookup_delete_eq]).
  - intros typ. unfold RemovePlayer. rewrite bool_decide_eq_false_2 by done.
    destruct (remove_all_rest pid (range (gatherings m))
      (with_notif (NotifStore.forget (notif m) pid) m)) as (_ & Hn & _).
    change (NotifStore.get (notif (foldl (remove_from pid)
      (with_notif (NotifStore.forget (notif m) pid) m) (range (gatherings m)))) pid typ = None).
    rewrite Hn. cbn. rewrite NotifStore.get_forget. by rewrite bool_decide_eq_true_2.
  - intros gid g Hgid. rewrite Hg, lookup_omap, Hgid. cbn. unfold after_removal. case_bool_decide as Hin.
    + assert (removePID (participants g) pid = [] <-> ~ exists p, p ∈ participants g /\ p <> pid) as He.
      { setoid_rewrite <- elem_of_removePID. split; [intros -> [p Hp%elem_of_nil]; done|].
        destruct (removePID (participants g) pid) as [|p l]; [done|]. intros Hn. exfalso. apply Hn.
        exists p. set_solver. }
      cbn. rewrite <- (bool_decide_eq_true (removePID _ _ = [])) in He.
      destruct (bool_decide (removePID (participants g) pid = [])) eqn:Hb; cbn.
      * split; [by intros [? ?]|]. intros [_ Hp]. exfalso. by apply He.
      * destruct (bool_decide (OwnerPID (session g) = pid)) eqn:Ho; destruct_bool_decide;
          [split; [by intros [? ?]|naive_solver]|]. split; [|intros _; by eexists].
        intros _. split; [done|].
        destruct (removePID (participants g) pid) as [|p l] eqn:Hr; [done|]. exists p.
        rewrite <- elem_of_removePID, Hr. set_solver.
    + eexists; split; [reflexivity|]. cbn. by rewrite removePID_not_in.
Qed.

Lemma remove_player_clears_witness :
  NotifStore.get (notif (RemovePlayer (H := canonical_range) 11 (w_mm ex_world1))) 11 5 = None /\
  (forall gid g, gatherings (RemovePlayer (H := canonical_range) 11 (w_mm ex_world1)) !! gid = Some g ->
     11 ∉ participants g /\ reservations g !! 11 = None).
Proof.
  destruct (remove_player_clears (H := canonical_range) 11 (w_mm ex_world1)
    ltac:(discriminate) ex_world1_inv) as (Hg & Hn & _).
  split; [exact (Hn 5)|exact Hg].
Defined.

(** ** Private-room codes *)
Lemma code_chars_ok n x : 0 <= x -> length (code_chars n x) = n /\ Forall (fun b => b ∈ alphabet) (code_chars n x).
Proof.
  revert x; induction n as [|n IH]; intros x Hx; cbn [code_chars]; [done|].
  destruct (IH (x / len alphabet)) as [Hl Hf]; [apply Z.div_pos; [done|vm_compute; reflexivity]|].
  split; [cbn [length]; by rewrite Hl|]. constructor; [|done].
  unfold byte_at. apply list_elem_of_In, nth_In.
  assert (len alphabet = 33) as Ha by (vm_compute; reflexivity).
  pose proof (Z.mod_pos_bound x (len alphabet)). unfold len in *. lia.
Qed.

(** The code a room gets: five characters of the alphabet, resolving to the room. *)
Lemma make_code_spec gid m :
  let '(code, m') := makeCode gid m in
  len code = 5 /\ Forall (fun b => b ∈ alphabet) code /\ byCode m' !! code = Some gid /\
  (forall g, gatherings m !! gid = Some g -> exists g', gatherings m' !! gid = Some g' /\
     Reservations.code g' = code /\ participants g' = participants g /\ session g' = session g).
Proof.
  unfold makeCode. cbv zeta. set (r := u32 _).
  assert (0 <= r) as Hr by (apply Z.mod_pos_bound; lia).
  destruct (code_chars_ok 5 r Hr) as [Hl Hf]. split_and!; [unfold len; by rewrite Hl|done|apply lookup_insert_eq|].
  intros g ->. cbn. rewrite lookup_insert_eq. by eexists.
Qed.

(** Room codes round-trip: the code PrivateRoomCreate returns for a gathering id
    has five characters of the alphabet, and ResolveCode with that code, asked by
    anybody, answers with that id. *)
Theorem room_code_roundtrip gid req1 req2 w :
  is_uint 32 gid -> Body req1 = StreamOut.U32 gid ->
  exists code w', privateRoomCreate req1 w = answer w' (extSuccess req1
      (StreamOut.U8 0 ++ StreamOut.Buffer (StreamOut.GoString code ++ StreamOut.U64 0))) /\
    len code = 5 /\ Forall (fun b => b ∈ alphabet) code /\
    (Body req2 = StreamOut.GoString code ->
     resolveCode req2 w' = answer w' (extSuccess req2 (StreamOut.U32 gid))).
Proof.
  intros Hgid Hb. unfold privateRoomCreate. pose proof (make_code_spec (read_gid (Body req1)) (w_mm w)) as Hs.
  assert (read_gid (Body req1) = gid) as Hrd.
  { unfold read_gid. rewrite Hb. pose proof (decodes_U32 gid Hgid []) as Hd. rewrite app_nil_r in Hd.
    by rewrite Hd. }
  rewrite Hrd in *. destruct (makeCode gid (w_mm w)) as [code m']. destruct Hs as (Hl & Hf & Hbc & _).
  exists code, (with_mm m' w). split_and!; [done|done|done|]. intros Hb2. unfold resolveCode, resolve_read.
  rewrite Hb2. pose proof (decodes_GoString code) as Hd. specialize (Hd ltac:(unfold str_ok; lia) []).
  rewrite app_nil_r in Hd. rewrite Hd. cbn [fst].
  rewrite (bool_decide_eq_false_2 (len code <> 5)) by lia. cbn. by rewrite Hbc.
Qed.

Lemma room_code_roundtrip_witness :
  exists code w', privateRoomCreate (ex_gid ProtocolMatchmakeExtension MethodCustomPrivateRoomCreate 1) ex_world1 =
    answer w' (extSuccess (ex_gid ProtocolMatchmakeExtension MethodCustomPrivateRoomCreate 1)
      (StreamOut.U8 0 ++ StreamOut.Buffer (StreamOut.GoString code ++ StreamOut.U64 0))) /\ len code = 5.
Proof.
  destruct (room_code_roundtrip 1 (ex_gid ProtocolMatchmakeExtension MethodCustomPrivateRoomCreate 1)
    (ex_gid ProtocolMatchmakeExtension MethodCustomResolveCode 0) ex_world1
    ltac:(unfold is_uint; lia) eq_refl) as (code & w' & H1 & H2 & _). by exists code, w'.
Defined.

(** ** Restamping an attribute *)
Lemma grow_attribs_ok fuel idx l :
  0 <= idx < 2 ^ 32 - 1 -> len l < 2 ^ 32 -> (grow_fuel idx l <= fuel)%nat ->
  grow_attribs fuel idx l = Some (l ++ replicate (grow_fuel idx l) 0).
Proof.
  unfold grow_fuel. revert l; induction fuel as [|fuel IH]; intros l Hi Hl Hf; cbn [grow_attribs];
    pose proof (len_nonneg l); rewrite u32_small by lia.
  - rewrite bool_decide_eq_false_2 by lia. replace (Z.to_nat (idx + 1 - len l)) with O by lia.
    cbn. by rewrite app_nil_r.
  - case_bool_decide as Hc.
    + rewrite IH; rewrite ?len_app, ?len_cons, ?len_nil; [|lia..].
      replace (Z.to_nat (idx + 1 - len l)) with (S (Z.to_nat (idx + 1 - (len l + (1 + 0))))) by lia.
      cbn [replicate]. by rewrite <- app_assoc.
    + replace (Z.to_nat (idx + 1 - len l)) with O by lia. cbn. by rewrite app_nil_r.
Qed.

Lemma grow_attribs_never fuel l : grow_attribs fuel (2 ^ 32 - 1) l = None.
Proof.
  revert l; induction fuel as [|fuel IH]; intros l; cbn [grow_attribs];
    rewrite bool_decide_eq_true_2 by (pose proof (Z.mod_pos_bound (len l) (2 ^ 32)); unfold u32; lia); auto.
Qed.

(** [C32] The owner's ModifyCurrentGameAttribute on a session with fewer than 2^32
    attributes: for every index below 2^32-1 it stores the value at the index, keeps the
    other attributes, pads with zeros exactly up to the index where there were fewer, and
    changes nothing else in the store; at 2^32-1 the padding loop never ends, however many
    turns it is given, and the handler hangs with the store locked. *)
Theorem modify_attribute_outcome c req w gid idx v st g :
  (gid <-- StreamInOps.U32 ;; i <-- StreamInOps.U32 ;; v <-- StreamInOps.U32 ;;
   rret (gid, i, v))%reader (NewStreamIn (Body req)) = ((gid, idx, v), st) ->
  gatherings (w_mm w) !! gid = Some g -> participants g <> [] -> owner_of g = PID (cobj c) ->
  len (Attribs (session g)) < 2 ^ 32 ->
  (0 <= idx < 2 ^ 32 - 1 ->
   let old := Attribs (session g) in
   exists new,
     modifyCurrentGameAttribute c req w =
       answer (with_mm (put_gathering gid (with_session (set_Attribs new (session g)) g) (w_mm w)) w)
         (extSuccess req []) /\
     len new = Z.max (len old) (idx + 1) /\ new !! Z.to_nat idx = Some v /\
     (forall i x, i <> Z.to_nat idx -> old !! i = Some x -> new !! i = Some x) /\
     (forall i, (length old <= i < Z.to_nat idx)%nat -> new !! i = Some 0)) /\
  (idx = 2 ^ 32 - 1 ->
   modifyCurrentGameAttribute c req w = Hangs /\
   forall fuel, grow_attribs fuel idx (Attribs (session g)) = None).
Proof.
  intros Hr Hg Hne Ho Hl. unfold modifyCurrentGameAttribute. rewrite Hr, Hg.
  rewrite !bool_decide_eq_true_2 by done. cbn [andb]. split.
  - intros Hi. rewrite grow_attribs_ok by (done || lia). set (old := Attribs (session g)).
    assert (length (old ++ replicate (grow_fuel idx old) 0) = Z.to_nat (Z.max (len old) (idx + 1))) as Hlen
      by (rewrite length_app, length_replicate; unfold grow_fuel, len; lia).
    eexists. split; [reflexivity|]. split_and!.
    + unfold len at 1. rewrite length_insert, Hlen. unfold len. lia.
    + apply list_lookup_insert_eq. rewrite Hlen. unfold len. lia.
    + intros i x Hx Hi'. rewrite list_lookup_insert_ne by done. rewrite lookup_app_l; [done|].
      by eapply lookup_lt_Some.
    + intros i Hi'. rewrite list_lookup_insert_ne, lookup_app_r by lia.
      apply lookup_replicate_2. unfold grow_fuel, len. lia.
  - intros ->. split; [by rewrite grow_attribs_never|intros; apply grow_attribs_never].
Qed.

Definition ex_modify (idx v : Z) : RMCMessage :=
  NewRMCRequest ProtocolMatchmakeExtension MethodModifyCurrentGameAttribute 5
    (StreamOut.U32 1 ++ StreamOut.U32 idx ++ StreamOut.U32 v).

Lemma modify_attribute_outcome_witness :
  modifyCurrentGameAttribute (ex_conn 11 11) (ex_modify (2 ^ 32 - 1) 3) ex_world1 = Hangs /\
  exists new w', modifyCurrentGameAttribute (ex_conn 11 11) (ex_modify 9 3) ex_world1 =
      answer w' (extSuccess (ex_modify 9 3) []) /\
    len new = 10 /\ new !! 9%nat = Some 3 /\ new !! 8%nat = Some 0 /\
    (Attribs ∘ session <$> gatherings (w_mm w') !! 1) = Some new.
Proof.
  split.
  - refine (proj1 (proj2 (modify_attribute_outcome (ex_conn 11 11) (ex_modify (2 ^ 32 - 1) 3) ex_world1 1
      (2 ^ 32 - 1) 3 (NewStreamIn []) ex_g1 _ _ _ _ _) eq_refl)); vm_compute;
      [reflexivity|reflexivity|discriminate|reflexivity|reflexivity].
  - destruct (proj1 (modify_attribute_outcome (ex_conn 11 11) (ex_modify 9 3) ex_world1 1 9 3 (NewStreamIn []) ex_g1
      eq_refl eq_refl ltac:(vm_compute; discriminate) eq_refl ltac:(vm_compute; reflexivity)) ltac:(lia))
      as (new & Hrun & Hlen & Hat & _ & Hpad).
    exists new, (with_mm (put_gathering 1 (with_session (set_Attribs new (session ex_g1)) ex_g1) (w_mm ex_world1)) ex_world1).
    split; [exact Hrun|]. split; [rewrite Hlen; vm_compute; reflexivity|]. split; [exact Hat|].
    split; [apply Hpad; vm_compute; lia|]. cbn. rewrite lookup_insert_eq. reflexivity.
Defined.

(** ** Waiting for the host's station *)

(** A joiner whose host has not reported its station is always answered, and after
    at most 25 polls: with the bridged urls of the first poll that finds them, or with
    the host's urls as they are once the waiting time is over. *)
Theorem session_urls_answered deadline clock stations bridge req :
  (forall i, clock i + hostReplaceURLPoll <= clock (S i)) ->
  deadline <= clock O + hostReplaceURLWait ->
  exists urls, answerWhenReady 25 deadline clock stations bridge 0 req = Some (sessionURLsResponse req urls) /\
    exists i, (i <= 25)%nat /\
      (bridge i (stations i) = (urls, bridgeOK) \/
       (urls = stations i /\ deadline <= clock i /\
        forall j, (j < i)%nat -> (bridge j (stations j)).2 <> bridgeOK)).
Proof.
  intros Hclk Hdl.
  assert (forall fuel i, (i + fuel = 25)%nat -> clock O + Z.of_nat i * hostReplaceURLPoll <= clock i ->
    (forall j, (j < i)%nat -> (bridge j (stations j)).2 <> bridgeOK) ->
    exists urls, answerWhenReady fuel deadline clock stations bridge i req =
        Some (sessionURLsResponse req urls) /\
      exists k, (k <= 25)%nat /\
        (bridge k (stations k) = (urls, bridgeOK) \/
         (urls = stations k /\ deadline <= clock k /\
          forall j, (j < k)%nat -> (bridge j (stations j)).2 <> bridgeOK))) as Hgen.
  { induction fuel as [|fuel IH]; intros i Hi Hc Hno; cbn [answerWhenReady].
    - rewrite bool_decide_eq_false_2 by (unfold hostReplaceURLPoll, hostReplaceURLWait in *; lia).
      eexists; split; [done|]. exists i. split; [lia|]. right.
      split_and!; [done|unfold hostReplaceURLPoll, hostReplaceURLWait in *; lia|done].
    - case_bool_decide.
      + destruct (bridge i (stations i)) as [urls status] eqn:Hb. case_bool_decide as Hok.
        * subst. eexists; split; [done|]. exists i. split; [lia|]. by left.
        * apply IH; [lia|specialize (Hclk i); unfold hostReplaceURLPoll in *; lia|].
          intros j Hj. destruct (decide (j = i)) as [->|]; [by rewrite Hb|apply Hno; lia].
      + eexists; split; [done|]. exists i. split; [lia|]. right. split_and!; [done|lia|done]. }
  apply (Hgen 25%nat 0%nat); [done|lia|lia].
Qed.

Lemma session_urls_answered_witness :
  exists urls, answerWhenReady 25 hostReplaceURLWait (fun i => Z.of_nat i * hostReplaceURLPoll)
    (fun _ => []) (fun _ u => (u, bridgeNoRVCID)) 0 ex_unregister = Some (sessionURLsResponse ex_unregister urls).
Proof.
  destruct (session_urls_answered hostReplaceURLWait (fun i => Z.of_nat i * hostReplaceURLPoll)
    (fun _ => []) (fun _ u => (u, bridgeNoRVCID)) ex_unregister) as (urls & H1 & _).
  - intros i. unfold hostReplaceURLPoll. lia.
  - unfold hostReplaceURLWait. lia.
  - by exists urls.
Defined.

(** ** Errors inside a structure body *)

(** A request whose structure body is cut short is not refused: a
    CreateMatchmakeSession request that announces an empty AutoMatchmakeParam opens a
    gathering with every field zero, because reading past the end of a structure's own
    substream is not reported to the handler. *)
Theorem truncated_request_accepted `{GoRange} pe ep e c w :
  let req := NewRMCRequest ProtocolMatchmakeExtension MethodCreateMatchmakeSessionWithParam 1
    (StreamOut.U8 0 ++ StreamOut.Buffer []) in
  exists w' ps resp g, createSession mk8_settings pe ep e c req w = Returns w' ps (Some resp) None /\
    IsErr resp = false /\ gatherings (w_mm w') !! nextGID (w_mm w) = Some g /\
    participants g = [PID (cobj c)] /\ GameMode (session g) = 0.
Proof.
  intros req. unfold createSession.
  assert (read_auto mk8_settings (Body req) = (mkAutoParam zero_Session, NewStreamIn [])) as ->
    by (vm_compute; reflexivity).
  cbn [si_err NewStreamIn createGathering]. eexists _, _, _, _. split_and!; [reflexivity|done| | |];
    [cbn [w_mm with_mm]; case_match; apply lookup_insert_eq|done|done].
Qed.
