(* ===== verification/Sha256.v ===== *)
(** * SHA-256 (Go's crypto/sha256)

    The hash the request deduplicator keys bodies with, written out from FIPS 180-4
    and checked on the standard vectors. *)

From S2P Require Import Prelude.

Module Sha256.

Definition add32 (a b : Z) : Z := (a + b) mod 2 ^ 32.
Definition rotr (n x : Z) : Z :=
  Z.lor (Z.shiftr x n) (Z.shiftl x (32 - n) mod 2 ^ 32).
Definition not32 (x : Z) : Z := Z.lxor x (2 ^ 32 - 1).

(** The constants: the first 32 bits of the fractional parts of the cube roots of the
    first 64 primes, and of the square roots of the first 8. *)
Definition is_prime (n : nat) : bool :=
  forallb (fun d => negb (Nat.eqb (n mod d) 0)) (seq 2 (n - 2)).
Definition primes (bound : nat) : list Z := Z.of_nat <$> List.filter is_prime (seq 2 (bound - 2)).

(** The integer cube root, bit by bit from bit [n - 1] down. *)
Fixpoint cube_root (n : nat) (x acc : Z) : Z :=
  match n with
  | O => acc
  | S n => let r := acc + 2 ^ Z.of_nat n in
           cube_root n x (if bool_decide (r * r * r <= x) then r else acc)
  end.

Definition k256 : list Z :=
  Eval vm_compute in (fun p => cube_root 36 (p * 2 ^ 96) 0 mod 2 ^ 32) <$> primes 312.
Definition h256 : list Z :=
  Eval vm_compute in (fun p => Z.sqrt (p * 2 ^ 64) mod 2 ^ 32) <$> primes 20.

(** Big-endian words. *)
Definition be_bytes (n : nat) (v : Z) : bytes := reverse (le_bytes n v).
Definition be_val (b : bytes) : Z := le_val (reverse b).

Definition pad (m : bytes) : bytes :=
  let zeros := (55 - len m) mod 64 in
  m ++ [0x80] ++ replicate (Z.to_nat zeros) 0 ++ be_bytes 8 (8 * len m).

(** Cut into pieces of [n]; [fuel] bounds the number of pieces. *)
Fixpoint chunks (fuel n : nat) (l : bytes) : list bytes :=
  match fuel, l with
  | O, _ | _, [] => []
  | S fuel, _ => take n l :: chunks fuel n (drop n l)
  end.

(** The message schedule, newest word first. *)
Fixpoint schedule (n : nat) (w : list Z) : list Z :=
  match n with
  | O => w
  | S n =>
      let at' i := nth i w 0 in
      let s0 := Z.lxor (Z.lxor (rotr 7 (at' 14%nat)) (rotr 18 (at' 14%nat))) (Z.shiftr (at' 14%nat) 3) in
      let s1 := Z.lxor (Z.lxor (rotr 17 (at' 1%nat)) (rotr 19 (at' 1%nat))) (Z.shiftr (at' 1%nat) 10) in
      schedule n (add32 (add32 (at' 15%nat) s0) (add32 (at' 6%nat) s1) :: w)
  end.

Definition round (st : list Z) (kw : Z * Z) : list Z :=
  match st with
  | [a; b; c; d; e; f; g; h] =>
      let S1 := Z.lxor (Z.lxor (rotr 6 e) (rotr 11 e)) (rotr 25 e) in
      let ch := Z.lxor (Z.land e f) (Z.land (not32 e) g) in
      let t1 := add32 (add32 (add32 h S1) (add32 ch kw.1)) kw.2 in
      let S0 := Z.lxor (Z.lxor (rotr 2 a) (rotr 13 a)) (rotr 22 a) in
      let maj := Z.lxor (Z.lxor (Z.land a b) (Z.land a c)) (Z.land b c) in
      [add32 t1 (add32 S0 maj); a; b; c; add32 d t1; e; f; g]
  | _ => st
  end.

Definition block (h : list Z) (b : bytes) : list Z :=
  let w := reverse (schedule 48 (reverse (be_val <$> chunks 16 4 b))) in
  zip_with add32 h (foldl round h (zip k256 w)).

Definition Sum256 (m : bytes) : bytes :=
  let p := pad m in
  concat (be_bytes 4 <$> foldl block h256 (chunks (length p) 64 p)).

Example sum_empty : le_val (reverse (Sum256 [])) =
  0xe3b0c44298fc1c149afbf4c8996fb92427ae41e4649b934ca495991b7852b855.
Proof. vm_compute. reflexivity. Qed.
Example sum_abc : le_val (reverse (Sum256 (str "abc"))) =
  0xba7816bf8f01cfea414140de5dae2223b00361a396177a9cb410ff61f20015ad.
Proof. vm_compute. reflexivity. Qed.
Example sum_two_blocks :
  le_val (reverse (Sum256 (str "abcdbcdecdefdefgefghfghighijhijkijkljklmklmnlmnomnopnopq"))) =
  0x248d6a61d20638b8e5c026930c3e6039a33ce45964ff2167f6ecedd419db06c1.
Proof. vm_compute. reflexivity. Qed.

End Sha256.
