(* ===== verification/Dedup.v ===== *)
(** * Idempotent matchmaking calls (server/rmc_dedup.go)

    The deduplicator that wraps the three matchmaking handlers.  Its two critical
    sections are functions on its state; the goroutines running it are a step
    relation, with the wait on an entry's channel as a step that needs the channel
    closed.  The wrapped handler's result is the environment's choice ([None] is a nil
    response or a panic).  An entry pointer is a position in a heap. *)

From S2P Require Import Prelude GoStd Settings Stream Types Rmc Notification Tournament.
From S2P Require Import Handlers Sha256.

Definition defaultRMCDedupEntries : Z := 4096.
Definition second : Z := 10 ^ 9.

Record rmcDedupKey := mkKey {
  connectionID : Z; k_pid : Z; k_protocol : Z; k_method : Z; k_callID : Z; bodyHash : bytes
}.
#[export] Instance key_eq_dec : EqDecision rmcDedupKey.
Proof. solve_decision. Defined.
#[export] Instance key_countable : Countable rmcDedupKey.
Proof.
  refine (inj_countable'
    (fun k => (connectionID k, k_pid k, k_protocol k, k_method k, k_callID k, bodyHash k))
    (fun '(a, b, c, d, e, f) => mkKey a b c d e f) _).
  by intros [].
Defined.

(** [ready] tells a non-nil channel; [closed] the state of the channel it was made
    with. *)
Record rmcDedupEntry := mkEntry {
  ready : bool; closed : bool; e_response : option RMCMessage; e_expires : Z
}.

Record rmcDeduplicator := mkDedup {
  entries : gmap rmcDedupKey Z;
  d_heap : gmap Z rmcDedupEntry;
  d_next : Z;
  d_ttl : Z;
  maxEntries : Z;
  calls : Z
}.

Definition newRMCDeduplicator (ttl max : Z) : rmcDeduplicator :=
  mkDedup ∅ ∅ 0 (if bool_decide (ttl <= 0) then 20 * second else ttl)
    (if bool_decide (max <= 0) then defaultRMCDedupEntries else max) 0.

Definition with_entries (es : gmap rmcDedupKey Z) (d : rmcDeduplicator) : rmcDeduplicator :=
  mkDedup es (d_heap d) (d_next d) (d_ttl d) (maxEntries d) (calls d).

Definition entry_of (d : rmcDeduplicator) (key : rmcDedupKey) : option rmcDedupEntry :=
  entries d !! key ≫= fun p => d_heap d !! p.

(** Entries that a purge at [now] keeps: in flight, or not expired. *)
Definition fresh_at (h : gmap Z rmcDedupEntry) (now : Z) (kp : rmcDedupKey * Z) : Prop :=
  match h !! kp.2 with
  | Some e => ready e = true \/ now < e_expires e
  | None => True
  end.
#[export] Instance fresh_at_dec h now kp : Decision (fresh_at h now kp).
Proof. unfold fresh_at. destruct (h !! kp.2); apply _. Defined.

Definition pruneLocked (now : Z) (d : rmcDeduplicator) : rmcDeduplicator :=
  with_entries (filter (fresh_at (d_heap d) now) (entries d)) d.

(** Outcome of the first critical section of a turn of the loop. *)
Inductive decision :=
  | Wait (p : Z)
  | Replay (r : option RMCMessage)
  | Bypass
  | Execute (p : Z).

(** The part of the section after the lookup. *)
Definition allocate (key : rmcDedupKey) (d : rmcDeduplicator) : decision * rmcDeduplicator :=
  if bool_decide (maxEntries d <= Z.of_nat (size (entries d))) then (Bypass, d)
  else (Execute (d_next d),
        mkDedup (<[key := d_next d]> (entries d))
          (<[d_next d := mkEntry true false None 0]> (d_heap d))
          (d_next d + 1) (d_ttl d) (maxEntries d) (calls d)).

Definition admit_call (now : Z) (key : rmcDedupKey) (d : rmcDeduplicator)
    : decision * rmcDeduplicator :=
  let n := u64 (calls d + 1) in
  let d := mkDedup (entries d) (d_heap d) (d_next d) (d_ttl d) (maxEntries d) n in
  let d := if bool_decide (n mod 256 = 0) ||
              bool_decide (maxEntries d <= Z.of_nat (size (entries d)))
           then pruneLocked now d else d in
  match entries d !! key with
  | None => allocate key d
  | Some p =>
      match d_heap d !! p with
      | None => allocate key d
      | Some e =>
          if ready e then (Wait p, d)
          else if bool_decide (now < e_expires e) then (Replay (e_response e), d)
          else allocate key (with_entries (delete key (entries d)) d)
      end
  end.

(** The deferred section of [execute]. *)
Definition complete (now : Z) (key : rmcDedupKey) (p : Z) (response : option RMCMessage)
    (d : rmcDeduplicator) : rmcDeduplicator :=
  if bool_decide (entries d !! key = Some p) then
    match response with
    | None => mkDedup (delete key (entries d)) (<[p := mkEntry false true None 0]> (d_heap d))
                (d_next d) (d_ttl d) (maxEntries d) (calls d)
    | Some r => mkDedup (entries d) (<[p := mkEntry false true (Some r) (now + d_ttl d)]> (d_heap d))
                  (d_next d) (d_ttl d) (maxEntries d) (calls d)
    end
  else d.

(** Which calls are deduplicated. *)
Definition deduplicateMatchmaking (req : RMCMessage) : bool :=
  if bool_decide (Protocol req = ProtocolMatchmakeExtension) then
    bool_decide (Method req ∈ [MethodCloseParticipation; MethodOpenParticipation;
      MethodCreateMatchmakeSessionWithParam; MethodJoinMatchmakeSessionWithParam;
      MethodAutoMatchmakeWithParamPostpone; MethodCustomPrivateRoomCreate;
      MethodUpdateMatchmakeSessionPart; MethodUpdateApplicationBuffer;
      MethodModifyCurrentGameAttribute; MethodUpdateNotificationData;
      MethodSSBUArenaCode; MethodTournamentCreate; MethodTournamentDelete; MethodTournamentJoin])
  else if bool_decide (Protocol req = ProtocolMatchMaking) then
    bool_decide (Method req ∈ [MethodUnregisterGathering; MethodUpdateSessionURL;
      MethodUpdateSessionHost; MethodUpdateSessionHostV1; MethodMigrateGatheringOwnership;
      MethodMigrateGatheringOwnershipV1; MethodUpdateGatheringOwnership])
  else if bool_decide (Protocol req = ProtocolMatchMakingExt) then
    bool_decide (Method req = MethodEndParticipation)
  else false.

Definition request_key (connID pid : Z) (req : RMCMessage) : rmcDedupKey :=
  mkKey connID pid (Protocol req) (Method req) (CallID req) (Sha256.Sum256 (Body req)).

(** ** Goroutines *)
Inductive thread :=
  | TLoop (key : rmcDedupKey)
  | TWaiting (key : rmcDedupKey) (p : Z)
  | TExecuting (key : rmcDedupKey) (p : Z)
  | TBypassing (key : rmcDedupKey)
  | TReturned (key : rmcDedupKey) (r : option RMCMessage).

Record config := mkCfg { dedup : rmcDeduplicator; threads : gmap Z thread }.

Definition after_admit (key : rmcDedupKey) (a : decision) : thread :=
  match a with
  | Wait p => TWaiting key p
  | Replay r => TReturned key r
  | Bypass => TBypassing key
  | Execute p => TExecuting key p
  end.

Inductive dedup_step : config -> config -> Prop :=
  | ds_arrive t key c :
      threads c !! t = None -> dedup_step c (mkCfg (dedup c) (<[t := TLoop key]> (threads c)))
  | ds_admit t key now c a d' :
      threads c !! t = Some (TLoop key) -> admit_call now key (dedup c) = (a, d') ->
      dedup_step c (mkCfg d' (<[t := after_admit key a]> (threads c)))
  | ds_wake t key p e c :
      threads c !! t = Some (TWaiting key p) -> d_heap (dedup c) !! p = Some e -> closed e = true ->
      dedup_step c (mkCfg (dedup c) (<[t := TLoop key]> (threads c)))
  | ds_finish t key p now r c :
      threads c !! t = Some (TExecuting key p) ->
      dedup_step c (mkCfg (complete now key p r (dedup c)) (<[t := TReturned key r]> (threads c)))
  | ds_bypass t key r c :
      threads c !! t = Some (TBypassing key) ->
      dedup_step c (mkCfg (dedup c) (<[t := TReturned key r]> (threads c))).

(** ** Invariant *)
Record dedup_inv (c : config) : Prop := {
  di_max : 0 < maxEntries (dedup c);
  di_size : Z.of_nat (size (entries (dedup c))) <= maxEntries (dedup c);
  di_heap : forall p e, d_heap (dedup c) !! p = Some e -> p < d_next (dedup c) /\ closed e = negb (ready e);
  di_entry : forall key p, entries (dedup c) !! key = Some p -> is_Some (d_heap (dedup c) !! p);
  di_exec : forall t key p, threads c !! t = Some (TExecuting key p) ->
    entries (dedup c) !! key = Some p /\ exists e, d_heap (dedup c) !! p = Some e /\ ready e = true;
  di_once : forall t1 t2 k1 k2 p, threads c !! t1 = Some (TExecuting k1 p) ->
    threads c !! t2 = Some (TExecuting k2 p) -> t1 = t2;
  di_flight : forall p e, d_heap (dedup c) !! p = Some e -> ready e = true ->
    exists t key, threads c !! t = Some (TExecuting key p);
  di_wait : forall t key p, threads c !! t = Some (TWaiting key p) -> is_Some (d_heap (dedup c) !! p)
}.

Definition initial_config (ttl max : Z) : config := mkCfg (newRMCDeduplicator ttl max) ∅.

Lemma initial_config_inv ttl max : dedup_inv (initial_config ttl max).
Proof.
  split; cbn; try (intros *; rewrite ?lookup_empty; done).
  - case_bool_decide; [done|lia].
  - rewrite map_size_empty. case_bool_decide; [done|lia].
Qed.

(** ** The first critical section *)

(** The entries kept: a submap with every entry in flight. *)
Definition kept (d : rmcDeduplicator) (es : gmap rmcDedupKey Z) : Prop :=
  es ⊆ entries d /\
  forall key p e, entries d !! key = Some p -> d_heap d !! p = Some e -> ready e = true ->
    es !! key = Some p.

Lemma kept_refl d : kept d (entries d).
Proof. split; [done|]. eauto. Qed.

Lemma kept_prune now d : kept d (filter (fresh_at (d_heap d) now) (entries d)).
Proof.
  split; [apply map_filter_subseteq|]. intros key p e Hk Hp Hr.
  apply map_lookup_filter_Some. split; [done|]. unfold fresh_at. cbn. rewrite Hp. by left.
Qed.

Lemma kept_delete d es key p e :
  kept d es -> entries d !! key = Some p -> d_heap d !! p = Some e -> ready e = false ->
  kept d (delete key es).
Proof.
  intros [Hsub Hin] Hk Hp Hr. split; [etrans; [apply delete_subseteq|done]|].
  intros k q e' Hk' Hq Hr'. rewrite lookup_delete_ne; [eauto|]. intros <-. simplify_eq. congruence.
Qed.

(** What the section did to the state, by decision. *)
Definition admitted (key : rmcDedupKey) (d : rmcDeduplicator) (a : decision) (d' : rmcDeduplicator) : Prop :=
  exists es, kept d es /\ maxEntries d' = maxEntries d /\ d_ttl d' = d_ttl d /\
  match a with
  | Execute p => p = d_next d /\ es !! key = None /\ Z.of_nat (size es) < maxEntries d /\
      entries d' = <[key := p]> es /\ d_heap d' = <[p := mkEntry true false None 0]> (d_heap d) /\
      d_next d' = d_next d + 1
  | _ => entries d' = es /\ d_heap d' = d_heap d /\ d_next d' = d_next d /\
      match a with
      | Wait p => es !! key = Some p /\ exists e, d_heap d !! p = Some e /\ ready e = true
      | _ => True
      end
  end.

Lemma allocate_spec key d0 es d1 :
  kept d0 es -> es !! key = None -> entries d1 = es -> d_heap d1 = d_heap d0 -> d_next d1 = d_next d0 ->
  maxEntries d1 = maxEntries d0 -> d_ttl d1 = d_ttl d0 ->
  admitted key d0 (allocate key d1).1 (allocate key d1).2.
Proof.
  intros Hk Hn He Hh Hx Hm Ht. exists es. unfold allocate. rewrite He, Hh, Hx, Hm.
  case_bool_decide as Hf; cbn; split_and!; done || lia.
Qed.

Lemma admit_spec now key d a d' :
  (forall k p, entries d !! k = Some p -> is_Some (d_heap d !! p)) ->
  admit_call now key d = (a, d') -> admitted key d a d'.
Proof.
  intros Hent. unfold admit_call. cbn [entries d_heap d_next d_ttl maxEntries].
  set (n := u64 (calls d + 1)). set (d1 := mkDedup _ _ _ _ _ _).
  set (d2 := if _ || _ then _ else _).
  assert (exists es, kept d es /\ entries d2 = es /\ d_heap d2 = d_heap d /\ d_next d2 = d_next d /\
    maxEntries d2 = maxEntries d /\ d_ttl d2 = d_ttl d) as (es & Hk & He & Hh & Hx & Hm & Ht).
  { subst d2. case_match.
    - exists (filter (fresh_at (d_heap d) now) (entries d)). split; [apply kept_prune|done].
    - exists (entries d). split; [apply kept_refl|done]. }
  clearbody d2. rewrite He, Hh.
  destruct (es !! key) as [p|] eqn:Hp.
  - assert (entries d !! key = Some p) as Hp0 by (eapply lookup_weaken; [done|apply Hk]).
    destruct (Hent key p Hp0) as [e Hpe]. rewrite Hpe. destruct (ready e) eqn:Hr.
    + intros [= <- <-]. exists es. split_and!; eauto.
    + case_bool_decide; [intros [= <- <-]; exists es; by split_and!|].
      intros Heq. change (admitted key d (a, d').1 (a, d').2). rewrite <- Heq.
      apply (allocate_spec key d (delete key es)); try done; [by eapply kept_delete|].
      apply lookup_delete_eq.
  - intros Heq. change (admitted key d (a, d').1 (a, d').2). rewrite <- Heq.
    by apply (allocate_spec key d es).
Qed.

(** What is replayed is the response of a completed entry with the call's key. *)
Lemma replay_source now key d r d' :
  admit_call now key d = (Replay r, d') ->
  exists p e, entries d !! key = Some p /\ d_heap d !! p = Some e /\ ready e = false /\ e_response e = r.
Proof.
  unfold admit_call. cbn [entries d_heap d_next d_ttl maxEntries].
  set (d1 := mkDedup _ _ _ _ _ _). set (d2 := if _ || _ then _ else _).
  assert (d_heap d2 = d_heap d /\ entries d2 ⊆ entries d) as [Hh Hsub]
    by (subst d2; case_match; split; [done|apply map_filter_subseteq|done|done]).
  clearbody d2. assert (forall x d3, allocate key x <> (Replay r, d3)) as Hal
    by (intros x d3; unfold allocate; by case_bool_decide).
  destruct (entries d2 !! key) as [p|] eqn:Hp; [|by intros ?%Hal]. rewrite Hh.
  destruct (d_heap d !! p) as [e|] eqn:He; [|by intros ?%Hal].
  destruct (ready e) eqn:Hr; [done|]. case_bool_decide; [|by intros ?%Hal]. intros [= <- _].
  exists p, e. split_and!; [by eapply lookup_weaken|done|done|done].
Qed.

(** Entries in flight or not expired survive the section and decide a call with their key. *)
Lemma admit_keeps now key d a d' k p e :
  (forall q e', d_heap d !! q = Some e' -> q < d_next d) ->
  entries d !! k = Some p -> d_heap d !! p = Some e -> ready e = true \/ now < e_expires e ->
  admit_call now key d = (a, d') ->
  entries d' !! k = Some p /\ d_heap d' !! p = Some e /\
  (k = key -> a = if ready e then Wait p else Replay (e_response e)).
Proof.
  intros Hb Hk Hp Hf. unfold admit_call. cbn [entries d_heap d_next d_ttl maxEntries].
  set (d1 := mkDedup _ _ _ _ _ _). set (d2 := if _ || _ then _ else _).
  assert (entries d2 !! k = Some p /\ d_heap d2 = d_heap d /\ d_next d2 = d_next d) as (Hk2 & Hh2 & Hn2).
  { subst d2. case_match; [|done]. split; [|done]. apply map_lookup_filter_Some. split; [done|].
    unfold fresh_at. cbn. by rewrite Hp. }
  clearbody d2. clear d1. assert (p <> d_next d) as Hne by (specialize (Hb _ _ Hp); lia).
  assert (forall es, es !! k = Some p -> k <> key ->
    let d3 := (allocate key (with_entries es d2)).2 in entries d3 !! k = Some p /\ d_heap d3 !! p = Some e) as Hal.
  { intros es He Hkk. unfold allocate. case_bool_decide; cbn; rewrite ?Hh2, ?Hn2; [done|].
    by rewrite !lookup_insert_ne by done. }
  destruct (decide (k = key)) as [->|Hkey].
  - rewrite Hk2, Hh2, Hp. destruct (ready e) eqn:Hr; [intros [= <- <-]; by rewrite Hh2|].
    rewrite bool_decide_eq_true_2 by naive_solver. intros [= <- <-]. by rewrite Hh2.
  - assert (forall x, allocate key x = (a, d') -> x = with_entries (entries x) d2 -> entries x !! k = Some p ->
      entries d' !! k = Some p /\ d_heap d' !! p = Some e /\ (k = key -> a = if ready e then Wait p else Replay (e_response e)))
      as Hx.
    { intros x Hx Hw He. rewrite Hw in Hx. specialize (Hal _ He Hkey). rewrite Hx in Hal. by destruct Hal. }
    destruct (entries d2 !! key) as [q|]; [|intros; apply (Hx d2); [done|by destruct d2|done]].
    destruct (d_heap d2 !! q) as [e'|]; [|intros; apply (Hx d2); [done|by destruct d2|done]].
    destruct (ready e'); [intros [= <- <-]; by rewrite Hh2|].
    case_bool_decide; [intros [= <- <-]; by rewrite Hh2|].
    intros; eapply Hx; [done|done|]. cbn. by rewrite lookup_delete_ne.
Qed.

(** ** Preservation *)
Lemma thread_insert (ts : gmap Z thread) t th t' th' :
  <[t := th]> ts !! t' = Some th' -> (t = t' /\ th = th') \/ (t <> t' /\ ts !! t' = Some th').
Proof. apply lookup_insert_Some. Qed.

(** A step that leaves the deduplicator alone and moves a thread that neither executes
    nor starts to. *)
Lemma quiet_step_inv c t th :
  dedup_inv c ->
  (forall key p, threads c !! t <> Some (TExecuting key p)) ->
  (forall key p, th <> TExecuting key p) ->
  (forall key p, th = TWaiting key p -> is_Some (d_heap (dedup c) !! p)) ->
  dedup_inv (mkCfg (dedup c) (<[t := th]> (threads c))).
Proof.
  intros [Hmax Hsz Hh He Hx Ho Hf Hw] Hold Hnew Hwait. split; cbn; try done.
  - intros t' key p [[_ ->]|[_ Ht]]%thread_insert; [by destruct (Hnew key p)|eauto].
  - intros t1 t2 k1 k2 p [[_ ->]|[_ H1]]%thread_insert; [by destruct (Hnew k1 p)|].
    intros [[_ ->]|[_ H2]]%thread_insert; [by destruct (Hnew k2 p)|eauto].
  - intros p e Hp Hr. destruct (Hf p e Hp Hr) as (t' & key & Ht'). exists t', key.
    rewrite lookup_insert_ne; [done|]. intros <-. by apply (Hold key p).
  - intros t' key p [[_ ->]|[_ Ht]]%thread_insert; eauto.
Qed.

Lemma admit_step_inv c t key now a d' :
  dedup_inv c -> threads c !! t = Some (TLoop key) -> admit_call now key (dedup c) = (a, d') ->
  dedup_inv (mkCfg d' (<[t := after_admit key a]> (threads c))).
Proof.
  intros [Hmax Hsz Hh He Hx Ho Hf Hw] Ht Ha.
  destruct (admit_spec now key (dedup c) a d' He Ha) as (es & [Hsub Hin] & Hm & _ & Hcase).
  assert (size es <= size (entries (dedup c)))%nat as Hes by (by apply map_subseteq_size).
  destruct a as [p|r| |p]; [destruct Hcase as (E1 & E2 & E3 & Hp)|destruct Hcase as (E1 & E2 & E3 & _)|
    destruct Hcase as (E1 & E2 & E3 & _)|].
  1-3: assert (dedup_inv (mkCfg d' (threads c))) as Hinv by
    (split; cbn; rewrite ?E1, ?E2, ?E3, ?Hm; try done; [lia|
       intros k q Hk; eapply He, lookup_weaken; eauto|
       intros t' k q Ht'; destruct (Hx t' k q Ht') as [Hk (e & Hq & Hr)]; split; eauto]).
  1-3: apply (quiet_step_inv _ t _ Hinv); cbn; rewrite ?E2; try done; try (rewrite Ht; done).
  - intros k q [= -> ->]. destruct Hp as (_ & e & Hq & _). eauto.
  - destruct Hcase as (-> & Hn & Hlt & E1 & E2 & E3).
    assert (forall q e, d_heap (dedup c) !! q = Some e -> q <> d_next (dedup c)) as Hfresh.
    { intros q e Hq. destruct (Hh q e Hq). lia. }
    assert (forall k q, es !! k = Some q -> entries (dedup c) !! k = Some q) as Hes'.
    { intros. by eapply lookup_weaken. }
    split; cbn; rewrite ?E1, ?E2, ?E3, ?Hm; try done.
    + rewrite map_size_insert_None by done. lia.
    + intros q e [[<- <-]|[_ Hq]]%lookup_insert_Some; [split; [lia|done]|].
      destruct (Hh q e Hq). split; [lia|done].
    + intros k q Hk. apply lookup_insert_is_Some'. apply lookup_insert_Some in Hk as [[_ <-]|[_ Hk]]; eauto.
    + intros t' k q [[_ [= <- <-]]|[Hne Ht']]%thread_insert.
      * rewrite !lookup_insert_eq. split; [done|]. by eexists.
      * destruct (Hx t' k q Ht') as [Hk (e & Hq & Hr)]. pose proof (Hin k q e Hk Hq Hr) as Hk'.
        rewrite !lookup_insert_ne by (intros <-; (congruence || by eapply Hfresh)). eauto.
    + intros t1 t2 k1 k2 q [[Ht1 [= <- <-]]|[_ H1]]%thread_insert [[Ht2 E]|[_ H2]]%thread_insert.
      * congruence.
      * destruct (Hx _ _ _ H2) as [_ (e & Hq & _)]. by destruct (Hfresh _ _ Hq).
      * injection E as <- <-. destruct (Hx _ _ _ H1) as [_ (e & Hq & _)]. by destruct (Hfresh _ _ Hq).
      * eauto.
    + intros q e [[<- <-]|[_ Hq]]%lookup_insert_Some Hr.
      * exists t, key. by rewrite lookup_insert_eq.
      * destruct (Hf q e Hq Hr) as (t' & k & Ht'). exists t', k.
        rewrite lookup_insert_ne; [done|]. intros <-. congruence.
    + intros t' k q [[_ [=]]|[_ Ht']]%thread_insert. apply lookup_insert_is_Some'. eauto.
Qed.

(** The second section, for the goroutine that owns the entry. *)
Lemma complete_owned now key p r d :
  entries d !! key = Some p ->
  exists es e, complete now key p r d =
      mkDedup es (<[p := e]> (d_heap d)) (d_next d) (d_ttl d) (maxEntries d) (calls d) /\
    ready e = false /\ closed e = true /\ e_response e = r /\ es ⊆ entries d /\
    (forall k, k <> key -> es !! k = entries d !! k) /\
    match r with
    | Some _ => es !! key = Some p /\ e_expires e = now + d_ttl d
    | None => es !! key = None
    end.
Proof.
  intros Hk. unfold complete. rewrite bool_decide_eq_true_2 by done.
  destruct r; (eexists _, _; split; [reflexivity|]).
  - by split_and!.
  - split_and!; [done|done|done|apply delete_subseteq| |apply lookup_delete_eq].
    intros k Hne. by apply lookup_delete_ne.
Qed.

Lemma finish_step_inv c t key p now r :
  dedup_inv c -> threads c !! t = Some (TExecuting key p) ->
  dedup_inv (mkCfg (complete now key p r (dedup c)) (<[t := TReturned key r]> (threads c))).
Proof.
  intros [Hmax Hsz Hh He Hx Ho Hf Hw] Ht. destruct (Hx t key p Ht) as [Hk (e0 & Hp & Hr0)].
  assert (forall t' k q, t <> t' -> threads c !! t' = Some (TExecuting k q) -> q <> p /\ k <> key) as Hother.
  { intros t' k q Hne Ht'. assert (q <> p) as Hq by (intros ->; by apply Hne, (Ho t t' key k p)).
    split; [done|]. intros ->. destruct (Hx _ _ _ Ht') as [Hk' _]. congruence. }
  destruct (complete_owned now key p r (dedup c) Hk) as (es & e & -> & Hrdy & Hcl & _ & Hsub & Hsame & _).
  split; cbn; try done.
  - pose proof (map_subseteq_size _ _ Hsub). lia.
  - intros q e' [[<- <-]|[_ Hq]]%lookup_insert_Some; [|eauto].
    destruct (Hh p e0 Hp). split; [done|]. by rewrite Hrdy, Hcl.
  - intros k q Hq. apply lookup_insert_is_Some'. right. eapply He, lookup_weaken; eauto.
  - intros t' k q [[_ [=]]|[Hne Ht']]%thread_insert. destruct (Hother t' k q Hne Ht') as [Hq Hk'].
    destruct (Hx t' k q Ht') as [Hk2 He2]. rewrite Hsame, lookup_insert_ne by done. eauto.
  - intros t1 t2 k1 k2 q [[_ [=]]|[_ H1]]%thread_insert [[_ [=]]|[_ H2]]%thread_insert. eauto.
  - intros q e' [[<- <-]|[Hne Hq]]%lookup_insert_Some Hr; [congruence|].
    destruct (Hf q e' Hq Hr) as (t' & k & Ht'). exists t', k. rewrite lookup_insert_ne; [done|].
    intros <-. congruence.
  - intros t' k q [[_ [=]]|[_ Ht']]%thread_insert. apply lookup_insert_is_Some'. eauto.
Qed.

Lemma dedup_step_inv c c' : dedup_step c c' -> dedup_inv c -> dedup_inv c'.
Proof.
  intros Hs Hi. destruct Hs as [t key c Ht|t key now c a d' Ht Ha|t key p e c Ht Hp Hc|
    t key p now r c Ht|t key r c Ht].
  - apply quiet_step_inv; [done|rewrite Ht; done|done|done].
  - by eapply admit_step_inv.
  - apply quiet_step_inv; [done|rewrite Ht; done|done|done].
  - by apply finish_step_inv.
  - apply quiet_step_inv; [done|rewrite Ht; done|done|done].
Qed.

Lemma dedup_reachable_inv ttl max c : rtc dedup_step (initial_config ttl max) c -> dedup_inv c.
Proof.
  intros Hr. assert (dedup_inv (initial_config ttl max)) as H0 by apply initial_config_inv.
  revert H0. induction Hr; eauto using dedup_step_inv.
Qed.



(** ** Replays *)

(** A completed call is replayed until it expires. *)
Lemma replay_after_complete key p now now' r d :
  entries d !! key = Some p -> now' < now + d_ttl d ->
  exists d', admit_call now' key (complete now key p (Some r) d) = (Replay (Some r), d').
Proof.
  intros Hk Hlt. unfold complete. rewrite bool_decide_eq_true_2 by done. unfold admit_call.
  cbn [entries d_heap d_next d_ttl maxEntries calls].
  destruct (_ || _); cbn.
  - assert (filter (fresh_at (<[p := mkEntry false true (Some r) (now + d_ttl d)]> (d_heap d)) now')
      (entries d) !! key = Some p) as ->.
    { apply map_lookup_filter_Some. split; [done|]. unfold fresh_at. cbn.
      rewrite lookup_insert_eq. by right. }
    rewrite lookup_insert_eq. cbn. rewrite bool_decide_eq_true_2 by done. by eexists.
  - rewrite Hk, lookup_insert_eq. cbn. rewrite bool_decide_eq_true_2 by done. by eexists.
Qed.

(** ** Traffic on the table *)

(** Entries live at positions handed out already. *)
Definition heap_bounded (d : rmcDeduplicator) : Prop :=
  forall p e, d_heap d !! p = Some e -> p < d_next d.

Lemma new_bounded ttl max : heap_bounded (newRMCDeduplicator ttl max).
Proof. intros p e. cbn. by rewrite lookup_empty. Qed.

Lemma allocate_bounded key d : heap_bounded d -> heap_bounded (allocate key d).2.
Proof.
  intros Hb. unfold allocate. case_bool_decide; [done|]. intros p e. cbn.
  intros [[<- _]|[_ Hp]]%lookup_insert_Some; [lia|]. specialize (Hb _ _ Hp). lia.
Qed.

Lemma admit_bounded now key d : heap_bounded d -> heap_bounded (admit_call now key d).2.
Proof.
  intros Hb. unfold admit_call. cbn [entries d_heap d_next d_ttl maxEntries].
  set (d2 := if _ || _ then _ else _).
  assert (heap_bounded d2) as H2 by (subst d2; by case_match). clearbody d2.
  assert (heap_bounded (with_entries (delete key (entries d2)) d2)) as H3 by done.
  repeat case_match; cbn; try done; by apply allocate_bounded.
Qed.

Lemma complete_bounded now key p e r d :
  d_heap d !! p = Some e -> heap_bounded d -> heap_bounded (complete now key p r d).
Proof.
  intros Hp Hb. unfold complete. case_bool_decide; [|done].
  destruct r; intros q e'; cbn; (intros [[<- _]|[_ Hq]]%lookup_insert_Some; [by eapply Hb|by eapply Hb]).
Qed.

(** A call that executes has an entry of its own, in flight. *)
Lemma execute_entry now key d p d' :
  admit_call now key d = (Execute p, d') -> d_heap d' !! p = Some (mkEntry true false None 0).
Proof.
  unfold admit_call. set (d2 := if _ || _ then _ else _).
  assert (forall x, allocate key x = (Execute p, d') -> d_heap d' !! p = Some (mkEntry true false None 0)) as Ha.
  { intros x. unfold allocate. case_bool_decide; [done|]. intros [= <- <-]. apply lookup_insert_eq. }
  repeat case_match; try done; apply Ha.
Qed.

(** Calls of anybody that read the clock before [limit] pass the first section, and calls in
    flight pass the second. *)
Inductive dedup_traffic (limit : Z) : rmcDeduplicator -> rmcDeduplicator -> Prop :=
  | dt_admit now key a d d' : now < limit -> admit_call now key d = (a, d') -> dedup_traffic limit d d'
  | dt_complete now key p e r d : d_heap d !! p = Some e -> ready e = true ->
      dedup_traffic limit d (complete now key p r d).

(** An answer that does not expire before [limit] stays in the table. *)
Lemma traffic_keeps limit d d' key p e :
  rtc (dedup_traffic limit) d d' -> heap_bounded d ->
  entries d !! key = Some p -> d_heap d !! p = Some e -> ready e = false -> limit <= e_expires e ->
  heap_bounded d' /\ entries d' !! key = Some p /\ d_heap d' !! p = Some e.
Proof.
  intros Hr Hb Hk Hp Hrd Hx. induction Hr as [d|d d1 d2 Hs _ IH]; [done|]. apply IH.
  - destruct Hs as [now k a d d1 _ Ha|now k q e' r d Hq _]; [|by eapply complete_bounded].
    pose proof (admit_bounded now k d Hb) as H1. by rewrite Ha in H1.
  - destruct Hs as [now k a d d1 Hn Ha|now k q e' r d Hq Hrq].
    + assert (now < e_expires e) as Hlt by lia.
      by apply (admit_keeps now k d a d1 key p e Hb Hk Hp (or_intror Hlt) Ha).
    + unfold complete. case_bool_decide as Hkq; [|done]. destruct r; [done|]. cbn.
      rewrite lookup_delete_ne; [done|]. intros <-. congruence.
  - destruct Hs as [now k a d d1 Hn Ha|now k q e' r d Hq Hrq].
    + assert (now < e_expires e) as Hlt by lia.
      by apply (admit_keeps now k d a d1 key p e Hb Hk Hp (or_intror Hlt) Ha).
    + unfold complete. case_bool_decide as Hkq; [|done]. assert (q <> p) by congruence.
      destruct r; cbn; by rewrite lookup_insert_ne.
Qed.

(** No call with the key is in flight or has an answer that is still good. *)
Definition first_copy (now : Z) (key : rmcDedupKey) (d : rmcDeduplicator) : Prop :=
  match entry_of d key with Some e => ready e = false /\ e_expires e <= now | None => True end.

(** The entries a purge would leave. *)
Definition in_use (now : Z) (d : rmcDeduplicator) : Z := Z.of_nat (size (entries (pruneLocked now d))).

Lemma in_use_le now d : in_use now d <= Z.of_nat (size (entries d)).
Proof.
  unfold in_use. cbn. pose proof (map_subseteq_size _ _ (map_filter_subseteq (fresh_at (d_heap d) now) (entries d))). lia.
Qed.

(** A key that is neither in flight nor answered is executed, with an entry if the table has
    room and without one if it is full of entries in use. *)
Lemma admit_first now key d :
  first_copy now key d ->
  exists es n, let d1 := mkDedup es (d_heap d) (d_next d) (d_ttl d) (maxEntries d) n in
    admit_call now key d = allocate key d1 /\ entry_of d1 key = None /\
    (maxEntries d <= Z.of_nat (size es) <-> maxEntries d <= in_use now d).
Proof.
  unfold first_copy, entry_of, admit_call. cbn [entries d_heap d_next d_ttl maxEntries].
  set (n := u64 (calls d + 1)). intros Hf. pose proof (in_use_le now d) as Hle.
  assert (forall es, (es = entries d \/ es = filter (fresh_at (d_heap d) now) (entries d)) ->
    forall p, es !! key = Some p -> entries d !! key = Some p) as Hsub.
  { intros es [->| ->] p; [done|]. intros Hp. eapply lookup_weaken; [exact Hp|apply map_filter_subseteq]. }
  destruct (bool_decide (n mod 256 = 0) || bool_decide (maxEntries d <= Z.of_nat (size (entries d)))) eqn:Hprune.
  - cbn. set (es := filter _ _) in *.
    destruct (es !! key) as [p|] eqn:Hp.
    + rewrite (Hsub es (or_intror eq_refl) p Hp) in Hf. cbn in Hf.
      destruct (d_heap d !! p) as [e|] eqn:He.
      * exfalso. subst es. apply map_lookup_filter_Some in Hp as [_ Hp]. unfold fresh_at in Hp. cbn in Hp.
        rewrite He in Hp. destruct Hf as [Hr Hx], Hp as [?|?]; [congruence|lia].
      * exists es, n. split; [done|]. cbn. rewrite Hp. cbn. by rewrite He.
    + exists es, n. split; [done|]. cbn. by rewrite Hp.
  - apply orb_false_iff in Hprune as [_ Hsz]. apply bool_decide_eq_false in Hsz. cbn.
    destruct (entries d !! key) as [p|] eqn:Hp; [|exists (entries d), n; cbn; rewrite Hp; split_and!; [done|done|lia]].
    cbn in Hf. destruct (d_heap d !! p) as [e|] eqn:He;
      [|exists (entries d), n; cbn; rewrite Hp; cbn; rewrite He; split_and!; [done|done|lia]].
    destruct Hf as [Hr Hx]. rewrite Hr, bool_decide_eq_false_2 by lia.
    exists (delete key (entries d)), n. cbn. rewrite lookup_delete_eq. split_and!; [done|done|].
    pose proof (map_subseteq_size _ _ (delete_subseteq (entries d) key)). lia.
Qed.

(** Idempotence: when a call has completed with a response, every retry with the
    same key that finds the entry still in the table before it expires is answered
    with that response and executes nothing; a retry that arrives while the call is
    still executing waits; a call that ended without a response is executed again. *)
Theorem dedup_replays key p now now' r d :
  entries d !! key = Some p -> Z.of_nat (size (entries d)) <= maxEntries d ->
  (forall k q, entries d !! k = Some q -> is_Some (d_heap d !! q)) ->
  (now' < now + d_ttl d ->
   (admit_call now' key (complete now key p (Some r) d)).1 = Replay (Some r)) /\
  (forall e, d_heap d !! p = Some e -> ready e = true -> (admit_call now' key d).1 = Wait p) /\
  (admit_call now' key (complete now key p None d)).1 = Execute (d_next d).
Proof.
  intros Hk Hsz Hent. split_and!.
  - intros Hlt. by destruct (replay_after_complete key p now now' r d Hk Hlt) as [d' ->].
  - intros e Hp Hr. unfold admit_call. cbn [entries d_heap d_next d_ttl maxEntries calls].
    destruct (_ || _); cbn.
    + assert (filter (fresh_at (d_heap d) now') (entries d) !! key = Some p) as ->.
      { apply map_lookup_filter_Some. split; [done|]. unfold fresh_at. cbn. rewrite Hp. by left. }
      by rewrite Hp, Hr.
    + by rewrite Hk, Hp, Hr.
  - unfold complete. rewrite bool_decide_eq_true_2 by done. unfold admit_call.
    cbn [entries d_heap d_next d_ttl maxEntries calls].
    assert (size (delete key (entries d)) < size (entries d))%nat as Hlt.
    { rewrite map_size_delete_Some by eauto. assert (size (entries d) <> 0%nat); [|lia].
      intros Hz%map_size_empty_inv. by rewrite Hz in Hk. }
    destruct (_ || _); cbn.
    + assert (filter (fresh_at (<[p := mkEntry false true None 0]> (d_heap d)) now')
        (delete key (entries d)) !! key = None) as ->.
      { apply map_lookup_filter_None. left. apply lookup_delete_eq. }
      unfold allocate. rewrite bool_decide_eq_false_2; [done|]. cbn.
      pose proof (map_subseteq_size _ _ (map_filter_subseteq
        (fresh_at (<[p := mkEntry false true None 0]> (d_heap d)) now') (delete key (entries d)))). lia.
    + rewrite lookup_delete_eq. unfold allocate. rewrite bool_decide_eq_false_2; [done|]. cbn. lia.
Qed.

Definition ex_key : rmcDedupKey :=
  mkKey 3 11 ProtocolMatchmakeExtension MethodAutoMatchmakeWithParamPostpone 9 [1; 2].
Definition ex_dedup : rmcDeduplicator :=
  mkDedup {[ex_key := 0]} {[0 := mkEntry true false None 0]} 1 (20 * second) 16384 1.

Lemma dedup_replays_witness :
  (admit_call 5 ex_key (complete 1 ex_key 0 (Some (NewRMCSuccess 0x6D 0x28 9 [])) ex_dedup)).1 =
  Replay (Some (NewRMCSuccess 0x6D 0x28 9 [])).
Proof.
  refine (proj1 (dedup_replays ex_key 0 1 5 (NewRMCSuccess 0x6D 0x28 9 []) ex_dedup _ _ _) _).
  - apply lookup_singleton_eq.
  - cbn [entries ex_dedup]. rewrite map_size_singleton. cbn. lia.
  - intros k q Hk. cbn [entries d_heap ex_dedup] in *. apply lookup_singleton_Some in Hk as [_ <-].
    rewrite lookup_singleton_eq. eauto.
  - cbn. unfold second. lia.
Defined.
