(* ===== verification/Concurrent.v ===== *)
(** * Matchmaking calls served at the same time (server.go, server/rmc_dedup.go, server/main.go)

    The transport hands every message to a goroutine of its own, so calls overlap.  A call
    reads the clock, passes the first critical section of the deduplicator, perhaps waits
    for an equal call, runs its handler, passes the second section and returns.  A handler
    touches the matchmaking store in one critical section, so running it is one step.  (The
    notification and tournament stores have locks of their own, which some handlers take
    more than once, and the lookups encode the attributes they copied after the section;
    the step takes these readings at the same instant.)  A disconnection may fall between
    any two steps.  Time only moves forward.

    Shown for every interleaving: the store makes steps of its own only, every answer
    comes from an execution of the same request, no call is executed twice, and a request
    that was answered is not executed again before its answer expires. *)

From S2P Require Import Prelude GoStd GoNet Settings Stream Types StationURL Rmc.
From S2P Require Import Matchmaking Reservations Notification Connection Stations Store StoreInv.
From S2P Require Import Tournament Handlers HandlerInv HandlerProps Sha256 Dedup.

(** How a call came to run its handler: it is not deduplicated, the table was full, or it
    owns an entry of the table. *)
Inductive mode := Direct | Bypassed | Owner (p : Z).

Inductive phase :=
  | Loop
  | Stamped (now : Z)
  | Waiting (p : Z)
  | Running (m : mode)
  | Handled (m : mode) (r : option RMCMessage)
  | Returned (r : option RMCMessage).

Record call := mkCall { c_conn : Conn; c_req : RMCMessage; c_phase : phase }.

Definition c_key (c : call) : rmcDedupKey :=
  request_key (ID (cobj (c_conn c))) (PID (cobj (c_conn c))) (c_req c).
Definition move (ph : phase) (c : call) : call := mkCall (c_conn c) (c_req c) ph.

(** What has happened, oldest first. *)
Inductive event :=
  | Began (t : Z) (key : rmcDedupKey) (clock : Z)
  | Ran (t : Z) (key : rmcDedupKey) (r : option RMCMessage)
  | Answered (key : rmcDedupKey) (expires : Z)
  | Gone (pid : Z).

Record cstate := mkCState {
  cs_clock : Z;
  cs_dedup : rmcDeduplicator;
  cs_world : World;
  cs_calls : gmap Z call;
  cs_past : list event
}.

(** [wrap]: a request that is not deduplicated goes straight to its handler. *)
Definition arrival (req : RMCMessage) : phase :=
  if deduplicateMatchmaking req then Loop else Running Direct.

Definition decided (a : decision) : phase :=
  match a with
  | Wait p => Waiting p
  | Replay r => Returned r
  | Bypass => Running Bypassed
  | Execute p => Running (Owner p)
  end.

(** A call starts to execute when it gets an entry of the table, and also when it goes past
    a full one. *)
Definition begun (a : decision) (t : Z) (key : rmcDedupKey) (clock : Z) : list event :=
  match a with Execute _ | Bypass => [Began t key clock] | _ => [] end.

Section Concurrent.
Context `{GoRange} (s : Settings) (pe : ProcEnv).

(** The handler registered for the protocol of a request. *)
Definition matchmaking_call (ep : Registry) (e : HEnv) (c : Conn) (req : RMCMessage) (w : World)
    : option Outcome :=
  if bool_decide (Protocol req = ProtocolMatchmakeExtension) then Some (ExtensionHandler s pe ep e c req w)
  else if bool_decide (Protocol req = ProtocolMatchMaking) then Some (MatchMakingHandler s ep e c req w)
  else if bool_decide (Protocol req = ProtocolMatchMakingExt) then Some (MatchMakingExtHandler c req w)
  else None.

(** After its handler a call that owns an entry has the second section before it. *)
Definition after_handler (m : mode) (r : option RMCMessage) : phase :=
  match m with Owner _ => Handled m r | _ => Returned r end.

Inductive call_step : cstate -> cstate -> Prop :=
  | cs_tick now st : cs_clock st <= now ->
      call_step st (mkCState now (cs_dedup st) (cs_world st) (cs_calls st) (cs_past st))
  | cs_arrive t conn req st : cs_calls st !! t = None ->
      call_step st (mkCState (cs_clock st) (cs_dedup st) (cs_world st)
        (<[t := mkCall conn req (arrival req)]> (cs_calls st)) (cs_past st))
  | cs_stamp t c st : cs_calls st !! t = Some c -> c_phase c = Loop ->
      call_step st (mkCState (cs_clock st) (cs_dedup st) (cs_world st)
        (<[t := move (Stamped (cs_clock st)) c]> (cs_calls st)) (cs_past st))
  | cs_admit t c now a d' st : cs_calls st !! t = Some c -> c_phase c = Stamped now ->
      admit_call now (c_key c) (cs_dedup st) = (a, d') ->
      call_step st (mkCState (cs_clock st) d' (cs_world st)
        (<[t := move (decided a) c]> (cs_calls st))
        (cs_past st ++ begun a t (c_key c) (cs_clock st)))
  | cs_wake t c p e st : cs_calls st !! t = Some c -> c_phase c = Waiting p ->
      d_heap (cs_dedup st) !! p = Some e -> closed e = true ->
      call_step st (mkCState (cs_clock st) (cs_dedup st) (cs_world st)
        (<[t := move Loop c]> (cs_calls st)) (cs_past st))
  | cs_run t c m ep e conn w' ps r wt st : cs_calls st !! t = Some c -> c_phase c = Running m ->
      nextGID (w_mm (cs_world st)) < 2 ^ 32 - 1 -> cref conn = cref (c_conn c) ->
      matchmaking_call ep e conn (c_req c) (cs_world st) = Some (Returns w' ps r wt) ->
      call_step st (mkCState (cs_clock st) (cs_dedup st) w'
        (<[t := move (after_handler m r) c]> (cs_calls st)) (cs_past st ++ [Ran t (c_key c) r]))
  | cs_complete t c p r st : cs_calls st !! t = Some c -> c_phase c = Handled (Owner p) r ->
      call_step st (mkCState (cs_clock st) (complete (cs_clock st) (c_key c) p r (cs_dedup st)) (cs_world st)
        (<[t := move (Returned r) c]> (cs_calls st))
        (cs_past st ++ match r with Some _ => [Answered (c_key c) (cs_clock st + d_ttl (cs_dedup st))] | None => [] end))
  | cs_gone pid st :
      call_step st (mkCState (cs_clock st) (cs_dedup st)
        (with_mm (RemovePlayer pid (w_mm (cs_world st))) (cs_world st)) (cs_calls st) (cs_past st ++ [Gone pid])).

Definition calls_start (clock ttl max : Z) (w : World) : cstate :=
  mkCState clock (newRMCDeduplicator ttl max) w ∅ [].

(** ** The store *)
Lemma matchmaking_call_step ep e c req w w' ps r wt :
  nextGID (w_mm w) < 2 ^ 32 - 1 ->
  matchmaking_call ep e c req w = Some (Returns w' ps r wt) -> world_step s pe w w'.
Proof.
  intros Hlt. unfold matchmaking_call. repeat case_bool_decide; intros; simplify_eq.
  - by eapply ws_extension.
  - by eapply ws_matchmaking.
  - by eapply ws_matchmaking_ext.
Qed.

Lemma call_step_world st st' :
  call_step st st' -> rtc (world_step s pe) (cs_world st) (cs_world st').
Proof.
  intros []; cbn; try done.
  - by eapply rtc_once, matchmaking_call_step.
  - apply rtc_once, ws_disconnect.
Qed.

Lemma calls_world st st' : rtc call_step st st' -> rtc (world_step s pe) (cs_world st) (cs_world st').
Proof. induction 1 as [|x y z Hs _ IH]; [done|]. etrans; [by apply call_step_world|done]. Qed.

(** ** The deduplicator *)

(** The goroutine of the deduplicator's own transition system that a call is. *)
Definition as_thread (c : call) : option thread :=
  if deduplicateMatchmaking (c_req c) then
    match c_phase c with
    | Loop | Stamped _ => Some (TLoop (c_key c))
    | Waiting p => Some (TWaiting (c_key c) p)
    | Running (Owner p) | Handled (Owner p) _ => Some (TExecuting (c_key c) p)
    | Running _ | Handled _ _ => Some (TBypassing (c_key c))
    | Returned r => Some (TReturned (c_key c) r)
    end
  else None.

Definition as_config (st : cstate) : config := mkCfg (cs_dedup st) (omap as_thread (cs_calls st)).

(** Only deduplicated calls use the deduplicator, and they do. *)
Definition in_place (c : call) : Prop :=
  match c_phase c with
  | Running Direct => deduplicateMatchmaking (c_req c) = false
  | Running _ | Loop | Stamped _ | Waiting _ => deduplicateMatchmaking (c_req c) = true
  | Handled m _ => deduplicateMatchmaking (c_req c) = true /\ exists p, m = Owner p
  | Returned _ => True
  end.

Lemma in_place_step st st' :
  call_step st st' -> map_Forall (fun _ => in_place) (cs_calls st) ->
  map_Forall (fun _ => in_place) (cs_calls st').
Proof.
  intros Hs Hp.
  destruct Hs as [|t conn req st|t c st Hc Hph|t c now a d' st Hc Hph|t c p e st Hc Hph
    |t c m ep e conn w' ps r wt st Hc Hph|t c p r st Hc Hph|]; cbn [cs_calls]; try done;
    (apply map_Forall_insert_2; [|done]); try (specialize (Hp _ _ Hc); unfold in_place in Hp; rewrite Hph in Hp);
    unfold in_place; cbn; try done.
  - unfold arrival. by destruct (deduplicateMatchmaking req) eqn:?.
  - by destruct a.
  - destruct m; cbn; eauto.
Qed.

(** A step of a call that the deduplicator sees as a step of its goroutine, or not at all. *)
Lemma as_config_insert t c st d w past clock :
  as_config (mkCState clock d w (<[t := c]> (cs_calls st)) past) =
  mkCfg d (match as_thread c with Some th => <[t := th]> | None => delete t end (omap as_thread (cs_calls st))).
Proof. unfold as_config. cbn. by rewrite omap_insert. Qed.

Lemma as_thread_lookup t c st th :
  cs_calls st !! t = Some c -> as_thread c = Some th -> threads (as_config st) !! t = Some th.
Proof. intros Hc Ht. cbn. by rewrite lookup_omap, Hc. Qed.

Lemma as_config_same t c c' st w past clock :
  cs_calls st !! t = Some c -> as_thread c' = as_thread c ->
  as_config (mkCState clock (cs_dedup st) w (<[t := c']> (cs_calls st)) past) = as_config st.
Proof.
  intros Hc Ht. rewrite as_config_insert, Ht. unfold as_config. f_equal.
  destruct (as_thread c) as [th|] eqn:E; [apply insert_id|apply delete_id]; by rewrite lookup_omap, Hc.
Qed.

Lemma call_step_dedup st st' :
  map_Forall (fun _ => in_place) (cs_calls st) -> call_step st st' ->
  rtc dedup_step (as_config st) (as_config st').
Proof.
  intros Hp Hs.
  destruct Hs as [|t conn req st Ht|t c st Hc Hph|t c now a d' st Hc Hph Ha|t c p e st Hc Hph He Hcl
    |t c m ep e conn w' ps r wt st Hc Hph|t c p r st Hc Hph|]; try done;
    try (pose proof (Hp _ _ Hc) as Hpl; unfold in_place in Hpl; rewrite Hph in Hpl).
  - rewrite as_config_insert. unfold as_thread, arrival. cbn [c_req c_phase].
    destruct (deduplicateMatchmaking req).
    + apply rtc_once. apply (ds_arrive t _ (as_config st)). cbn. by rewrite lookup_omap, Ht.
    + rewrite delete_id; [done|]. by rewrite lookup_omap, Ht.
  - rewrite (as_config_same t c); [done|done|]. unfold as_thread. cbn. by rewrite Hph.
  - rewrite as_config_insert. assert (as_thread (move (decided a) c) = Some (after_admit (c_key c) a)) as ->
      by (unfold as_thread; cbn; rewrite Hpl; by destruct a).
    apply rtc_once. apply (ds_admit t (c_key c) now (as_config st)); [|done].
    apply (as_thread_lookup _ c); [done|]. unfold as_thread. by rewrite Hpl, Hph.
  - rewrite as_config_insert. unfold as_thread at 1. cbn [move c_req c_phase]. rewrite Hpl. apply rtc_once.
    apply (ds_wake t (c_key c) p e (as_config st)); [|done|done].
    apply (as_thread_lookup _ c); [done|]. unfold as_thread. by rewrite Hpl, Hph.
  - destruct m as [| |p].
    + rewrite (as_config_same t c); [done|done|]. unfold as_thread. cbn. by rewrite Hpl.
    + rewrite as_config_insert. unfold as_thread at 1. cbn [move c_req c_phase after_handler]. rewrite Hpl.
      apply rtc_once. apply (ds_bypass t (c_key c) r (as_config st)).
      apply (as_thread_lookup _ c); [done|]. unfold as_thread. by rewrite Hpl, Hph.
    + rewrite (as_config_same t c); [done|done|]. unfold as_thread. cbn. by rewrite Hph.
  - destruct Hpl as [Hpl _]. rewrite as_config_insert. unfold as_thread at 1. cbn [move c_req c_phase]. rewrite Hpl.
    apply rtc_once. apply (ds_finish t (c_key c) p (cs_clock st) r (as_config st)).
    apply (as_thread_lookup _ c); [done|]. unfold as_thread. by rewrite Hpl, Hph.
Qed.

(** ** Where answers come from *)
Definition result (ph : phase) : option (option RMCMessage) :=
  match ph with Returned r | Handled _ r => Some r | _ => None end.

Lemma moved t c (m : gmap Z call) t' c' :
  <[t := c]> m !! t' = Some c' -> (t' = t /\ c' = c) \/ m !! t' = Some c'.
Proof. intros [[-> ->]|[_ ?]]%lookup_insert_Some; auto. Qed.

Record origin_inv (st : cstate) : Prop := {
  oi_inj : forall k1 k2 p, entries (cs_dedup st) !! k1 = Some p -> entries (cs_dedup st) !! k2 = Some p -> k1 = k2;
  oi_source : forall key p e, entries (cs_dedup st) !! key = Some p -> d_heap (cs_dedup st) !! p = Some e ->
    ready e = false -> exists t, Ran t key (e_response e) ∈ cs_past st;
  oi_answer : forall t c r, cs_calls st !! t = Some c -> result (c_phase c) = Some r ->
    exists t', Ran t' (c_key c) r ∈ cs_past st
}.

(** A step that leaves the deduplicator alone. *)
Lemma origin_call st clock w t c evs :
  origin_inv st ->
  (forall r, result (c_phase c) = Some r -> exists t', Ran t' (c_key c) r ∈ cs_past st ++ evs) ->
  origin_inv (mkCState clock (cs_dedup st) w (<[t := c]> (cs_calls st)) (cs_past st ++ evs)).
Proof.
  intros [Hi Hs Ha] Hc. split; cbn; [done| |].
  - intros key p e Hk Hp Hr. destruct (Hs _ _ _ Hk Hp Hr) as [t' ?]. exists t'. apply elem_of_app. by left.
  - intros t1 c1 r [[-> ->]|Hc1]%moved Hr; [by apply Hc|].
    destruct (Ha _ _ _ Hc1 Hr) as [t' ?]. exists t'. apply elem_of_app. by left.
Qed.

Lemma admitted_source key d a d' :
  admitted key d a d' -> (forall p e, d_heap d !! p = Some e -> p < d_next d) ->
  (forall k p, entries d !! k = Some p -> is_Some (d_heap d !! p)) ->
  forall k p, entries d' !! k = Some p ->
    (entries d !! k = Some p /\ d_heap d' !! p = d_heap d !! p /\ p <> d_next d) \/
    (k = key /\ a = Execute p /\ p = d_next d /\ d_heap d' !! p = Some (mkEntry true false None 0)).
Proof.
  intros (es & [Hsub _] & _ & _ & Hcase) Hb Hent k p Hk.
  assert (forall k p, es !! k = Some p -> entries d !! k = Some p /\ p <> d_next d) as Hes.
  { intros k0 p0 H0. assert (entries d !! k0 = Some p0) as H1 by (by eapply lookup_weaken). split; [done|].
    destruct (Hent _ _ H1) as [e He]. specialize (Hb _ _ He). lia. }
  destruct a as [q|r| |q]; try (destruct Hcase as (E1 & E2 & _); rewrite E1 in Hk;
    destruct (Hes _ _ Hk); left; by rewrite E2).
  destruct Hcase as (-> & Hn & _ & E1 & E2 & _). rewrite E1 in Hk. rewrite E2.
  apply lookup_insert_Some in Hk as [[<- <-]|[_ Hk]]; [right; by rewrite lookup_insert_eq|].
  destruct (Hes _ _ Hk). left. by rewrite lookup_insert_ne.
Qed.

Lemma origin_admit st t c now a d' :
  dedup_inv (as_config st) -> origin_inv st -> cs_calls st !! t = Some c ->
  admit_call now (c_key c) (cs_dedup st) = (a, d') ->
  origin_inv (mkCState (cs_clock st) d' (cs_world st) (<[t := move (decided a) c]> (cs_calls st))
    (cs_past st ++ begun a t (c_key c) (cs_clock st))).
Proof.
  intros Hd [Hi Hs Ha] Hc Had.
  pose proof (admitted_source _ _ _ _ (admit_spec _ _ _ _ _ (di_entry _ Hd) Had)
    (fun p e Hp => proj1 (di_heap _ Hd p e Hp)) (di_entry _ Hd)) as Hsrc. cbn in Hsrc.
  assert (forall ev evs, ev ∈ cs_past st -> ev ∈ cs_past st ++ evs) as Hin
    by (intros; apply elem_of_app; by left).
  split; cbn.
  - intros k1 k2 p H1 H2. destruct (Hsrc _ _ H1) as [(E1 & _ & N1)|(-> & _ & E1 & _)],
      (Hsrc _ _ H2) as [(E2 & _ & N2)|(-> & _ & E2 & _)]; (done || by eapply Hi).
  - intros key p e Hk Hp Hr. destruct (Hsrc _ _ Hk) as [(E1 & E2 & _)|(-> & _ & _ & E2)].
    + rewrite E2 in Hp. destruct (Hs _ _ _ E1 Hp Hr) as [t' ?]. eauto.
    + rewrite E2 in Hp. by simplify_eq.
  - intros t1 c1 r [[-> ->]|Hc1]%moved Hr; [|destruct (Ha _ _ _ Hc1 Hr) as [t' ?]; eauto].
    destruct a as [p|r0| |p]; cbn in Hr; simplify_eq. change (c_key (move (decided (Replay r)) c)) with (c_key c).
    destruct (replay_source _ _ _ _ _ Had) as (p & e & Hk & Hp & Hrd & Her).
    destruct (Hs _ _ _ Hk Hp Hrd) as [t' ?]. rewrite Her in *. eauto.
Qed.

(** The call that owns an entry, seen from the deduplicator. *)
Lemma owner_entry st t c p r :
  dedup_inv (as_config st) -> map_Forall (fun _ => in_place) (cs_calls st) ->
  cs_calls st !! t = Some c -> c_phase c = Handled (Owner p) r ->
  entries (cs_dedup st) !! c_key c = Some p /\
  exists e, d_heap (cs_dedup st) !! p = Some e /\ ready e = true.
Proof.
  intros Hd Hp Hc Hph. pose proof (Hp _ _ Hc) as Hpl. unfold in_place in Hpl. rewrite Hph in Hpl.
  apply (di_exec _ Hd t). apply (as_thread_lookup _ c); [done|]. unfold as_thread. by rewrite (proj1 Hpl), Hph.
Qed.

Lemma origin_complete st t c p r evs :
  dedup_inv (as_config st) -> map_Forall (fun _ => in_place) (cs_calls st) -> origin_inv st ->
  cs_calls st !! t = Some c -> c_phase c = Handled (Owner p) r ->
  origin_inv (mkCState (cs_clock st) (complete (cs_clock st) (c_key c) p r (cs_dedup st)) (cs_world st)
    (<[t := move (Returned r) c]> (cs_calls st)) (cs_past st ++ evs)).
Proof.
  intros Hd Hp [Hi Hs Ha] Hc Hph. destruct (owner_entry st t c p r Hd Hp Hc Hph) as [Hk _].
  destruct (complete_owned (cs_clock st) (c_key c) p r _ Hk) as (es & e & -> & _ & _ & He & Hsub & _).
  assert (forall k q, es !! k = Some q -> entries (cs_dedup st) !! k = Some q) as Hes
    by (intros; by eapply lookup_weaken).
  assert (forall ev, ev ∈ cs_past st -> ev ∈ cs_past st ++ evs) as Hin by (intros; apply elem_of_app; by left).
  assert (exists t', Ran t' (c_key c) r ∈ cs_past st) as [t0 Ht0] by (apply (Ha t c r Hc); by rewrite Hph).
  split; cbn.
  - intros k1 k2 q H1 H2. by apply (Hi k1 k2 q); apply Hes.
  - intros k q e' Hkq [[<- <-]|[_ Hq]]%lookup_insert_Some Hr.
    + rewrite (Hi k (c_key c) p (Hes _ _ Hkq) Hk), He. eauto.
    + destruct (Hs k q e' (Hes _ _ Hkq) Hq Hr) as [t' ?]. eauto.
  - intros t1 c1 r1 [[-> ->]|Hc1]%moved Hr; [|destruct (Ha _ _ _ Hc1 Hr) as [t' ?]; eauto].
    cbn in Hr. injection Hr as <-. change (c_key (move (Returned r) c)) with (c_key c). eauto.
Qed.

Lemma origin_step st st' :
  dedup_inv (as_config st) -> map_Forall (fun _ => in_place) (cs_calls st) ->
  call_step st st' -> origin_inv st -> origin_inv st'.
Proof.
  intros Hd Hp Hs Ho.
  destruct Hs as [|t conn req st Ht|t c st Hc Hph|t c now a d' st Hc Hph Had|t c p e st Hc Hph He Hcl
    |t c m ep e conn w' ps r wt st Hc Hph|t c p r st Hc Hph|pid st].
  - by destruct Ho.
  - rewrite <- (app_nil_r (cs_past st)). apply origin_call; [done|]. intros r. unfold arrival.
    by destruct (deduplicateMatchmaking req).
  - rewrite <- (app_nil_r (cs_past st)). by apply origin_call.
  - by eapply origin_admit.
  - rewrite <- (app_nil_r (cs_past st)). by apply origin_call.
  - apply origin_call; [done|]. intros r' Hr. exists t. change (c_key (move _ c)) with (c_key c).
    assert (r' = r) as -> by (by destruct m; cbn in Hr; simplify_eq). apply elem_of_app. right.
    by apply list_elem_of_singleton.
  - by eapply origin_complete.
  - destruct Ho as [Hi Hsrc Ha]. split; cbn; [done| |].
    + intros key p e Hk Hpe Hr. destruct (Hsrc _ _ _ Hk Hpe Hr) as [t ?]. exists t. apply elem_of_app. by left.
    + intros t c r Hc Hr. destruct (Ha _ _ _ Hc Hr) as [t' ?]. exists t'. apply elem_of_app. by left.
Qed.

(** ** No call runs twice *)
Definition ran_by (ev : event) : option Z := match ev with Ran t _ _ => Some t | _ => None end.

Record once_inv (st : cstate) : Prop := {
  on_after : forall t, t ∈ omap ran_by (cs_past st) ->
    exists c, cs_calls st !! t = Some c /\ is_Some (result (c_phase c));
  on_nodup : NoDup (omap ran_by (cs_past st))
}.

Lemma once_call st clock d w t c evs :
  once_inv st -> omap ran_by evs = [] ->
  (forall c0, cs_calls st !! t = Some c0 -> is_Some (result (c_phase c0)) -> is_Some (result (c_phase c))) ->
  once_inv (mkCState clock d w (<[t := c]> (cs_calls st)) (cs_past st ++ evs)).
Proof.
  intros [Ha Hn] He Hc. split; cbn; rewrite omap_app, He, app_nil_r; [|done].
  intros t' Ht'. destruct (Ha t' Ht') as (c0 & Hc0 & Hr). destruct (decide (t = t')) as [<-|Hne].
  - exists c. rewrite lookup_insert_eq. eauto.
  - exists c0. by rewrite lookup_insert_ne.
Qed.

Lemma once_step st st' : call_step st st' -> once_inv st -> once_inv st'.
Proof.
  intros Hs Ho.
  destruct Hs as [|t conn req st Ht|t c st Hc Hph|t c now a d' st Hc Hph Had|t c p e st Hc Hph He Hcl
    |t c m ep e conn w' ps r wt st Hc Hph|t c p r st Hc Hph|pid st].
  - by destruct Ho.
  - rewrite <- (app_nil_r (cs_past st)). apply once_call; [done|done|]. by rewrite Ht.
  - rewrite <- (app_nil_r (cs_past st)). apply once_call; [done|done|].
    intros c0. rewrite Hc. intros [= <-]. rewrite Hph. by intros [].
  - apply once_call; [done|by destruct a|]. intros c0. rewrite Hc. intros [= <-]. rewrite Hph. by intros [].
  - rewrite <- (app_nil_r (cs_past st)). apply once_call; [done|done|].
    intros c0. rewrite Hc. intros [= <-]. rewrite Hph. by intros [].
  - destruct Ho as [Ha Hn]. assert (t ∉ omap ran_by (cs_past st)) as Hnew.
    { intros Hin. destruct (Ha t Hin) as (c0 & Hc0 & [x Hx]). rewrite Hc in Hc0. injection Hc0 as <-.
      by rewrite Hph in Hx. }
    assert (exists r0, result (after_handler m r) = Some r0) as [r0 Hr0] by (destruct m; by eexists).
    split; cbn; rewrite omap_app; cbn.
    + intros t' [Hin|<-%list_elem_of_singleton]%elem_of_app.
      * destruct (Ha t' Hin) as (c0 & Hc0 & Hr). exists c0. rewrite lookup_insert_ne; [done|].
        intros <-. done.
      * eexists. rewrite lookup_insert_eq. split; [done|]. cbn. by rewrite Hr0.
    + apply NoDup_app. split_and!; [done| |apply NoDup_singleton].
      intros x Hx ->%list_elem_of_singleton. done.
  - apply once_call; [done|by destruct r|]. intros c0 _ _. by eexists.
  - destruct Ho as [Ha Hn]. split; cbn; rewrite omap_app; cbn; by rewrite app_nil_r.
Qed.

(** ** No second execution before the answer expires *)
Definition windowed (past : list event) : Prop :=
  forall i j t key n expires, (j < i)%nat ->
    past !! i = Some (Began t key n) -> past !! j = Some (Answered key expires) -> expires <= n.

Lemma windowed_app past evs :
  windowed past -> (length evs <= 1)%nat ->
  (forall t key n expires, Began t key n ∈ evs -> Answered key expires ∈ past -> expires <= n) ->
  windowed (past ++ evs).
Proof.
  intros Hw Hl He i j t key n expires Hji Hi Hj.
  apply lookup_app_Some in Hi as [Hi|[Hge Hi]].
  - apply (Hw i j t key n expires Hji Hi). rewrite lookup_app_l in Hj; [done|].
    apply lookup_lt_Some in Hi. lia.
  - assert (i = length past) as -> by (apply lookup_lt_Some in Hi; lia).
    rewrite lookup_app_l in Hj by done.
    eapply He; [by eapply list_elem_of_lookup_2|by eapply list_elem_of_lookup_2].
Qed.

Record window_inv (st : cstate) : Prop := {
  wi_stamp : forall t c now, cs_calls st !! t = Some c -> c_phase c = Stamped now -> now <= cs_clock st;
  wi_live : forall key expires, Answered key expires ∈ cs_past st -> expires <= cs_clock st \/
    exists p e, entries (cs_dedup st) !! key = Some p /\ d_heap (cs_dedup st) !! p = Some e /\
      ready e = false /\ e_expires e = expires;
  wi_window : windowed (cs_past st)
}.

(** A step without effect on the deduplicator or the answers. *)
Lemma window_quiet st clock w calls evs :
  window_inv st -> cs_clock st <= clock ->
  (forall t c now, calls !! t = Some c -> c_phase c = Stamped now ->
     (cs_calls st !! t = Some c) \/ now <= clock) ->
  (length evs <= 1)%nat -> (forall ev, ev ∈ evs -> exists t key r pid, ev = Ran t key r \/ ev = Gone pid) ->
  window_inv (mkCState clock (cs_dedup st) w calls (cs_past st ++ evs)).
Proof.
  intros [Hs Hl Hw] Hc Hcalls Hlen Hev. split; cbn.
  - intros t c now Ht Hph. destruct (Hcalls t c now Ht Hph) as [Hold|?]; [|done].
    specialize (Hs _ _ _ Hold Hph). lia.
  - intros key expires [Hin|Hin]%elem_of_app; [destruct (Hl _ _ Hin); [left; lia|by right]|].
    destruct (Hev _ Hin) as (? & ? & ? & ? & [|]); done.
  - apply windowed_app; [done|done|]. intros t key n expires Hin.
    destruct (Hev _ Hin) as (? & ? & ? & ? & [|]); done.
Qed.

Lemma window_admit st t c now a d' :
  dedup_inv (as_config st) -> window_inv st -> cs_calls st !! t = Some c -> c_phase c = Stamped now ->
  admit_call now (c_key c) (cs_dedup st) = (a, d') ->
  window_inv (mkCState (cs_clock st) d' (cs_world st) (<[t := move (decided a) c]> (cs_calls st))
    (cs_past st ++ begun a t (c_key c) (cs_clock st))).
Proof.
  intros Hd [Hs Hl Hw] Hc Hph Had. pose proof (Hs _ _ _ Hc Hph) as Hnow.
  assert (forall key expires, Answered key expires ∈ cs_past st -> expires <= cs_clock st \/
    (exists p e, entries d' !! key = Some p /\ d_heap d' !! p = Some e /\ ready e = false /\ e_expires e = expires) /\
    (key = c_key c -> exists r, a = Replay r)) as Hkeep.
  { intros key expires [Hx|(p & e & Hk & Hp & Hr & <-)]%Hl; [by left|].
    destruct (decide (now < e_expires e)) as [Hlt|]; [right|left; lia].
    destruct (admit_keeps now (c_key c) _ a d' key p e (fun q e' Hq => proj1 (di_heap _ Hd q e' Hq)) Hk Hp
      (or_intror Hlt) Had) as (H1 & H2 & H3).
    split; [by exists p, e|]. intros Heq. specialize (H3 Heq). rewrite Hr in H3. by eexists. }
  assert (forall key expires, Answered key expires ∈
    cs_past st ++ begun a t (c_key c) (cs_clock st) ->
    Answered key expires ∈ cs_past st) as Hold.
  { intros key expires [?|Hin]%elem_of_app; [done|].
    destruct a; (by apply elem_of_nil in Hin) || (by apply list_elem_of_singleton in Hin). }
  split; cbn.
  - intros t1 c1 n1 [[-> ->]|H1]%moved; [by destruct a|by apply (Hs t1)].
  - intros key expires Hin%Hold. destruct (Hkeep _ _ Hin) as [|[? _]]; auto.
  - apply windowed_app; [done|destruct a; cbn; lia|]. intros t1 key n expires Hin Ha.
    destruct (decide (expires <= n)) as [|Hn]; [done|exfalso].
    destruct a as [| | |p]; try (by apply elem_of_nil in Hin);
      apply list_elem_of_singleton in Hin; injection Hin as -> -> ->;
      (destruct (Hkeep _ _ Ha) as [|[_ Hr]]; [done|]); by destruct (Hr eq_refl).
Qed.

Lemma window_complete st t c p r :
  dedup_inv (as_config st) -> map_Forall (fun _ => in_place) (cs_calls st) -> window_inv st ->
  cs_calls st !! t = Some c -> c_phase c = Handled (Owner p) r ->
  window_inv (mkCState (cs_clock st) (complete (cs_clock st) (c_key c) p r (cs_dedup st)) (cs_world st)
    (<[t := move (Returned r) c]> (cs_calls st))
    (cs_past st ++ match r with Some _ => [Answered (c_key c) (cs_clock st + d_ttl (cs_dedup st))] | None => [] end)).
Proof.
  intros Hd Hpl [Hs Hl Hw] Hc Hph. destruct (owner_entry st t c p r Hd Hpl Hc Hph) as (Hk & e0 & Hp0 & Hr0).
  destruct (complete_owned (cs_clock st) (c_key c) p r _ Hk) as (es & e & -> & Hre & _ & _ & _ & Hsame & Hcase).
  assert (forall key expires, Answered key expires ∈ cs_past st -> expires <= cs_clock st \/
    exists q e', es !! key = Some q /\ <[p := e]> (d_heap (cs_dedup st)) !! q = Some e' /\
      ready e' = false /\ e_expires e' = expires) as Hkeep.
  { intros key expires [Hx|(q & e' & Hq & Hq' & Hr & <-)]%Hl; [by left|right].
    assert (q <> p) as Hne by congruence. assert (key <> c_key c) as Hkey by congruence.
    exists q, e'. by rewrite Hsame, lookup_insert_ne by done. }
  split; cbn.
  - intros t1 c1 n1 [[-> ->]|H1]%moved; [done|by apply (Hs t1)].
  - intros key expires [Hin|Hin]%elem_of_app; [by apply Hkeep|]. destruct r as [r|]; [|by apply elem_of_nil in Hin].
    apply list_elem_of_singleton in Hin. injection Hin as -> ->. right. destruct Hcase as [Hcase He].
    exists p, e. by rewrite lookup_insert_eq.
  - apply windowed_app; [done|destruct r; cbn; lia|]. intros t1 key n expires Hin.
    destruct r; [by apply list_elem_of_singleton in Hin|by apply elem_of_nil in Hin].
Qed.

Lemma window_step st st' :
  dedup_inv (as_config st) -> map_Forall (fun _ => in_place) (cs_calls st) ->
  call_step st st' -> window_inv st -> window_inv st'.
Proof.
  intros Hd Hp Hs Ho.
  assert (forall t c, forall t' c' now, <[t := c]> (cs_calls st) !! t' = Some c' -> c_phase c' = Stamped now ->
    (cs_calls st !! t' = Some c') \/ c' = c) as Hmv by (intros t c t' c' now [[_ ->]|?]%moved _; auto).
  destruct Hs as [now st Hle|t conn req st Ht|t c st Hc Hph|t c now a d' st Hc Hph Had|t c p e st Hc Hph He Hcl
    |t c m ep e conn w' ps r wt st Hc Hph|t c p r st Hc Hph|pid st];
    try (rewrite <- (app_nil_r (cs_past st)); apply window_quiet; [done|lia| |cbn; lia|by intros ? ?%elem_of_nil]).
  - auto.
  - intros t' c' now Ht' Hph'. destruct (Hmv _ _ _ _ _ Ht' Hph') as [|Heq]; [by left|]. subst c'.
    cbn in Hph'. unfold arrival in Hph'. by destruct (deduplicateMatchmaking req).
  - intros t' c' now Ht' Hph'. destruct (Hmv _ _ _ _ _ Ht' Hph') as [|Heq]; [by left|]. subst c'.
    cbn in Hph'. injection Hph' as <-. right. lia.
  - by apply window_admit with now.
  - intros t' c' now Ht' Hph'. destruct (Hmv _ _ _ _ _ Ht' Hph') as [|Heq]; [by left|]. by subst c'.
  - apply window_quiet; [done|lia| |cbn; lia|].
    + intros t' c' now Ht' Hph'. destruct (Hmv _ _ _ _ _ Ht' Hph') as [|Heq]; [by left|]. subst c'. by destruct m.
    + intros ev ->%list_elem_of_singleton. exists t, (c_key c), r, 0. by left.
  - by apply window_complete.
  - apply window_quiet; [done|lia|auto|cbn; lia|]. intros ev ->%list_elem_of_singleton.
    exists 0, (mkKey 0 0 0 0 0 []), None, pid. by right.
Qed.

(** ** All together *)
Record calls_inv (st : cstate) : Prop := {
  cv_place : map_Forall (fun _ => in_place) (cs_calls st);
  cv_dedup : dedup_inv (as_config st);
  cv_origin : origin_inv st;
  cv_once : once_inv st;
  cv_window : window_inv st
}.

Lemma calls_start_inv clock ttl max w : calls_inv (calls_start clock ttl max w).
Proof.
  split; [apply map_Forall_empty| | | |].
  - unfold as_config. cbn. rewrite omap_empty. apply initial_config_inv.
  - split; cbn; intros *; rewrite lookup_empty; done.
  - split; cbn; [by intros t ?%elem_of_nil|apply NoDup_nil_2].
  - split; cbn; [by intros *; rewrite lookup_empty|by intros * ?%elem_of_nil|by intros i j *; rewrite lookup_nil].
Qed.

Lemma call_step_inv st st' : call_step st st' -> calls_inv st -> calls_inv st'.
Proof.
  intros Hs [Hp Hd Ho Hn Hw]. split; eauto using in_place_step, origin_step, once_step, window_step.
  pose proof (call_step_dedup _ _ Hp Hs) as Hst. clear -Hst Hd. induction Hst; eauto using dedup_step_inv.
Qed.

Lemma calls_reachable clock ttl max w st :
  rtc call_step (calls_start clock ttl max w) st -> calls_inv st.
Proof.
  intros Hr. pose proof (calls_start_inv clock ttl max w) as Hi. revert Hi.
  induction Hr; eauto using call_step_inv.
Qed.

Lemma overlapping_inv clock ttl max cfg rttl ts st :
  rtc call_step (calls_start clock ttl max (initial_world cfg rttl ts)) st -> store_inv (w_mm (cs_world st)).
Proof. intros Hr%calls_world. eapply reachable_inv; [exact Hr|]. apply initial_inv. Qed.

(** [C3] However the calls overlap: the store makes steps of its own only, so every lobby is
    consistent; a call that returned was answered with the result of running a request
    with the same key (connection, account, method, call number and body digest), its own
    or an equal call's; and no call ran its handler twice. *)
Theorem overlapping_calls clock ttl max cfg rttl ts st :
  rtc call_step (calls_start clock ttl max (initial_world cfg rttl ts)) st ->
  rtc (world_step s pe) (initial_world cfg rttl ts) (cs_world st) /\
  store_inv (w_mm (cs_world st)) /\
  (forall t c r, cs_calls st !! t = Some c -> c_phase c = Returned r ->
     exists t', Ran t' (c_key c) r ∈ cs_past st) /\
  NoDup (omap ran_by (cs_past st)).
Proof.
  intros Hr. pose proof (calls_reachable _ _ _ _ _ Hr) as [_ _ Ho Hn _].
  pose proof (calls_world _ _ Hr) as Hw. split_and!; [exact Hw| | |apply Hn].
  - by eapply overlapping_inv.
  - intros t c r Hc Hph. apply (oi_answer _ Ho t c r Hc). by rewrite Hph.
Qed.

(** [C4] Retries that overlap the call they repeat, or each other: a request that was answered
    does not begin to execute again before the clock has reached the expiry of the answer,
    neither as the owner of an entry nor, when the table is full, without one; and of the
    calls with one key at most one is executing as the owner of its entry. *)
Theorem overlapping_retries clock ttl max w st :
  rtc call_step (calls_start clock ttl max w) st ->
  (forall i j t key n expires, (j < i)%nat ->
     cs_past st !! j = Some (Answered key expires) -> cs_past st !! i = Some (Began t key n) -> expires <= n) /\
  (forall t1 t2 c1 c2 p1 p2, cs_calls st !! t1 = Some c1 -> cs_calls st !! t2 = Some c2 ->
     c_key c1 = c_key c2 -> c_phase c1 = Running (Owner p1) -> c_phase c2 = Running (Owner p2) -> t1 = t2).
Proof.
  intros Hr. destruct (calls_reachable _ _ _ _ _ Hr) as [Hp Hd _ _ Hw]. split.
  - intros i j t key n expires Hji Hj Hi. by eapply (wi_window _ Hw i j).
  - intros t1 t2 c1 c2 p1 p2 H1 H2 Hk E1 E2.
    assert (forall t c p, cs_calls st !! t = Some c -> c_phase c = Running (Owner p) ->
      threads (as_config st) !! t = Some (TExecuting (c_key c) p)) as Hex.
    { intros t c p Hc Hph. apply (as_thread_lookup _ c); [done|]. pose proof (Hp _ _ Hc) as Hpl.
      unfold in_place in Hpl. unfold as_thread. rewrite Hph in Hpl |- *. by rewrite Hpl. }
    pose proof (Hex _ _ _ H1 E1) as T1. pose proof (Hex _ _ _ H2 E2) as T2. rewrite <- Hk in T2.
    destruct (di_exec _ Hd _ _ _ T1) as [Q1 _], (di_exec _ Hd _ _ _ T2) as [Q2 _].
    assert (p1 = p2) as -> by congruence. by eapply (di_once _ Hd).
Qed.

(** [C40] A call in flight when its player is removed: the removal clears every lobby, then the
    call runs and seats the player again.  The connection is gone by then, so nothing
    removes the player a second time. *)
Theorem late_call_haunts st t c m e conn param rest :
  cs_calls st !! t = Some c -> c_phase c = Running m -> cref conn = cref (c_conn c) -> PID (cobj conn) <> 0 ->
  Protocol (c_req c) = ProtocolMatchmakeExtension -> Method (c_req c) = MethodAutoMatchmakeWithParamPostpone ->
  read_auto s (Body (c_req c)) = (param, rest) -> si_err rest = false ->
  store_inv (w_mm (cs_world st)) -> nextGID (w_mm (cs_world st)) < 2 ^ 32 - 1 ->
  t_commit (he_call e) < t_reserve (he_call e) + reservationTTL (w_mm (cs_world st)) ->
  exists st1 st2, call_step st st1 /\ call_step st1 st2 /\
    (forall gid g, gatherings (w_mm (cs_world st1)) !! gid = Some g -> PID (cobj conn) ∉ participants g) /\
    exists gid g, gatherings (w_mm (cs_world st2)) !! gid = Some g /\ PID (cobj conn) ∈ participants g.
Proof.
  intros Hc Hph Href Hz Hpr Hme Hrd Herr Hinv Hlt Ht. set (pid := PID (cobj conn)).
  destruct (remove_player_rest pid (w_mm (cs_world st))) as (_ & Hn & Hr).
  set (w1 := with_mm (RemovePlayer pid (w_mm (cs_world st))) (cs_world st)).
  destruct (auto_matchmake_seats s pe empty_registry (he_call e) conn (c_req c) w1 param rest)
    as (g & joined & w2 & Hrun & Hg & Hin & _); [by apply remove_player_inv|cbn; by rewrite Hn|cbn; by rewrite Hr|done|done|].
  eexists _, _. split; [apply (cs_gone pid)|]. split.
  - eapply (cs_run t c m empty_registry e conn); cbn; [done|done|by rewrite Hn|done|].
    unfold matchmaking_call. rewrite bool_decide_eq_true_2 by done. f_equal. unfold ExtensionHandler.
    rewrite Hme. exact Hrun.
  - cbn. split.
    + intros gid g' Hg'. by apply (remove_player_clears pid _ Hz Hinv) in Hg' as [? _].
    + by exists (ms_ID (session g)), g.
Qed.
End Concurrent.

(** ** Schedules

    A schedule names the call that moves next; a call that cannot move is left alone. *)
Section Schedule.
Context `{GoRange} (s : Settings) (pe : ProcEnv) (e : HEnv).

Inductive action := Tick (now : Z) | Arrive (t : Z) (conn : Conn) (req : RMCMessage) | Turn (t : Z) | Leave (pid : Z).

Definition put_call (t : Z) (c : call) (st : cstate) : cstate :=
  mkCState (cs_clock st) (cs_dedup st) (cs_world st) (<[t := c]> (cs_calls st)) (cs_past st).

(** The next step of a call. *)
Definition turn (t : Z) (c : call) (st : cstate) : cstate :=
  match c_phase c with
  | Loop => put_call t (move (Stamped (cs_clock st)) c) st
  | Stamped now =>
      let '(a, d) := admit_call now (c_key c) (cs_dedup st) in
      mkCState (cs_clock st) d (cs_world st) (<[t := move (decided a) c]> (cs_calls st))
        (cs_past st ++ begun a t (c_key c) (cs_clock st))
  | Waiting p =>
      match d_heap (cs_dedup st) !! p with
      | Some en => if closed en then put_call t (move Loop c) st else st
      | None => st
      end
  | Running m =>
      match matchmaking_call s pe empty_registry e (c_conn c) (c_req c) (cs_world st) with
      | Some (Returns w' _ r _) =>
          if bool_decide (nextGID (w_mm (cs_world st)) < 2 ^ 32 - 1) then
            mkCState (cs_clock st) (cs_dedup st) w' (<[t := move (after_handler m r) c]> (cs_calls st))
              (cs_past st ++ [Ran t (c_key c) r])
          else st
      | _ => st
      end
  | Handled (Owner p) r =>
      mkCState (cs_clock st) (complete (cs_clock st) (c_key c) p r (cs_dedup st)) (cs_world st)
        (<[t := move (Returned r) c]> (cs_calls st))
        (cs_past st ++ match r with Some _ => [Answered (c_key c) (cs_clock st + d_ttl (cs_dedup st))] | None => [] end)
  | _ => st
  end.

Definition act (a : action) (st : cstate) : cstate :=
  match a with
  | Tick now => if bool_decide (cs_clock st <= now)
                then mkCState now (cs_dedup st) (cs_world st) (cs_calls st) (cs_past st) else st
  | Arrive t conn req => match cs_calls st !! t with
                         | None => put_call t (mkCall conn req (arrival req)) st | Some _ => st end
  | Turn t => match cs_calls st !! t with Some c => turn t c st | None => st end
  | Leave pid => mkCState (cs_clock st) (cs_dedup st)
      (with_mm (RemovePlayer pid (w_mm (cs_world st))) (cs_world st)) (cs_calls st) (cs_past st ++ [Gone pid])
  end.

Lemma turn_step t c st : cs_calls st !! t = Some c -> rtc (call_step s pe) st (turn t c st).
Proof.
  intros Hc. unfold turn. destruct (c_phase c) as [|now|p|m|m r|r] eqn:Hph; [| | | | |done].
  - by apply rtc_once, cs_stamp.
  - destruct (admit_call now (c_key c) (cs_dedup st)) as [a d] eqn:Ha. by apply rtc_once, (cs_admit _ _ t c now a d).
  - destruct (d_heap (cs_dedup st) !! p) as [en|] eqn:Hp; [|done]. destruct (closed en) eqn:Hcl; [|done].
    by eapply rtc_once, cs_wake.
  - destruct (matchmaking_call _ _ _ _ _ _ _) as [[w' ps r wt|]|] eqn:Hm; [|done..].
    case_bool_decide; [|done]. by eapply rtc_once, cs_run.
  - destruct m; [done..|]. by apply rtc_once, cs_complete.
Qed.

Lemma act_step a st : rtc (call_step s pe) st (act a st).
Proof.
  destruct a as [now|t conn req|t|pid]; cbn.
  - case_bool_decide; [by apply rtc_once, cs_tick|done].
  - destruct (cs_calls st !! t) eqn:Ht; [done|by apply rtc_once, cs_arrive].
  - destruct (cs_calls st !! t) eqn:Ht; [by apply turn_step|done].
  - apply rtc_once, cs_gone.
Qed.

Definition play (l : list action) (st : cstate) : cstate := foldl (fun st a => act a st) st l.

Lemma play_reaches l st : rtc (call_step s pe) st (play l st).
Proof. revert st. induction l as [|a l IH]; intros st; [done|]. etrans; [apply act_step|apply IH]. Qed.
End Schedule.

(** A console asks for a lobby and repeats the request while the first is still running. *)
#[local] Instance play_range : GoRange := canonical_range.
Definition play_start : cstate := calls_start 0 20 0 ex_world0.
Definition play_here : list action -> cstate -> cstate := play mk8_settings ex_env ex_henv.
Lemma play_here_reaches l st : rtc (call_step mk8_settings ex_env) st (play_here l st).
Proof. apply play_reaches. Qed.

Definition retry_schedule : list action :=
  [Arrive 1 (ex_conn 11 3) ex_auto_request; Turn 1; Turn 1; Arrive 2 (ex_conn 11 3) ex_auto_request;
   Turn 2; Turn 2; Turn 2; Turn 1; Turn 1; Turn 2; Turn 2; Turn 2].
Definition retried : cstate := play_here retry_schedule play_start.

Definition returned (t : Z) (st : cstate) : option (option RMCMessage) :=
  match c_phase <$> cs_calls st !! t with Some (Returned r) => Some r | _ => None end.

Lemma returned_inv t st r :
  returned t st = Some r -> exists c, cs_calls st !! t = Some c /\ c_phase c = Returned r.
Proof.
  unfold returned. destruct (cs_calls st !! t) as [c|]; cbn; [|done]. intros Hr. exists c.
  destruct (c_phase c); simplify_eq; done.
Qed.

Definition call_of (t : Z) (st : cstate) : call :=
  default (mkCall (ex_conn 0 0) ex_auto_request Loop) (cs_calls st !! t).

Example retry_same_answer :
  returned 2 retried = returned 1 retried /\ omap ran_by (cs_past retried) = [1] /\
  (participants <$> gatherings (w_mm (cs_world retried)) !! 1) = Some [11].
Proof. vm_compute. repeat split. Qed.

Lemma overlapping_calls_witness :
  exists t' r, returned 2 retried = Some r /\
    Ran t' (request_key 3 11 ex_auto_request) r ∈ cs_past retried.
Proof.
  destruct (overlapping_calls mk8_settings ex_env 0 20 0 default_Config 0 empty_tournaments retried
    (play_here_reaches retry_schedule play_start)) as (_ & _ & Ha & _).
  assert (is_Some (returned 2 retried)) as [r Hr] by (vm_compute; eexists; reflexivity).
  assert (c_key <$> cs_calls retried !! 2 = Some (request_key 3 11 ex_auto_request)) as Hk by (vm_compute; reflexivity).
  destruct (returned_inv _ _ _ Hr) as (c & Hc & Hph). rewrite Hc in Hk. apply (inj Some) in Hk.
  destruct (Ha 2 c r Hc Hph) as [t' Ht]. exists t', r. split; [exact Hr|]. rewrite <- Hk. exact Ht.
Defined.

(** The answer has expired when the request comes a third time. *)
Definition third_schedule : list action :=
  [Tick 30; Arrive 3 (ex_conn 11 3) ex_auto_request; Turn 3; Turn 3].
Definition thirded : cstate := play_here third_schedule retried.

Lemma overlapping_retries_witness :
  exists key, cs_past thirded !! 2%nat = Some (Answered key 20) /\ cs_past thirded !! 3%nat = Some (Began 3 key 30) /\
    20 <= 30.
Proof.
  destruct (overlapping_retries mk8_settings ex_env 0 20 0 ex_world0 thirded) as [Hw _].
  - etrans; [apply (play_here_reaches retry_schedule)|apply (play_here_reaches third_schedule)].
  - exists (request_key 3 11 ex_auto_request).
    assert (cs_past thirded !! 2%nat = Some (Answered (request_key 3 11 ex_auto_request) 20)) as H1
      by (vm_compute; reflexivity).
    assert (cs_past thirded !! 3%nat = Some (Began 3 (request_key 3 11 ex_auto_request) 30)) as H2
      by (vm_compute; reflexivity).
    split; [exact H1|]. split; [exact H2|]. exact (Hw 3%nat 2%nat 3 _ 30 20 ltac:(lia) H1 H2).
Defined.

Definition admitted_call : cstate := play_here (take 3 retry_schedule) play_start.

Lemma late_call_haunts_witness :
  exists st1 st2, call_step mk8_settings ex_env admitted_call st1 /\ call_step mk8_settings ex_env st1 st2 /\
    exists gid g, gatherings (w_mm (cs_world st2)) !! gid = Some g /\ 11 ∈ participants g.
Proof.
  assert (cs_calls admitted_call !! 1 = Some (call_of 1 admitted_call)) as Hc by (vm_compute; reflexivity).
  assert (c_phase (call_of 1 admitted_call) = Running (Owner 0)) as Hph by (vm_compute; reflexivity).
  assert (c_conn (call_of 1 admitted_call) = ex_conn 11 3) as Hco by (vm_compute; reflexivity).
  assert (c_req (call_of 1 admitted_call) = ex_auto_request) as Hre by (vm_compute; reflexivity).
  destruct (late_call_haunts mk8_settings ex_env admitted_call 1 (call_of 1 admitted_call) (Owner 0) ex_henv
    (ex_conn 11 3) (mkAutoParam (ex_session 2 true 2)) (NewStreamIn []) Hc Hph)
    as (st1 & st2 & H1 & H2 & _ & H3); rewrite ?Hco, ?Hre; try (vm_compute; (reflexivity || discriminate)).
  - apply (overlapping_inv mk8_settings ex_env 0 20 0 default_Config 0 empty_tournaments).
    apply (play_here_reaches (take 3 retry_schedule)).
  - exists st1, st2. split; [exact H1|]. split; [exact H2|exact H3].
Defined.
