(* ===== verification/Crypto.v ===== *)
(** * MD5, HMAC-MD5 and RC4 (Go's crypto/md5, crypto/hmac and crypto/rc4)

    The primitives the handshake and the tickets are built from, written out from
    RFC 1321, RFC 2104 and the RC4 key schedule and checked on published vectors. *)

From S2P Require Import Prelude Sha256.

Module Md5.

Definition add32 (a b : Z) : Z := (a + b) mod 2 ^ 32.
Definition rotl (n x : Z) : Z := Z.lor (Z.shiftl x n mod 2 ^ 32) (Z.shiftr x (32 - n)).
Definition not32 (x : Z) : Z := Z.lxor x (2 ^ 32 - 1).

Definition sines : list Z := [
  0xd76aa478; 0xe8c7b756; 0x242070db; 0xc1bdceee; 0xf57c0faf; 0x4787c62a; 0xa8304613; 0xfd469501;
  0x698098d8; 0x8b44f7af; 0xffff5bb1; 0x895cd7be; 0x6b901122; 0xfd987193; 0xa679438e; 0x49b40821;
  0xf61e2562; 0xc040b340; 0x265e5a51; 0xe9b6c7aa; 0xd62f105d; 0x02441453; 0xd8a1e681; 0xe7d3fbc8;
  0x21e1cde6; 0xc33707d6; 0xf4d50d87; 0x455a14ed; 0xa9e3e905; 0xfcefa3f8; 0x676f02d9; 0x8d2a4c8a;
  0xfffa3942; 0x8771f681; 0x6d9d6122; 0xfde5380c; 0xa4beea44; 0x4bdecfa9; 0xf6bb4b60; 0xbebfbc70;
  0x289b7ec6; 0xeaa127fa; 0xd4ef3085; 0x04881d05; 0xd9d4d039; 0xe6db99e5; 0x1fa27cf8; 0xc4ac5665;
  0xf4292244; 0x432aff97; 0xab9423a7; 0xfc93a039; 0x655b59c3; 0x8f0ccc92; 0xffeff47d; 0x85845dd1;
  0x6fa87e4f; 0xfe2ce6e0; 0xa3014314; 0x4e0811a1; 0xf7537e82; 0xbd3af235; 0x2ad7d2bb; 0xeb86d391].

(** The shift amounts: four per round, repeated four times. *)
Definition shifts : list Z :=
  concat (replicate 4 [7; 12; 17; 22]) ++ concat (replicate 4 [5; 9; 14; 20]) ++
  concat (replicate 4 [4; 11; 16; 23]) ++ concat (replicate 4 [6; 10; 15; 21]).

Record state := mkState { wA : Z; wB : Z; wC : Z; wD : Z }.

Definition init : state := mkState 0x67452301 0xefcdab89 0x98badcfe 0x10325476.

(** Step [i] mixes the word [g] of the block chosen by its round. *)
Definition step (words : list Z) (st : state) (ik : nat * (Z * Z)) : state :=
  let '(i, (k, sh)) := ik in
  let '(mkState a b c d) := st in
  let '(f, g) :=
    if Nat.ltb i 16 then (Z.lor (Z.land b c) (Z.land (not32 b) d), i)
    else if Nat.ltb i 32 then (Z.lor (Z.land d b) (Z.land (not32 d) c), ((5 * i + 1) mod 16)%nat)
    else if Nat.ltb i 48 then (Z.lxor (Z.lxor b c) d, ((3 * i + 5) mod 16)%nat)
    else (Z.lxor c (Z.lor b (not32 d)), ((7 * i) mod 16)%nat) in
  mkState d (add32 b (rotl sh (add32 (add32 a f) (add32 k (nth g words 0))))) b c.

Definition block (st : state) (b : bytes) : state :=
  let words := le_val <$> Sha256.chunks 16 4 b in
  let st' := foldl (step words) st (zip (seq 0 64) (zip sines shifts)) in
  mkState (add32 (wA st) (wA st')) (add32 (wB st) (wB st'))
          (add32 (wC st) (wC st')) (add32 (wD st) (wD st')).

Definition pad (m : bytes) : bytes :=
  m ++ [0x80] ++ replicate (Z.to_nat ((55 - len m) mod 64)) 0 ++ le_bytes 8 (8 * len m).

Definition Sum (m : bytes) : bytes :=
  let p := pad m in
  let st := foldl block init (Sha256.chunks (length p) 64 p) in
  le_bytes 4 (wA st) ++ le_bytes 4 (wB st) ++ le_bytes 4 (wC st) ++ le_bytes 4 (wD st).

Lemma Sum_len m : len (Sum m) = 16.
Proof. unfold Sum. autorewrite with golen. done. Qed.

Lemma Sum_bytes m : Forall is_byte (Sum m).
Proof. unfold Sum. rewrite !Forall_app. auto using le_bytes_range. Qed.

Example md5_empty : le_val (reverse (Sum [])) = 0xd41d8cd98f00b204e9800998ecf8427e.
Proof. vm_compute. reflexivity. Qed.
Example md5_abc : le_val (reverse (Sum (str "abc"))) = 0x900150983cd24fb0d6963f7d28e17f72.
Proof. vm_compute. reflexivity. Qed.
Example md5_two_blocks : le_val (reverse (Sum (str
  "12345678901234567890123456789012345678901234567890123456789012345678901234567890"))) =
  0x57edf4a22be3c955ac49da2e2107b67a.
Proof. vm_compute. reflexivity. Qed.

End Md5.

Module Hmac.

Section WithHash.
Context (sum : bytes -> bytes).

(** A key longer than the 64-byte block is hashed first. *)
Definition block_key (key : bytes) : bytes :=
  let k := if bool_decide (64 < len key) then sum key else key in
  k ++ replicate (64 - length k) 0.

Definition mac (key data : bytes) : bytes :=
  let k := block_key key in
  sum ((Z.lxor 0x5c <$> k) ++ sum ((Z.lxor 0x36 <$> k) ++ data)).
End WithHash.

Example hmac_md5_rfc2202_2 :
  le_val (reverse (mac Md5.Sum (str "Jefe") (str "what do ya want for nothing?"))) =
  0x750c783e6ab0b503eaa86e310a5db738.
Proof. vm_compute. reflexivity. Qed.
Example hmac_md5_rfc2202_6 :
  le_val (reverse (mac Md5.Sum (replicate 80 0xaa)
    (str "Test Using Larger Than Block-Size Key - Hash Key First"))) =
  0x6b1ab7fe4bd7bf8f0b62e6ce61b9d0cd.
Proof. vm_compute. reflexivity. Qed.
Example hmac_sha256_rfc4231_2 :
  le_val (reverse (mac Sha256.Sum256 (str "Jefe") (str "what do ya want for nothing?"))) =
  0x5bdcc146bf60754e6a042426089575c75a003f089d2739839dec58b964ec3843.
Proof. vm_compute. reflexivity. Qed.

End Hmac.

Module Rc4.

(** [rc4.Cipher]. *)
Record Cipher := mkCipher { cs : list Z; ci : Z; cj : Z }.

Definition at_ (s : list Z) (i : Z) : Z := nth (Z.to_nat i) s 0.
Definition swap (i j : Z) (s : list Z) : list Z :=
  let x := at_ s i in let y := at_ s j in
  <[Z.to_nat j := x]> (<[Z.to_nat i := y]> s).

(** The key schedule: [n] more turns from position [256 - n]. *)
Fixpoint schedule (n : nat) (key : bytes) (i j : Z) (s : list Z) : list Z :=
  match n with
  | O => s
  | S n =>
      let j := u8 (j + at_ s i + at_ key (i mod len key)) in
      schedule n key (i + 1) j (swap i j s)
  end.

(** [None] is the error for a key of no or of more than 256 bytes. *)
Definition NewCipher (key : bytes) : option Cipher :=
  if bool_decide (len key < 1) || bool_decide (256 < len key) then None
  else Some (mkCipher (schedule 256 key 0 0 (Z.of_nat <$> seq 0 256)) 0 0).

(** One byte of key stream. *)
Definition next (c : Cipher) : Z * Cipher :=
  let i := u8 (ci c + 1) in
  let x := at_ (cs c) i in
  let j := u8 (cj c + x) in
  let y := at_ (cs c) j in
  let s := swap i j (cs c) in
  (at_ s (u8 (x + y)), mkCipher s i j).

Fixpoint XORKeyStream (c : Cipher) (src : bytes) : bytes :=
  match src with
  | [] => []
  | v :: src => let '(k, c) := next c in Z.lxor v k :: XORKeyStream c src
  end.

(** The key stream does not depend on the data, so the cipher is an involution. *)
Lemma XORKeyStream_involutive c src : XORKeyStream c (XORKeyStream c src) = src.
Proof.
  revert c; induction src as [|v src IH]; intros c; [done|].
  cbn [XORKeyStream]. destruct (next c) as [k c'] eqn:E. cbn [XORKeyStream]. rewrite E.
  by rewrite Z.lxor_assoc, Z.lxor_nilpotent, Z.lxor_0_r, IH.
Qed.

Lemma len_XORKeyStream c src : len (XORKeyStream c src) = len src.
Proof.
  revert c; induction src as [|v src IH]; intros c; [done|].
  cbn [XORKeyStream]. destruct (next c) as [k c']. by rewrite !len_cons, IH.
Qed.

Example rc4_vector :
  (fun c => le_val (reverse (XORKeyStream c (str "Plaintext")))) <$> NewCipher (str "Key") =
  Some 0xbbf316e8d940af0ad3.
Proof. vm_compute. reflexivity. Qed.

End Rc4.
