(* ===== verification/Kerberos.v ===== *)
(** * Kerberos-style tickets (nextendo-nex/kerberos.go)

    Key derivation, the RC4 + HMAC-MD5 envelope and the two tickets.  A call can
    return a value, return a Go error, or panic: [rc4.NewCipher] rejects a key of
    no or of more than 256 bytes, its error is discarded, and using the nil cipher
    on a non-empty buffer dereferences it. *)

From S2P Require Import Prelude GoStd Settings Stream Types Sha256 Crypto.

Inductive fallible (A : Type) := Ok (a : A) | Error | Panic.
Arguments Ok {A} a. Arguments Error {A}. Arguments Panic {A}.

Definition fbind {A B} (x : fallible A) (k : A -> fallible B) : fallible B :=
  match x with Ok a => k a | Error => Error | Panic => Panic end.

Declare Scope fallible_scope.
Delimit Scope fallible_scope with fallible.
Notation "x <?- e ;; k" := (fbind e (fun x => k))
  (at level 100, e at next level, right associativity) : fallible_scope.

(** ** Key derivation *)
Definition md5Sum (b : bytes) : bytes := Md5.Sum b.
Definition hmacMD5 (key data : bytes) : bytes := Hmac.mac Md5.Sum key data.

Definition deriveKeyOld (password : bytes) (pid baseCount pidCount : Z) : bytes :=
  Nat.iter (Z.to_nat (baseCount + pid mod pidCount)) md5Sum password.

Definition deriveKeyNew (password : bytes) (pid baseCount pidCount : Z) : bytes :=
  let key := Nat.iter (Z.to_nat baseCount) md5Sum password in
  Nat.iter (Z.to_nat pidCount) md5Sum (key ++ le_bytes 8 pid).

Definition DeriveKey (s : Settings) (password : bytes) (pid : Z) : bytes :=
  if bool_decide (KerberosKeyDerivation s = KeyDerivationNew) then deriveKeyNew password pid 1 1
  else deriveKeyOld password pid 65000 1024.

(** ** The envelope *)
Definition xor_with (key data : bytes) : fallible bytes :=
  match Rc4.NewCipher key with
  | Some c => Ok (Rc4.XORKeyStream c data)
  | None => if bool_decide (data = []) then Ok [] else Panic
  end.

Definition kerberosEncrypt (key data : bytes) : fallible bytes :=
  (enc <?- xor_with key data ;; Ok (enc ++ hmacMD5 key enc))%fallible.

Definition kerberosDecrypt (key buffer : bytes) : fallible bytes :=
  if bool_decide (len buffer < 16) then Error
  else
    let data := ztake (len buffer - 16) buffer in
    let checksum := zdrop (len buffer - 16) buffer in
    if bool_decide (checksum = hmacMD5 key data) then xor_with key data else Error.

(** ** Tickets *)
Record ClientTicket := mkClientTicket { ct_SessionKey : bytes; ct_Target : Z; ct_Internal : bytes }.

Definition ClientTicket_Encrypt (t : ClientTicket) (key : bytes) (s : Settings) : fallible bytes :=
  if bool_decide (len (ct_SessionKey t) <> KerberosKeySize s) then Error
  else kerberosEncrypt key
    (ct_SessionKey t ++ StreamOut.PID s (ct_Target t) ++ StreamOut.Buffer (ct_Internal t)).

Definition load_ClientTicket (s : Settings) : reader ClientTicket :=
  (k <-- StreamInOps.Read (KerberosKeySize s) ;; t <-- StreamInOps.PID s ;;
   i <-- StreamInOps.Buffer ;; rret (mkClientTicket k t i))%reader.

Definition DecryptClientTicket (data key : bytes) (s : Settings) : fallible ClientTicket :=
  (dec <?- kerberosDecrypt key data ;;
   let '(t, st) := load_ClientTicket s (NewStreamIn dec) in
   if si_err st then Error else Ok t)%fallible.

Record ServerTicket := mkServerTicket { st_Timestamp : Z; st_Source : Z; st_SessionKey : bytes }.

Definition save_ServerTicket (s : Settings) (t : ServerTicket) : bytes :=
  StreamOut.DateTime (st_Timestamp t) ++ StreamOut.PID s (st_Source t) ++ st_SessionKey t.

Definition load_ServerTicket (s : Settings) : reader ServerTicket :=
  (d <-- StreamInOps.DateTime ;; p <-- StreamInOps.PID s ;;
   k <-- StreamInOps.Read (KerberosKeySize s) ;; rret (mkServerTicket d p k))%reader.

(** [rnd] is what [rand.Read] put in the 16-byte ticket key, [None] if it failed. *)
Definition ServerTicket_Encrypt (rnd : option bytes) (t : ServerTicket) (key : bytes) (s : Settings)
    : fallible bytes :=
  if bool_decide (len (st_SessionKey t) <> KerberosKeySize s) then Error
  else
    let data := save_ServerTicket s t in
    if bool_decide (KerberosTicketVersion s = 1) then
      match rnd with
      | None => Error
      | Some ticketKey =>
          (enc <?- kerberosEncrypt (md5Sum (key ++ ticketKey)) data ;;
           Ok (StreamOut.Buffer ticketKey ++ StreamOut.Buffer enc))%fallible
      end
    else kerberosEncrypt key data.

Definition open_ServerTicket (data key : bytes) (s : Settings) : fallible ServerTicket :=
  (dec <?- kerberosDecrypt key data ;;
   let '(t, st) := load_ServerTicket s (NewStreamIn dec) in
   if si_err st then Error else Ok t)%fallible.

Definition DecryptServerTicket (data key : bytes) (s : Settings) : fallible ServerTicket :=
  if bool_decide (KerberosTicketVersion s = 1) then
    let '((ticketKey, inner), st) :=
      (a <-- StreamInOps.Buffer ;; b <-- StreamInOps.Buffer ;; rret (a, b))%reader (NewStreamIn data) in
    if si_err st then Error
    else open_ServerTicket inner (md5Sum (key ++ ticketKey)) s
  else open_ServerTicket data key s.

(** ** Lemmas *)
Arguments md5Sum : simpl never. Arguments hmacMD5 : simpl never.

Definition rc4_key (key : bytes) : Prop := 1 <= len key <= 256.

Lemma md5Sum_len b : len (md5Sum b) = 16.
Proof. apply Md5.Sum_len. Qed.
Lemma hmacMD5_len key data : len (hmacMD5 key data) = 16.
Proof. apply Md5.Sum_len. Qed.
#[export] Hint Rewrite md5Sum_len hmacMD5_len : golen.

Lemma rc4_key_cipher key : rc4_key key -> exists c, Rc4.NewCipher key = Some c.
Proof.
  intros [??]. unfold Rc4.NewCipher. rewrite !bool_decide_eq_false_2 by lia. eauto.
Qed.

Lemma md5_rc4_key b : rc4_key (md5Sum b).
Proof. unfold rc4_key. rewrite md5Sum_len. lia. Qed.

Lemma iter_md5_len n b : 0 < n -> len (Nat.iter (Z.to_nat n) md5Sum b) = 16.
Proof. intros Hn. destruct (Z.to_nat n) eqn:E; [lia|]. apply md5Sum_len. Qed.

Lemma DeriveKey_len s password pid : 0 <= pid -> len (DeriveKey s password pid) = 16.
Proof.
  intros Hp. unfold DeriveKey, deriveKeyNew, deriveKeyOld.
  destruct (bool_decide _); [apply md5Sum_len|].
  apply iter_md5_len. pose proof (Z.mod_pos_bound pid 1024). lia.
Qed.

Lemma xor_with_involutive key data enc :
  xor_with key data = Ok enc -> xor_with key enc = Ok data /\ len enc = len data.
Proof.
  unfold xor_with. destruct (Rc4.NewCipher key) as [c|].
  - intros [= <-]. by rewrite Rc4.XORKeyStream_involutive, Rc4.len_XORKeyStream.
  - case_bool_decide; [|done]. intros [= <-]. subst. by rewrite bool_decide_eq_true_2.
Qed.

Lemma encrypt_total key data :
  rc4_key key -> exists buf, kerberosEncrypt key data = Ok buf /\ len buf = len data + 16.
Proof.
  intros Hk. destruct (rc4_key_cipher key Hk) as [c Hc]. unfold kerberosEncrypt, xor_with.
  rewrite Hc. cbn. eexists. split; [done|]. autorewrite with golen. by rewrite Rc4.len_XORKeyStream.
Qed.

Lemma decrypt_encrypt key data buf :
  kerberosEncrypt key data = Ok buf -> kerberosDecrypt key buf = Ok data.
Proof.
  unfold kerberosEncrypt, kerberosDecrypt.
  destruct (xor_with key data) as [enc| |] eqn:Hx; cbn [fbind]; [intros [= <-]|done|done].
  apply xor_with_involutive in Hx as [Hx _]. pose proof (len_nonneg enc).
  autorewrite with golen. rewrite bool_decide_eq_false_2 by lia.
  rewrite ztake_app, zdrop_app by lia. by rewrite bool_decide_eq_true_2.
Qed.

Lemma encrypt_decrypt key buf data :
  kerberosDecrypt key buf = Ok data -> kerberosEncrypt key data = Ok buf.
Proof.
  unfold kerberosDecrypt, kerberosEncrypt. case_bool_decide; [done|].
  case_bool_decide as Hsum; [|done]. intros [Hx _]%xor_with_involutive. rewrite Hx. cbn.
  rewrite <- Hsum. by rewrite ztake_zdrop.
Qed.

Lemma open_sealed {A} (rd : reader A) key body a buf :
  kerberosEncrypt key body = Ok buf -> decodes rd body a ->
  (dec <?- kerberosDecrypt key buf ;;
   let '(t, st) := rd (NewStreamIn dec) in if si_err st then Error else Ok t)%fallible = Ok a.
Proof.
  intros He Hd. rewrite (decrypt_encrypt _ _ _ He). cbn. specialize (Hd []).
  rewrite app_nil_r in Hd. by rewrite Hd.
Qed.

Lemma decodes_ServerTicket s t :
  is_uint 64 (st_Timestamp t) -> is_pid s (st_Source t) -> len (st_SessionKey t) = KerberosKeySize s ->
  decodes (load_ServerTicket s) (save_ServerTicket s t) t.
Proof.
  intros Ht Hp Hk. unfold load_ServerTicket, save_ServerTicket. destruct t; cbn in *.
  eapply decodes_bind; [by apply decodes_DateTime|]. eapply decodes_bind; [by apply decodes_PID|].
  eapply decodes_bind_ret_eq; [by apply decodes_Read|done].
Qed.

Lemma decodes_ClientTicket s t :
  is_pid s (ct_Target t) -> len (ct_SessionKey t) = KerberosKeySize s ->
  len (ct_Internal t) < 2 ^ 32 ->
  decodes (load_ClientTicket s)
    (ct_SessionKey t ++ StreamOut.PID s (ct_Target t) ++ StreamOut.Buffer (ct_Internal t)) t.
Proof.
  intros Hp Hk Hi. unfold load_ClientTicket. destruct t; cbn in *.
  eapply decodes_bind; [by apply decodes_Read|]. eapply decodes_bind; [by apply decodes_PID|].
  eapply decodes_bind_ret_eq; [by apply decodes_Buffer|done].
Qed.

Lemma len_ServerTicket s t :
  len (save_ServerTicket s t) <= 16 + len (st_SessionKey t).
Proof.
  unfold save_ServerTicket, StreamOut.DateTime, StreamOut.U64, StreamOut.PID. case_bool_decide;
    unfold StreamOut.U64, StreamOut.U32; autorewrite with golen; lia.
Qed.

Lemma client_ticket_roundtrip s t key :
  rc4_key key -> is_pid s (ct_Target t) -> len (ct_SessionKey t) = KerberosKeySize s ->
  len (ct_Internal t) < 2 ^ 32 ->
  exists buf, ClientTicket_Encrypt t key s = Ok buf /\ DecryptClientTicket buf key s = Ok t.
Proof.
  intros Hkey Hp Hk Hi. unfold ClientTicket_Encrypt. rewrite bool_decide_eq_false_2 by lia.
  destruct (encrypt_total key (ct_SessionKey t ++ StreamOut.PID s (ct_Target t) ++
    StreamOut.Buffer (ct_Internal t)) Hkey) as (buf & He & _).
  exists buf. split; [done|]. eapply open_sealed; [done|]. by apply decodes_ClientTicket.
Qed.

Lemma server_ticket_opens s t key rnd :
  (KerberosTicketVersion s = 1 \/ rc4_key key) -> len rnd < 2 ^ 32 ->
  is_uint 64 (st_Timestamp t) -> is_pid s (st_Source t) ->
  len (st_SessionKey t) = KerberosKeySize s -> KerberosKeySize s < 2 ^ 31 ->
  exists buf, ServerTicket_Encrypt (Some rnd) t key s = Ok buf /\
    DecryptServerTicket buf key s = Ok t /\
    len buf <= 64 + len rnd + KerberosKeySize s.
Proof.
  intros Hkey Hrnd Ht Hp Hk Hsz. unfold ServerTicket_Encrypt, DecryptServerTicket.
  rewrite bool_decide_eq_false_2 by lia. pose proof (len_ServerTicket s t) as Hlen.
  pose proof (len_nonneg rnd). pose proof (decodes_ServerTicket s t Ht Hp Hk) as Hd.
  case_bool_decide as Hv.
  - destruct (encrypt_total (md5Sum (key ++ rnd)) (save_ServerTicket s t)
      (md5_rc4_key _)) as (enc & He & Hl). rewrite He. cbn.
    eexists. split; [done|]. split.
    + pose proof (decodes_Buffer rnd Hrnd) as D1. pose proof (decodes_Buffer enc ltac:(lia)) as D2.
      assert (decodes (a <-- StreamInOps.Buffer ;; b <-- StreamInOps.Buffer ;; rret (a, b))%reader
        (StreamOut.Buffer rnd ++ StreamOut.Buffer enc) (rnd, enc)) as D.
      { eapply decodes_bind; [done|]. by eapply decodes_bind_ret_eq. }
      specialize (D []). rewrite app_nil_r in D. rewrite D. cbn. by eapply open_sealed.
    + unfold StreamOut.Buffer, StreamOut.U32. autorewrite with golen. lia.
  - destruct Hkey as [?|Hkey]; [done|].
    destruct (encrypt_total key (save_ServerTicket s t) Hkey) as (enc & He & Hl).
    exists enc. split; [done|]. split; [by eapply open_sealed|lia].
Qed.

(** ** What the envelope guarantees *)

(** [C28] Authenticated encryption: decryption accepts exactly the buffers encryption
    produces, and returns the plaintext; in particular a buffer of fewer than 16 bytes,
    or whose last 16 bytes are not the HMAC-MD5 of the rest under the key, is refused
    with an error, and with a usable key neither function panics. *)
Theorem kerberos_envelope key data buf :
  rc4_key key ->
  (kerberosDecrypt key buf = Ok data <-> kerberosEncrypt key data = Ok buf) /\
  (exists enc, kerberosEncrypt key data = Ok enc /\ len enc = len data + 16) /\
  kerberosDecrypt key buf <> Panic /\
  ((len buf < 16 \/ zdrop (len buf - 16) buf <> hmacMD5 key (ztake (len buf - 16) buf)) <->
   kerberosDecrypt key buf = Error).
Proof.
  intros Hk. split_and!.
  - split; [apply encrypt_decrypt|apply decrypt_encrypt].
  - by apply encrypt_total.
  - unfold kerberosDecrypt, xor_with. destruct (rc4_key_cipher key Hk) as [c ->].
    by repeat case_bool_decide.
  - unfold kerberosDecrypt, xor_with. destruct (rc4_key_cipher key Hk) as [c ->].
    repeat case_bool_decide; split; intros; (done || tauto || naive_solver).
Qed.

(** An envelope that comes back, and the same one with its last byte changed. *)
Definition sealed_ticket : bytes :=
  match kerberosEncrypt (str "Key") (str "ticket") with Ok b => b | _ => [] end.
Definition tampered_ticket : bytes := <[21%nat := 0]> sealed_ticket.

Lemma kerberos_envelope_witness :
  len sealed_ticket = 22 /\ kerberosDecrypt (str "Key") sealed_ticket = Ok (str "ticket") /\
  kerberosDecrypt (str "Key") tampered_ticket = Error.
Proof.
  assert (rc4_key (str "Key")) as Hk by (vm_compute; split; discriminate).
  destruct (kerberos_envelope (str "Key") (str "ticket") sealed_ticket Hk) as ([_ Hback] & _).
  destruct (kerberos_envelope (str "Key") [] tampered_ticket Hk) as (_ & _ & _ & Hbad & _).
  split; [vm_compute; reflexivity|]. split; [apply Hback; vm_compute; reflexivity|].
  apply Hbad. right. vm_compute. discriminate.
Defined.
