(* ===== verification/TicketGranting.v ===== *)
(** * The authentication server (nextendo-nex/ticketgranting.go)

    The table that remembers which account last logged in from an address, its
    persistence, and the login handlers that mint the tickets.  Instants are
    nanoseconds since the epoch. *)

From S2P Require Import Prelude GoStd GoNet Settings Stream Types StationURL Rmc Crypto.
From S2P Require Import Kerberos.

Definition ProtocolTicketGranting : Z := 0x0A.
Definition MethodLogin : Z := 1.
Definition MethodLoginEx : Z := 2.
Definition MethodLoginWithContext : Z := 6.

Definition nanos : Z := 10 ^ 9.
Definition authRecallTTL : Z := 24 * 3600 * nanos.
Definition authRecallMax : Z := 50000.

(** ** The IP to PID recall table *)
Definition ipHost (addr : gostring) : gostring :=
  match GoNet.SplitHostPort addr with Some (h, _) => h | None => addr end.

Record authRecall := mkRecall { rc_pid : Z; rc_at : Z }.

(** The on-disk form: the pid and the second of the login. *)
Record authRecallPersisted := mkPersisted { pr_PID : Z; pr_At : Z }.

(** [authPIDByIP], with [authRecallOnce] and [authRecallDirty]. *)
Record RecallTable := mkTable {
  authPIDByIP : gmap gostring authRecall; recallOnce : bool; recallDirty : bool
}.
Definition empty_table : RecallTable := mkTable ∅ false false.

Definition usable (now : Z) (rec : authRecallPersisted) : Prop :=
  pr_PID rec <> 0 /\ now - pr_At rec * nanos <= authRecallTTL.
#[export] Instance usable_dec now rec : Decision (usable now rec).
Proof. unfold usable. apply _. Defined.

Definition restore (now : Z) (rec : authRecallPersisted) : option authRecall :=
  if decide (usable now rec) then Some (mkRecall (pr_PID rec) (pr_At rec * nanos)) else None.

(** [file] is the decoded file; [None] when none is configured, readable or valid. *)
Definition authRecallInit (now : Z) (file : option (gmap gostring authRecallPersisted))
    (t : RecallTable) : RecallTable :=
  if recallOnce t then t
  else mkTable (match file with
                | Some m => omap (restore now) m ∪ authPIDByIP t
                | None => authPIDByIP t
                end) true (recallDirty t).

Definition expired (now : Z) (r : authRecall) : bool := bool_decide (authRecallTTL < now - rc_at r).

Definition RememberAuthPID (now : Z) (file : option (gmap gostring authRecallPersisted))
    (addr : gostring) (pid : Z) (t : RecallTable) : RecallTable :=
  let t := authRecallInit now file t in
  mkTable (<[ipHost addr := mkRecall pid now]> (authPIDByIP t)) (recallOnce t) true.

(** A recall is two steps on the sync.Map: a look at the entry, which answers or finds it
    expired, and in the latter case a deletion of whatever the host's entry is by then. *)
Inductive recall_phase := RecallDone (who : option Z) | RecallDeletes.

Definition recall_look (now : Z) (addr : gostring) (t : RecallTable) : recall_phase :=
  match authPIDByIP t !! ipHost addr with
  | None => RecallDone None
  | Some rec =>
      if bool_decide (rc_pid rec = 0) then RecallDone None
      else if expired now rec then RecallDeletes
      else RecallDone (Some (rc_pid rec))
  end.

Definition recall_delete (host : gostring) (t : RecallTable) : RecallTable :=
  mkTable (delete host (authPIDByIP t)) (recallOnce t) (recallDirty t).

(** The recall of a caller nobody disturbs between its two steps. *)
Definition RecallAuthPID (now : Z) (file : option (gmap gostring authRecallPersisted))
    (addr : gostring) (t : RecallTable) : option Z * RecallTable :=
  let t := authRecallInit now file t in
  match recall_look now addr t with
  | RecallDone who => (who, t)
  | RecallDeletes => (None, recall_delete (ipHost addr) t)
  end.

Definition persist (r : authRecall) : authRecallPersisted :=
  mkPersisted (rc_pid r) (rc_at r / nanos).

(** What the flusher does with an entry it visits: expired entries are deleted, in a
    second step of their own, the others written out while there is room. *)
Inductive visit_phase := VisitSkips | VisitDeletes | VisitKeeps (p : authRecallPersisted).

Definition flush_look (now : Z) (out : gmap gostring authRecallPersisted) (ip : gostring)
    (rec : authRecall) : visit_phase :=
  if bool_decide (ip = []) then VisitSkips
  else if expired now rec then VisitDeletes
  else if bool_decide (Z.of_nat (size out) < authRecallMax) then VisitKeeps (persist rec)
  else VisitSkips.

(** An undisturbed turn of the loop of the flusher over the table. *)
Definition flush_entry (now : Z) (acc : gmap gostring authRecallPersisted * gmap gostring authRecall)
    (kv : gostring * authRecall) : gmap gostring authRecallPersisted * gmap gostring authRecall :=
  let '(out, table) := acc in
  let '(ip, rec) := kv in
  match flush_look now out ip rec with
  | VisitSkips => acc
  | VisitDeletes => (out, delete ip table)
  | VisitKeeps p => (<[ip := p]> out, table)
  end.

(** A tick of the flusher: the file it writes, if any. *)
Definition authRecallFlush `{GoRange} (now : Z) (t : RecallTable)
    : option (gmap gostring authRecallPersisted) * RecallTable :=
  if recallDirty t then
    let '(out, table) := foldl (flush_entry now) (∅, authPIDByIP t) (range (authPIDByIP t)) in
    (Some out, mkTable table (recallOnce t) false)
  else (None, t).

(** ** RVConnectionData *)
Record RVConnectionData := mkRVCD {
  MainStation : option StationURL;
  SpecialProtocols : list Z;
  SpecialStation : option StationURL;
  ServerTime : Z
}.

Definition orEmptyStation (u : option StationURL) : StationURL :=
  default (NewStationURL (str "prudp")) u.

#[export] Instance RVConnectionData_Structure : Structure RVConnectionData := [
  mkLevel 1
    (Some (fun s d => write_StationURL (orEmptyStation (MainStation d)) ++
                StreamOut.WriteList (SpecialProtocols d) StreamOut.U8 ++
                write_StationURL (orEmptyStation (SpecialStation d)) ++
                StreamOut.DateTime (ServerTime d)))
    (Some (fun s _ => (m <-- StationURLValue ;; p <-- StreamInOps.ReadList StreamInOps.U8 ;;
                 sp <-- StationURLValue ;; t <-- StreamInOps.DateTime ;;
                 rret (mkRVCD (Some m) p (Some sp) t))%reader))].

(** ** Login *)
Record AuthConfig := mkAuthConfig {
  ac_Settings : Settings;
  SecurePID : Z;
  SecurePassword : gostring;
  SecureStationURL : option StationURL;
  ac_SpecialProtocols : list Z;
  ServerName : gostring;
  SessionKeyLength : Z;
  ResolveUser : gostring -> bytes -> option (Z * bytes)
}.

(** What the call reads from its surroundings: the clock, the recall file and the
    system's random bytes ([None] when reading them fails). *)
Record AuthEnv := mkAuthEnv {
  ae_now : Z;
  ae_file : option (gmap gostring authRecallPersisted);
  ae_session : Z -> option bytes;
  ae_ticketKey : option bytes;
  ae_issued : Z;
  ae_served : Z
}.

Definition hexdigit (n : Z) : Z := if bool_decide (n < 10) then 48 + n else 87 + n.
Definition hex_EncodeToString (b : bytes) : gostring :=
  concat ((fun v => [hexdigit (v / 16); hexdigit (v mod 16)]) <$> b).

(** The session key and the two nested tickets. *)
Definition mint (cfg : AuthConfig) (e : AuthEnv) (pid : Z) (sourceKey : bytes)
    : fallible bytes :=
  let s := ac_Settings cfg in
  let keyLen := if bool_decide (SessionKeyLength cfg = 0) then KerberosKeySize s
                else SessionKeyLength cfg in
  if bool_decide (keyLen < 0) then Panic
  else match ae_session e keyLen with
  | None => Error
  | Some sessionKey =>
      let targetKey := DeriveKey s (SecurePassword cfg) (SecurePID cfg) in
      (internal <?- ServerTicket_Encrypt (ae_ticketKey e)
         (mkServerTicket (ae_issued e) pid sessionKey) targetKey s ;;
       ClientTicket_Encrypt (mkClientTicket sessionKey (SecurePID cfg) internal) sourceKey s)%fallible
  end.

Definition buildResponse (cfg : AuthConfig) (e : AuthEnv) (req : RMCMessage) (retval pid : Z)
    (ticket sourceKey : bytes) : RMCMessage :=
  let s := ac_Settings cfg in
  let rvcd := mkRVCD (Some (orEmptyStation (SecureStationURL cfg))) (ac_SpecialProtocols cfg)
                (Some (NewStationURL (str "prudp"))) (ae_served e) in
  NewRMCSuccess ProtocolTicketGranting (Method req) (CallID req)
    (StreamOut.U32 retval ++ StreamOut.PID s pid ++ StreamOut.Buffer ticket ++
     WriteStructure s rvcd ++ StreamOut.GoString (ServerName cfg) ++
     (if bool_decide (40000 <= NexVersion s)
      then StreamOut.GoString (hex_EncodeToString sourceKey) else [])).

Definition login_failure (cfg : AuthConfig) (e : AuthEnv) (req : RMCMessage) (code : Z) : RMCMessage :=
  buildResponse cfg e req (Z.lor code ResultErrorMask) 0 [] [].

(** [Panic] is the crash of the process; the table is the one at that point. *)
Definition handleLogin (cfg : AuthConfig) (e : AuthEnv) (addr : gostring) (req : RMCMessage)
    (t : RecallTable) : fallible RMCMessage * RecallTable :=
  let '((username, extraData), _) :=
    (u <-- StreamInOps.GoString ;; x <-- StreamInOps.ReadAll ;; rret (u, x))%reader
      (NewStreamIn (Body req)) in
  match ResolveUser cfg username extraData with
  | None => (Ok (login_failure cfg e req ResultAuthTokenParseError), t)
  | Some (pid, sourceKey) =>
      (match mint cfg e pid sourceKey with
       | Ok ticket => Ok (buildResponse cfg e req ResultCoreUnknown pid ticket sourceKey)
       | Error => Ok (login_failure cfg e req ResultAuthUnknown)
       | Panic => Panic
       end, RememberAuthPID (ae_now e) (ae_file e) addr pid t)
  end.

Definition tg_error (req : RMCMessage) (code : Z) : RMCMessage :=
  NewRMCError ProtocolTicketGranting (CallID req) code.

(** The body of a ValidateAndRequestTicketResult. *)
Definition validate_result (cfg : AuthConfig) (e : AuthEnv) (pid : Z) (ticket sourceKey : bytes)
    : bytes :=
  StreamOut.PID (ac_Settings cfg) pid ++ StreamOut.Buffer ticket ++
  write_StationURL (orEmptyStation (SecureStationURL cfg)) ++ StreamOut.DateTime (ae_served e) ++
  StreamOut.GoString (ServerName cfg) ++ StreamOut.GoString (hex_EncodeToString sourceKey).

Definition handleLoginWithContext (cfg : AuthConfig) (e : AuthEnv) (addr : gostring)
    (req : RMCMessage) (t : RecallTable) : fallible RMCMessage * RecallTable :=
  let '((username, extraData), _) :=
    (_v <-- StreamInOps.U8 ;; _l <-- StreamInOps.U32 ;; _p <-- StreamInOps.U32 ;;
     u <-- StreamInOps.GoString ;; x <-- StreamInOps.ReadAll ;; rret (u, x))%reader
      (NewStreamIn (Body req)) in
  match ResolveUser cfg username extraData with
  | None => (Ok (tg_error req ResultAuthTokenParseError), t)
  | Some (pid, sourceKey) =>
      (match mint cfg e pid sourceKey with
       | Ok ticket =>
           let body := validate_result cfg e pid ticket sourceKey in
           Ok (NewRMCSuccess ProtocolTicketGranting (Method req) (CallID req)
                 (StreamOut.U8 1 ++ StreamOut.U32 (u32 (len body)) ++ body))
       | Error => Ok (tg_error req ResultAuthUnknown)
       | Panic => Panic
       end, RememberAuthPID (ae_now e) (ae_file e) addr pid t)
  end.

Definition AuthHandler (cfg : AuthConfig) (e : AuthEnv) (addr : gostring) (req : RMCMessage)
    (t : RecallTable) : fallible RMCMessage * RecallTable :=
  if bool_decide (Method req = MethodLogin) || bool_decide (Method req = MethodLoginEx)
  then handleLogin cfg e addr req t
  else if bool_decide (Method req = MethodLoginWithContext)
  then handleLoginWithContext cfg e addr req t
  else (Ok (tg_error req ResultCoreNotImplemented), t).

(** ** The recall table as a history of steps

    Logins, recalls and the flusher work on the sync.Map at the same time: a history is any
    interleaving of their steps.  [g] names the goroutine; between finding an entry expired
    and deleting it a goroutine does nothing else.  [rs_out] is what the flusher has
    collected since it last found the table changed. *)
Inductive recall_op :=
  | OpRemember (now : Z) (addr : gostring) (pid : Z)
  | OpLook (g : nat) (now : Z) (addr : gostring)
  | OpDelete (g : nat)
  | OpSwap
  | OpVisit (g : nat) (now : Z) (ip : gostring).

Record RecallSys := mkSys {
  rs_table : RecallTable;
  rs_deletes : gmap nat gostring;
  rs_out : gmap gostring authRecallPersisted
}.
Definition start_recall (t : RecallTable) : RecallSys := mkSys t ∅ ∅.
Abbreviation rs_entry s host := (authPIDByIP (rs_table s) !! host).

Definition schedule_delete (g : nat) (host : gostring) (s : RecallSys) : RecallSys :=
  mkSys (rs_table s) (<[g := host]> (rs_deletes s)) (rs_out s).

Definition run_recall_op (o : recall_op) (s : RecallSys) : RecallSys :=
  match o with
  | OpRemember now addr pid => mkSys (RememberAuthPID now None addr pid (rs_table s)) (rs_deletes s) (rs_out s)
  | OpLook g now addr =>
      match rs_deletes s !! g, recall_look now addr (rs_table s) with
      | None, RecallDeletes => schedule_delete g (ipHost addr) s
      | _, _ => s
      end
  | OpDelete g =>
      match rs_deletes s !! g with
      | Some host => mkSys (recall_delete host (rs_table s)) (delete g (rs_deletes s)) (rs_out s)
      | None => s
      end
  | OpSwap =>
      let t := rs_table s in
      if recallDirty t then mkSys (mkTable (authPIDByIP t) (recallOnce t) false) (rs_deletes s) ∅ else s
  | OpVisit g now ip =>
      match rs_deletes s !! g, rs_entry s ip with
      | None, Some rec =>
          match flush_look now (rs_out s) ip rec with
          | VisitSkips => s
          | VisitDeletes => schedule_delete g ip s
          | VisitKeeps p => mkSys (rs_table s) (rs_deletes s) (<[ip := p]> (rs_out s))
          end
      | _, _ => s
      end
  end.

Definition run_recall_ops (h : list recall_op) (s : RecallSys) : RecallSys :=
  foldl (fun s o => run_recall_op o s) s h.

(** The clock an operation reads; readings never go back. *)
Definition op_time (o : recall_op) : list Z :=
  match o with
  | OpRemember t _ _ | OpLook _ t _ | OpVisit _ t _ => [t]
  | OpDelete _ | OpSwap => []
  end.
Definition ordered (h : list recall_op) (now : Z) : Prop :=
  StronglySorted Z.le ((h ≫= op_time) ++ [now]).

(** The reference meaning: the last login from [host], or else the entry the process
    started with. *)
Definition login_of (host : gostring) (o : recall_op) : option authRecall :=
  match o with
  | OpRemember now addr pid => if bool_decide (ipHost addr = host) then Some (mkRecall pid now) else None
  | _ => None
  end.
Definition is_login (host : gostring) (o : recall_op) : bool := bool_decide (is_Some (login_of host o)).

Definition last_login (host : gostring) (e : option authRecall) (h : list recall_op) : option authRecall :=
  foldl (fun acc o => match login_of host o with Some r => Some r | None => acc end) e h.

(** The operation is the second half of a deletion of [host] that was under way in [s]. *)
Definition finishes (s : RecallSys) (host : gostring) (o : recall_op) : bool :=
  match o with OpDelete g => bool_decide (rs_deletes s !! g = Some host) | _ => false end.

(** The last login from [host] was overtaken: a deletion that was under way when it was
    made, on the expired entry before it, ran after it. *)
Fixpoint overtaken (s : RecallSys) (host : gostring) (h : list recall_op) : bool :=
  match h with
  | [] => false
  | o :: h' =>
      if existsb (is_login host) h then overtaken (run_recall_op o s) host h'
      else existsb (finishes s host) h
  end.

(** The account an entry stands for at an instant. *)
Definition recalled (now : Z) (e : option authRecall) : option Z :=
  match e with
  | Some r => if bool_decide (rc_pid r = 0) || bool_decide (authRecallTTL < now - rc_at r)
              then None else Some (rc_pid r)
  | None => None
  end.

Lemma init_table now t : authPIDByIP (authRecallInit now None t) = authPIDByIP t.
Proof. unfold authRecallInit. by destruct (recallOnce t). Qed.

Lemma recall_named now file addr t :
  (RecallAuthPID now file addr t).1 = recalled now (authPIDByIP (authRecallInit now file t) !! ipHost addr).
Proof.
  unfold RecallAuthPID, recall_look, expired, recalled.
  destruct (_ !! ipHost addr) as [r|]; [|done]. by repeat case_bool_decide.
Qed.

(** A recall leaves the other entries alone, and drops its own only when it is expired. *)
Lemma recall_entries now file addr t host :
  let t0 := authRecallInit now file t in
  authPIDByIP (RecallAuthPID now file addr t).2 !! host = authPIDByIP t0 !! host \/
  authPIDByIP (RecallAuthPID now file addr t).2 !! host = None /\ host = ipHost addr.
Proof.
  cbn. unfold RecallAuthPID. destruct (recall_look _ _ _); [by left|]. cbn.
  destruct (decide (host = ipHost addr)) as [->|]; [right; by rewrite lookup_delete_eq|left].
  by rewrite lookup_delete_ne.
Qed.

Lemma expired_mono now now' r : now <= now' -> expired now r = true -> expired now' r = true.
Proof. unfold expired. intros ? ?%bool_decide_eq_true. apply bool_decide_eq_true. lia. Qed.

Lemma named_expired now now' r : now <= now' -> expired now r = true -> recalled now' (Some r) = None.
Proof.
  intros Hle He. unfold recalled. change (bool_decide (authRecallTTL < _)) with (expired now' r).
  by rewrite (expired_mono now), orb_true_r.
Qed.

Lemma ordered_cons o h now : ordered (o :: h) now ->
  ordered h now /\ Forall (fun t => t <= now) (op_time o).
Proof.
  unfold ordered. cbn. destruct o; cbn; try done;
    intros [? Hf]%StronglySorted_inv; (split; [done|]);
    apply Forall_app in Hf as [_ Hf]; by inversion Hf; subst; repeat constructor.
Qed.

(** A step that is no login from [host]: its entry stays unless a deletion of it finishes,
    and a deletion of it starts only on an expired entry. *)
Lemma quiet_step o s host : is_login host o = false ->
  let s' := run_recall_op o s in
  (finishes s host o = true /\ rs_entry s' host = None) \/
  (finishes s host o = false /\ rs_entry s' host = rs_entry s host /\
   ((forall g, rs_deletes s' !! g = Some host <-> rs_deletes s !! g = Some host) \/
    exists r t, rs_entry s host = Some r /\ op_time o = [t] /\ expired t r = true)).
Proof.
  intros Hl. destruct o as [now addr pid|g now addr|g| |g now ip]; cbn -[authRecallInit].
  - right. split_and!; [done| |by left]. cbn. rewrite init_table, lookup_insert_ne; [done|].
    intros E. unfold is_login, login_of in Hl. rewrite (bool_decide_eq_true_2 (_ = _) E) in Hl.
    by rewrite bool_decide_eq_true_2 in Hl.
  - right. split; [done|]. destruct (rs_deletes s !! g) as [x|] eqn:Hg; [split; [done|by left]|].
    unfold recall_look. destruct (rs_entry s (ipHost addr)) as [r|] eqn:Hr; [|split; [done|by left]].
    case_bool_decide; [split; [done|by left]|]. destruct (expired now r) eqn:He; [|split; [done|by left]].
    split; [done|]. destruct (decide (ipHost addr = host)) as [<-|Hne]; [right; by exists r, now|left].
    intros g'. cbn. rewrite lookup_insert. case_decide; [subst; split; congruence|done].
  - destruct (rs_deletes s !! g) as [x|] eqn:Hg; [|right; rewrite bool_decide_eq_false_2 by done; split_and!; [done|done|by left]].
    case_bool_decide as Hx; simplify_eq; [left|right]; cbn; (split; [done|]).
    + apply lookup_delete_eq.
    + split; [apply lookup_delete_ne; congruence|left]. intros g'. rewrite lookup_delete.
      case_decide; [subst; split; congruence|done].
  - right. destruct (recallDirty _); split_and!; try done; by left.
  - right. split; [done|]. destruct (rs_deletes s !! g) as [x|] eqn:Hg; [split; [done|by left]|].
    destruct (rs_entry s ip) as [r|] eqn:Hr; [|split; [done|by left]]. unfold flush_look.
    case_bool_decide; [split; [done|by left]|]. destruct (expired now r) eqn:He; [|case_bool_decide; split; (done || by left)].
    split; [done|]. destruct (decide (ip = host)) as [<-|Hne]; [right; by exists r, now|left].
    intros g'. cbn. rewrite lookup_insert. case_decide; [subst; split; congruence|done].
Qed.

Lemma finishes_ext s s' host h :
  (forall g, rs_deletes s' !! g = Some host <-> rs_deletes s !! g = Some host) ->
  existsb (finishes s' host) h = existsb (finishes s host) h.
Proof.
  intros E. induction h as [|o h IH]; [done|]. cbn. rewrite IH. f_equal.
  destruct o; try done. cbn. by apply bool_decide_ext.
Qed.

Lemma last_login_any host e e' h : existsb (is_login host) h = true ->
  last_login host e h = last_login host e' h.
Proof.
  revert e e'. induction h as [|o h IH]; intros e e'; [done|]. cbn. unfold is_login at 1.
  destruct (login_of host o) as [r|]; [done|]. apply IH.
Qed.

Lemma last_login_none host e h : existsb (is_login host) h = false -> last_login host e h = e.
Proof.
  revert e. induction h as [|o h IH]; intros e; [done|]. cbn. unfold is_login at 1.
  destruct (login_of host o) as [r|]; [done|]. apply IH.
Qed.

Lemma remembered now addr pid t : authPIDByIP (RememberAuthPID now None addr pid t) =
  <[ipHost addr := mkRecall pid now]> (authPIDByIP t).
Proof. cbn. by rewrite init_table. Qed.

Lemma login_entry o s host r : login_of host o = Some r ->
  rs_entry (run_recall_op o s) host = Some r.
Proof.
  destruct o; try done. cbn -[RememberAuthPID]. case_bool_decide; [|done]. intros [= <-]. subst.
  rewrite remembered. apply lookup_insert_eq.
Qed.

(** What a reader makes of an entry, who takes an expired one for none. *)
Section views.
Context (now : Z) (view : option authRecall -> option Z) (Hnone : view None = None)
  (Hexpired : forall t r, t <= now -> expired t r = true -> view (Some r) = None).

(** Without a login from [host], its entry names the same account as before, or none once a
    deletion that was under way has finished. *)
Lemma quiet_history h s host : ordered h now -> existsb (is_login host) h = false ->
  view (rs_entry (run_recall_ops h s) host) =
  if existsb (finishes s host) h then None else view (rs_entry s host).
Proof using Hnone Hexpired.
  revert s. induction h as [|o h IH]; intros s Ho Hl; [done|].
  apply ordered_cons in Ho as [Ho Ht]. cbn in Hl. apply orb_false_iff in Hl as [Hlo Hl].
  change (run_recall_ops (o :: h) s) with (run_recall_ops h (run_recall_op o s)). rewrite IH by done.
  cbn [existsb]. destruct (quiet_step o s host Hlo) as [[-> ->]|(-> & -> & Hs)]; cbn [orb]; [by case_match|].
  destruct Hs as [Hs|(r & t & -> & E & He)]; [by rewrite (finishes_ext s _ host h Hs)|].
  rewrite E in Ht. apply Forall_cons in Ht as [Ht _].
  rewrite (Hexpired t) by done. by repeat case_match.
Qed.

(** Whatever the interleaving, the entry of a host stands for its last login, or for none
    when that was overtaken. *)
Lemma history_view h s host : ordered h now ->
  view (rs_entry (run_recall_ops h s) host) =
  if overtaken s host h then None else view (last_login host (rs_entry s host) h).
Proof using Hnone Hexpired.
  revert s. induction h as [|o h IH]; intros s Ho; [done|]. cbn [overtaken].
  destruct (existsb (is_login host) (o :: h)) eqn:Hl.
  - apply ordered_cons in Ho as [Ho _].
    change (run_recall_ops (o :: h) s) with (run_recall_ops h (run_recall_op o s)). rewrite IH by done.
    case_match; [done|]. f_equal. cbn in Hl. unfold is_login at 1 in Hl.
    destruct (existsb (is_login host) h) eqn:Hh;
      [cbn [last_login foldl]; by apply (last_login_any host _ _ h)|].
    rewrite orb_false_r in Hl. apply bool_decide_eq_true in Hl as [r Hr].
    cbn. by rewrite (login_entry _ _ _ _ Hr), Hr.
  - by rewrite (quiet_history _ _ _ Ho Hl), last_login_none.
Qed.
End views.

(** [C27] Identity recall: over any interleaving of the steps of logins, recalls and the
    flusher, with a clock that never goes back, on a process that started with the table
    [t], a recall from an address names the account of the last login from the same host
    (or of the entry the process started with), provided that login is at most 24 hours
    old and named a non-zero account, and names none otherwise, whatever other hosts did.
    The one exception is exact: a deletion begun on the expired entry before that login and
    finished after it forgets the login, and the recall names none. *)
Theorem recall_last_login t h now addr :
  ordered h now ->
  let host := ipHost addr in
  (RecallAuthPID now None addr (rs_table (run_recall_ops h (start_recall t)))).1 =
  if overtaken (start_recall t) host h then None
  else match last_login host (authPIDByIP t !! host) h with
       | Some r => if bool_decide (rc_pid r = 0) || bool_decide (authRecallTTL < now - rc_at r)
                   then None else Some (rc_pid r)
       | None => None
       end.
Proof.
  intros Ho host. rewrite recall_named, init_table. exact (history_view now (recalled now) eq_refl (fun t r => named_expired t now r) h (start_recall t) host Ho).
Qed.

(** A player away for more than a day logs in again: undisturbed the login is recalled; when
    a recall had found the old entry expired and deletes it only now, it is not. *)
Lemma recall_last_login_witness :
  let away := authRecallTTL + 10 in
  let recall h := (RecallAuthPID (away + 3) None (str "10.0.0.1:9")
    (rs_table (run_recall_ops (OpRemember 3 (str "10.0.0.1:5") 77 :: h) (start_recall empty_table)))).1 in
  recall [OpLook 1 away (str "10.0.0.1:7"); OpDelete 1; OpRemember (away + 1) (str "10.0.0.1:6") 78;
          OpRemember (away + 2) (str "10.0.0.2:6") 79] = Some 78 /\
  recall [OpLook 1 away (str "10.0.0.1:7"); OpRemember (away + 1) (str "10.0.0.1:6") 78; OpDelete 1] = None /\
  recall [OpVisit 0 away (str "10.0.0.1"); OpRemember (away + 1) (str "10.0.0.1:6") 78; OpDelete 0] = None /\
  recall [] = None.
Proof.
  cbv zeta. split_and!; (rewrite recall_last_login; [vm_compute; reflexivity|]);
    unfold ordered; cbn; repeat (constructor; [|repeat constructor; vm_compute; discriminate]); constructor.
Defined.

(** ** The flusher, step by step *)

(** The turns of an undisturbed flusher on the entries it visits. *)
Definition flush_turns (g : nat) (now : Z) (l : list (gostring * authRecall)) : list recall_op :=
  l ≫= (fun kv => [OpVisit g now kv.1; OpDelete g]).

Lemma flush_turn g now ip r s :
  rs_deletes s = ∅ -> rs_entry s ip = Some r ->
  run_recall_op (OpDelete g) (run_recall_op (OpVisit g now ip) s) =
  let '(out, m) := flush_entry now (rs_out s, authPIDByIP (rs_table s)) (ip, r) in
  mkSys (mkTable m (recallOnce (rs_table s)) (recallDirty (rs_table s))) ∅ out.
Proof.
  destruct s as [[m o d] ds out]. cbn -[flush_look]. intros -> ->. rewrite lookup_empty.
  destruct (flush_look now out ip r); cbn; [by rewrite lookup_empty| |by rewrite lookup_empty].
  rewrite lookup_insert_eq. by rewrite delete_insert_id.
Qed.

Lemma flush_turns_run g now l s :
  rs_deletes s = ∅ -> NoDup l.*1 -> (forall ip r, (ip, r) ∈ l -> rs_entry s ip = Some r) ->
  run_recall_ops (flush_turns g now l) s =
  let '(out, m) := foldl (flush_entry now) (rs_out s, authPIDByIP (rs_table s)) l in
  mkSys (mkTable m (recallOnce (rs_table s)) (recallDirty (rs_table s))) ∅ out.
Proof.
  revert s. induction l as [|[ip r] l IH]; intros s Hd Hnd Hin; [destruct s as [[]]; cbn in *; by subst|].
  apply NoDup_cons in Hnd as [Hk Hnd].
  change (run_recall_ops (flush_turns g now ((ip, r) :: l)) s) with (run_recall_ops (flush_turns g now l)
    (run_recall_op (OpDelete g) (run_recall_op (OpVisit g now ip) s))).
  rewrite (flush_turn g now ip r) by (done || apply Hin; by left). cbn [foldl].
  destruct (flush_entry now (rs_out s, authPIDByIP (rs_table s)) (ip, r)) as [out m] eqn:E.
  rewrite IH; [done|done|done|]. cbn. intros k x Hkx.
  assert (k <> ip) as Hne by (intros ->; apply Hk, list_elem_of_fmap; by exists (ip, x)).
  rewrite <- (Hin k x) by (by right). unfold flush_entry in E. case_match; simplify_eq; try done.
  by rewrite lookup_delete_ne.
Qed.

(** Undisturbed, the steps of the flusher are [authRecallFlush]. *)
Lemma flush_in_steps `{GoRange} g now t :
  recallDirty t = true ->
  let s := run_recall_ops (OpSwap :: flush_turns g now (range (authPIDByIP t))) (start_recall t) in
  authRecallFlush now t = (Some (rs_out s), rs_table s).
Proof.
  intros Hd s. unfold authRecallFlush. rewrite Hd.
  assert (s = run_recall_ops (flush_turns g now (range (authPIDByIP t)))
    (mkSys (mkTable (authPIDByIP t) (recallOnce t) false) ∅ ∅)) as -> by (subst s; cbn; by rewrite Hd).
  rewrite flush_turns_run; [|done|apply NoDup_range|intros ip r; apply elem_of_range]. cbn.
  by destruct (foldl _ _ _).
Qed.

(** An entry that is left after a flush was there before. *)
Lemma flush_removes `{GoRange} now t h r :
  authPIDByIP (authRecallFlush now t).2 !! h = Some r -> authPIDByIP t !! h = Some r.
Proof.
  unfold authRecallFlush. destruct (recallDirty t); [|done].
  assert (forall l out m, (foldl (flush_entry now) (out, m) l).2 !! h = Some r -> m !! h = Some r) as Hl.
  { induction l as [|[ip rec] l IH]; intros out m; cbn [foldl]; [done|]. unfold flush_entry at 2.
    case_match; intros E%IH; [done| |done]. by apply lookup_delete_Some in E as [_ E]. }
  specialize (Hl (range (authPIDByIP t)) ∅ (authPIDByIP t)). by destruct (foldl _ _ _).
Qed.

(** ** A restart *)

(** The operation does not touch what the flusher collected for [host]. *)
Definition keeps_collected (host : gostring) (o : recall_op) : Prop :=
  match o with OpSwap => False | OpVisit _ _ ip => ip <> host | _ => True end.

Lemma collected_stays h s host : Forall (keeps_collected host) h ->
  rs_out (run_recall_ops h s) !! host = rs_out s !! host.
Proof.
  intros Hh. revert s. induction Hh as [|o h Ho _ IH]; intros s; [done|].
  change (run_recall_ops (o :: h) s) with (run_recall_ops h (run_recall_op o s)). rewrite IH. clear IH.
  destruct o as [| | | |g now ip]; cbn -[flush_look] in *; repeat case_match; try done. cbn.
  by rewrite lookup_insert_ne.
Qed.

(** What a visit of the flusher leaves for the next process, which reads the second of the
    login from the file. *)
Lemma visit_restored g now1 now2 host s : now1 <= now2 -> host <> [] ->
  rs_deletes s !! g = None -> rs_out s !! host = None -> Z.of_nat (size (rs_out s)) < authRecallMax ->
  (rs_out (run_recall_op (OpVisit g now1 host) s) !! host ≫= restore now2) =
  match rs_entry s host with
  | Some r => if bool_decide (expired now1 r = false) then restore now2 (persist r) else None
  | None => None
  end.
Proof.
  intros Hle Hh Hg Ho Hs. cbn. rewrite Hg. destruct (rs_entry s host) as [r|]; [|by rewrite Ho].
  unfold flush_look. rewrite bool_decide_eq_false_2 by done.
  destruct (expired now1 r); [cbn; by rewrite Ho|]. rewrite bool_decide_eq_true_2 by done. cbn.
  by rewrite lookup_insert_eq.
Qed.

Lemma named_restored now1 now2 r : now1 <= now2 ->
  recalled now2 (if bool_decide (expired now1 r = false) then restore now2 (persist r) else None) =
  recalled now2 (Some (mkRecall (rc_pid r) (rc_at r / nanos * nanos))).
Proof.
  intros Hle. pose proof (Z.mul_div_le (rc_at r) nanos ltac:(done)).
  unfold expired, restore, usable, recalled. cbn. repeat (case_bool_decide || case_decide); cbn; try done; try lia; naive_solver lia.
Qed.

(** [C26] A restart forgets nobody.  A process starts with the table [t] and runs any
    interleaving [h1] of the steps of logins, recalls and the flusher; then its flusher,
    having collected fewer than 50000 entries, visits the host of an address (not empty);
    then come any further steps [h2] that do not start another collection.  The process
    that later loads what was collected, with a clock that never went back, answers a recall
    from that address with the last login before the visit, as the first one would have at
    the visit, only that it counts the age of the login from the start of its second. *)
Theorem recall_survives_restart t h1 g now1 h2 now2 addr :
  let host := ipHost addr in
  let s1 := run_recall_ops h1 (start_recall t) in
  let file := rs_out (run_recall_ops (h1 ++ OpVisit g now1 host :: h2) (start_recall t)) in
  ordered h1 now1 -> now1 <= now2 -> host <> [] ->
  rs_deletes s1 !! g = None -> rs_out s1 !! host = None -> Z.of_nat (size (rs_out s1)) < authRecallMax ->
  Forall (keeps_collected host) h2 ->
  (RecallAuthPID now2 (Some file) addr empty_table).1 =
  if overtaken (start_recall t) host h1 then None
  else match last_login host (authPIDByIP t !! host) h1 with
       | Some r => if bool_decide (rc_pid r = 0) || bool_decide (authRecallTTL < now2 - rc_at r / nanos * nanos)
                   then None else Some (rc_pid r)
       | None => None
       end.
Proof.
  intros host s1 file Ho Hle Hh Hg Hout Hs Hk.
  assert (forall e, recalled now2 (match e with
      | Some r => if bool_decide (expired now1 r = false) then restore now2 (persist r) else None
      | None => None end) =
    recalled now2 ((fun r => mkRecall (rc_pid r) (rc_at r / nanos * nanos)) <$> e)) as Hnamed
    by (intros [r|]; [by apply named_restored|done]).
  rewrite recall_named. unfold authRecallInit. cbn -[restore]. rewrite map_union_empty, lookup_omap.
  subst file. unfold run_recall_ops at 1. rewrite foldl_app. fold (run_recall_ops h1 (start_recall t)). fold s1.
  change (foldl _ s1 (OpVisit g now1 host :: h2)) with (run_recall_ops h2 (run_recall_op (OpVisit g now1 host) s1)).
  rewrite collected_stays by done. fold host.
  rewrite (visit_restored g now1 now2 host s1 Hle Hh Hg Hout Hs), Hnamed.
  etrans; [refine (history_view now1
    (fun e => recalled now2 ((fun r => mkRecall (rc_pid r) (rc_at r / nanos * nanos)) <$> e))
    eq_refl _ h1 (start_recall t) host Ho)|case_match; [done|]; by destruct (last_login _ _ _)].
  intros t0 r Ht He. cbn [fmap option_fmap option_map]. rewrite <- (named_restored now1) by done.
  by rewrite (expired_mono t0).
Qed.

(** A player logs in, the flusher writes the table, and the next process knows them; a login
    made after the visit is not in the file. *)
Lemma recall_survives_restart_witness :
  let file := rs_out (run_recall_ops ([OpRemember 3 (str "10.0.0.1:5") 77; OpRemember 5 (str "10.0.0.2:5") 78; OpSwap]
    ++ OpVisit 0 8 (str "10.0.0.1") :: [OpRemember 9 (str "10.0.0.1:6") 79; OpVisit 0 9 (str "10.0.0.2")])
    (start_recall empty_table)) in
  (RecallAuthPID 9 (Some file) (str "10.0.0.1:9") empty_table).1 = Some 77.
Proof.
  cbv zeta. change (str "10.0.0.1") with (ipHost (str "10.0.0.1:9")).
  rewrite (recall_survives_restart empty_table
    [OpRemember 3 (str "10.0.0.1:5") 77; OpRemember 5 (str "10.0.0.2:5") 78; OpSwap] 0 8
    [OpRemember 9 (str "10.0.0.1:6") 79; OpVisit 0 9 (str "10.0.0.2")] 9 (str "10.0.0.1:9")).
  - vm_compute. reflexivity.
  - unfold ordered. cbn. repeat (constructor; [|repeat constructor; lia]). constructor.
  - lia.
  - vm_compute. discriminate.
  - vm_compute. reflexivity.
  - vm_compute. reflexivity.
  - vm_compute. reflexivity.
  - repeat constructor. vm_compute. discriminate.
Defined.
