(* ===== verification/Endpoint.v ===== *)
(** * Connections at work (nextendo-nex/endpoint.go)

    The receive path of a connection (framing, handshake, data, pings, disconnection),
    the send path (fragmentation, sequence numbers, acknowledgements, retransmission)
    and the dispatch of RMC requests.

    [Net] is what the goroutines of one endpoint share: the registry of connections,
    the frames handed to the sockets so far, the fragment senders still running, the
    recall table and the application's own state.  [outPing] is not modelled: nothing
    reads it after it is initialised. *)

From S2P Require Import Prelude GoStd GoNet Settings Stream Types StationURL Rmc PrudpLite.
From S2P Require Import Connection Crypto Kerberos TicketGranting.

(** ** Signatures (prudp_lite.go) *)
Definition liteConnSigKey : bytes :=
  [0x26; 0xc3; 0x1f; 0x38; 0x1e; 0x46; 0xd6; 0xeb; 0x38; 0xe1; 0xaf; 0x6a; 0xb7; 0x0d; 0x11].

(** [rnd] is the random value used for a peer that is not an IPv4 address. *)
Definition ConnectionSignature (rnd : bytes) (addr : gostring) : bytes :=
  match GoNet.SplitHostPort addr with
  | Some (host, portStr) =>
      match GoNet.ParseIP host ≫= GoNet.To4, GoStrconv.atoi portStr with
      | Some ip, Some port => hmacMD5 liteConnSigKey (ip ++ reverse (le_bytes 2 (u16 port)))
      | _, _ => rnd
      end
  | None => rnd
  end.

(** [[]] is the nil slice of an unsigned packet. *)
Definition LitePacketSignature (accessKey : gostring) (p : Packet) (connectionSig : bytes) : bytes :=
  if bool_decide (p_Type p = PacketCONNECT) && HasFlag p FlagNeedACK then
    let key := md5Sum accessKey in hmacMD5 key (key ++ connectionSig)
  else [].

(** ** Shared state *)

(** The goroutine of [sendData] for a message of several fragments. *)
Record Sender := mkSender { sd_conn : Z; sd_rest : bytes; sd_fragmentID : Z }.

Record Net (App : Type) := mkNet {
  reg : Registry;
  wire : list (Z * bytes);
  senders : list Sender;
  recall : RecallTable;
  app : App
}.
Arguments mkNet {App}. Arguments reg {App}. Arguments wire {App}. Arguments senders {App}.
Arguments recall {App}. Arguments app {App}.

Definition RMCHandler (App : Type) : Type := Z -> RMCMessage -> Net App -> Net App * option RMCMessage.

Record Endpoint (App : Type) := mkEndpoint {
  e_Settings : Settings;
  Secure : bool;
  SecureKey : bytes;
  OnConnect : option (Connection -> App -> App);
  OnDisconnect : option (Connection -> App -> App);
  OnRMC : option (Connection -> RMCMessage -> App -> App);
  handlers : gmap Z (RMCHandler App);
  fallbackHandler : option (RMCHandler App);
  customPacketHandlers : gmap Z (Z -> Packet -> Net App -> Net App)
}.
Arguments mkEndpoint {App}. Arguments e_Settings {App}. Arguments Secure {App}.
Arguments SecureKey {App}. Arguments OnConnect {App}. Arguments OnDisconnect {App}.
Arguments OnRMC {App}. Arguments handlers {App}. Arguments fallbackHandler {App}.
Arguments customPacketHandlers {App}.

Definition NewEndpoint {App} (s : Settings) : Endpoint App :=
  mkEndpoint s false [] None None None ∅ None ∅.

Definition SetSecureAccount {App} (password : gostring) (pid : Z) (e : Endpoint App) : Endpoint App :=
  mkEndpoint (e_Settings e) true (DeriveKey (e_Settings e) password pid) (OnConnect e)
    (OnDisconnect e) (OnRMC e) (handlers e) (fallbackHandler e) (customPacketHandlers e).

Definition Register {App} (protocolID : Z) (h : RMCHandler App) (e : Endpoint App) : Endpoint App :=
  mkEndpoint (e_Settings e) (Secure e) (SecureKey e) (OnConnect e) (OnDisconnect e) (OnRMC e)
    (<[protocolID := h]> (handlers e)) (fallbackHandler e) (customPacketHandlers e).

Definition RegisterFallback {App} (h : option (RMCHandler App)) (e : Endpoint App) : Endpoint App :=
  mkEndpoint (e_Settings e) (Secure e) (SecureKey e) (OnConnect e) (OnDisconnect e) (OnRMC e)
    (handlers e) h (customPacketHandlers e).

Definition RegisterCustomPacketHandler {App} (packetType : Z) (h : Z -> Packet -> Net App -> Net App)
    (e : Endpoint App) : Endpoint App :=
  mkEndpoint (e_Settings e) (Secure e) (SecureKey e) (OnConnect e) (OnDisconnect e) (OnRMC e)
    (handlers e) (fallbackHandler e) (<[packetType := h]> (customPacketHandlers e)).

Definition handler {App} (e : Endpoint App) (protocolID : Z) : option (RMCHandler App) :=
  match handlers e !! protocolID with Some h => Some h | None => fallbackHandler e end.

(** What handling a frame reads from outside: the clock, random bytes, the recall file. *)
Record PEnv := mkPEnv {
  pe_now : Z; pe_rnd : bytes; pe_file : option (gmap gostring authRecallPersisted)
}.

(** ** One connection: sending *)
Definition data_packet (c : Connection) (chunk : bytes) (fragmentID : Z) : Packet :=
  mkPacket PacketDATA (Z.lor FlagReliable FlagNeedACK) (srcType c) (srcPort c) (dstType c)
    (dstPort c) fragmentID (outReliable c) [] [] 0 0 chunk.

(** [sendOneFragment] is two critical sections: under [mu] the fragment takes the next
    sequence id and is sent; under [pendingMu] it is entered for retransmission.
    Acknowledgements run between the two. *)
Definition assign_fragment (chunk : bytes) (fragmentID : Z) (c : Connection) : Connection * (Z * bytes) :=
  (set_out (u16 (outReliable c + 1)) (pending c) c,
   (outReliable c, EncodePacket (data_packet c chunk fragmentID))).

Definition pool_fragment (pid : Z) (encoded : bytes) (c : Connection) : Connection :=
  set_out (outReliable c) (<[pid := encoded]> (pending c)) c.

(** Both, undisturbed: the updated connection and the frame. *)
Definition sendOneFragment (chunk : bytes) (fragmentID : Z) (c : Connection) : Connection * bytes :=
  let '(c, (pid, encoded)) := assign_fragment chunk fragmentID c in
  (pool_fragment pid encoded c, encoded).

Definition ackPackets (base : Z) (extra : list Z) (c : Connection) : Connection :=
  set_out (outReliable c)
    (foldl (fun m pid => delete pid m)
       (filter (fun kv : Z * bytes => base < kv.1) (pending c)) extra) c.

Definition ack_of (c : Connection) (p : Packet) : Packet :=
  mkPacket (p_Type p) FlagACK (srcType c) (srcPort c) (dstType c) (dstPort c)
    (p_FragmentID p) (p_PacketID p) [] [] 0 0 [].

Definition fragment_size (s : Settings) : Z :=
  if bool_decide (FragmentSize s <= 0) then 1300 else FragmentSize s.

(** One turn of the loop of the fragment sender. *)
Definition sender_turn (fragSize : Z) (rest : bytes) (fragmentID : Z) (c : Connection)
    : Connection * bytes * option (bytes * Z) :=
  let more := bool_decide (fragSize < len rest) in
  let chunk := if more then ztake fragSize rest else rest in
  let fragmentID := if more then fragmentID else 0 in
  let '(c, encoded) := sendOneFragment chunk fragmentID c in
  (c, encoded,
   if bool_decide (fragmentID = 0) then None
   else Some (zdrop fragSize rest, u8 (fragmentID + 1))).

(** ** One connection: receiving *)

(** The sequence ids listed in an aggregate acknowledgement. *)
Fixpoint extra_ids (count : nat) (pl : bytes) : list Z :=
  match count, pl with
  | S count, a :: b :: pl => le_val [a; b] :: extra_ids count pl
  | _, _ => []
  end.

(** Reassembly: the new buffer, and the message this packet completes. *)
Definition absorb (fragBuf : bytes) (p : Packet) : bytes * option bytes :=
  let full := fragBuf ++ p_Payload p in
  if bool_decide (p_FragmentID p = 0) then ([], Some full) else (full, None).

Definition min8 (a b : Z) : Z := if bool_decide (a < b) then u8 a else b.

Definition syn_conn (s : Settings) (rnd : bytes) (p : Packet) (c : Connection) : Connection :=
  set_syn (ConnectionSignature rnd (RemoteAddr c)) (min8 (PrudpMinorVersion s) (p_MinorVersion p))
    (Z.land (u32 (SupportedFunctions s)) (p_SupportedFunc p))
    (p_DestType p) (p_DestPort p) (p_SourceType p) (p_SourcePort p) c.

Definition syn_ack (c : Connection) : Packet :=
  mkPacket PacketSYN (Z.lor FlagACK FlagHasSize) (srcType c) (srcPort c) (dstType c) (dstPort c)
    0 0 [] (connectionSig c) (minorVersion c) (supportedFunc c) [].

Definition connect_ack (c : Connection) (response : bytes) : Packet :=
  mkPacket PacketCONNECT (Z.lor FlagACK FlagHasSize) (srcType c) (srcPort c) (dstType c) (dstPort c)
    0 1 [] [] (minorVersion c) (supportedFunc c) response.

(** The two buffers of a CONNECT payload. *)
Definition connect_buffers (payload : bytes) : (bytes * bytes) * StreamIn :=
  (a <-- StreamInOps.Buffer ;; b <-- StreamInOps.Buffer ;; rret (a, b))%reader (NewStreamIn payload).

(** The decrypted check data: pid, cid, check. *)
Definition check_data (s : Settings) (d : bytes) : Z * Z * Z :=
  ((p <-- StreamInOps.PID s ;; c <-- StreamInOps.U32 ;; k <-- StreamInOps.U32 ;;
    rret (p, c, k))%reader (NewStreamIn d)).1.

(** The response, the updated connection and the updated recall table. *)
Definition processLoginRequest {App} (e : Endpoint App) (env : PEnv) (payload : bytes)
    (c : Connection) (t : RecallTable) : fallible (bytes * Connection) * RecallTable :=
  let s := e_Settings e in
  if negb (Secure e) then (Ok ([], c), t)
  else if bool_decide (len payload = 0) then
    let '(who, t) := RecallAuthPID (pe_now env) (pe_file env) (RemoteAddr c) t in
    (match who with
     | None => Error
     | Some pid => Ok ([], set_login pid (CID c) (sessionKey c) c)
     end, t)
  else
    let '((ticketData, requestData), st) := connect_buffers payload in
    if si_err st then (Error, t)
    else
      ((ticket <?- DecryptServerTicket ticketData (SecureKey e) s ;;
        decrypted <?- kerberosDecrypt (st_SessionKey ticket) requestData ;;
        if bool_decide (len decrypted <> PIDSize s + 8) then Error
        else
          let '(pid, cid, check) := check_data s decrypted in
          if bool_decide (pid <> st_Source ticket) then Error
          else Ok (StreamOut.U32 4 ++ StreamOut.U32 (u32 (check + 1)),
                   set_login pid cid (st_SessionKey ticket) c))%fallible, t).

(** ** The endpoint *)
Section Endpoint.
Context {App : Type} (e : Endpoint App).

Definition emit (ref : Z) (frame : bytes) (n : Net App) : Net App :=
  mkNet (reg n) (wire n ++ [(ref, frame)]) (senders n) (recall n) (app n).
Definition with_reg (r : Registry) (n : Net App) : Net App :=
  mkNet r (wire n) (senders n) (recall n) (app n).
Definition with_recall (t : RecallTable) (n : Net App) : Net App :=
  mkNet (reg n) (wire n) (senders n) t (app n).
Definition with_app (f : App -> App) (n : Net App) : Net App :=
  mkNet (reg n) (wire n) (senders n) (recall n) (f (app n)).
Definition set_conn (ref : Z) (c : Connection) (n : Net App) : Net App :=
  with_reg (mkRegistry (<[ref := c]> (heap (reg n))) (connections (reg n)) (connCounter (reg n))) n.

(** An operation on the object behind [ref]. *)
Definition with_conn (ref : Z) (f : Connection -> Net App -> Net App) (n : Net App) : Net App :=
  match heap (reg n) !! ref with Some c => f c n | None => n end.

Definition send_fragment (ref : Z) (chunk : bytes) (fragmentID : Z) (n : Net App) : Net App :=
  with_conn ref (fun c n =>
    let '(c, encoded) := sendOneFragment chunk fragmentID c in emit ref encoded (set_conn ref c n)) n.

Definition sendData (ref : Z) (data : bytes) (n : Net App) : Net App :=
  if bool_decide (len data <= fragment_size (e_Settings e)) then send_fragment ref data 0 n
  else mkNet (reg n) (wire n) (senders n ++ [mkSender ref data 1]) (recall n) (app n).

Definition SendRMC (ref : Z) (msg : RMCMessage) (n : Net App) : Net App :=
  sendData ref (Encode msg) n.

(** A turn of the [i]-th running sender; it stops when the connection is closed. *)
Definition step_sender (i : nat) (n : Net App) : Net App :=
  match senders n !! i with
  | None => n
  | Some sd =>
      let stop := mkNet (reg n) (wire n) (delete i (senders n)) (recall n) (app n) in
      match heap (reg n) !! sd_conn sd with
      | None => stop
      | Some c =>
          if bool_decide (cstate c = stateClosed) then stop
          else
            let '(c, encoded, next) :=
              sender_turn (fragment_size (e_Settings e)) (sd_rest sd) (sd_fragmentID sd) c in
            let n := emit (sd_conn sd) encoded (set_conn (sd_conn sd) c n) in
            match next with
            | None => mkNet (reg n) (wire n) (delete i (senders n)) (recall n) (app n)
            | Some (rest, fid) =>
                mkNet (reg n) (wire n) (<[i := mkSender (sd_conn sd) rest fid]> (senders n))
                  (recall n) (app n)
            end
      end
  end.

(** A tick of the retransmission loop of [ref]: every pending frame, in map order. *)
Definition retransmit `{GoRange} (ref : Z) (n : Net App) : Net App :=
  with_conn ref (fun c n =>
    if bool_decide (cstate c = stateClosed) then n
    else foldl (fun n kv => emit ref kv.2 n) n (range (pending c))) n.

Definition sendAck (ref : Z) (p : Packet) (n : Net App) : Net App :=
  with_conn ref (fun c n => emit ref (EncodePacket (ack_of c p)) n) n.

(** [close], also the transport's [Close]. *)
Definition close (ref : Z) (n : Net App) : Net App :=
  with_conn ref (fun c n =>
    if bool_decide (cstate c = stateClosed) then n
    else
      let c := set_state stateClosed c in
      let n := set_conn ref c n in
      let n := with_reg (unregisterConnection ref (reg n)) n in
      match OnDisconnect e with Some f => with_app (f c) n | None => n end) n.

Definition dispatchRMC (ref : Z) (payload : bytes) (n : Net App) : Net App :=
  match ParseRMC payload with
  | None => n
  | Some req =>
      if bool_decide (Mode req <> RMCRequest) then n
      else
        let n := match OnRMC e with
          | Some f => with_conn ref (fun c n => with_app (f c req) n) n | None => n end in
        match handler e (Protocol req) with
        | None => SendRMC ref (NewRMCError (Protocol req) (CallID req) ResultCoreNotImplemented) n
        | Some h =>
            let '(n, resp) := h ref req n in
            match resp with Some r => SendRMC ref r n | None => n end
        end
  end.

Definition processSYN (env : PEnv) (ref : Z) (p : Packet) (n : Net App) : Net App :=
  with_conn ref (fun c n =>
    let c := syn_conn (e_Settings e) (pe_rnd env) p c in
    emit ref (EncodePacket (syn_ack c)) (set_conn ref c n)) n.

(** [None] is a panic. *)
Definition processCONNECT (env : PEnv) (ref : Z) (p : Packet) (n : Net App) : option (Net App) :=
  match heap (reg n) !! ref with
  | None => Some n
  | Some c =>
      let expected := LitePacketSignature (AccessKey (e_Settings e)) p (connectionSig c) in
      if bool_decide (expected <> p_Signature p) then Some n
      else
        let '(login, t) := processLoginRequest e env (p_Payload p) c (recall n) in
        let n := with_recall t n in
        match login with
        | Panic => None
        | Error => Some n
        | Ok (response, c) =>
            let n := emit ref (EncodePacket (connect_ack c response)) (set_conn ref c n) in
            let n := set_conn ref (set_state stateConnected c) n in
            let n := with_reg (registerConnection ref (reg n)) n in
            Some (match OnConnect e with
                  | Some f => with_conn ref (fun c n => with_app (f c) n) n | None => n end)
        end
  end.

Definition processData (ref : Z) (p : Packet) (n : Net App) : Net App :=
  if HasFlag p FlagMultiACK then
    match p_Payload p with
    | _ :: count :: b2 :: b3 :: rest =>
        with_conn ref (fun c n =>
          set_conn ref (ackPackets (le_val [b2; b3]) (extra_ids (Z.to_nat count) rest) c) n) n
    | _ => n
    end
  else if HasFlag p FlagACK then
    with_conn ref (fun c n => set_conn ref (ackPackets (p_PacketID p) [] c) n) n
  else
    let n := if HasFlag p FlagNeedACK then sendAck ref p n else n in
    with_conn ref (fun c n =>
      let '(buf, full) := absorb (fragBuf c) p in
      let n := set_conn ref (set_bufs (recvBuf c) buf c) n in
      match full with Some m => dispatchRMC ref m n | None => n end) n.

Definition processPing (ref : Z) (p : Packet) (n : Net App) : Net App :=
  if HasFlag p FlagACK then n
  else if HasFlag p FlagNeedACK then sendAck ref p n else n.

(** Every packet is a sign of life. *)
Definition mark_seen (env : PEnv) (ref : Z) (n : Net App) : Net App :=
  with_conn ref (fun c n => set_conn ref (set_lastSeen (pe_now env) c) n) n.

Definition handlePacket (env : PEnv) (ref : Z) (p : Packet) (n : Net App) : option (Net App) :=
  let n := mark_seen env ref n in
  if bool_decide (p_Type p = PacketSYN) then
    Some (if HasFlag p FlagACK then n else processSYN env ref p n)
  else if bool_decide (p_Type p = PacketCONNECT) then
    if HasFlag p FlagACK then Some n else processCONNECT env ref p n
  else if bool_decide (p_Type p = PacketDATA) then Some (processData ref p n)
  else if bool_decide (p_Type p = PacketPING) then Some (processPing ref p n)
  else if bool_decide (p_Type p = PacketDISCONNECT) then
    Some (if HasFlag p FlagACK then n
          else close ref (if HasFlag p FlagNeedACK then sendAck ref p n else n))
  else Some (match customPacketHandlers e !! p_Type p with Some h => h ref p n | None => n end).

(** The loop of [Feed] over the packets of a frame.  The transport recovers a panic: the
    packet had marked the connection as seen and changed nothing else, and the rest of the
    frame is lost. *)
Fixpoint handle_all (env : PEnv) (ref : Z) (ps : list Packet) (n : Net App) : Net App :=
  match ps with
  | [] => n
  | p :: ps =>
      match handlePacket env ref p n with
      | Some n => handle_all env ref ps n
      | None => mark_seen env ref n
      end
  end.

Definition Feed (env : PEnv) (ref : Z) (data : bytes) (n : Net App) : Net App :=
  match heap (reg n) !! ref with
  | None => n
  | Some c =>
      let '(packets, rest, err) := DecodePackets (recvBuf c ++ data) in
      if err : bool then set_conn ref (set_bufs [] (fragBuf c) c) n
      else handle_all env ref packets (set_conn ref (set_bufs rest (fragBuf c) c) n)
  end.

(** A new socket ([Server.OnOpen]). *)
Definition OnOpen (ref : Z) (addr : gostring) (n : Net App) : Net App :=
  with_reg (new_conn ref addr (reg n)) n.

(** ** Evicting connections (reaper.go) *)

(** The duration a variable asks for, or the default; the product is an [int64]. *)
Definition envSeconds (v : gostring) (def : Z) : Z :=
  sint 64 (match v, GoStrconv.atoi v with
           | _ :: _, Some s => if bool_decide (0 <= s) then s else def
           | _, _ => def
           end * nanos).
Definition defaultReapIdleSeconds : Z := 600.
Definition ReapIdleTimeout (NEXTENDO_REAP_IDLE_SECONDS : gostring) : Z :=
  envSeconds NEXTENDO_REAP_IDLE_SECONDS defaultReapIdleSeconds.

(** The reaper's loop: idle limit and pause between passes, if it runs; [started] is
    [reaperOnce]. *)
Definition defaultReapEverySecond : Z := 60.
Definition StartReaper (NEXTENDO_REAP_IDLE_SECONDS NEXTENDO_REAP_EVERY_SECONDS : gostring)
    (started : bool) : option (Z * Z) * bool :=
  let maxIdle := ReapIdleTimeout NEXTENDO_REAP_IDLE_SECONDS in
  if bool_decide (maxIdle <= 0) then (None, started)
  else if started then (None, true)
  else (Some (maxIdle, envSeconds NEXTENDO_REAP_EVERY_SECONDS defaultReapEverySecond), true).

(** Closing those of the listed connections that pass a test: the new state and how many. *)
Definition close_if (test : Connection -> bool) (refs : list Z) (n : Net App) : Net App * Z :=
  foldl (fun acc ref =>
    let '(n, k) := acc in
    match heap (reg n) !! ref with
    | Some c => if test c then (close ref n, k + 1) else (n, k)
    | None => (n, k)
    end) (n, 0) refs.

Definition dead (now maxIdle : Z) (c : Connection) : bool :=
  bool_decide (0 < IdleFor now c) && bool_decide (maxIdle <= IdleFor now c).

Definition ReapIdle `{GoRange} (now maxIdle : Z) (n : Net App) : Net App * Z :=
  if bool_decide (maxIdle <= 0) then (n, 0)
  else close_if (dead now maxIdle) (snapshotConns (reg n)) n.

Definition KickPID `{GoRange} (pid : Z) (n : Net App) : Net App * Z :=
  if bool_decide (pid = 0) then (n, 0)
  else close_if (fun c => bool_decide (PID c = pid)) (snapshotConns (reg n)) n.

Fixpoint kick_first (id : Z) (refs : list Z) (n : Net App) : Net App * bool :=
  match refs with
  | [] => (n, false)
  | ref :: refs =>
      match heap (reg n) !! ref with
      | Some c => if bool_decide (ID c = id) then (close ref n, true) else kick_first id refs n
      | None => kick_first id refs n
      end
  end.
Definition KickConnection `{GoRange} (id : Z) (n : Net App) : Net App * bool :=
  kick_first id (snapshotConns (reg n)) n.

End Endpoint.
