(* ===== verification/EndpointInv.v ===== *)
(** * Invariants of what an endpoint's connections share

    The transport touches only connections and frames: the recall table, the
    application's state and the accounts of the connections change through handlers, hooks
    and the identity check alone.  A property of these three that handlers, hooks and
    identity checks keep is therefore kept by whatever arrives on the sockets. *)

From S2P Require Import Prelude GoStd GoNet Settings Stream Types StationURL Rmc PrudpLite.
From S2P Require Import Connection Crypto Kerberos TicketGranting Endpoint.

(** Who a connection is: its account and the address it comes from; and what the registry
    says of it. *)
Definition ident (c : Connection) : Z * gostring := (PID c, RemoteAddr c).
Definition face (c : Connection) : Z * Z := (ID c, cstate c).
Definition view (c : Connection) : (Z * gostring) * (Z * Z) := (ident c, face c).

Definition people {App} (n : Net App) : gmap Z (Z * gostring) := ident <$> heap (reg n).

(** What handlers leave alone: everything but the application's state, and of the
    connections their buffers, stations and the like, frames and senders. *)
Definition outside {App} (n : Net App) : RecallTable * gmap Z ((Z * gostring) * (Z * Z)) * gmap Z Z * Z :=
  (recall n, view <$> heap (reg n), connections (reg n), connCounter (reg n)).
Definition seen {App} (n : Net App) := (outside n, app n).

Lemma outside_recall {App} (n n' : Net App) : outside n' = outside n -> recall n' = recall n.
Proof. by intros [= -> _ _ _]. Qed.

Lemma outside_people {App} (n n' : Net App) : outside n' = outside n -> people n' = people n.
Proof.
  intros [= _ Hv _ _]. apply (f_equal (fmap fst)) in Hv. by rewrite <- !map_fmap_compose in Hv.
Qed.

Lemma seen_outside {App} (n n' : Net App) : seen n' = seen n -> outside n' = outside n.
Proof. intros E. exact (f_equal fst E). Qed.

Lemma seen_app {App} (n n' : Net App) : seen n' = seen n -> app n' = app n.
Proof. intros E. exact (f_equal snd E). Qed.

(** The packets a frame completes, and the state in which they are handled: the rest of
    the frame is buffered. *)
Definition frame_packets {App} (ref : Z) (data : bytes) (n : Net App) : list Packet :=
  match heap (reg n) !! ref with
  | Some c => (DecodePackets (recvBuf c ++ data)).1.1
  | None => []
  end.
Definition buffered {App} (ref : Z) (data : bytes) (n : Net App) : Net App :=
  match heap (reg n) !! ref with
  | Some c => set_conn ref (set_bufs (DecodePackets (recvBuf c ++ data)).1.2 (fragBuf c) c) n
  | None => n
  end.

(** ** The transport *)
Section Transport.
Context {App : Type} (e : Endpoint App).
Implicit Types n : Net App.

Lemma seen_set_conn ref c c' n :
  heap (reg n) !! ref = Some c -> view c' = view c -> seen (set_conn ref c' n) = seen n.
Proof.
  intros Hc Hi. unfold seen, outside. cbn. rewrite fmap_insert, insert_id; [done|]. by rewrite lookup_fmap, Hc, Hi.
Qed.

Lemma seen_with_conn ref f n :
  (forall c, heap (reg n) !! ref = Some c -> seen (f c n) = seen n) -> seen (with_conn ref f n) = seen n.
Proof. intros Hf. unfold with_conn. destruct (heap (reg n) !! ref) as [c|]; [by apply Hf|done]. Qed.

(** An update of one connection's buffers and counters. *)
Lemma seen_update ref (f : Connection -> Connection) n :
  (forall c, view (f c) = view c) -> seen (with_conn ref (fun c n => set_conn ref (f c) n) n) = seen n.
Proof. intros Hf. apply seen_with_conn. intros c Hc. by apply (seen_set_conn ref c). Qed.

Lemma seen_send_fragment ref chunk fid n : seen (send_fragment ref chunk fid n) = seen n.
Proof. apply seen_with_conn. intros c Hc. cbn. by apply (seen_set_conn ref c). Qed.

Lemma seen_SendRMC ref msg n : seen (SendRMC e ref msg n) = seen n.
Proof. unfold SendRMC, sendData. case_bool_decide; [apply seen_send_fragment|done]. Qed.

Lemma seen_SendRMC_all (l : list (Z * RMCMessage)) n :
  seen (foldl (fun n p => SendRMC e p.1 p.2 n) n l) = seen n.
Proof. revert n. induction l as [|p l IH]; intros n; [done|]. cbn [foldl]. by rewrite IH, seen_SendRMC. Qed.

Lemma seen_sendAck ref p n : seen (sendAck ref p n) = seen n.
Proof. by apply seen_with_conn. Qed.

Lemma seen_step_sender i n : seen (step_sender e i n) = seen n.
Proof.
  unfold step_sender. destruct (senders n !! i) as [sd|]; [|done].
  destruct (heap (reg n) !! sd_conn sd) as [c|] eqn:Hc; [|done]. case_bool_decide; [done|].
  unfold sender_turn, sendOneFragment, assign_fragment. generalize EncodePacket. intros enc.
  case_bool_decide; cbn; case_match; cbn; by apply (seen_set_conn (sd_conn sd) c).
Qed.

Lemma seen_retransmit `{GoRange} ref n : seen (retransmit ref n) = seen n.
Proof.
  apply seen_with_conn. intros c _. case_bool_decide; [done|]. generalize (range (pending c)).
  intros l. revert n. induction l as [|kv l IH]; intros n; [done|]. cbn. by rewrite IH.
Qed.

Lemma seen_processSYN env ref p n : seen (processSYN e env ref p n) = seen n.
Proof. apply seen_with_conn. intros c Hc. by apply (seen_set_conn ref c). Qed.

Lemma seen_processPing ref p n : seen (processPing ref p n) = seen n.
Proof. unfold processPing. repeat case_match; try done; apply seen_sendAck. Qed.

Lemma outside_set_conn ref c c' n :
  heap (reg n) !! ref = Some c -> view c' = view c -> outside (set_conn ref c' n) = outside n.
Proof. intros Hc Hv. by apply seen_outside, (seen_set_conn ref c). Qed.

Lemma people_set_conn ref c c' n :
  heap (reg n) !! ref = Some c -> ident c' = ident c -> people (set_conn ref c' n) = people n.
Proof.
  intros Hc Hi. unfold people. cbn. rewrite fmap_insert. apply insert_id. by rewrite lookup_fmap, Hc, Hi.
Qed.

Lemma people_unregister ref n : people (with_reg (unregisterConnection ref (reg n)) n) = people n.
Proof. unfold people, unregisterConnection. cbn. repeat case_match; done. Qed.
End Transport.

(** ** Preservation *)
Section Preserve.
Context {App : Type} (e : Endpoint App) (env : PEnv).
Context (P : RecallTable -> App -> gmap Z (Z * gostring) -> Prop).
(** The payloads of the CONNECT packets that arrive. *)
Context (Q : bytes -> Prop).

Definition holds (n : Net App) : Prop := P (recall n) (app n) (people n).

Lemma holds_seen n n' : seen n' = seen n -> holds n -> holds n'.
Proof.
  intros E. unfold holds. by rewrite (seen_app _ _ E), (outside_people _ _ (seen_outside _ _ E)),
    (outside_recall _ _ (seen_outside _ _ E)).
Qed.

(** What the application and the identity check do. *)
Record keeps : Prop := {
  k_rmc : forall f ref c req t a w,
    OnRMC e = Some f -> w !! ref = Some (ident c) -> P t a w -> P t (f c req a) w;
  k_connect : forall f c t a w, OnConnect e = Some f -> P t a w -> P t (f c a) w;
  k_disconnect : forall f c t a w, OnDisconnect e = Some f -> P t a w -> P t (f c a) w;
  k_handler : forall proto h ref req n n' r,
    handler e proto = Some h -> holds n -> h ref req n = (n', r) -> holds n';
  k_custom : customPacketHandlers e = ∅;
  k_recall : forall addr t a w, P t a w -> P (RecallAuthPID (pe_now env) (pe_file env) addr t).2 a w;
  k_login : forall ref payload c t a w response c' t',
    Q payload -> P t a w -> w !! ref = Some (ident c) ->
    processLoginRequest e env payload c t = (Ok (response, c'), t') ->
    P t' a (<[ref := ident c']> w)
}.
Context (Hk : keeps).
#[local] Set Default Proof Using "All".

Lemma close_holds ref n : holds n -> holds (close e ref n).
Proof.
  intros Hn. unfold close, with_conn. destruct (heap (reg n) !! ref) as [c|] eqn:Hc; [|done].
  case_bool_decide; [done|]. set (n1 := set_conn ref _ n).
  assert (holds n1) as H1 by (subst n1; unfold holds; by rewrite (people_set_conn ref c)). clearbody n1.
  assert (holds (with_reg (unregisterConnection ref (reg n1)) n1)) as H2.
  { unfold holds. rewrite people_unregister. exact H1. }
  destruct (OnDisconnect e) as [f|] eqn:Hf; [|done]. by apply (k_disconnect Hk f).
Qed.

Lemma close_all_holds (test : Connection -> bool) refs n k : holds n ->
  holds (foldl (fun acc ref =>
    let '(n, k) := acc in
    match heap (reg n) !! ref with
    | Some c => if test c then (close e ref n, k + 1) else (n, k)
    | None => (n, k)
    end) (n, k) refs).1.
Proof.
  revert n k. induction refs as [|ref refs IH]; intros n k Hn; cbn [foldl]; [done|].
  destruct (heap (reg n) !! ref) as [c|]; [|by apply IH]. destruct (test c); [|by apply IH].
  by apply IH, close_holds.
Qed.

Lemma reap_holds `{GoRange} now maxIdle n : holds n -> holds (ReapIdle e now maxIdle n).1.
Proof. intros Hn. unfold ReapIdle. case_bool_decide; [done|]. by apply close_all_holds. Qed.

Lemma kick_pid_holds `{GoRange} pid n : holds n -> holds (KickPID e pid n).1.
Proof. intros Hn. unfold KickPID. case_bool_decide; [done|]. by apply close_all_holds. Qed.

Lemma kick_connection_holds `{GoRange} id n : holds n -> holds (KickConnection e id n).1.
Proof.
  intros Hn. unfold KickConnection. generalize (snapshotConns (reg n)).
  induction l as [|ref refs IH]; cbn [kick_first]; [done|].
  destruct (heap (reg n) !! ref) as [c|]; [|done]. case_bool_decide; [by apply close_holds|done].
Qed.

Lemma dispatch_holds ref payload n : holds n -> holds (dispatchRMC e ref payload n).
Proof.
  intros Hn. unfold dispatchRMC. destruct (ParseRMC payload) as [req|]; [|done].
  case_bool_decide; [done|]. set (n0 := match OnRMC e with Some f => _ | None => n end).
  assert (holds n0) as Hn0.
  { subst n0. destruct (OnRMC e) as [f|] eqn:Hf; [|done]. unfold with_conn.
    destruct (heap (reg n) !! ref) as [c|] eqn:Hc; [|done]. apply (k_rmc Hk f ref); [done| |exact Hn].
    unfold people. cbn. by rewrite lookup_fmap, Hc. }
  clearbody n0. destruct (handler e (Protocol req)) as [h|] eqn:Hh;
    [|by eapply holds_seen; [apply seen_SendRMC|]].
  destruct (h ref req n0) as [n1 resp] eqn:E. pose proof (k_handler Hk _ _ _ _ _ _ _ Hh Hn0 E).
  destruct resp; [|done]. by eapply holds_seen; [apply seen_SendRMC|].
Qed.

(** A refused identity check may have dropped a stale entry of the table. *)
Lemma login_table payload c n login t :
  holds n -> processLoginRequest e env payload c (recall n) = (login, t) -> P t (app n) (people n).
Proof.
  intros Hn. unfold processLoginRequest. destruct (negb (Secure e)); [by intros [= _ <-]|].
  case_bool_decide.
  - pose proof (k_recall Hk (RemoteAddr c) _ _ _ Hn) as Hr.
    destruct (RecallAuthPID _ _ _ _) as [who t1]. by intros [= _ <-].
  - destruct (connect_buffers _) as [[td rd] st]. destruct (si_err st); by intros [= _ <-].
Qed.

Lemma connect_holds ref p n n' : Q (p_Payload p) -> holds n -> processCONNECT e env ref p n = Some n' -> holds n'.
Proof.
  intros Hq Hn. unfold processCONNECT. destruct (heap (reg n) !! ref) as [c|] eqn:Hc; [|by intros [= <-]].
  case_bool_decide; [by intros [= <-]|].
  destruct (processLoginRequest e env (p_Payload p) c (recall n)) as [login t] eqn:El.
  pose proof (login_table _ _ _ _ _ Hn El) as Ht.
  destruct login as [[response c']| |]; [|by intros [= <-]|done]. intros [= <-].
  set (n1 := with_reg _ _). assert (holds n1) as H1.
  { assert (people n1 = <[ref := ident c']> (people n)) as E.
    { subst n1. unfold people, registerConnection. cbn. rewrite insert_insert_eq. apply map_eq. intros x.
      rewrite lookup_fmap. destruct (decide (ref = x)) as [<-|Hne].
      - by rewrite lookup_alter_eq, !lookup_insert_eq.
      - by rewrite lookup_alter_ne, !lookup_insert_ne, lookup_fmap by done. }
    unfold holds. rewrite E. subst n1. cbn. eapply (k_login Hk); [exact Hq|exact Hn| |exact El].
    unfold people. by rewrite lookup_fmap, Hc. }
  clearbody n1. destruct (OnConnect e) as [f|] eqn:Hf; [|done]. unfold with_conn. case_match; [|done].
  by apply (k_connect Hk f).
Qed.

Lemma data_holds ref p n : holds n -> holds (processData e ref p n).
Proof.
  intros Hn. unfold processData. destruct (HasFlag p FlagMultiACK).
  { eapply holds_seen; [|exact Hn]. destruct (p_Payload p) as [|? [|? [|? [|? ?]]]]; try done.
    by apply seen_update. }
  destruct (HasFlag p FlagACK).
  { eapply holds_seen; [|exact Hn]. by apply seen_update. }
  set (n1 := if HasFlag p FlagNeedACK then _ else _).
  assert (holds n1) as Hn1.
  { eapply holds_seen; [|exact Hn]. subst n1. destruct (HasFlag p FlagNeedACK); [apply seen_sendAck|done]. }
  clearbody n1. unfold with_conn. destruct (heap (reg n1) !! ref) as [c|] eqn:Hc; [|done].
  destruct (absorb (fragBuf c) p) as [buf full].
  assert (holds (set_conn ref (set_bufs (recvBuf c) buf c) n1)) as Hb
    by (by eapply holds_seen; [apply (seen_set_conn ref c)|]).
  destruct full; [|done]. by apply dispatch_holds.
Qed.

(** A packet presents nothing else. *)
Definition brings (p : Packet) : Prop := p_Type p = PacketCONNECT -> Q (p_Payload p).

Lemma mark_seen_holds ref n : holds n -> holds (mark_seen env ref n).
Proof. apply holds_seen. unfold mark_seen. by apply seen_update. Qed.

Lemma packet_holds ref p n n' : brings p -> holds n -> handlePacket e env ref p n = Some n' -> holds n'.
Proof.
  intros Hq Hn. unfold handlePacket. apply (mark_seen_holds ref) in Hn. revert Hn.
  generalize (mark_seen env ref n). clear n. intros n0 Hn0. case_bool_decide.
  { destruct (HasFlag p FlagACK); intros [= <-]; [done|].
    eapply holds_seen; [|exact Hn0]. apply seen_processSYN. }
  case_bool_decide; [destruct (HasFlag p FlagACK); [by intros [= <-]|by apply connect_holds, Hn0; apply Hq]|].
  case_bool_decide; [intros [= <-]; by apply data_holds|].
  case_bool_decide.
  { intros [= <-]. eapply holds_seen; [apply seen_processPing|exact Hn0]. }
  case_bool_decide.
  { destruct (HasFlag p FlagACK); intros [= <-]; [done|]. apply close_holds.
    eapply holds_seen; [|exact Hn0]. destruct (HasFlag p FlagNeedACK); [apply seen_sendAck|done]. }
  rewrite (k_custom Hk), lookup_empty. by intros [= <-].
Qed.

(** Whatever a frame holds. *)
Lemma feed_holds ref data n : Forall brings (frame_packets ref data n) -> holds n -> holds (Feed e env ref data n).
Proof.
  unfold Feed, frame_packets. destruct (heap (reg n) !! ref) as [c|] eqn:Hc; [|done].
  destruct (DecodePackets _) as [[ps rest] err]. cbn [fst]. intros Hq Hn.
  assert (forall b, holds (set_conn ref (set_bufs b (fragBuf c) c) n)) as Hb
    by (intros b; by eapply holds_seen; [apply (seen_set_conn ref c)|]).
  destruct err; [apply Hb|]. specialize (Hb rest). revert Hb.
  generalize (set_conn ref (set_bufs rest (fragBuf c) c) n). clear Hn. intros n0.
  revert n0. induction Hq as [|p ps Hp _ IH]; intros n0 Hn0; cbn [handle_all]; [done|].
  destruct (handlePacket e env ref p n0) as [n1|] eqn:E; [|by apply mark_seen_holds].
  apply IH. by eapply packet_holds.
Qed.
End Preserve.
