(* ===== verification/EndpointProps.v ===== *)
(** * What a connection guarantees

    Fragmentation and reassembly, acknowledgement tracking, the identity a CONNECT
    establishes, the way from a login to a secure connection, and eviction. *)

From S2P Require Import Prelude GoStd GoNet Settings Stream Types StationURL Rmc PrudpLite.
From S2P Require Import Connection Crypto Kerberos TicketGranting Endpoint.

(** ** Fragmentation and reassembly *)

(** The sender of a long message, run to its end: the connection and the frames.
    [None] if it has not ended after [fuel] turns. *)
Fixpoint run_sender (fuel : nat) (fs : Z) (rest : bytes) (fid : Z) (c : Connection)
    : option (Connection * list bytes) :=
  match fuel with
  | O => None
  | S fuel =>
      let '(c, encoded, next) := sender_turn fs rest fid c in
      match next with
      | None => Some (c, [encoded])
      | Some (rest, fid) => prod_map id (cons encoded) <$> run_sender fuel fs rest fid c
      end
  end.

(** Every frame [sendData] emits for a message. *)
Definition message_frames (fuel : nat) (s : Settings) (data : bytes) (c : Connection)
    : option (Connection * list bytes) :=
  let fs := fragment_size s in
  if bool_decide (len data <= fs)
  then let '(c, encoded) := sendOneFragment data 0 c in Some (c, [encoded])
  else run_sender fuel fs data 1 c.

(** The messages the data packets of a peer complete, and the buffer left. *)
Fixpoint reassemble (buf : bytes) (ps : list Packet) : list bytes * bytes :=
  match ps with
  | [] => ([], buf)
  | p :: ps =>
      let '(buf, m) := absorb buf p in
      let '(ms, rest) := reassemble buf ps in (option_list m ++ ms, rest)
  end.

(** The fields of a connection that end up in packet headers fit them. *)
Definition conn_ok (c : Connection) : Prop :=
  is_uint 4 (srcType c) /\ is_uint 4 (dstType c) /\ is_uint 16 (outReliable c).

Lemma data_packet_ok c chunk fid :
  conn_ok c -> len chunk < 2 ^ 16 -> packet_ok (data_packet c chunk fid).
Proof.
  intros (H1 & H2 & H3) Hl. unfold packet_ok, data_packet, PacketDATA, PacketSYN, PacketCONNECT; cbn.
  unfold is_uint in *. split_and!; try done; lia.
Qed.

Lemma send_conn_ok chunk fid c : conn_ok c -> conn_ok (sendOneFragment chunk fid c).1.
Proof. intros (H1 & H2 & H3). unfold conn_ok. cbn. split_and!; try done. apply u16_uint. Qed.

Lemma ztake_add {A} a b (l : list A) :
  0 <= a -> 0 <= b -> ztake a l ++ ztake b (zdrop a l) = ztake (a + b) l.
Proof.
  intros. unfold ztake, zdrop. rewrite Z2Nat.inj_add by lia.
  rewrite <- (take_drop (Z.to_nat a) (take (Z.to_nat a + Z.to_nat b) l)).
  rewrite take_take, skipn_firstn_comm. f_equal; f_equal; lia.
Qed.

Lemma run_sender_spec fuel k fs rest buf c :
  0 < fs < 2 ^ 16 -> conn_ok c -> (1 <= fuel)%nat -> Z.of_nat fuel + k = 257 -> 1 <= k ->
  exists c' ps, run_sender fuel fs rest (u8 k) c = Some (c', EncodePacket <$> ps) /\
    Forall packet_ok ps /\ reassemble buf ps = ([buf ++ ztake (Z.of_nat fuel * fs) rest], []).
Proof.
  intros Hfs. revert k rest buf c. induction fuel as [|fuel IH]; intros k rest buf c Hc Hf Hk H1; [lia|].
  cbn [run_sender]. unfold sender_turn.
  destruct (bool_decide (fs < len rest)) eqn:Hmore; destruct_bool_decide.
  - cbn [sendOneFragment assign_fragment]. pose proof (len_ztake fs rest ltac:(lia)) as Hl.
    pose proof (data_packet_ok c (ztake fs rest) (u8 k) Hc ltac:(lia)) as Hp.
    destruct (bool_decide (u8 k = 0)) eqn:Hz; destruct_bool_decide.
    + assert (k = 256) as -> by (unfold u8 in Hz; destruct (decide (k = 256)); [done|];
        rewrite Z.mod_small in Hz by lia; lia).
      exists (sendOneFragment (ztake fs rest) (u8 256) c).1, [data_packet c (ztake fs rest) (u8 256)].
      split; [done|]. split; [by apply Forall_singleton|]. cbn.
      unfold absorb; cbn. replace fuel with O by lia. by rewrite Z.mul_1_l.
    + assert (k < 256) as Hlt by (destruct (decide (k = 256)) as [->|]; [by vm_compute in Hz|lia]).
      assert (u8 k = k) as Hk8 by (apply Z.mod_small; lia). rewrite Hk8.
      destruct (IH (k + 1) (zdrop fs rest) (buf ++ ztake fs rest)
        (sendOneFragment (ztake fs rest) k c).1) as (c' & ps & Hrun & Hok & Hre);
        [by apply send_conn_ok|lia|lia|lia|]. rewrite Hk8 in Hp.
      cbn [sendOneFragment assign_fragment fst] in Hrun. rewrite Hrun. exists c', (data_packet c (ztake fs rest) k :: ps).
      split; [done|]. split; [by constructor|]. cbn. unfold absorb. cbn.
      rewrite bool_decide_eq_false_2 by lia. rewrite Hre. cbn. f_equal. f_equal.
      rewrite <- app_assoc, ztake_add by lia. f_equal. f_equal. lia.
  - cbn [sendOneFragment assign_fragment]. exists (sendOneFragment rest 0 c).1, [data_packet c rest 0]. split; [done|].
    split; [apply Forall_singleton, data_packet_ok; [done|lia]|]. cbn. unfold absorb. cbn.
    f_equal. f_equal. f_equal. rewrite ztake_all; [done|nia].
Qed.

(** [C18] Fragmentation: whatever the length of a message, its sender ends after at most
    256 fragments, and a peer that decodes the frames and reassembles them completes
    exactly one message, the first 256 * fragment size bytes of the one sent, with
    nothing left over.  So every message of at most that length (332,800 bytes with the
    Switch settings) arrives intact, and a longer one arrives cut: the one-byte fragment
    number wraps to 0, which marks the last fragment. *)
Theorem message_reassembly s data c :
  conn_ok c -> FragmentSize s < 2 ^ 16 ->
  exists c' frames ps,
    message_frames 256 s data c = Some (c', frames) /\
    DecodePackets (concat frames) = (ps, [], false) /\
    reassemble [] ps = ([ztake (256 * fragment_size s) data], []).
Proof.
  intros Hc Hs. unfold message_frames.
  assert (0 < fragment_size s < 2 ^ 16) as Hfs by (unfold fragment_size; case_bool_decide; lia).
  destruct (bool_decide (len data <= fragment_size s)) eqn:Hone; destruct_bool_decide.
  - cbn [sendOneFragment assign_fragment]. exists (sendOneFragment data 0 c).1, [EncodePacket (data_packet c data 0)],
      [data_packet c data 0]. split; [done|]. split.
    + apply (decode_stream [data_packet c data 0]). apply Forall_singleton, data_packet_ok; [done|lia].
    + cbn. unfold absorb. cbn. by rewrite ztake_all by lia.
  - destruct (run_sender_spec 256 1 (fragment_size s) data [] c Hfs Hc ltac:(lia) ltac:(lia) ltac:(lia))
      as (c' & ps & Hrun & Hok & Hre). exists c', (EncodePacket <$> ps), ps.
    split; [done|]. split; [by apply decode_stream|done].
Qed.

Lemma message_reassembly_witness :
  exists c' frames ps,
    message_frames 256 mk8_settings (replicate 3000 7) (NewConnection (str "10.0.0.1:5")) = Some (c', frames) /\
    DecodePackets (concat frames) = (ps, [], false) /\
    reassemble [] ps = ([ztake (256 * 1300) (replicate 3000 7)], []).
Proof.
  apply (message_reassembly mk8_settings (replicate 3000 7) (NewConnection (str "10.0.0.1:5"))).
  - unfold conn_ok, is_uint. cbn. lia.
  - cbn. lia.
Defined.

(** ** Acknowledgements

    A connection as the senders and the receiving goroutine see it: [lk_flight] holds the
    fragments that were sent and that their sender has not entered for retransmission yet. *)
Inductive link_op :=
  | Sent (chunk : bytes) (fragmentID : Z)
  | Pooled (id : Z)
  | Acked (base : Z) (extra : list Z).

Record Link := mkLink { lk_conn : Connection; lk_flight : gmap Z bytes }.

Definition run_link_op (l : Link) (o : link_op) : Link :=
  let c := lk_conn l in
  match o with
  | Sent chunk fid =>
      let '(c, (id, encoded)) := assign_fragment chunk fid c in mkLink c (<[id := encoded]> (lk_flight l))
  | Pooled id =>
      match lk_flight l !! id with
      | Some encoded => mkLink (pool_fragment id encoded c) (delete id (lk_flight l))
      | None => l
      end
  | Acked base extra => mkLink (ackPackets base extra c) (lk_flight l)
  end.
Definition run_link (h : list link_op) (c : Connection) : Link := foldl run_link_op (mkLink c ∅) h.

Definition is_sent (o : link_op) : bool := match o with Sent _ _ => true | _ => false end.
Definition sends (h : list link_op) : Z := len (filter (fun o => is_sent o = true) h).

(** An acknowledgement covers a sequence id. *)
Definition covers (id : Z) (o : link_op) : bool :=
  match o with
  | Acked base extra => bool_decide (id <= base) || bool_decide (id ∈ extra)
  | _ => false
  end.

(** The fragment with the sequence id [id] was sent as [enc] and not entered since. *)
Definition in_flight (c0 : Connection) (h : list link_op) (id : Z) (enc : bytes) : Prop :=
  exists h1 chunk fid h2, h = h1 ++ Sent chunk fid :: h2 /\ id = outReliable c0 + sends h1 /\
    enc = EncodePacket (data_packet (lk_conn (run_link h1 c0)) chunk fid) /\
    Forall (fun o => o <> Pooled id) h2.

(** It was entered, and no acknowledgement after that covers it. *)
Definition outstanding (c0 : Connection) (h : list link_op) (id : Z) (enc : bytes) : Prop :=
  exists h1 h2, h = h1 ++ Pooled id :: h2 /\ in_flight c0 h1 id enc /\
    Forall (fun o => covers id o = false) h2.

Lemma sends_snoc h o : sends (h ++ [o]) = sends h + (if is_sent o then 1 else 0).
Proof.
  unfold sends. rewrite filter_app, len_app. f_equal. rewrite filter_cons.
  case_decide as Hd; [rewrite Hd; done|]. by destruct (is_sent o).
Qed.

Lemma lookup_delete_list (extra : list Z) (m : gmap Z bytes) id :
  foldl (fun m pid => delete pid m) m extra !! id = if bool_decide (id ∈ extra) then None else m !! id.
Proof.
  revert m. induction extra as [|x extra IH]; intros m; cbn.
  - rewrite bool_decide_eq_false_2; [done|]. apply not_elem_of_nil.
  - rewrite IH. destruct (decide (id = x)) as [->|Hne].
    + rewrite (bool_decide_eq_true_2 (x ∈ x :: extra)) by apply elem_of_cons, or_introl, eq_refl.
      rewrite lookup_delete_eq. by case_bool_decide.
    + rewrite lookup_delete_ne by done. repeat case_bool_decide; set_solver.
Qed.

(** The last operation of a split history: at the split, or after it. *)
Lemma snoc_split {A} (h h1 h2 : list A) o x :
  h ++ [o] = h1 ++ x :: h2 <-> (h = h1 /\ o = x /\ h2 = []) \/ exists h2', h2 = h2' ++ [o] /\ h = h1 ++ x :: h2'.
Proof.
  split.
  - intros He. destruct h2 as [|y h2 _] using rev_ind.
    + apply app_inj_tail in He as [-> ->]. by left.
    + rewrite app_comm_cons, app_assoc in He. apply app_inj_tail in He as [-> ->]. right. by exists h2.
  - intros [(-> & -> & ->)|(h2' & -> & ->)]; [done|]. by rewrite <- app_assoc.
Qed.

Lemma in_flight_snoc c0 h o id enc :
  in_flight c0 (h ++ [o]) id enc <->
  (in_flight c0 h id enc /\ o <> Pooled id) \/
  exists chunk fid, o = Sent chunk fid /\ id = outReliable c0 + sends h /\
    enc = EncodePacket (data_packet (lk_conn (run_link h c0)) chunk fid).
Proof.
  unfold in_flight. setoid_rewrite snoc_split. split.
  - intros (h1 & ch & fi & h2 & [(-> & -> & ->)|(h2' & -> & ->)] & -> & -> & Hc).
    + right. by exists ch, fi.
    + apply Forall_app in Hc as [Hc Ho]. rewrite Forall_singleton in Ho. left. split; [by exists h1, ch, fi, h2'|exact Ho].
  - intros [[(h1 & ch & fi & h2 & -> & -> & -> & Hc) Ho]|(ch & fi & -> & -> & ->)].
    + exists h1, ch, fi, (h2 ++ [o]). split; [right; by exists h2|]. split_and!; [done|done|].
      apply Forall_app. split; [done|]. by apply Forall_singleton.
    + exists h, ch, fi, []. split_and!; try done. by left.
Qed.

Lemma outstanding_snoc c0 h o id enc :
  outstanding c0 (h ++ [o]) id enc <->
  (outstanding c0 h id enc /\ covers id o = false) \/ (o = Pooled id /\ in_flight c0 h id enc).
Proof.
  unfold outstanding. setoid_rewrite snoc_split. split.
  - intros (h1 & h2 & [(-> & -> & ->)|(h2' & -> & ->)] & Hf & Hc); [by right|].
    apply Forall_app in Hc as [Hc Ho]. rewrite Forall_singleton in Ho. left. split; [by exists h1, h2'|done].
  - intros [[(h1 & h2 & -> & Hf & Hc) Ho]|[-> Hf]].
    + exists h1, (h2 ++ [o]). split; [right; by exists h2|]. split; [done|].
      apply Forall_app. split; [done|]. by apply Forall_singleton.
    + exists h, []. split_and!; try done. by left.
Qed.

(** What a link keeps: a fragment is in flight or entered, not both, under an id already
    assigned. *)
Record link_ok (c0 : Connection) (h : list link_op) (l : Link) : Prop := {
  ln_out : outReliable (lk_conn l) = outReliable c0 + sends h;
  ln_flight : forall id enc, lk_flight l !! id = Some enc <-> in_flight c0 h id enc;
  ln_pool : forall id enc, pending (lk_conn l) !! id = Some enc <-> outstanding c0 h id enc;
  ln_one : forall id enc, lk_flight l !! id = Some enc ->
    pending (lk_conn l) !! id = None /\ id < outReliable (lk_conn l);
  ln_below : forall id enc, pending (lk_conn l) !! id = Some enc -> id < outReliable (lk_conn l)
}.

Lemma sent_ok c0 h chunk fid :
  0 <= outReliable c0 -> outReliable c0 + sends h + 1 < 2 ^ 16 -> link_ok c0 h (run_link h c0) ->
  link_ok c0 (h ++ [Sent chunk fid]) (run_link_op (run_link h c0) (Sent chunk fid)).
Proof.
  intros Hpos Hb [Ho Hf Hp H1 Hlt]. assert (0 <= sends h) by apply len_nonneg.
  assert (u16 (outReliable c0 + sends h + 1) = outReliable c0 + sends h + 1) as Hu by (apply Z.mod_small; lia).
  unfold run_link_op, assign_fragment.
  remember (EncodePacket (data_packet (lk_conn (run_link h c0)) chunk fid)) as enc0 eqn:E0.
  split; cbn [lk_conn lk_flight set_out outReliable pending]; rewrite ?sends_snoc, ?Ho, ?Hu; cbn [is_sent].
  - lia.
  - intros id enc. rewrite lookup_insert_Some, in_flight_snoc, Hf. split.
    + intros [[<- <-]|[Hne Hi]]; [right; by exists chunk, fid|left]. split; [done|discriminate].
    + intros [[Hi _]|(ch & fi & [= <- <-] & -> & ->)]; [right|by left]. split; [|done].
      apply Hf, H1 in Hi as [_ Hi]. lia.
  - intros id enc. rewrite outstanding_snoc, Hp. naive_solver.
  - intros id enc [[<- _]|[_ Hi]]%lookup_insert_Some.
    + split; [|lia]. destruct (pending _ !! _) as [x|] eqn:E; [|done]. apply Hlt in E. lia.
    + apply H1 in Hi as [? ?]. split; [done|lia].
  - intros id enc Hi%Hlt. lia.
Qed.

Lemma pooled_ok c0 h id0 :
  link_ok c0 h (run_link h c0) -> link_ok c0 (h ++ [Pooled id0]) (run_link_op (run_link h c0) (Pooled id0)).
Proof.
  intros [Ho Hf Hp H1 Hlt]. cbn. destruct (lk_flight (run_link h c0) !! id0) as [enc0|] eqn:E.
  - destruct (H1 _ _ E) as [Hn Hb]. split; cbn; rewrite ?sends_snoc; cbn [is_sent].
    + lia.
    + intros id enc. rewrite lookup_delete_Some, in_flight_snoc, Hf. naive_solver.
    + intros id enc. rewrite lookup_insert_Some, outstanding_snoc, <- Hp, <- Hf. cbn. split.
      * intros [[<- <-]|[_ Hi]]; [by right|by left].
      * intros [[Hi _]|[[= ->] Hi]]; [right; split; [congruence|done]|left; split; congruence].
    + intros id enc [Hne Hi]%lookup_delete_Some. rewrite lookup_insert_ne by done. by apply H1 in Hi.
    + intros id enc [[<- _]|[_ Hi]]%lookup_insert_Some; [done|by apply Hlt in Hi].
  - split; rewrite ?sends_snoc; cbn [is_sent]; try done; [lia| |].
    + intros id enc. rewrite in_flight_snoc, <- Hf. split; [|naive_solver].
      intros Hi. left. split; [done|]. intros [= ->]. congruence.
    + intros id enc. rewrite outstanding_snoc, Hp, <- Hf. naive_solver.
Qed.

Lemma acked_ok c0 h base extra :
  link_ok c0 h (run_link h c0) ->
  link_ok c0 (h ++ [Acked base extra]) (run_link_op (run_link h c0) (Acked base extra)).
Proof.
  intros [Ho Hf Hp H1 Hlt].
  assert (forall id enc, pending (ackPackets base extra (lk_conn (run_link h c0))) !! id = Some enc <->
    pending (lk_conn (run_link h c0)) !! id = Some enc /\ covers id (Acked base extra) = false) as Hack.
  { intros id enc. cbn. rewrite lookup_delete_list, orb_false_iff, !bool_decide_eq_false.
    case_bool_decide; [naive_solver|]. rewrite map_lookup_filter_Some. cbn. intuition lia. }
  split; cbn [run_link_op lk_conn lk_flight];
    change (outReliable (ackPackets base extra ?c)) with (outReliable c); rewrite ?sends_snoc; cbn [is_sent].
  - lia.
  - intros id enc. rewrite in_flight_snoc, Hf. naive_solver.
  - intros id enc. rewrite outstanding_snoc, <- Hp, Hack. naive_solver.
  - intros id enc Hi. destruct (H1 _ _ Hi) as [Hn ?]. split; [|done].
    destruct (pending (ackPackets _ _ _) !! id) as [x|] eqn:E; [|done]. apply Hack in E as [E _]. congruence.
  - intros id enc [Hi _]%Hack. by apply Hlt in Hi.
Qed.

Lemma run_link_ok c0 h :
  pending c0 = ∅ -> 0 <= outReliable c0 -> outReliable c0 + sends h < 2 ^ 16 -> link_ok c0 h (run_link h c0).
Proof.
  intros Hp Hpos. induction h as [|o h IH] using rev_ind; intros Hb.
  - split; cbn; try (intros *; rewrite ?Hp, ?lookup_empty; try done).
    + change (sends []) with 0. lia.
    + split; [done|]. intros (h1 & ? & ? & ? & Hnil & _). by destruct h1.
    + split; [done|]. intros (h1 & ? & Hnil & _). by destruct h1.
  - rewrite sends_snoc in Hb. unfold run_link. rewrite foldl_snoc. fold (run_link h c0).
    assert (link_ok c0 h (run_link h c0)) as Hok by (apply IH; destruct (is_sent o); lia).
    destruct o; cbn [is_sent] in Hb; [apply sent_ok; [done|lia|done]|by apply pooled_ok|by apply acked_ok].
Qed.

(** [C19] Retransmission pool: on a new connection that has sent fewer than 65,535
    fragments, in any interleaving of the two critical sections of each send (the
    fragment is sent; it is entered in the pool) with acknowledgements, the frames the
    retransmission loop re-sends are exactly the fragments entered that no acknowledgement
    since covers, under the sequence id each was sent with.  An acknowledgement covers
    every id up to its base and each extra id; one that overtakes the entry of the
    fragment it acknowledges does not take it out. *)
Theorem pending_outstanding addr h :
  sends h < 65535 ->
  forall id enc, pending (lk_conn (run_link h (NewConnection addr))) !! id = Some enc <->
    outstanding (NewConnection addr) h id enc.
Proof.
  intros Hs. apply (run_link_ok (NewConnection addr) h); [done|cbn; lia|cbn; lia].
Qed.

Lemma pending_outstanding_witness :
  let c := NewConnection [] in
  pending (lk_conn (run_link [Sent [1] 1; Pooled 1; Sent [2] 0; Pooled 2; Acked 1 []] c)) !! 1 = None /\
  pending (lk_conn (run_link [Sent [1] 1; Pooled 1; Sent [2] 0; Acked 2 []; Pooled 2] c)) !! 2 =
    Some (EncodePacket (data_packet (lk_conn (run_link [Sent [1] 1; Pooled 1] c)) [2] 0)).
Proof.
  cbv zeta. split.
  - destruct (_ !! 1) as [enc|] eqn:E; [exfalso|reflexivity].
    apply (pending_outstanding [] [Sent [1] 1; Pooled 1; Sent [2] 0; Pooled 2; Acked 1 []]) in E;
      [|vm_compute; reflexivity].
    destruct E as (h1 & h2 & He & _ & Hc).
    destruct h1 as [|? h1]; [discriminate He|]. injection He as <- He.
    destruct h1 as [|? h1]; [injection He as <-; apply Forall_forall with (x := Acked 1 []) in Hc; [done|set_solver]|].
    injection He as <- He. destruct h1 as [|? h1]; [discriminate He|]. injection He as <- He.
    destruct h1 as [|? h1]; [discriminate He|]. injection He as <- He.
    destruct h1 as [|? [|]]; discriminate He.
  - apply (pending_outstanding [] [Sent [1] 1; Pooled 1; Sent [2] 0; Acked 2 []; Pooled 2]);
      [vm_compute; reflexivity|].
    exists [Sent [1] 1; Pooled 1; Sent [2] 0; Acked 2 []], []. split_and!; try done.
    exists [Sent [1] 1; Pooled 1], [2], 0, [Acked 2 []]. split_and!; try done.
    constructor; [discriminate|constructor].
Defined.

(** ** Who a secure connection is *)
Section Identity.
Context {App : Type} (e : Endpoint App).

(** The proof of identity a CONNECT payload carries for [pid]: nothing, from an address
    whose last login named [pid]; or a ticket the secure server's key opens, whose source
    is [pid], with check data for [pid] sealed under the ticket's session key. *)
Definition proves_identity (env : PEnv) (t : RecallTable) (c : Connection) (payload : bytes) (pid : Z)
    : Prop :=
  (payload = [] /\ (RecallAuthPID (pe_now env) (pe_file env) (RemoteAddr c) t).1 = Some pid) \/
  (exists ticketData requestData st ticket d cid check,
     connect_buffers payload = ((ticketData, requestData), st) /\ si_err st = false /\
     DecryptServerTicket ticketData (SecureKey e) (e_Settings e) = Ok ticket /\
     kerberosDecrypt (st_SessionKey ticket) requestData = Ok d /\
     check_data (e_Settings e) d = (pid, cid, check) /\ st_Source ticket = pid).

Lemma login_proves env payload c t resp c' t' :
  Secure e = true -> processLoginRequest e env payload c t = (Ok (resp, c'), t') ->
  proves_identity env t c payload (PID c') /\ ID c' = ID c /\ RemoteAddr c' = RemoteAddr c.
Proof.
  intros Hsec. unfold processLoginRequest, proves_identity. rewrite Hsec. cbn [negb].
  destruct (bool_decide (len payload = 0)) eqn:Hp; destruct_bool_decide.
  - destruct (RecallAuthPID _ _ _ _) as [[pid|] t1]; intros; simplify_eq. cbn.
    split; [|done]. left. split; [by apply len_0_inv|done].
  - destruct (connect_buffers payload) as [[td rd] st] eqn:Hb.
    destruct (si_err st) eqn:Herr; [done|].
    destruct (DecryptServerTicket td (SecureKey e) (e_Settings e)) as [ticket| |] eqn:Ht; cbn [fbind]; try done.
    destruct (kerberosDecrypt (st_SessionKey ticket) rd) as [d| |] eqn:Hd; cbn [fbind]; try done.
    destruct (bool_decide (len d <> _)); [done|].
    destruct (check_data (e_Settings e) d) as [[pid cid] check] eqn:Hcd.
    destruct (bool_decide (pid <> st_Source ticket)) eqn:Hs; [done|]. destruct_bool_decide.
    intros [= <- <- <-]. cbn. split; [|done]. right.
    exists td, rd, st, ticket, d, cid, check. split_and!; try done.
    destruct (decide (pid = st_Source ticket)); [done|contradiction].
Qed.
End Identity.

(** What an accepted CONNECT does to the registry. *)
Lemma connect_outcome {App} (e : Endpoint App) env ref p n n' c :
  heap (reg n) !! ref = Some c -> processCONNECT e env ref p n = Some n' ->
  reg n' = reg n \/
  exists resp c1 t, processLoginRequest e env (p_Payload p) c (recall n) = (Ok (resp, c1), t) /\
    p_Signature p = LitePacketSignature (AccessKey (e_Settings e)) p (connectionSig c) /\
    heap (reg n') !! ref =
      Some (set_ID (u32 (connCounter (reg n) + 1)) (set_state stateConnected c1)) /\
    connections (reg n') = <[u32 (connCounter (reg n) + 1) := ref]> (connections (reg n)) /\
    (forall ref', ref' <> ref -> heap (reg n') !! ref' = heap (reg n) !! ref').
Proof.
  intros Hc. unfold processCONNECT. rewrite Hc.
  destruct (bool_decide _) eqn:Hsig; [intros [= <-]; by left|]. destruct_bool_decide.
  destruct (processLoginRequest e env (p_Payload p) c (recall n)) as [[[resp c1]| |] t] eqn:Hl;
    [|intros [= <-]; by left|done].
  intros [= <-]. right. exists resp, c1, t. split; [done|].
  assert (forall n0, reg (match OnConnect e with
      | Some f => with_conn ref (fun c n => with_app (f c) n) n0 | None => n0 end) = reg n0) as Hreg.
  { intros n0. destruct (OnConnect e); [|done]. unfold with_conn. by destruct (heap (reg n0) !! ref). }
  rewrite Hreg. cbn. rewrite lookup_alter_eq, lookup_insert_eq. cbn. split_and!; try done.
  - symmetry. destruct (decide (LitePacketSignature (AccessKey (e_Settings e)) p (connectionSig c)
      = p_Signature p)); [done|contradiction].
  - intros ref' Hne. rewrite lookup_alter_ne, !lookup_insert_ne by done. done.
Qed.

(** Authentication: on a secure endpoint a CONNECT either changes nothing but the
    recall table, or registers the connection, under a fresh id and as connected, for an
    account the payload proves: the account of the last login from the same host when it
    is empty, else the source of a ticket sealed with the secure server's key, confirmed
    by check data sealed under that ticket's session key.  The packet's signature must
    equal the expected one. *)
Theorem connect_identity {App} (e : Endpoint App) env ref p n n' c :
  Secure e = true -> heap (reg n) !! ref = Some c ->
  processCONNECT e env ref p n = Some n' ->
  reg n' = reg n \/
  exists c', heap (reg n') !! ref = Some c' /\
    proves_identity e env (recall n) c (p_Payload p) (PID c') /\
    p_Signature p = LitePacketSignature (AccessKey (e_Settings e)) p (connectionSig c) /\
    cstate c' = stateConnected /\ ID c' = u32 (connCounter (reg n) + 1) /\
    connections (reg n') = <[ID c' := ref]> (connections (reg n)) /\
    (forall ref', ref' <> ref -> heap (reg n') !! ref' = heap (reg n) !! ref').
Proof.
  intros Hsec Hc Hrun.
  destruct (connect_outcome e env ref p n n' c Hc Hrun)
    as [Hs|(resp & c1 & t & Hl & Hsig & Hh & Hcn & Ho)]; [by left|right].
  destruct (login_proves e env (p_Payload p) c (recall n) resp c1 t Hsec Hl) as (Hpr & _).
  eexists. split; [exact Hh|]. by split_and!.
Qed.

Definition ex_endpoint : Endpoint unit :=
  SetSecureAccount (str "securepasswordplz1") 2 (NewEndpoint mk8_settings).
Definition ex_connect : Packet := mkPacket PacketCONNECT 0 10 1 10 2 0 1 [] [] 5 0 [].
Definition ex_net : Net unit :=
  mkNet (new_conn 0 (str "10.0.0.1:5") empty_registry) [] []
    (mkTable {[str "10.0.0.1" := mkRecall 77 3]} true false) tt.
Definition ex_penv : PEnv := mkPEnv 9 [] None.

Lemma connect_identity_witness :
  exists n', processCONNECT ex_endpoint ex_penv 0 ex_connect ex_net = Some n' /\
    (reg n' = reg ex_net \/ exists c', heap (reg n') !! 0 = Some c' /\
      proves_identity ex_endpoint ex_penv (recall ex_net) (NewConnection (str "10.0.0.1:5")) [] (PID c')).
Proof.
  destruct (processCONNECT ex_endpoint ex_penv 0 ex_connect ex_net) as [n'|] eqn:Hrun;
    [|vm_compute in Hrun; discriminate].
  exists n'. split; [reflexivity|].
  destruct (connect_identity ex_endpoint ex_penv 0 ex_connect ex_net n'
    (NewConnection (str "10.0.0.1:5")) eq_refl eq_refl Hrun) as [Hsame|(c' & Hc' & Hp & _)];
    [left; exact Hsame|right; exists c'; split; [exact Hc'|exact Hp]].
Defined.

(** ** From a login to a secure connection *)

(** The check data a client seals under the session key. *)
Definition client_check (s : Settings) (pid cid check : Z) : bytes :=
  StreamOut.PID s pid ++ StreamOut.U32 cid ++ StreamOut.U32 check.

Lemma check_data_roundtrip s pid cid check :
  is_pid s pid -> is_uint 32 cid -> is_uint 32 check ->
  check_data s (client_check s pid cid check) = (pid, cid, check).
Proof.
  intros Hp Hc Hk. unfold check_data, client_check.
  assert (decodes (p <-- StreamInOps.PID s ;; c <-- StreamInOps.U32 ;; k <-- StreamInOps.U32 ;;
    rret (p, c, k))%reader (StreamOut.PID s pid ++ StreamOut.U32 cid ++ StreamOut.U32 check)
    (pid, cid, check)) as D.
  { eapply decodes_bind; [by apply decodes_PID|]. eapply decodes_bind; [by apply decodes_U32|].
    by eapply decodes_bind_ret_eq; [apply decodes_U32|]. }
  specialize (D []). rewrite app_nil_r in D. by rewrite D.
Qed.

Lemma len_client_check s pid cid check :
  PIDSize s = 8 \/ PIDSize s = 4 -> len (client_check s pid cid check) = PIDSize s + 8.
Proof.
  intros Hs. unfold client_check, StreamOut.PID. case_bool_decide as H8;
    unfold StreamOut.U64, StreamOut.U32; autorewrite with golen; lia.
Qed.

(** [C16] Login to connection: when the login resolves to an account, the response carries
    a ticket that the client opens with the source key it is handed; and a CONNECT made
    of the ticket's inner blob and check data sealed under its session key is accepted by
    the secure endpoint that shares the server account, which then knows the connection
    under exactly that account, connection id and session key and proves itself with the
    check value plus one. *)
Theorem login_then_connect {App} (e : Endpoint App) cfg env penv addr req t c user extra pid src skey
    rnd cid check s :
  ac_Settings cfg = s -> e_Settings e = s -> Secure e = true ->
  SecureKey e = DeriveKey s (SecurePassword cfg) (SecurePID cfg) -> 0 <= SecurePID cfg ->
  (SessionKeyLength cfg = 0 \/ SessionKeyLength cfg = KerberosKeySize s) ->
  1 <= KerberosKeySize s <= 256 -> PIDSize s = 8 \/ PIDSize s = 4 ->
  Body req = StreamOut.GoString user ++ extra -> str_ok user ->
  ResolveUser cfg user extra = Some (pid, src) -> rc4_key src ->
  ae_session env (KerberosKeySize s) = Some skey -> len skey = KerberosKeySize s ->
  ae_ticketKey env = Some rnd -> len rnd = 16 -> is_uint 64 (ae_issued env) ->
  is_pid s pid -> is_pid s (SecurePID cfg) -> is_uint 32 cid -> is_uint 32 check ->
  exists ticket internal request,
    (handleLogin cfg env addr req t).1 = Ok (buildResponse cfg env req ResultCoreUnknown pid ticket src) /\
    DecryptClientTicket ticket src s = Ok (mkClientTicket skey (SecurePID cfg) internal) /\
    kerberosEncrypt skey (client_check s pid cid check) = Ok request /\
    processLoginRequest e penv (StreamOut.Buffer internal ++ StreamOut.Buffer request) c t =
      (Ok (StreamOut.U32 4 ++ StreamOut.U32 (u32 (check + 1)), set_login pid cid skey c), t).
Proof.
  intros Hcfg Hes Hsec Hkey Hsp Hkl Hks Hpz Hbody Hu Hres Hsrc Hsk Hlsk Htk Hlr Hiss Hpid Hspid Hcid Hchk.
  assert (rc4_key (DeriveKey s (SecurePassword cfg) (SecurePID cfg))) as Hdk.
  { unfold rc4_key. rewrite DeriveKey_len by done. lia. }
  destruct (server_ticket_opens s (mkServerTicket (ae_issued env) pid skey)
    (DeriveKey s (SecurePassword cfg) (SecurePID cfg)) rnd) as (internal & He & Hd & Hli);
    [by right|lia|done|done|done|lia|].
  destruct (client_ticket_roundtrip s (mkClientTicket skey (SecurePID cfg) internal) src)
    as (ticket & Hct & Hcd); [done|done|done|cbn; lia|].
  destruct (encrypt_total skey (client_check s pid cid check)) as (request & Hreq & Hlr');
    [unfold rc4_key; lia|]. rewrite len_client_check in Hlr' by done.
  exists ticket, internal, request. split_and!; try done.
  - unfold handleLogin. rewrite Hbody.
    assert ((u <-- StreamInOps.GoString ;; x <-- StreamInOps.ReadAll ;; rret (u, x))%reader
      (NewStreamIn (StreamOut.GoString user ++ extra)) = ((user, extra), NewStreamIn [])) as ->.
    { unfold rbind. rewrite (decodes_GoString user Hu). unfold StreamInOps.ReadAll, StreamInOps.Remaining.
      cbn [si_rest NewStreamIn]. pose proof (decodes_Read (len extra) extra eq_refl []) as Hr.
      rewrite app_nil_r in Hr. by rewrite Hr. }
    rewrite Hres. cbn [fst]. unfold mint. rewrite Hcfg.
    assert ((if bool_decide (SessionKeyLength cfg = 0) then KerberosKeySize s else SessionKeyLength cfg)
      = KerberosKeySize s) as -> by (case_bool_decide; lia).
    rewrite bool_decide_eq_false_2 by lia. rewrite Hsk, Htk, He. cbn [fbind]. by rewrite Hct.
  - unfold processLoginRequest. rewrite Hsec, Hes, Hkey. cbn [negb].
    pose proof (len_nonneg internal). pose proof (len_nonneg request).
    rewrite bool_decide_eq_false_2 by
      (unfold StreamOut.Buffer, StreamOut.U32; autorewrite with golen; lia).
    assert (connect_buffers (StreamOut.Buffer internal ++ StreamOut.Buffer request) =
      ((internal, request), NewStreamIn [])) as ->.
    { unfold connect_buffers. pose proof (decodes_Buffer internal ltac:(lia)) as D1.
      pose proof (decodes_Buffer request ltac:(lia)) as D2.
      unfold rbind. rewrite D1. specialize (D2 []). rewrite app_nil_r in D2. by rewrite D2. }
    cbn [si_err NewStreamIn]. rewrite Hd. cbn [fbind st_SessionKey].
    rewrite (decrypt_encrypt _ _ _ Hreq). cbn [fbind].
    rewrite bool_decide_eq_false_2 by (rewrite len_client_check by done; lia).
    rewrite check_data_roundtrip by done. cbn [st_Source].
    by rewrite bool_decide_eq_false_2 by (intros Hx; by apply Hx).
Qed.

Definition ex_auth : AuthConfig :=
  mkAuthConfig mk8_settings 2 (str "securepasswordplz1") None [] (str "Nextendo") 32
    (fun _ _ => Some (77, replicate 16 1)).
Definition ex_authenv : AuthEnv :=
  mkAuthEnv 5 None (fun n => Some (replicate (Z.to_nat n) 9)) (Some (replicate 16 3)) 0 0.

Lemma login_then_connect_witness :
  exists ticket internal request,
    (handleLogin ex_auth ex_authenv (str "10.0.0.1:5")
       (NewRMCRequest ProtocolTicketGranting MethodLoginEx 1 (StreamOut.GoString (str "77") ++ []))
       empty_table).1 =
      Ok (buildResponse ex_auth ex_authenv
        (NewRMCRequest ProtocolTicketGranting MethodLoginEx 1 (StreamOut.GoString (str "77") ++ []))
        ResultCoreUnknown 77 ticket (replicate 16 1)) /\
    DecryptClientTicket ticket (replicate 16 1) mk8_settings =
      Ok (mkClientTicket (replicate 32 9) 2 internal) /\
    kerberosEncrypt (replicate 32 9) (client_check mk8_settings 77 1 6) = Ok request /\
    processLoginRequest ex_endpoint ex_penv (StreamOut.Buffer internal ++ StreamOut.Buffer request)
      (NewConnection []) empty_table =
      (Ok (StreamOut.U32 4 ++ StreamOut.U32 (u32 (6 + 1)), set_login 77 1 (replicate 32 9)
         (NewConnection [])), empty_table).
Proof.
  refine (login_then_connect ex_endpoint ex_auth ex_authenv ex_penv (str "10.0.0.1:5")
    (NewRMCRequest ProtocolTicketGranting MethodLoginEx 1 (StreamOut.GoString (str "77") ++ []))
    empty_table (NewConnection []) (str "77") [] 77 (replicate 16 1) (replicate 32 9)
    (replicate 16 3) 1 6 mk8_settings eq_refl eq_refl eq_refl eq_refl _ _ _ _ eq_refl _ eq_refl _
    eq_refl eq_refl eq_refl eq_refl _ _ _ _ _);
    try (vm_compute; intuition discriminate).
Defined.

(** ** Eviction *)

(** The endpoint's map holds exactly the open, registered connections, each under its id. *)
Definition exact_registry (r : Registry) : Prop :=
  forall id ref, connections r !! id = Some ref <->
    exists c, heap r !! ref = Some c /\ ID c = id /\ id <> 0 /\ cstate c <> stateClosed.

(** Connections passing [test] are gone and closed, all others untouched; the count is right. *)
Definition evicts {App} (test : Connection -> bool) (n n' : Net App) (k : Z) : Prop :=
  (forall ref, heap (reg n') !! ref =
     (fun c => if test c && bool_decide (ID c <> 0) then set_state stateClosed c else c) <$>
       heap (reg n) !! ref) /\
  (forall id ref, connections (reg n') !! id = Some ref <->
     connections (reg n) !! id = Some ref /\
     exists c, heap (reg n) !! ref = Some c /\ test c = false) /\
  k = Z.of_nat (size (connections (reg n)) - size (connections (reg n'))).

Section Eviction.
Context {App : Type} (e : Endpoint App).

Lemma close_open ref n c :
  heap (reg n) !! ref = Some c -> ID c <> 0 -> cstate c <> stateClosed ->
  heap (reg (close e ref n)) = <[ref := set_state stateClosed c]> (heap (reg n)) /\
  connections (reg (close e ref n)) = delete (ID c) (connections (reg n)).
Proof.
  intros Hc Hid Hst. unfold close, with_conn. rewrite Hc, bool_decide_eq_false_2 by done.
  unfold unregisterConnection. cbn [set_conn with_reg reg heap].
  rewrite lookup_insert_eq. cbn [ID set_state]. rewrite bool_decide_eq_false_2 by done.
  by destruct (OnDisconnect e).
Qed.

Lemma close_exact ref n c :
  exact_registry (reg n) -> heap (reg n) !! ref = Some c -> ID c <> 0 -> cstate c <> stateClosed ->
  exact_registry (reg (close e ref n)).
Proof.
  intros Hx Hc Hid Hst. destruct (close_open ref n c Hc Hid Hst) as [Hh Hcn].
  intros id r. rewrite Hh, Hcn, lookup_delete_Some, (Hx id r). split.
  - intros (Hne & d & Hd & Hi & Hz & Hs). exists d. split; [|done].
    rewrite lookup_insert_ne; [done|]. intros ->. by simplify_eq.
  - intros (d & Hd & Hi & Hz & Hs). apply lookup_insert_Some in Hd as [[-> <-]|[Hne Hd]]; [done|].
    split; [|by eauto]. intros Heq.
    assert (connections (reg n) !! id = Some ref) as H1 by (apply Hx; exists c; split_and!; congruence).
    assert (connections (reg n) !! id = Some r) as H2 by (apply Hx; eauto). congruence.
Qed.

(** From [n] to [n'] the listed connections that pass [test] were closed, [k] of them. *)
Record closed_those (test : Connection -> bool) (refs : list Z) (n n' : Net App) (k : Z) : Prop := {
  ct_heap : forall ref, heap (reg n') !! ref =
    (fun c => if bool_decide (ref ∈ refs) && test c then set_state stateClosed c else c) <$> heap (reg n) !! ref;
  ct_map : forall id ref, connections (reg n') !! id = Some ref <->
    connections (reg n) !! id = Some ref /\
    exists c, heap (reg n) !! ref = Some c /\ (ref ∈ refs -> test c = false);
  ct_count : k = Z.of_nat (size (connections (reg n)) - size (connections (reg n')));
  ct_size : (size (connections (reg n')) <= size (connections (reg n)))%nat
}.

Lemma closed_none test n : exact_registry (reg n) -> closed_those test [] n n 0.
Proof.
  intros Hx. split; [| |lia|done].
  - intros ref. rewrite bool_decide_eq_false_2 by apply not_elem_of_nil. by destruct (heap (reg n) !! ref).
  - intros id ref. split; [|tauto]. intros Hl. split; [done|].
    apply Hx in Hl as (c & Hc & _). exists c. split; [done|]. by intros ?%elem_of_nil.
Qed.

Lemma closed_skip test r refs n n' k c :
  heap (reg n) !! r = Some c -> test c = false ->
  closed_those test refs n n' k -> closed_those test (r :: refs) n n' k.
Proof.
  intros Hc Ht [Hh Hm Hk Hs]. split; [| |done|done].
  - intros ref. rewrite Hh. destruct (heap (reg n) !! ref) as [d|] eqn:Hd; [|done]. cbn. f_equal.
    destruct (decide (ref = r)) as [->|Hne].
    + simplify_eq. by rewrite Ht, !andb_false_r.
    + by rewrite (bool_decide_ext (ref ∈ r :: refs) (ref ∈ refs)) by set_solver.
  - intros id ref. rewrite Hm. split; intros [Hl (d & Hd & Hdt)]; (split; [done|]); exists d; (split; [done|]).
    + intros [->|?]%elem_of_cons; [congruence|auto].
    + set_solver.
Qed.

Lemma closed_first test r refs n n' k c :
  exact_registry (reg n) -> r ∉ refs -> heap (reg n) !! r = Some c -> ID c <> 0 -> cstate c <> stateClosed ->
  test c = true -> closed_those test refs (close e r n) n' k -> closed_those test (r :: refs) n n' (k + 1).
Proof.
  intros Hx Hr Hc Hz Hs Ht [Hh Hm Hk Hsz]. destruct (close_open r n c Hc Hz Hs) as [Hh1 Hm1].
  assert (connections (reg n) !! ID c = Some r) as Hid by (apply Hx; eauto).
  assert (size (connections (reg (close e r n))) = pred (size (connections (reg n)))) as Hsz1
    by (rewrite Hm1; by rewrite map_size_delete_Some).
  assert (size (connections (reg n)) <> 0%nat) as Hne0 by (intros Hz0%map_size_empty_inv; by rewrite Hz0 in Hid).
  split; [| |lia|lia].
  - intros ref. rewrite Hh, Hh1. destruct (decide (ref = r)) as [->|Hne].
    + rewrite lookup_insert_eq, Hc. cbn. rewrite bool_decide_eq_false_2 by done.
      rewrite bool_decide_eq_true_2 by (apply elem_of_cons; by left). by rewrite Ht.
    + rewrite lookup_insert_ne by done. destruct (heap (reg n) !! ref); [|done]. cbn.
      f_equal. by rewrite (bool_decide_ext (ref ∈ r :: refs) (ref ∈ refs)) by set_solver.
  - intros id' ref. rewrite Hm, Hm1, Hh1, lookup_delete_Some. split.
    + intros [[Hne Hl] (d & Hd & Hdt)]. split; [done|].
      apply lookup_insert_Some in Hd as [[-> <-]|[Hne' Hd]].
      * exfalso. apply Hne. apply Hx in Hl as (d & Hd & <- & _). congruence.
      * exists d. split; [done|]. intros [->|?]%elem_of_cons; [done|auto].
    + intros [Hl (d & Hd & Hdt)]. assert (ref <> r) as Hne.
      { intros ->. simplify_eq. rewrite Hdt in Ht by (apply elem_of_cons; by left). done. }
      split; [split; [|done]; intros <-; congruence|]. exists d.
      rewrite lookup_insert_ne by done. split; [done|]. intros. apply Hdt, elem_of_cons. by right.
Qed.

Lemma close_if_spec test refs n k0 :
  exact_registry (reg n) -> NoDup refs ->
  (forall ref, ref ∈ refs -> exists id, connections (reg n) !! id = Some ref) ->
  exists n' k, foldl (fun acc ref =>
      let '(n, k) := acc in
      match heap (reg n) !! ref with
      | Some c => if test c : bool then (close e ref n, k + 1) else (n, k)
      | None => (n, k)
      end) (n, k0) refs = (n', k0 + k) /\
    exact_registry (reg n') /\ closed_those test refs n n' k.
Proof.
  revert n k0. induction refs as [|r refs IH]; intros n k0 Hx Hnd Hin.
  { exists n, 0. rewrite Z.add_0_r. split_and!; [done|done|by apply closed_none]. }
  apply NoDup_cons in Hnd as [Hr Hnd]. cbn [foldl].
  destruct (Hin r) as [id Hid]; [apply elem_of_cons; by left|].
  destruct (proj1 (Hx id r) Hid) as (c & Hc & Hci & Hz & Hs). rewrite Hc. rewrite <- Hci in Hz.
  destruct (test c) eqn:Ht.
  - destruct (IH (close e r n) (k0 + 1)) as (n' & k & Hf & Hx' & Hct); [by eapply close_exact|done| |].
    { intros ref Href. destruct (Hin ref) as [id' Hid']; [apply elem_of_cons; by right|].
      exists id'. rewrite (proj2 (close_open r n c Hc Hz Hs)), lookup_delete_ne; [done|]. intros <-.
      assert (ref = r) as -> by congruence. done. }
    exists n', (k + 1). rewrite Hf. split_and!; [f_equal; lia|done|by eapply closed_first].
  - destruct (IH n k0) as (n' & k & Hf & Hx' & Hct); [done|done|set_solver|].
    exists n', k. split_and!; [done|done|by eapply closed_skip].
Qed.

Lemma snapshot_evicts `{GoRange} test n :
  exact_registry (reg n) ->
  let '(n', k) := close_if e test (snapshotConns (reg n)) n in
  evicts test n n' k /\ exact_registry (reg n').
Proof.
  intros Hx. unfold close_if, snapshotConns.
  assert (forall ref, ref ∈ (range (connections (reg n))).*2 <->
    exists id, connections (reg n) !! id = Some ref) as Hel.
  { intros ref. rewrite list_elem_of_fmap. split.
    - intros ([id r] & -> & Hi). exists id. by apply elem_of_range in Hi.
    - intros [id Hi]. exists (id, ref). split; [done|]. by apply elem_of_range. }
  destruct (close_if_spec test (range (connections (reg n))).*2 n 0) as (n' & k & -> & Hx' & [Hh Hc Hk _]).
  - done.
  - apply NoDup_fmap_2_strong; [|apply (NoDup_fmap_1 fst), NoDup_range].
    intros [i1 r1] [i2 r2] H1%elem_of_range H2%elem_of_range Heq. cbn in Heq. subst r2.
    apply Hx in H1 as (c1 & ? & <- & _), H2 as (c2 & ? & <- & _). congruence.
  - intros ref. apply Hel.
  - split; [|done]. split_and!; [| |lia].
    + intros ref. rewrite Hh. destruct (heap (reg n) !! ref) as [c|] eqn:Hr; [|done]. cbn. f_equal.
      destruct (test c) eqn:Ht; [|by rewrite andb_false_r]. rewrite andb_true_r. cbn [andb].
      destruct (decide (ID c = 0 \/ cstate c = stateClosed)) as [Hoff|Hon].
      * rewrite bool_decide_eq_false_2.
        -- destruct Hoff as [H0|Hcl]; [by rewrite bool_decide_eq_false_2 by tauto|].
           case_bool_decide; [|done]. destruct c; cbn in *. by rewrite Hcl.
        -- rewrite Hel. intros [id Hid]. apply Hx in Hid as (d & Hd & ? & ? & ?). naive_solver.
      * rewrite !bool_decide_eq_true_2; [done|tauto|]. apply Hel. exists (ID c). apply Hx.
        exists c. naive_solver.
    + intros id ref. rewrite Hc. split; intros [Hl (c & Hr & Ht)]; (split; [done|]); exists c;
        (split; [done|]); [apply Ht, Hel; eauto|auto].
Qed.
End Eviction.

(** Eviction is exact: on an endpoint whose map holds exactly its open connections,
    [ReapIdle] closes and unregisters the connections that received a packet and then
    none for the timeout, and [KickPID] those of one account; every other connection is
    untouched, the returned count is the number removed, the map stays exact, and after
    a kick the account has no connection left to be found.  A timeout of zero or less
    evicts nobody. *)
Theorem eviction_exact {App} `{GoRange} (e : Endpoint App) n now maxIdle pid :
  exact_registry (reg n) ->
  (maxIdle <= 0 -> ReapIdle e now maxIdle n = (n, 0)) /\
  (0 < maxIdle -> let '(n', k) := ReapIdle e now maxIdle n in
     evicts (fun c => bool_decide (lastSeen c <> 0 /\ lastSeen c + maxIdle <= now)) n n' k /\
     exact_registry (reg n')) /\
  (pid <> 0 -> let '(n', k) := KickPID e pid n in
     evicts (fun c => bool_decide (PID c = pid)) n n' k /\ exact_registry (reg n') /\
     forall ref c, registered (reg n') ref c -> PID c <> pid).
Proof.
  intros Hx. split_and!.
  - intros Hm. unfold ReapIdle. by rewrite bool_decide_eq_true_2.
  - intros Hm. unfold ReapIdle. rewrite bool_decide_eq_false_2 by lia.
    pose proof (snapshot_evicts e (dead now maxIdle) n Hx) as He.
    destruct (close_if _ _ _ _) as [n' k]. destruct He as [(H1 & H2 & H3) H4]. split; [|done].
    assert (forall c, dead now maxIdle c = bool_decide (lastSeen c <> 0 /\ lastSeen c + maxIdle <= now))
      as Hd.
    { intros c. unfold dead, IdleFor. rewrite <- bool_decide_and. apply bool_decide_ext.
      case_bool_decide; lia. }
    split_and!; [|intros id ref; rewrite H2; by setoid_rewrite Hd|done].
    intros ref. rewrite H1. destruct (heap (reg n) !! ref); [|done]. cbn. by rewrite Hd.
  - intros Hp. unfold KickPID. rewrite bool_decide_eq_false_2 by done.
    pose proof (snapshot_evicts e (fun c => bool_decide (PID c = pid)) n Hx) as He.
    destruct (close_if _ _ _ _) as [n' k]. destruct He as [(H1 & H2 & H3) H4].
    split_and!; [done|done|]. intros ref c [Hc [id Hid]] Hpid.
    apply H2 in Hid as [Hid (d & Hd & Ht)]. destruct_bool_decide. apply Ht.
    rewrite H1, Hd in Hc. cbn in Hc. injection Hc as <-. case_match; done.
Qed.

Definition ex_online : Net unit :=
  mkNet (mkRegistry {[0 := set_ID 1 (set_login 77 0 [] (NewConnection (str "10.0.0.1:5")))]}
           {[1 := 0]} 1) [] [] empty_table tt.

Lemma ex_online_exact : exact_registry (reg ex_online).
Proof.
  intros id ref. cbn [reg ex_online connections heap]. rewrite lookup_singleton_Some. split.
  - intros [<- <-]. eexists. split; [apply lookup_singleton_eq|]. vm_compute. intuition discriminate.
  - intros (c & [<- <-]%lookup_singleton_Some & <- & _). done.
Qed.

Lemma eviction_exact_witness :
  let '(n', k) := @KickPID unit ex_endpoint canonical_range 77 ex_online in
  evicts (fun c => bool_decide (PID c = 77)) ex_online n' k /\ exact_registry (reg n') /\
  forall ref c, registered (reg n') ref c -> PID c <> 77.
Proof.
  destruct (@eviction_exact unit canonical_range ex_endpoint ex_online 9 60 77 ex_online_exact)
    as (_ & _ & Hk). apply Hk. discriminate.
Defined.

(** ** Registration *)

(** A connection that completes CONNECT twice is registered under two ids; closing it
    removes only the second, so the endpoint's map keeps an entry for a closed connection
    under the first id, and looking that id up still returns it. *)
Theorem second_connect_leaks {App} (e : Endpoint App) env ref p n n1 id :
  exact_registry (reg n) -> connections (reg n) !! id = Some ref ->
  id <= connCounter (reg n) < 2 ^ 32 - 1 -> 0 <= connCounter (reg n) ->
  processCONNECT e env ref p n = Some n1 -> reg n1 <> reg n ->
  FindConnectionByID (reg (close e ref n1)) id = Some ref /\
  (exists c, heap (reg (close e ref n1)) !! ref = Some c /\ cstate c = stateClosed) /\
  ~ exact_registry (reg (close e ref n1)).
Proof.
  intros Hx Hid Hb Hpos Hrun Hne. destruct (proj1 (Hx id ref) Hid) as (c & Hc & _).
  destruct (connect_outcome e env ref p n n1 c Hc Hrun)
    as [Hs|(resp & c1 & t & _ & _ & Hh & Hcn & _)]; [by destruct Hne|].
  assert (u32 (connCounter (reg n) + 1) = connCounter (reg n) + 1) as Hu by (apply Z.mod_small; lia).
  rewrite Hu in *.
  destruct (close_open e ref n1 _ Hh) as [Hh2 Hc2]; [cbn; lia|done|].
  assert (connections (reg (close e ref n1)) !! id = Some ref) as Hstale.
  { rewrite Hc2, Hcn. cbn. rewrite lookup_delete_ne, lookup_insert_ne by lia. done. }
  split; [done|]. split.
  - rewrite Hh2, lookup_insert_eq. eexists. by split.
  - intros Hx2. apply Hx2 in Hstale as (d & Hd & _ & _ & Hst).
    rewrite Hh2, lookup_insert_eq in Hd. by injection Hd as <-.
Qed.

Lemma second_connect_leaks_witness :
  exists n1, processCONNECT (NewEndpoint mk8_settings) ex_penv 0 ex_connect ex_online = Some n1 /\
    FindConnectionByID (reg (close (NewEndpoint mk8_settings) 0 n1)) 1 = Some 0.
Proof.
  destruct (processCONNECT (NewEndpoint mk8_settings) ex_penv 0 ex_connect ex_online) as [n1|] eqn:Hrun;
    [|vm_compute in Hrun; discriminate].
  exists n1. split; [reflexivity|].
  refine (proj1 (second_connect_leaks (NewEndpoint mk8_settings) ex_penv 0 ex_connect ex_online n1 1
    ex_online_exact eq_refl _ _ Hrun _)).
  - cbn. lia.
  - cbn. lia.
  - intros Hs. apply (f_equal connCounter) in Hs.
    assert (option_map (fun n => connCounter (reg n))
      (processCONNECT (NewEndpoint mk8_settings) ex_penv 0 ex_connect ex_online) = Some 2) as H2
      by (vm_compute; reflexivity).
    rewrite Hrun in H2. cbn in H2. injection H2 as H2. rewrite H2 in Hs. discriminate Hs.
Defined.

(** A data packet that completes a request runs the protocol's handler, after the hook,
    whatever the state of the connection. *)
Lemma request_dispatched {App} (e : Endpoint App) env ref c p req h n :
  heap (reg n) !! ref = Some c ->
  p_Type p = PacketDATA -> HasFlag p FlagMultiACK = false -> HasFlag p FlagACK = false ->
  p_FragmentID p = 0 -> ParseRMC (fragBuf c ++ p_Payload p) = Some req -> Mode req = RMCRequest ->
  handler e (Protocol req) = Some h ->
  exists n0 c', heap (reg n0) !! ref = Some c' /\ PID c' = PID c /\ ID c' = ID c /\ cstate c' = cstate c /\
    app n0 = match OnRMC e with Some f => f c' req (app n) | None => app n end /\
    handlePacket e env ref p n =
      Some (let '(n1, resp) := h ref req n0 in
            match resp with Some r => SendRMC e ref r n1 | None => n1 end).
Proof.
  intros Hc Ht Hm Ha Hf Hp Hmode Hh. unfold handlePacket. rewrite Ht.
  assert (mark_seen env ref n =
    set_conn ref (set_lastSeen (pe_now env) c) n) as -> by (unfold mark_seen, with_conn; by rewrite Hc).
  rewrite !bool_decide_eq_false_2, bool_decide_eq_true_2 by done.
  unfold processData. rewrite Hm, Ha. set (n1 := set_conn ref _ n).
  set (n2 := if HasFlag p FlagNeedACK then sendAck ref p n1 else n1).
  assert (reg n2 = reg n1 /\ app n2 = app n) as [Hr2 Ha2].
  { subst n2. destruct (HasFlag p FlagNeedACK); [|done]. unfold sendAck, with_conn.
    by destruct (heap (reg n1) !! ref). }
  assert (heap (reg n2) !! ref = Some (set_lastSeen (pe_now env) c)) as Hc2
    by (rewrite Hr2; subst n1; cbn; apply lookup_insert_eq).
  clearbody n2. unfold with_conn at 1. rewrite Hc2. unfold absorb. rewrite bool_decide_eq_true_2 by done.
  cbn [fragBuf set_lastSeen]. unfold dispatchRMC. rewrite Hp.
  rewrite bool_decide_eq_false_2 by (intros Hx; by apply Hx). rewrite Hh.
  set (c' := set_bufs _ [] _). set (n3 := set_conn ref c' n2).
  assert (heap (reg n3) !! ref = Some c') as Hc3 by (subst n3; cbn; apply lookup_insert_eq).
  exists (match OnRMC e with Some f => with_conn ref (fun c n => with_app (f c req) n) n3 | None => n3 end), c'.
  unfold with_conn. rewrite Hc3. destruct (OnRMC e); cbn; by rewrite ?lookup_insert_eq, Ha2.
Qed.

(** Requests are dispatched whatever the state of the handshake: a data packet that
    completes a request on a connection that never sent a CONNECT runs the protocol's
    handler, on a secure endpoint too, with the connection's account still 0. *)
Theorem request_before_connect {App} (e : Endpoint App) env ref addr p req h n :
  heap (reg n) !! ref = Some (NewConnection addr) ->
  p_Type p = PacketDATA -> HasFlag p FlagMultiACK = false -> HasFlag p FlagACK = false ->
  p_FragmentID p = 0 -> ParseRMC (p_Payload p) = Some req -> Mode req = RMCRequest ->
  handler e (Protocol req) = Some h ->
  exists n0 c, heap (reg n0) !! ref = Some c /\ PID c = 0 /\ cstate c = stateConnecting /\
    handlePacket e env ref p n =
      Some (let '(n1, resp) := h ref req n0 in
            match resp with Some r => SendRMC e ref r n1 | None => n1 end).
Proof.
  intros Hc Ht Hm Ha Hf Hp Hmode Hh.
  destruct (request_dispatched e env ref _ p req h n Hc Ht Hm Ha Hf Hp Hmode Hh)
    as (n0 & c & H1 & H2 & _ & H3 & _ & H4).
  exists n0, c. by split_and!.
Qed.

Definition ex_ping : RMCMessage := NewRMCRequest 0x6D 1 1 [].

Lemma request_before_connect_witness :
  exists n0 c, heap (reg n0) !! 0 = Some c /\ PID c = 0 /\ cstate c = stateConnecting /\
    handlePacket (Register 0x6D (fun _ _ n => (n, None)) ex_endpoint) ex_penv 0
      (mkPacket PacketDATA FlagReliable 10 1 10 2 0 1 [] [] 0 0 (Encode ex_ping)) ex_net = Some n0.
Proof.
  apply (request_before_connect (Register 0x6D (fun _ _ n => (n, None)) ex_endpoint) ex_penv 0
    (str "10.0.0.1:5") (mkPacket PacketDATA FlagReliable 10 1 10 2 0 1 [] [] 0 0 (Encode ex_ping))
    ex_ping (fun _ _ n => (n, None)) ex_net); vm_compute; reflexivity.
Defined.
