(* ===== verification/GoTime.v ===== *)
(** * Calendar dates and sorting

    What the code uses of Go's [time] (the UTC fields of an instant) and of
    [sort.Slice].  An instant is a number of nanoseconds since 1970-01-01 00:00 UTC. *)

From S2P Require Import Prelude.

Module GoTime.

Definition second_ns : Z := 10 ^ 9.
Definition unix (t : Z) : Z := t / second_ns.

Definition is_leap (y : Z) : bool :=
  bool_decide (y mod 4 = 0) && (bool_decide (y mod 100 <> 0) || bool_decide (y mod 400 = 0)).

(** Days before the first of each month of a common year. *)
Definition daysBefore (m : Z) : Z :=
  match m with
  | 0 => 0 | 1 => 31 | 2 => 59 | 3 => 90 | 4 => 120 | 5 => 151 | 6 => 181
  | 7 => 212 | 8 => 243 | 9 => 273 | 10 => 304 | 11 => 334 | _ => 365
  end.

(** Year and day of the year of the day numbered [d] from 0001-01-01: whole cycles of
    400, 100, 4 and 1 years are cut off in turn. *)
Definition year_of (d : Z) : Z * Z :=
  let n400 := d / 146097 in
  let d := d mod 146097 in
  let n100 := d / 36524 in
  let n100 := n100 - n100 / 4 in
  let d := d - 36524 * n100 in
  let n4 := d / 1461 in
  let d := d - 1461 * n4 in
  let n1 := d / 365 in
  let n1 := n1 - n1 / 4 in
  let d := d - 365 * n1 in
  (400 * n400 + 100 * n100 + 4 * n4 + n1 + 1, d).

(** Month (from 1) and day of a day of the year. *)
Definition month_of (leap : bool) (yday : Z) : Z * Z :=
  if leap && bool_decide (yday = 59) then (2, 29)
  else
    let day := if leap && bool_decide (59 < yday) then yday - 1 else yday in
    let month := day / 31 in
    let month := if bool_decide (daysBefore (month + 1) <= day) then month + 1 else month in
    (month + 1, day - daysBefore month + 1).

Record Civil := mkCivil { c_Year : Z; c_Month : Z; c_Day : Z; c_Hour : Z; c_Minute : Z; c_Second : Z }.

Definition UTC (t : Z) : Civil :=
  let s := unix t in
  let '(y, yday) := year_of (s / 86400 + 719162) in
  let '(m, d) := month_of (is_leap y) yday in
  let r := s mod 86400 in
  mkCivil y m d (r / 3600) (r mod 3600 / 60) (r mod 60).

(** ** The calendar these fields follow *)

(** Days between 0001-01-01 and the first of January of year [y]. *)
Definition days_before_year (y : Z) : Z :=
  365 * (y - 1) + (y - 1) / 4 - (y - 1) / 100 + (y - 1) / 400.

(** Days of the year before the first of month [m]. *)
Definition days_before_month (y m : Z) : Z :=
  daysBefore (m - 1) + (if is_leap y && bool_decide (2 < m) then 1 else 0).

Definition days_in_month (y m : Z) : Z :=
  days_before_month y (m + 1) - days_before_month y m.

(** Seconds between 1970-01-01 00:00 and the given civil time. *)
Definition seconds_of (c : Civil) : Z :=
  (days_before_year (c_Year c) + days_before_month (c_Year c) (c_Month c) + (c_Day c - 1) - 719162)
    * 86400 + 3600 * c_Hour c + 60 * c_Minute c + c_Second c.

Definition civil_ok (c : Civil) : Prop :=
  1 <= c_Month c <= 12 /\ 1 <= c_Day c <= days_in_month (c_Year c) (c_Month c) /\
  0 <= c_Hour c < 24 /\ 0 <= c_Minute c < 60 /\ 0 <= c_Second c < 60.

Ltac euclid := Z.div_mod_to_equations; lia.

(** A year split into its place in the cycles. *)
Lemma cycle_year q a b c :
  0 <= a <= 3 -> 0 <= b <= 24 -> 0 <= c <= 3 ->
  let y := 400 * q + 100 * a + 4 * b + c + 1 in
  days_before_year y = 146097 * q + 36524 * a + 1461 * b + 365 * c /\
  is_leap y = bool_decide (c = 3) && (bool_decide (b <> 24) || bool_decide (a = 3)).
Proof.
  intros Ha Hb Hc y. unfold days_before_year, is_leap. subst y. split; [euclid|].
  assert (bool_decide ((400 * q + 100 * a + 4 * b + c + 1) mod 4 = 0) = bool_decide (c = 3)) as ->
    by (apply bool_decide_ext; euclid).
  case_bool_decide as Hc3; [cbn [andb]|done]. subst c.
  assert (bool_decide ((400 * q + 100 * a + 4 * b + 3 + 1) mod 100 <> 0) = bool_decide (b <> 24)) as ->
    by (apply bool_decide_ext; euclid).
  case_bool_decide as Hb24; [done|]. cbn [orb]. apply bool_decide_ext. euclid.
Qed.

(** The day of the year, given the positions in the cycles. *)
Lemma year_of_spec d :
  let '(y, yday) := year_of d in
  d = days_before_year y + yday /\ 0 <= yday < 365 + (if is_leap y then 1 else 0).
Proof.
  unfold year_of. cbv zeta.
  set (q := d / 146097). set (d1 := d mod 146097).
  assert (0 <= d1 < 146097 /\ d = 146097 * q + d1) as [H1 Hd] by (subst q d1; euclid).
  set (a := d1 / 36524 - d1 / 36524 / 4).
  assert (0 <= a <= 3 /\ 0 <= d1 - 36524 * a <= 36524 /\ (d1 - 36524 * a = 36524 -> a = 3))
    as (Ha & H2 & H2') by (subst a; euclid).
  set (d2 := d1 - 36524 * a) in *. set (b := d2 / 1461).
  assert (0 <= b <= 24 /\ 0 <= d2 - 1461 * b < 1461 /\ (b = 24 -> d2 - 1461 * b <= 1460) /\
          (b = 24 -> d2 - 1461 * b = 1460 -> a = 3))
    as (Hb & H3 & H3' & H3'') by (subst b; euclid).
  set (d3 := d2 - 1461 * b) in *. set (c := d3 / 365 - d3 / 365 / 4).
  assert (0 <= c <= 3 /\ 0 <= d3 - 365 * c <= 365 /\ (d3 - 365 * c = 365 -> c = 3 /\ d3 = 1460))
    as (Hc & H4 & H4') by (subst c; euclid).
  destruct (cycle_year q a b c Ha Hb Hc) as [-> ->]. split; [lia|].
  destruct (bool_decide_reflect (c = 3)), (bool_decide_reflect (b <> 24)),
    (bool_decide_reflect (a = 3)); cbn [andb orb]; lia.
Qed.

Ltac small_months :=
  repeat match goal with
  | |- context [daysBefore ?x] =>
      let v := eval vm_compute in (daysBefore x) in change (daysBefore x) with v in *
  | _ : context [daysBefore ?x] |- _ =>
      let v := eval vm_compute in (daysBefore x) in change (daysBefore x) with v in *
  end.

(** The month found by dividing by 31 and correcting once. *)
Lemma month_guess day :
  0 <= day < 365 ->
  let month := if bool_decide (daysBefore (day / 31 + 1) <= day) then day / 31 + 1 else day / 31 in
  0 <= month <= 11 /\ daysBefore month <= day < daysBefore (month + 1) /\
  (59 <= day <-> 2 <= month).
Proof.
  intros Hd. cbv zeta. assert (0 <= day / 31 <= 11) as Hq by euclid.
  assert (31 * (day / 31) <= day <= 31 * (day / 31) + 30) as Hr by euclid.
  revert Hq Hr. generalize (day / 31). intros k Hk Hr.
  assert (k ∈ [0;1;2;3;4;5;6;7;8;9;10;11]) as Hin by (rewrite !elem_of_cons; lia).
  repeat (apply elem_of_cons in Hin as [Hin | Hin];
    [subst k; case_bool_decide; small_months; lia|]). by apply elem_of_nil in Hin.
Qed.

Lemma month_of_spec y yday :
  0 <= yday < 365 + (if is_leap y then 1 else 0) ->
  let '(m, d) := month_of (is_leap y) yday in
  1 <= m <= 12 /\ 1 <= d <= days_in_month y m /\ days_before_month y m + (d - 1) = yday.
Proof.
  intros Hy. unfold days_in_month, days_before_month, month_of.
  destruct (is_leap y && bool_decide (yday = 59)) eqn:E59.
  { apply andb_true_iff in E59 as [-> ->%bool_decide_eq_true_1]. by vm_compute. }
  set (day := if is_leap y && bool_decide (59 < yday) then yday - 1 else yday).
  assert (0 <= day < 365 /\ yday = day + if is_leap y && bool_decide (59 <= day) then 1 else 0)
    as [Hd Hyd].
  { subst day. destruct (is_leap y); cbn [andb] in *; destruct_bool_decide;
      repeat case_bool_decide; lia. }
  clearbody day. pose proof (month_guess day Hd) as Hg. cbv zeta in Hg |- *.
  set (m := if bool_decide (daysBefore (day / 31 + 1) <= day) then _ else _) in *. clearbody m.
  destruct Hg as (Hm & H1 & H2). subst yday. replace (m + 1 - 1) with m by lia.
  replace (m + 1 + 1 - 1) with (m + 1) by lia.
  destruct (is_leap y); cbn [andb]; repeat case_bool_decide; lia.
Qed.

(** The fields denote the instant's second, in the Gregorian calendar. *)
Lemma UTC_spec t : civil_ok (UTC t) /\ seconds_of (UTC t) = unix t.
Proof.
  unfold UTC. set (s := unix t).
  pose proof (year_of_spec (s / 86400 + 719162)) as Hy.
  destruct (year_of (s / 86400 + 719162)) as [y yday]. destruct Hy as [Hy Hyd].
  pose proof (month_of_spec y yday Hyd) as Hm.
  destruct (month_of (is_leap y) yday) as [m d]. destruct Hm as (Hm & Hd & Hs).
  unfold civil_ok, seconds_of. cbn. clearbody s. repeat split; try lia; euclid.
Qed.

(** Days of a month stay below 32. *)
Lemma days_in_month_le y m : 1 <= m <= 12 -> days_in_month y m <= 31.
Proof.
  intros Hm. unfold days_in_month, days_before_month.
  assert (m ∈ [1;2;3;4;5;6;7;8;9;10;11;12]) as Hin by (rewrite !elem_of_cons; lia).
  repeat (apply elem_of_cons in Hin as [Hin | Hin];
    [subst m; small_months; destruct (is_leap y); cbn [andb]; repeat case_bool_decide; lia|]). by apply elem_of_nil in Hin.
Qed.

Example UTC_known : UTC (1787343209 * second_ns + 5) = mkCivil 2026 8 21 20 13 29.
Proof. by vm_compute. Qed.

End GoTime.

(** ** [sort.Slice]

    It permutes the slice so that no element is less than an earlier one, when [less] is
    a strict weak order; how it arranges elements that are not ordered is unspecified, so
    every theorem quantifies over an instance. *)
Record StrictWeak {A} (less : A -> A -> bool) : Prop := {
  sw_asym : forall a b, less a b = true -> less b a = false;
  sw_ntrans : forall a b c, less b a = false -> less c b = false -> less c a = false
}.

Class GoSort := {
  sort_slice : forall {A}, (A -> A -> bool) -> list A -> list A;
  sort_perm : forall {A} (less : A -> A -> bool) l, sort_slice less l ≡ₚ l;
  sort_sorted : forall {A} (less : A -> A -> bool) l, StrictWeak less ->
    StronglySorted (fun a b => less b a = false) (sort_slice less l)
}.

(** Merge sort: an instance for evaluation. *)
Definition not_after {A} (less : A -> A -> bool) (a b : A) : Prop := less b a = false.
#[export] Instance not_after_dec {A} (less : A -> A -> bool) a b : Decision (not_after less a b).
Proof. unfold not_after. apply _. Defined.
Definition merge_sorted {A} (less : A -> A -> bool) (l : list A) : list A :=
  merge_sort (not_after less) l.

Lemma merge_sorted_spec {A} (less : A -> A -> bool) l : StrictWeak less ->
  StronglySorted (fun a b => less b a = false) (merge_sorted less l).
Proof.
  intros Hsw. unshelve eapply (StronglySorted_merge_sort (not_after less)).
  - intros a b c Hab Hbc. by apply (sw_ntrans less Hsw a b c).
  - intros a b. unfold not_after. destruct (less a b) eqn:E; [left; by apply (sw_asym less Hsw) | by right].
Qed.

Definition merge_slice : GoSort :=
  {| sort_slice := @merge_sorted;
     sort_perm := fun A less l => merge_sort_Permutation (not_after less) l;
     sort_sorted := @merge_sorted_spec |}.
