(* ===== verification/Base64.v ===== *)
(** * Base64 (Go's encoding/base64)

    The standard padded encoding and the unpadded URL encoding, neither strict: a
    decoder skips line breaks and ignores the low bits a short last group leaves over. *)

From S2P Require Import Prelude.

Module Base64.

(** [Pad]: whether the encoding pads; [c62] and [c63]: its last two characters. *)
Record Encoding := mkEncoding { Pad : bool; c62 : Z; c63 : Z }.
Definition StdEncoding : Encoding := mkEncoding true 43 47.
Definition RawURLEncoding : Encoding := mkEncoding false 45 95.

Definition enc_char (e : Encoding) (v : Z) : Z :=
  if bool_decide (v < 26) then 65 + v
  else if bool_decide (v < 52) then 97 + (v - 26)
  else if bool_decide (v < 62) then 48 + (v - 52)
  else if bool_decide (v = 62) then c62 e else c63 e.

Definition dec_char (e : Encoding) (c : Z) : option Z :=
  if bool_decide (65 <= c <= 90) then Some (c - 65)
  else if bool_decide (97 <= c <= 122) then Some (c - 97 + 26)
  else if bool_decide (48 <= c <= 57) then Some (c - 48 + 52)
  else if bool_decide (c = c62 e) then Some 62
  else if bool_decide (c = c63 e) then Some 63
  else None.

Definition padding (e : Encoding) (n : nat) : gostring := if Pad e then replicate n 61 else [].

Fixpoint EncodeToString (e : Encoding) (b : bytes) : gostring :=
  let ch := enc_char e in
  match b with
  | [] => []
  | [x] => ch (x / 4) :: ch (x mod 4 * 16) :: padding e 2
  | [x; y] => ch (x / 4) :: ch (x mod 4 * 16 + y / 16) :: ch (y mod 16 * 4) :: padding e 1
  | x :: y :: z :: b =>
      ch (x / 4) :: ch (x mod 4 * 16 + y / 16) :: ch (y mod 16 * 4 + z / 64) :: ch (z mod 64) ::
      EncodeToString e b
  end.

(** Groups of four characters, the line breaks removed. *)
Fixpoint decode_groups (e : Encoding) (s : gostring) : option bytes :=
  match s with
  | [] => Some []
  | [_] => None
  | a :: b :: s =>
      a ← dec_char e a; b ← dec_char e b;
      let x := a * 4 + b / 16 in
      match s with
      | [] => if Pad e then None else Some [x]
      | [c] =>
          if Pad e then None
          else c ← dec_char e c; Some [x; b mod 16 * 16 + c / 4]
      | c :: d :: s =>
          if Pad e && bool_decide (c = 61) then
            if bool_decide (d = 61) && bool_decide (s = []) then Some [x] else None
          else
            c ← dec_char e c;
            let y := b mod 16 * 16 + c / 4 in
            if Pad e && bool_decide (d = 61) then
              if bool_decide (s = []) then Some [x; y] else None
            else
              d ← dec_char e d;
              rest ← decode_groups e s;
              Some (x :: y :: c mod 4 * 64 + d :: rest)
      end
  end.

Definition is_break (c : Z) : bool := bool_decide (c = 10) || bool_decide (c = 13).

Definition DecodeString (e : Encoding) (s : gostring) : option bytes :=
  decode_groups e (filter (fun c => is_break c = false) s).

(** ** Round trip *)
Definition encoding_ok (e : Encoding) : Prop :=
  (c62 e = 43 /\ c63 e = 47) \/ (c62 e = 45 /\ c63 e = 95).

Lemma dec_enc e v : encoding_ok e -> 0 <= v < 64 -> dec_char e (enc_char e v) = Some v.
Proof.
  intros He Hv. unfold enc_char.
  assert (forall c n, 65 <= c <= 90 -> n = c - 65 -> dec_char e c = Some n) as H1.
  { intros c n Hc ->. unfold dec_char. by rewrite bool_decide_eq_true_2. }
  assert (forall c n, 97 <= c <= 122 -> n = c - 71 -> dec_char e c = Some n) as H2.
  { intros c n Hc ->. unfold dec_char. rewrite bool_decide_eq_false_2, bool_decide_eq_true_2 by lia.
    f_equal. lia. }
  assert (forall c n, 48 <= c <= 57 -> n = c + 4 -> dec_char e c = Some n) as H3.
  { intros c n Hc ->. unfold dec_char. rewrite !(bool_decide_eq_false_2 (_ /\ _)) by lia.
    rewrite bool_decide_eq_true_2 by lia. f_equal. lia. }
  repeat case_bool_decide; [apply H1; lia|apply H2; lia|apply H3; lia| |];
    unfold dec_char; destruct He as [[-> ->]|[-> ->]]; vm_compute; f_equal; lia.
Qed.

Lemma enc_char_plain e v : encoding_ok e -> 0 <= v < 64 ->
  enc_char e v <> 61 /\ is_break (enc_char e v) = false.
Proof.
  intros He Hv. unfold enc_char, is_break. repeat case_bool_decide; cbn; destruct He as [[? ?]|[? ?]]; lia.
Qed.

(** Induction three bytes at a time. *)
Lemma triples_ind {A} (P : list A -> Prop) :
  P [] -> (forall x, P [x]) -> (forall x y, P [x; y]) ->
  (forall x y z l, P l -> P (x :: y :: z :: l)) -> forall l, P l.
Proof.
  intros H0 H1 H2 H3.
  fix IH 1. intros [|x [|y [|z l]]]; [done|done|done|]. apply H3, IH.
Qed.

Ltac sextets := unfold is_byte in *; Z.div_mod_to_equations; lia.

Lemma decode_encode_groups e b :
  encoding_ok e -> Forall is_byte b -> decode_groups e (EncodeToString e b) = Some b.
Proof.
  intros He. induction b as [|x|x y|x y z b IH] using triples_ind; intros Hb; [done| | |].
  - rewrite Forall_singleton in Hb. cbn [EncodeToString decode_groups].
    rewrite !dec_enc by (done || sextets). cbn [mbind option_bind].
    unfold padding. destruct (Pad e); cbn [replicate]; rewrite ?bool_decide_eq_true_2 by done;
      cbn; do 2 f_equal; sextets.
  - rewrite Forall_cons, Forall_singleton in Hb. destruct Hb as [Hx Hy]. cbn [EncodeToString decode_groups].
    rewrite !dec_enc by (done || sextets). cbn [mbind option_bind].
    unfold padding. destruct (Pad e); cbn [replicate andb].
    + rewrite bool_decide_eq_false_2 by (apply enc_char_plain; done || sextets).
      rewrite ?dec_enc by (done || sextets). cbn. do 2 f_equal; [sextets|f_equal; sextets].
    + rewrite ?dec_enc by (done || sextets). cbn. do 2 f_equal; [sextets|f_equal; sextets].
  - apply Forall_cons in Hb as [Hx [Hy [Hz Hb]%Forall_cons]%Forall_cons].
    cbn [EncodeToString decode_groups].
    rewrite !dec_enc by (done || sextets). cbn [mbind option_bind].
    rewrite (bool_decide_eq_false_2 (enc_char e (y mod 16 * 4 + z / 64) = 61))
      by (apply enc_char_plain; done || sextets).
    rewrite (bool_decide_eq_false_2 (enc_char e (z mod 64) = 61))
      by (apply enc_char_plain; done || sextets).
    rewrite andb_false_r, IH by done. cbn. do 2 f_equal; [sextets|f_equal; [sextets|f_equal; sextets]].
Qed.

Lemma encode_no_break e b :
  encoding_ok e -> Forall is_byte b -> Forall (fun c => is_break c = false) (EncodeToString e b).
Proof.
  intros He. induction b as [|x|x y|x y z b IH] using triples_ind; intros Hb; [done| | |];
    rewrite ?Forall_cons in Hb; destruct_and?; cbn [EncodeToString];
    repeat (apply Forall_cons; split; [apply enc_char_plain; done || sextets|]);
    [unfold padding; by destruct (Pad e); repeat constructor..|by apply IH].
Qed.

Lemma filter_all {A} (P : A -> Prop) `{forall x, Decision (P x)} l : Forall P l -> filter P l = l.
Proof. induction 1 as [|x l Hx Hl IH]; [done|]. rewrite filter_cons_True by done. by rewrite IH. Qed.

(** Decoding undoes encoding. *)
Lemma decode_encode e b :
  encoding_ok e -> Forall is_byte b -> DecodeString e (EncodeToString e b) = Some b.
Proof.
  intros He Hb. unfold DecodeString. rewrite filter_all by by apply encode_no_break.
  by apply decode_encode_groups.
Qed.

(** An unpadded encoding only uses its alphabet. *)
Lemma encode_no_char e b c :
  encoding_ok e -> Pad e = false -> dec_char e c = None -> Forall is_byte b -> c ∉ EncodeToString e b.
Proof.
  intros He Hp Hc. induction b as [|x|x y|x y z b IH] using triples_ind; intros Hb;
    [by intros ?%elem_of_nil| | |];
    rewrite ?Forall_cons in Hb; destruct_and?; cbn [EncodeToString]; unfold padding; rewrite ?Hp;
    rewrite ?not_elem_of_cons; split_and?; try (by apply IH); try apply not_elem_of_nil;
    intros ->; rewrite dec_enc in Hc by (done || sextets); done.
Qed.

Example encode_std : EncodeToString StdEncoding (str "Nextendo!?") = str "TmV4dGVuZG8hPw==".
Proof. by vm_compute. Qed.
Example decode_url : DecodeString RawURLEncoding (str "_-8") = Some [255; 239].
Proof. by vm_compute. Qed.

End Base64.
