(* ===== verification/RankingBoard.v ===== *)
(** * Competition boards (nextendo-nex/ranking_board.go)

    The best result of every player in every tournament, the page served to the game, and
    the file that keeps the boards across restarts.  A request reads the entries it ranks
    at one instant; instants are nanoseconds since the epoch. *)

From S2P Require Import Prelude GoTime Settings Stream Types Rmc.
Import GoTime.

Definition ProtocolRanking : Z := 0x70.
Definition scoreEntryBody : Z := 159.
Definition scoreProfileLen : Z := 132.
Definition scoreMaxPerBoard : Z := 100.

Record boardEntry := mkBoardEntry { be_PID : Z; be_Score : Z; be_Profile : bytes; be_At : Z }.
#[export] Instance boardEntry_eq_dec : EqDecision boardEntry.
Proof. solve_decision. Defined.

Record boardKey := mkBoardKey { bk_Tournament : Z; bk_Category : Z }.
#[export] Instance boardKey_eq_dec : EqDecision boardKey.
Proof. solve_decision. Defined.
#[export] Instance boardKey_countable : Countable boardKey.
Proof.
  apply (inj_countable' (fun k => (bk_Tournament k, bk_Category k)) (fun p => mkBoardKey p.1 p.2)).
  by intros [].
Defined.

Record boardPersisted := mkBoardPersisted {
  bp_Tournament : Z; bp_Category : Z; bp_PID : Z; bp_Score : Z; bp_Profile : bytes; bp_At : Z
}.

(** The package's variables [boards], [boardOnce] and [boardDirty]. *)
Record Boards := mkBoards {
  boards : gmap boardKey (gmap Z boardEntry);
  boardOnce : bool;
  boardDirty : bool
}.
Definition no_boards : Boards := mkBoards ∅ false false.

(** [boards[k]]; a missing key reads as the nil map, which is empty. *)
Definition board_at (k : boardKey) (b : Boards) : gmap Z boardEntry := default ∅ (boards b !! k).

(** [boards[k]] is made if needed, then its entry for [pid] written. *)
Definition put_entry (k : boardKey) (pid : Z) (e : boardEntry)
    (m : gmap boardKey (gmap Z boardEntry)) : gmap boardKey (gmap Z boardEntry) :=
  <[k := <[pid := e]> (default ∅ (m !! k))]> m.

Definition restore_score (m : gmap boardKey (gmap Z boardEntry)) (p : boardPersisted)
    : gmap boardKey (gmap Z boardEntry) :=
  if bool_decide (len (bp_Profile p) <> scoreProfileLen) || bool_decide (bp_Tournament p = 0) then m
  else put_entry (mkBoardKey (bp_Tournament p) (bp_Category p)) (bp_PID p)
         (mkBoardEntry (bp_PID p) (bp_Score p) (bp_Profile p) (bp_At p * second_ns)) m.

(** [file] is the decoded content of the file, [None] when there is no file to read. *)
Definition boardInit (file : option (list boardPersisted)) (b : Boards) : Boards :=
  if boardOnce b then b
  else mkBoards (foldl restore_score (boards b) (default [] file)) true (boardDirty b).

(** A tick of the flusher: the records it writes, if any. *)
Definition boardFlush `{GoRange} (b : Boards) : option (list boardPersisted) * Boards :=
  if boardDirty b then
    (Some (k_m ← range (boards b);
           pid_e ← range k_m.2;
           [mkBoardPersisted (bk_Tournament k_m.1) (bk_Category k_m.1) pid_e.1
              (be_Score pid_e.2) (be_Profile pid_e.2) (unix (be_At pid_e.2))]),
     mkBoards (boards b) (boardOnce b) false)
  else (None, b).

(** ** Submissions *)
Definition le32_at (b : bytes) (o : Z) : Z :=
  Z.lor (Z.lor (Z.lor (byte_at b o) (Z.shiftl (byte_at b (o + 1)) 8))
    (Z.shiftl (byte_at b (o + 2)) 16)) (Z.shiftl (byte_at b (o + 3)) 24).

(** Tournament, category, score and profile. *)
Definition parseScoreSubmission (body : bytes) : option (Z * Z * Z * bytes) :=
  if bool_decide (len body < 0x1d + scoreProfileLen) then None
  else
    let tournament := le32_at body 0x05 in
    let category := le32_at body 0x09 in
    let score := le32_at body 0x11 in
    if bool_decide (Z.lor (byte_at body 0x1b) (Z.shiftl (byte_at body 0x1c) 8) <> scoreProfileLen)
    then None
    else
      let profile := ztake scoreProfileLen (zdrop 0x1d body) in
      if bool_decide (tournament = 0) then None
      else Some (tournament, category, score, profile).

Definition recordScore (file : option (list boardPersisted)) (now pid : Z) (body : bytes)
    (b : Boards) : bool * Boards :=
  let b := boardInit file b in
  match parseScoreSubmission body with
  | None => (false, b)
  | Some (tour, cat, score, profile) =>
      let k := mkBoardKey tour cat in
      let fresh := mkBoardEntry pid score profile now in
      let e := match board_at k b !! pid with
        | Some prev =>
            if bool_decide (score <= be_Score prev)
            then mkBoardEntry (be_PID prev) (be_Score prev) profile (be_At prev)
            else fresh
        | None => fresh
        end in
      (true, mkBoards (put_entry k pid e (boards b)) (boardOnce b) true)
  end.

(** ** Ranking *)
Definition ranks_before (a b : boardEntry) : bool :=
  if bool_decide (be_Score a <> be_Score b) then bool_decide (be_Score b < be_Score a)
  else bool_decide (be_At a < be_At b).

Definition rank_board `{GoRange, GoSort} (m : gmap Z boardEntry) : list boardEntry :=
  ztake scoreMaxPerBoard (sort_slice ranks_before (range m).*2).

Definition boardFor `{GoRange, GoSort} (k : boardKey) (b : Boards) : list boardEntry :=
  rank_board (board_at k b).

Definition nexDateTime (t : Z) : Z :=
  let c := UTC t in
  DateTime.MakeDateTime (c_Year c) (c_Month c) (c_Day c) (c_Hour c) (c_Minute c) (c_Second c).

(** [copy] into a zeroed array of the right length. *)
Definition fixed_profile (p : bytes) : bytes :=
  if bool_decide (len p <> scoreProfileLen)
  then ztake scoreProfileLen (p ++ replicate (Z.to_nat scoreProfileLen) 0) else p.

Definition board_row (i : nat) (e : boardEntry) : bytes :=
  [0] ++ StreamOut.U32 scoreEntryBody ++ StreamOut.U32 (u32 (Z.of_nat i + 1)) ++
  StreamOut.U64 (be_PID e) ++ StreamOut.U32 (be_Score e) ++ StreamOut.U64 (nexDateTime (be_At e)) ++
  [0xff] ++ StreamOut.U16 scoreProfileLen ++ fixed_profile (be_Profile e).

Definition board_page (cat : Z) (entries : list boardEntry) : bytes :=
  StreamOut.U32 cat ++ StreamOut.U32 (u32 (len entries)) ++ concat (imap board_row entries) ++
  StreamOut.U32 (u32 (len entries)) ++ StreamOut.U32 4 ++ replicate 16 0.

Definition writeBoard (cat : Z) (entries : list boardEntry) : bytes :=
  let page := board_page cat entries in
  StreamOut.U32 1 ++ [0] ++ StreamOut.U32 (u32 (len page)) ++ page.

(** The first key of the iteration that belongs to the tournament. *)
Definition boardCategoryFor (r : GoRange) (tour : Z) (b : Boards) : Z :=
  match List.find (fun kv => bool_decide (bk_Tournament kv.1 = tour)) (@range r _ _ _ _ (boards b)) with
  | Some (k, _) => bk_Category k
  | None => 0
  end.

(** The three iterations of a request (two lookups of the category, one collection of the
    entries) pick their orders independently. *)
Definition competitionRanking (r1 r2 r3 : GoRange) `{GoSort} (file : option (list boardPersisted))
    (req : RMCMessage) (b : Boards) : RMCMessage * Boards :=
  let reply body := NewRMCSuccess ProtocolRanking (Method req) (CallID req) body in
  if bool_decide (len (Body req) < 13) then (reply (StreamOut.U32 0), b)
  else
    let tour := le32_at (Body req) 5 in
    let cat := boardCategoryFor r1 tour b in
    let b := boardInit file b in
    let entries := @boardFor r2 _ (mkBoardKey tour cat) b in
    if bool_decide (entries = []) then (reply (StreamOut.U32 0), b)
    else (reply (writeBoard (boardCategoryFor r3 tour b) entries), b).

(** ** The best result of each player *)

(** A call of SubmitScore: who, with which body, when. *)
Record submission := mkSubmission { su_pid : Z; su_body : bytes; su_now : Z }.

Definition submit_all (h : list submission) (b : Boards) : Boards :=
  foldl (fun b s => (recordScore None (su_now s) (su_pid s) (su_body s) b).2) b h.

(** The accepted results of [pid] on the board [k]: score, profile and instant. *)
Definition result_of (k : boardKey) (pid : Z) (s : submission) : option (Z * bytes * Z) :=
  match parseScoreSubmission (su_body s) with
  | Some (tour, cat, score, profile) =>
      if bool_decide (su_pid s = pid) && bool_decide (mkBoardKey tour cat = k)
      then Some (score, profile, su_now s) else None
  | None => None
  end.
Definition results (k : boardKey) (pid : Z) (h : list submission) : list (Z * bytes * Z) :=
  omap (result_of k pid) h.

Definition best_score (l : list (Z * bytes * Z)) : Z :=
  match l with
  | [] => 0
  | x :: l => foldl (fun m x => Z.max m x.1.1) x.1.1 l
  end.

(** What the board should show: the best score, the instant it was first reached, and the
    profile of the latest result. *)
Definition standing (pid : Z) (l : list (Z * bytes * Z)) : option boardEntry :=
  match last l, List.find (fun x => bool_decide (x.1.1 = best_score l)) l with
  | Some (_, profile, _), Some (score, _, at_) => Some (mkBoardEntry pid score profile at_)
  | _, _ => None
  end.

Lemma best_score_snoc l x : l <> [] -> best_score (l ++ [x]) = Z.max (best_score l) x.1.1.
Proof. destruct l as [|y l]; [done|]. intros _. cbn. by rewrite foldl_app. Qed.

Lemma best_score_ge l x : x ∈ l -> x.1.1 <= best_score l.
Proof.
  induction l as [|y l IH] using rev_ind; [by intros ?%elem_of_nil|].
  destruct l as [|z l']; [intros ->%list_elem_of_singleton; cbn; lia|].
  rewrite best_score_snoc by done. intros [Hin | ->%list_elem_of_singleton]%elem_of_app; [|lia].
  specialize (IH Hin). lia.
Qed.

Lemma best_score_found l : l <> [] ->
  exists x, List.find (fun x => bool_decide (x.1.1 = best_score l)) l = Some x /\ x.1.1 = best_score l.
Proof.
  intros Hne.
  assert (exists y, y ∈ l /\ y.1.1 = best_score l) as (y & Hy & Hb).
  { induction l as [|x l IH] using rev_ind; [done|]. clear Hne.
    destruct l as [|z l']; [exists x; split; [by apply elem_of_app; right; apply list_elem_of_singleton|done]|].
    rewrite best_score_snoc by done. destruct IH as (y & Hy & Hb); [done|].
    destruct (Z.max_spec (best_score (z :: l')) x.1.1) as [[_ ->]|[_ ->]].
    - exists x. split; [apply elem_of_app; right; by apply list_elem_of_singleton|done].
    - exists y. split; [by apply elem_of_app; left|done]. }
  destruct (List.find _ l) as [x|] eqn:E.
  - exists x. split; [done|]. apply find_some in E as [_ E]. by apply bool_decide_eq_true_1 in E.
  - eapply find_none in E; [|by apply list_elem_of_In]. by apply bool_decide_eq_false_1 in E.
Qed.

Lemma find_app {A} (f : A -> bool) l1 l2 :
  List.find f (l1 ++ l2) = match List.find f l1 with Some x => Some x | None => List.find f l2 end.
Proof. induction l1 as [|x l1 IH]; [done|]. cbn. by destruct (f x). Qed.

(** One more result changes the standing the way the code updates the entry. *)
Lemma standing_snoc pid l s p t :
  standing pid (l ++ [(s, p, t)]) =
    Some match standing pid l with
         | Some prev => if bool_decide (s <= be_Score prev)
                        then mkBoardEntry (be_PID prev) (be_Score prev) p (be_At prev)
                        else mkBoardEntry pid s p t
         | None => mkBoardEntry pid s p t
         end.
Proof.
  unfold standing at 1. rewrite last_snoc, find_app.
  destruct (decide (l = [])) as [->|Hne]; [cbn; by rewrite bool_decide_eq_true_2|].
  rewrite best_score_snoc by done. cbn [fst snd].
  destruct (best_score_found l Hne) as ([[s' p'] t'] & Hf & Hs). cbn in Hs.
  assert (exists p0, standing pid l = Some (mkBoardEntry pid s' p0 t')) as [p0 Hst].
  { unfold standing. rewrite Hf. apply last_is_Some in Hne as [[[? p0] ?] ->]. by exists p0. }
  rewrite Hst. cbn [be_PID be_Score be_At]. destruct (bool_decide_reflect (s <= s')) as [Hle|Hle].
  - rewrite Z.max_l by lia. by rewrite Hf.
  - rewrite Z.max_r by lia.
    assert (List.find (fun x => bool_decide (x.1.1 = s)) l = None) as ->.
    { clear Hf. destruct (List.find _ l) as [x|] eqn:E; [|done]. apply find_some in E as [Hin E].
      apply bool_decide_eq_true_1 in E. apply list_elem_of_In, best_score_ge in Hin. lia. }
    cbn. by rewrite bool_decide_eq_true_2.
Qed.

Lemma board_at_put k k' pid e b once dirty :
  board_at k' (mkBoards (put_entry k pid e (boards b)) once dirty) =
    if bool_decide (k' = k) then <[pid := e]> (board_at k b) else board_at k' b.
Proof.
  unfold board_at, put_entry; cbn. case_bool_decide as Hk.
  - subst. by rewrite lookup_insert_eq.
  - by rewrite lookup_insert_ne.
Qed.

Lemma boards_init_none b : boards (boardInit None b) = boards b.
Proof. unfold boardInit. by destruct (boardOnce b). Qed.

Lemma board_at_init_none k b : board_at k (boardInit None b) = board_at k b.
Proof. unfold board_at. by rewrite boards_init_none. Qed.

Lemma submit_all_snoc h s b :
  submit_all (h ++ [s]) b =
    (recordScore None (su_now s) (su_pid s) (su_body s) (submit_all h b)).2.
Proof. unfold submit_all. by rewrite foldl_app. Qed.

Lemma results_snoc k pid h s :
  results k pid (h ++ [s]) =
    results k pid h ++ match result_of k pid s with Some x => [x] | None => [] end.
Proof. unfold results. rewrite omap_app. cbn. by destruct (result_of k pid s). Qed.

Lemma board_at_history h k pid :
  board_at k (submit_all h no_boards) !! pid = standing pid (results k pid h).
Proof.
  induction h as [|s h IH] using rev_ind; [done|].
  rewrite submit_all_snoc, results_snoc. set (b := submit_all h no_boards) in *.
  unfold recordScore, result_of.
  destruct (parseScoreSubmission (su_body s)) as [[[[tour cat] score] profile]|] eqn:Ep; cbn [snd].
  2:{ by rewrite board_at_init_none, app_nil_r. }
  rewrite board_at_put, !board_at_init_none.
  destruct (bool_decide_reflect (su_pid s = pid)) as [Hp|Hp]; cbn [andb];
    [|rewrite app_nil_r; case_bool_decide as Hk; [subst; by rewrite lookup_insert_ne|done]].
  destruct (bool_decide_reflect (mkBoardKey tour cat = k)) as [Hk|Hk].
  - rewrite bool_decide_eq_true_2 by done. subst. rewrite lookup_insert_eq, standing_snoc, IH. done.
  - rewrite bool_decide_eq_false_2 by congruence. by rewrite app_nil_r.
Qed.

(** [C34] After any sequence of race results, the board of a tournament and
    category holds for each player the best score among those submitted there, the
    instant at which that score was first reached, and the profile sent last; a player
    with no accepted result is not on it. *)
Theorem board_keeps_best h k pid :
  board_at k (submit_all h no_boards) !! pid = standing pid (results k pid h).
Proof. apply board_at_history. Qed.

(** ** Rankings *)
Lemma ranks_before_order : StrictWeak ranks_before.
Proof.
  split; unfold ranks_before; intros *; repeat case_bool_decide; intros; try done; lia.
Qed.

(** A list ranks a board: its best players, best first, at most 100 of them. *)
Record is_ranking (m : gmap Z boardEntry) (l : list boardEntry) : Prop := {
  rk_length : len l = Z.min scoreMaxPerBoard (Z.of_nat (size m));
  rk_sorted : StronglySorted (fun a b => ranks_before b a = false) l;
  rk_once : NoDup (be_PID <$> l);
  rk_entries : forall e, e ∈ l -> m !! be_PID e = Some e;
  rk_best : forall pid e, m !! pid = Some e ->
    e ∈ l \/ (forall e', e' ∈ l -> ranks_before e e' = false)
}.

Definition pids_match (m : gmap Z boardEntry) : Prop :=
  forall pid e, m !! pid = Some e -> be_PID e = pid.

Lemma rank_board_ok `{GoRange, GoSort} m : pids_match m -> is_ranking m (rank_board m).
Proof.
  intros Hm. unfold rank_board, ztake. set (n := Z.to_nat scoreMaxPerBoard).
  set (l := sort_slice ranks_before (range m).*2).
  assert (l ≡ₚ (map_to_list m).*2) as Hperm.
  { unfold l. rewrite sort_perm. by apply fmap_Permutation, range_perm. }
  assert (forall e, e ∈ l <-> m !! be_PID e = Some e) as Hin.
  { intros e. rewrite Hperm, list_elem_of_fmap. split.
    - intros ([pid e'] & -> & Hk%elem_of_map_to_list). cbn. by rewrite (Hm pid e' Hk).
    - intros Hk. exists (be_PID e, e). by rewrite elem_of_map_to_list. }
  assert (NoDup (be_PID <$> l)) as Hnd.
  { rewrite Hperm, <- list_fmap_compose.
    rewrite (list_fmap_ext _ fst) by (intros ? [pid e] Hk%list_elem_of_lookup_2%elem_of_map_to_list;
      by apply (Hm pid e)). apply NoDup_fst_map_to_list. }
  pose proof (sort_sorted ranks_before (range m).*2 ranks_before_order) as Hs. fold l in Hs.
  rewrite <- (take_drop n l) in Hs. apply StronglySorted_app in Hs as (Hcross & Hs & _).
  split.
  - unfold len. rewrite length_take, Hperm, length_fmap, length_map_to_list. subst n.
    unfold scoreMaxPerBoard. lia.
  - done.
  - rewrite fmap_take. eapply sublist_NoDup; [|apply sublist_take]; done.
  - intros e He. apply Hin. rewrite <- (take_drop n l). apply elem_of_app. by left.
  - intros pid e Hk. assert (e ∈ l) as He by (apply Hin; by rewrite (Hm pid e Hk)).
    rewrite <- (take_drop n l) in He. apply elem_of_app in He as [He|He]; [by left|right].
    intros e' He'. by apply Hcross.
Qed.

(** ** The page as the game reads it *)

(** Rank, account, score, date and profile. *)
Record row := mkRow { rw_rank : Z; rw_pid : Z; rw_score : Z; rw_date : Z; rw_profile : bytes }.

Definition read_row : reader row :=
  (_v <-- StreamInOps.U8 ;; _n <-- StreamInOps.U32 ;; rank <-- StreamInOps.U32 ;;
   pid <-- StreamInOps.U64 ;; score <-- StreamInOps.U32 ;; date <-- StreamInOps.U64 ;;
   _f <-- StreamInOps.U8 ;; profile <-- StreamInOps.QBuffer ;;
   rret (mkRow rank pid score date profile))%reader.

(** Category, rows, and the total of the footer. *)
Definition read_page : reader (Z * list row * Z) :=
  (cat <-- StreamInOps.U32 ;; n <-- StreamInOps.U32 ;;
   rows <-- StreamInOps.read_n (Z.to_nat n) read_row ;;
   total <-- StreamInOps.U32 ;; _four <-- StreamInOps.U32 ;; _z <-- StreamInOps.Read 16 ;;
   rret (cat, rows, total))%reader.

Definition read_board (body : bytes) : Z * list row * Z :=
  let '(page, _) := (_pages <-- StreamInOps.U32 ;; _v <-- StreamInOps.U8 ;; StreamInOps.Substream)%reader
                      (NewStreamIn body) in
  (read_page page).1.

Definition row_of (i : nat) (e : boardEntry) : row :=
  mkRow (Z.of_nat i + 1) (be_PID e) (be_Score e) (nexDateTime (be_At e)) (be_Profile e).

Definition entry_ok (e : boardEntry) : Prop :=
  is_uint 64 (be_PID e) /\ is_uint 32 (be_Score e) /\ len (be_Profile e) = scoreProfileLen /\
  0 <= be_At e < 2 ^ 63.

(** The second a packed date denotes. *)
Definition date_seconds (v : Z) : Z :=
  seconds_of (mkCivil (DateTime.Year v) (DateTime.Month v) (DateTime.Day v) (DateTime.Hour v)
    (DateTime.Minute v) (DateTime.Second v)).

Lemma date_seconds_pack y mo d h mi s :
  DateTime.fits y mo d h mi s ->
  date_seconds (DateTime.MakeDateTime y mo d h mi s) = seconds_of (mkCivil y mo d h mi s).
Proof.
  intros Hf. pose proof (DateTime.datetime_roundtrip y mo d h mi s Hf) as Hr. cbv zeta in Hr.
  unfold date_seconds. generalize dependent (DateTime.MakeDateTime y mo d h mi s).
  intros v Hv. by injection Hv as -> -> -> -> -> ->.
Qed.

Lemma daysBefore_bound m : 0 <= daysBefore m <= 365.
Proof. unfold daysBefore. repeat case_match; lia. Qed.

(** Instants of a 63-bit clock fall in years that fit the packed format. *)
Lemma civil_year_bound c :
  civil_ok c -> 0 <= seconds_of c < 2 ^ 34 -> 0 <= c_Year c < 2 ^ 38.
Proof.
  intros (Hm & Hd & Hh & Hmi & Hs) Hsec.
  pose proof (days_in_month_le (c_Year c) _ Hm) as Hdm.
  pose proof (daysBefore_bound (c_Month c - 1)) as Hb.
  unfold seconds_of, days_before_month, days_before_year in Hsec.
  destruct (is_leap (c_Year c) && bool_decide (2 < c_Month c)); revert Hsec; euclid.
Qed.

Lemma nexDateTime_seconds t : 0 <= t < 2 ^ 63 -> date_seconds (nexDateTime t) = unix t.
Proof.
  intros Ht. destruct (UTC_spec t) as [Hok Hsec].
  assert (0 <= seconds_of (UTC t) < 2 ^ 34) as Hu by (rewrite Hsec; unfold unix, second_ns; euclid).
  pose proof (civil_year_bound _ Hok Hu) as Hy. rewrite <- Hsec. unfold nexDateTime. cbv zeta.
  clear Hsec Hu. destruct Hok as (Hm & Hd & Hh & Hmi & Hs).
  pose proof (days_in_month_le (c_Year (UTC t)) _ Hm) as Hdm.
  destruct (UTC t) as [y mo d h mi s]. cbn [c_Year c_Month c_Day c_Hour c_Minute c_Second] in *.
  apply date_seconds_pack. unfold DateTime.fits. lia.
Qed.

Lemma nexDateTime_uint t : is_uint 64 (nexDateTime t).
Proof. unfold nexDateTime, DateTime.MakeDateTime. cbv zeta.
  repeat (apply lor_uint; [lia| |]); apply u64_uint. Qed.

Lemma decodes_byte b : is_byte b -> decodes StreamInOps.U8 [b] b.
Proof.
  intros Hb. eapply decodes_eq; [by apply decodes_U8| |done].
  unfold StreamOut.U8. cbn. by rewrite Z.mod_small by (unfold is_byte in Hb; lia).
Qed.

Lemma decodes_row i e :
  Z.of_nat i < 100 -> entry_ok e -> decodes read_row (board_row i e) (row_of i e).
Proof.
  intros Hi (Hp & Hs & Hl & _). unfold read_row, board_row, fixed_profile.
  rewrite bool_decide_eq_false_2 by (by intros ?).
  unfold u32. rewrite Z.mod_small by lia.
  eapply decodes_bind; [by apply decodes_byte|].
  eapply decodes_bind; [by apply decodes_U32|].
  eapply decodes_bind; [apply decodes_U32; unfold is_uint; lia|].
  eapply decodes_bind; [by apply decodes_U64|].
  eapply decodes_bind; [by apply decodes_U32|].
  eapply decodes_bind; [apply decodes_U64, nexDateTime_uint|].
  eapply decodes_bind; [by apply decodes_byte|].
  eapply decodes_bind_ret_eq; [|done].
  eapply decodes_eq; [apply (decodes_QBuffer (be_Profile e)); by rewrite Hl| |done].
  unfold StreamOut.QBuffer. by rewrite Hl.
Qed.

Lemma decodes_read_imap {A B} (rd : reader B) (w : nat -> A -> bytes) (g : nat -> A -> B) l :
  (forall i x, l !! i = Some x -> decodes rd (w i x) (g i x)) ->
  decodes (StreamInOps.read_n (length l) rd) (concat (imap w l)) (imap g l).
Proof.
  revert w g. induction l as [|x l IH]; intros w g Hl; [done|]. rewrite !imap_cons. cbn.
  eapply decodes_bind; [by apply (Hl 0%nat)|]. apply decodes_bind_ret. apply IH.
  intros i y Hi. by apply (Hl (S i)).
Qed.

Lemma len_board_row i e : entry_ok e -> len (board_row i e) = 164.
Proof.
  intros (_ & _ & Hl & _). unfold board_row, fixed_profile.
  rewrite bool_decide_eq_false_2 by (by intros ?). autorewrite with golen. by rewrite Hl.
Qed.

Lemma len_rows (l : list boardEntry) (w : nat -> boardEntry -> bytes) :
  (forall i e, e ∈ l -> len (w i e) = 164) -> len (concat (imap w l)) = 164 * len l.
Proof.
  revert w. induction l as [|e l IH]; intros w Hw; [done|].
  rewrite imap_cons. cbn [concat]. rewrite len_app, len_cons, (Hw 0%nat e) by (apply elem_of_cons; by left).
  rewrite IH; [lia|]. intros i e' He. apply (Hw (S i)). apply elem_of_cons; by right.
Qed.

(** The page written for at most a hundred entries is read back row by row. *)
Lemma read_writeBoard cat entries :
  is_uint 32 cat -> len entries <= 100 -> Forall entry_ok entries ->
  read_board (writeBoard cat entries) = (cat, imap row_of entries, len entries).
Proof.
  intros Hcat Hlen Hok. pose proof (len_nonneg entries).
  assert (len (board_page cat entries) = 32 + 164 * len entries) as Hpage.
  { unfold board_page. autorewrite with golen.
    rewrite len_rows; [lia|]. intros i e He. apply len_board_row.
    by rewrite Forall_forall in Hok; apply Hok. }
  assert (decodes read_page (board_page cat entries) (cat, imap row_of entries, len entries)) as Hd.
  { unfold read_page, board_page. assert (u32 (len entries) = len entries) as ->
      by (unfold u32; apply Z.mod_small; lia).
    eapply decodes_bind; [by apply decodes_U32|].
    eapply decodes_bind; [apply decodes_U32; unfold is_uint; lia|].
    eapply decodes_bind; [unfold len; rewrite Nat2Z.id; apply decodes_read_imap; intros i e He|].
    { apply decodes_row.
      - apply lookup_lt_Some in He. unfold len in *. lia.
      - by eapply Forall_lookup_1. }
    eapply decodes_bind; [apply decodes_U32; unfold is_uint; lia|].
    eapply decodes_bind; [by apply decodes_U32|].
    by eapply decodes_bind_ret_eq; [apply decodes_Read|]. }
  unfold read_board, writeBoard. cbv zeta.
  assert (decodes (_pages <-- StreamInOps.U32 ;; _v <-- StreamInOps.U8 ;; StreamInOps.Substream)%reader
    (StreamOut.U32 1 ++ [0] ++ StreamOut.Buffer (board_page cat entries))
    (NewStreamIn (board_page cat entries))) as Hs.
  { eapply decodes_bind; [by apply decodes_U32|].
    eapply decodes_bind; [by apply decodes_byte|].
    unfold StreamInOps.Substream. eapply decodes_bind_ret, decodes_Buffer. lia. }
  specialize (Hs []). rewrite app_nil_r in Hs. unfold StreamOut.Buffer in Hs. rewrite Hs.
  specialize (Hd []). rewrite app_nil_r in Hd. by rewrite Hd.
Qed.

(** ** Boards built from submissions *)
Definition submission_ok (s : submission) : Prop :=
  is_uint 64 (su_pid s) /\ Forall is_byte (su_body s) /\ 0 <= su_now s < 2 ^ 63.

Record board_ok (k : boardKey) (m : gmap Z boardEntry) : Prop := {
  bo_tournament : bk_Tournament k <> 0;
  bo_category : is_uint 32 (bk_Category k);
  bo_nonempty : m <> ∅;
  bo_entries : forall pid e, m !! pid = Some e -> be_PID e = pid /\ entry_ok e
}.
Definition boards_ok (b : Boards) : Prop := map_Forall board_ok (boards b).

Lemma byte_at_is_byte b i : Forall is_byte b -> is_byte (byte_at b i).
Proof.
  intros Hb. unfold byte_at. destruct (nth_in_or_default (Z.to_nat i) b 0) as [Hin | ->];
    [|by unfold is_byte]. rewrite Forall_forall in Hb. by apply Hb, list_elem_of_In.
Qed.

Lemma shiftl_byte_uint b k : is_byte b -> 0 <= k <= 24 -> is_uint 32 (Z.shiftl b k).
Proof.
  intros [Hb0 Hb] Hk. unfold is_uint. rewrite Z.shiftl_mul_pow2 by lia.
  assert (0 < 2 ^ k <= 2 ^ 24) by (split; [lia|apply Z.pow_le_mono_r; lia]). nia.
Qed.

Lemma le32_at_uint b o : Forall is_byte b -> is_uint 32 (le32_at b o).
Proof.
  intros Hb. unfold le32_at. repeat (apply lor_uint; [lia| |]);
    try (apply shiftl_byte_uint; [by apply byte_at_is_byte|lia]).
  destruct (byte_at_is_byte b o Hb). unfold is_uint. lia.
Qed.

Lemma parse_submission_ok body t c s p :
  Forall is_byte body -> parseScoreSubmission body = Some (t, c, s, p) ->
  t <> 0 /\ is_uint 32 c /\ is_uint 32 s /\ len p = scoreProfileLen.
Proof.
  intros Hb. unfold parseScoreSubmission. case_bool_decide as Hl; [done|].
  repeat (case_bool_decide; [done|]). intros [= <- <- <- <-].
  repeat split; try done; try apply le32_at_uint; try done.
  rewrite len_ztake; [done|]. unfold scoreProfileLen in *. rewrite len_zdrop; lia.
Qed.

(** Writing a good entry keeps the boards good. *)
Lemma put_entry_ok k pid e m :
  map_Forall board_ok m -> bk_Tournament k <> 0 -> is_uint 32 (bk_Category k) ->
  be_PID e = pid -> entry_ok e -> map_Forall board_ok (put_entry k pid e m).
Proof.
  intros Hm Ht Hc Hp He k' m' Hk. unfold put_entry in Hk.
  apply lookup_insert_Some in Hk as [[<- <-]|[_ Hk]]; [|by apply Hm].
  split; [done|done|apply insert_non_empty|]. intros pid' e' [[<- <-]|[_ He']]%lookup_insert_Some; [done|].
  destruct (m !! k) as [m0|] eqn:E; [|done]. cbn in He'. by apply (bo_entries _ _ (Hm k m0 E)).
Qed.

Lemma record_ok file now pid body b :
  boards_ok (boardInit file b) -> is_uint 64 pid -> Forall is_byte body -> 0 <= now < 2 ^ 63 ->
  boards_ok (recordScore file now pid body b).2.
Proof.
  intros Hb Hpid Hbody Hnow. unfold recordScore. set (b0 := boardInit file b) in *.
  destruct (parseScoreSubmission body) as [[[[t c] s] p]|] eqn:Ep; [cbn|done].
  destruct (parse_submission_ok _ _ _ _ _ Hbody Ep) as (Ht & Hc & Hs & Hp).
  assert (forall e, board_at (mkBoardKey t c) b0 !! pid = Some e -> be_PID e = pid /\ entry_ok e) as Hprev.
  { intros e He. unfold board_at in He. destruct (boards b0 !! mkBoardKey t c) as [m|] eqn:E; [|done].
    by apply (bo_entries _ _ (Hb _ _ E)). }
  apply put_entry_ok; [done..| |];
    (destruct (board_at (mkBoardKey t c) b0 !! pid) as [e|];
      [destruct (Hprev e eq_refl) as [<- (? & ? & ? & ?)]; case_bool_decide|]); by repeat (split; [done|]).
Qed.

Lemma submit_all_ok h : Forall submission_ok h -> boards_ok (submit_all h no_boards).
Proof.
  induction h as [|s h IH] using rev_ind; [done|].
  intros [Hh [(Hp & Hb & Hn) _]%Forall_cons]%Forall_app. rewrite submit_all_snoc. apply record_ok; [|done..].
  unfold boards_ok. rewrite boards_init_none. by apply IH.
Qed.

(** The category found is one of the tournament's. *)
Lemma boardCategoryFor_found (r : GoRange) tour c b :
  is_Some (boards b !! mkBoardKey tour c) ->
  is_Some (boards b !! mkBoardKey tour (boardCategoryFor r tour b)).
Proof.
  intros [m Hm]. unfold boardCategoryFor. destruct (List.find _ _) as [[k m']|] eqn:E.
  - apply find_some in E as [Hin Ht%bool_decide_eq_true_1]. apply list_elem_of_In, elem_of_range in Hin.
    exists m'. destruct k. cbn in *. by subst.
  - eapply find_none in E; [|apply list_elem_of_In, elem_of_range, Hm].
    by apply bool_decide_eq_false_1 in E.
Qed.

(** [C35] Asked for the standings of a tournament when the boards have been loaded: with
    no result of it the server answers "no page".  With results, it answers a page that
    the game's layout reads back as the ranks from 1, and for each rank the account, best
    score, date and profile on the board of one of the tournament's categories, the date
    denoting the second of the result: best scores first, the earlier first on equal
    scores, every player once, the best hundred; the footer's total is the number of
    rows.  The heading is a category of the tournament, and the one of the rows when the
    tournament has only one.  The order in which maps are iterated and the way sorting
    arranges ties do not matter, and no board changes. *)
Theorem competition_page (r1 r2 r3 : GoRange) `{GoSort} file req b :
  boards_ok b -> boardOnce b = true -> 13 <= len (Body req) ->
  let tour := le32_at (Body req) 5 in
  let has c := is_Some (boards b !! mkBoardKey tour c) in
  let reply := competitionRanking r1 r2 r3 file req b in
  reply.2 = b /\
  ((forall c, ~ has c) -> reply.1 = NewRMCSuccess ProtocolRanking (Method req) (CallID req) (StreamOut.U32 0)) /\
  ((exists c, has c) -> exists cat heading entries body,
    reply.1 = NewRMCSuccess ProtocolRanking (Method req) (CallID req) body /\
    has cat /\ has heading /\ ((forall c, has c -> c = cat) -> heading = cat) /\
    is_ranking (board_at (mkBoardKey tour cat) b) entries /\ entries <> [] /\
    read_board body = (heading, imap row_of entries, len entries) /\
    Forall (fun e => date_seconds (nexDateTime (be_At e)) = unix (be_At e)) entries).
Proof.
  intros Hb Honce Hlen tour has reply. subst reply. unfold competitionRanking.
  rewrite bool_decide_eq_false_2 by lia. fold tour. unfold boardInit. rewrite Honce. unfold boardFor.
  split; [by case_bool_decide|]. split.
  { intros Hno. assert (board_at (mkBoardKey tour (boardCategoryFor r1 tour b)) b = ∅) as ->.
    { unfold board_at. destruct (boards b !! _) eqn:E; [|done]. exfalso. apply (Hno (boardCategoryFor r1 tour b)).
      unfold has. rewrite E. by eexists. }
    rewrite bool_decide_eq_true_2; [done|].
    pose proof (@rank_board_ok r2 _ ∅) as Hr. apply len_0_inv. by rewrite (rk_length _ _ (Hr ltac:(done))). }
  intros [c Hc]. pose proof (boardCategoryFor_found r1 tour c b Hc) as H1.
  pose proof (boardCategoryFor_found r3 tour c b Hc) as H3.
  set (cat := boardCategoryFor r1 tour b) in *. set (heading := boardCategoryFor r3 tour b) in *.
  destruct H1 as [m Hm]. pose proof (Hb _ _ Hm) as Hok.
  assert (board_at (mkBoardKey tour cat) b = m) as Hat by (unfold board_at; by rewrite Hm).
  pose proof (@rank_board_ok r2 _ m (fun pid e He => proj1 (bo_entries _ _ Hok pid e He))) as Hrank.
  assert (@rank_board r2 _ m <> []) as Hne.
  { intros E. pose proof (rk_length _ _ Hrank) as Hl. rewrite E in Hl. cbn in Hl.
    apply (bo_nonempty _ _ Hok), map_size_empty_iff. unfold scoreMaxPerBoard, len in Hl. cbn in Hl. lia. }
  rewrite Hat, bool_decide_eq_false_2 by done. cbn [fst].
  eexists cat, heading, (@rank_board r2 _ m), _.
  split_and!; [done|by exists m|done|by intros Hu; apply Hu|by rewrite Hat|done| |].
  2:{ apply Forall_forall. intros e He%(rk_entries _ _ Hrank)%(bo_entries _ _ Hok).
      apply nexDateTime_seconds, He. }
  destruct H3 as [m3 Hm3]. apply read_writeBoard; [apply (bo_category _ _ (Hb _ _ Hm3))| |].
  - rewrite (rk_length _ _ Hrank). unfold scoreMaxPerBoard. lia.
  - apply Forall_forall. intros e He. by apply (bo_entries _ _ Hok (be_PID e)), (rk_entries _ _ Hrank).
Qed.

(** ** The file *)
Definition score_at (m : gmap boardKey (gmap Z boardEntry)) (k : boardKey) (pid : Z)
    : option boardEntry := default ∅ (m !! k) !! pid.

(** The record kept for [pid] on the board [k]. *)
Definition record_for (k : boardKey) (pid : Z) (p : boardPersisted) : Prop :=
  mkBoardKey (bp_Tournament p) (bp_Category p) = k /\ bp_PID p = pid.
#[export] Instance record_for_dec k pid p : Decision (record_for k pid p).
Proof. unfold record_for. apply _. Defined.

Definition restored (p : boardPersisted) : boardEntry :=
  mkBoardEntry (bp_PID p) (bp_Score p) (bp_Profile p) (bp_At p * second_ns).

Definition record_usable (p : boardPersisted) : Prop :=
  len (bp_Profile p) = scoreProfileLen /\ bp_Tournament p <> 0.

Lemma score_at_restore m p k pid :
  record_usable p ->
  score_at (restore_score m p) k pid =
    if decide (record_for k pid p) then Some (restored p) else score_at m k pid.
Proof.
  intros [Hl Ht]. unfold restore_score, score_at, put_entry.
  rewrite (bool_decide_eq_false_2 (len _ <> _)) by (by intros ?).
  rewrite (bool_decide_eq_false_2 (_ = 0)) by done. cbn [orb].
  destruct (decide (record_for k pid p)) as [[<- <-]|Hn].
  { rewrite lookup_insert_eq. cbn. by rewrite lookup_insert_eq. }
  destruct (decide (mkBoardKey (bp_Tournament p) (bp_Category p) = k)) as [<-|Hk].
  - rewrite lookup_insert_eq. cbn. rewrite lookup_insert_ne; [done|]. intros Hp. by apply Hn.
  - by rewrite lookup_insert_ne.
Qed.

(** Loading a file: the last record of a player on a board wins. *)
Lemma score_at_load l k pid :
  Forall record_usable l ->
  score_at (foldl restore_score ∅ l) k pid = restored <$> last (filter (record_for k pid) l).
Proof.
  induction l as [|p l IH] using rev_ind; [done|].
  intros [Hl [Hp _]%Forall_cons]%Forall_app. rewrite foldl_app. cbn [foldl].
  rewrite score_at_restore, filter_app, filter_cons, filter_nil by done.
  destruct (decide (record_for k pid p)); [by rewrite last_snoc|]. rewrite app_nil_r. by apply IH.
Qed.

Lemma last_filter_unique {A} (P : A -> Prop) `{forall x, Decision (P x)} l x :
  x ∈ l -> P x -> (forall y, y ∈ l -> P y -> y = x) -> last (filter P l) = Some x.
Proof.
  intros Hx Px Hu. destruct (last (filter P l)) as [y|] eqn:E.
  - apply last_Some_elem_of, list_elem_of_filter in E as [Py Hy]. f_equal. by apply Hu.
  - apply last_None in E. assert (x ∈ filter P l) as Hin by (by apply list_elem_of_filter).
    rewrite E in Hin. by apply elem_of_nil in Hin.
Qed.

Definition flushed (k : boardKey) (pid : Z) (e : boardEntry) : boardPersisted :=
  mkBoardPersisted (bk_Tournament k) (bk_Category k) pid (be_Score e) (be_Profile e) (unix (be_At e)).

Lemma elem_of_flush `{GoRange} b file b' p :
  boardFlush b = (Some file, b') ->
  p ∈ file <-> exists k pid e, score_at (boards b) k pid = Some e /\ p = flushed k pid e.
Proof.
  unfold boardFlush. destruct (boardDirty b); [|done]. intros [= <- _].
  rewrite list_elem_of_bind. split.
  - intros ([k m] & ([pid e] & ->%list_elem_of_singleton & He%elem_of_range)%list_elem_of_bind & Hm%elem_of_range).
    cbn in *. exists k, pid, e. unfold score_at. by rewrite Hm.
  - intros (k & pid & e & He & ->). unfold score_at in He.
    destruct (boards b !! k) as [m|] eqn:Hm; [|done]. cbn in He.
    exists (k, m). split; [|by apply elem_of_range]. apply list_elem_of_bind. exists (pid, e).
    split; [by apply list_elem_of_singleton | by apply elem_of_range].
Qed.

(** After the boards are written out and a new process has loaded the file,
    every player has the same score and profile on every board, and the date of the best
    score cut to its second: nothing is lost and nothing appears. *)
Theorem board_survives_restart `{GoRange} b file b' k pid :
  boards_ok b -> boardFlush b = (Some file, b') ->
  score_at (boards (boardInit (Some file) no_boards)) k pid =
    (fun e => mkBoardEntry (be_PID e) (be_Score e) (be_Profile e) (unix (be_At e) * second_ns)) <$>
      score_at (boards b) k pid.
Proof.
  intros Hok Hf.
  assert (forall k pid e, score_at (boards b) k pid = Some e ->
    bk_Tournament k <> 0 /\ be_PID e = pid /\ entry_ok e) as Hgood.
  { intros k' pid' e He. unfold score_at in He. destruct (boards b !! k') as [m|] eqn:Hm; [|done].
    split; [apply (bo_tournament _ _ (Hok _ _ Hm))|]. by apply (bo_entries _ _ (Hok _ _ Hm)). }
  assert (Forall record_usable file) as Hus.
  { apply Forall_forall. intros p (k' & pid' & e & He & ->)%(elem_of_flush _ _ _ _ Hf).
    destruct (Hgood _ _ _ He) as (Ht & _ & _ & _ & Hl & _). done. }
  cbn. rewrite score_at_load by done.
  destruct (score_at (boards b) k pid) as [e|] eqn:He; cbn.
  - destruct (Hgood _ _ _ He) as (_ & Hp & _).
    rewrite (last_filter_unique _ _ (flushed k pid e)); [cbn; by rewrite Hp| | |].
    + apply (elem_of_flush _ _ _ _ Hf). by exists k, pid, e.
    + split; [by destruct k|done].
    + intros q (k' & pid' & e' & He' & ->)%(elem_of_flush _ _ _ _ Hf) [Hk Hpid].
      cbn in *. destruct k'; cbn in *. subst. by rewrite He in He'; simplify_eq.
  - destruct (last _) as [p|] eqn:El; [|done].
    apply last_Some_elem_of, list_elem_of_filter in El as [[Hk Hpid] Hin].
    apply (elem_of_flush _ _ _ _ Hf) in Hin as (k' & pid' & e' & He' & ->). cbn in *.
    destruct k'; cbn in *; subst. by rewrite He in He'.
Qed.

(** A record that cannot be used is passed over. *)
Lemma restore_usable m l : foldl restore_score m l = foldl restore_score m (filter record_usable l).
Proof.
  revert m. induction l as [|p l IH]; intros m; [done|]. rewrite filter_cons. cbn [foldl].
  case_decide as Hu; [apply IH|]. rewrite <- IH. f_equal. unfold restore_score.
  destruct (bool_decide_reflect (len (bp_Profile p) <> scoreProfileLen)) as [|Hl]; [done|].
  rewrite bool_decide_eq_true_2; [done|]. destruct (decide (bp_Tournament p = 0)); [done|].
  exfalso. apply Hu. split; [|done]. by destruct (decide (len (bp_Profile p) = scoreProfileLen)).
Qed.

Lemma no_category (r : GoRange) tour : boardCategoryFor r tour no_boards = 0.
Proof.
  unfold boardCategoryFor. destruct (List.find _ _) as [[k m]|] eqn:E; [|done].
  apply find_some in E as [Hin%list_elem_of_In%elem_of_range _]. done.
Qed.

(** [C37] The first request of a process for standings, before any result was submitted to
    it, loads the file, but looks the category up before: whatever else the file holds for
    the tournament, the answer is "no page", unless a usable record of the tournament has
    category 0. *)
Theorem first_standings_empty (r1 r2 r3 : GoRange) `{GoSort} file req :
  13 <= len (Body req) ->
  let reply := competitionRanking r1 r2 r3 (Some file) req no_boards in
  reply.2 = mkBoards (foldl restore_score ∅ file) true false /\
  ((forall p, p ∈ file -> record_usable p -> bp_Tournament p = le32_at (Body req) 5 -> bp_Category p <> 0) ->
   reply.1 = NewRMCSuccess ProtocolRanking (Method req) (CallID req) (StreamOut.U32 0)).
Proof.
  intros Hl reply. subst reply. unfold competitionRanking. rewrite bool_decide_eq_false_2 by lia.
  rewrite no_category. unfold boardFor. split; [by case_bool_decide|]. intros Hc.
  assert (board_at (mkBoardKey (le32_at (Body req) 5) 0) (boardInit (Some file) no_boards) = ∅) as ->.
  { apply map_eq. intros pid. rewrite lookup_empty.
    change (score_at (foldl restore_score ∅ file) (mkBoardKey (le32_at (Body req) 5) 0) pid = None).
    rewrite restore_usable, score_at_load by (apply Forall_forall; by intros p [? _]%list_elem_of_filter).
    destruct (last _) as [p|] eqn:El; [|done].
    apply last_Some_elem_of, list_elem_of_filter in El as [[Hk _] [Hu Hin]%list_elem_of_filter].
    injection Hk as Ht Hz. by destruct (Hc p Hin Hu Ht). }
  rewrite bool_decide_eq_true_2; [done|].
  pose proof (@rank_board_ok r2 _ ∅) as Hr. apply len_0_inv. by rewrite (rk_length _ _ (Hr ltac:(done))).
Qed.

(** ** Concrete boards *)
Definition sample_body (tour cat score name : Z) : bytes :=
  replicate 5 0 ++ StreamOut.U32 tour ++ StreamOut.U32 cat ++ replicate 4 0 ++ StreamOut.U32 score ++
  replicate 6 0 ++ StreamOut.U16 scoreProfileLen ++ replicate 132 name.

Definition sample_request (tour : Z) : RMCMessage :=
  NewRMCRequest ProtocolRanking 0x10 7 (replicate 5 0 ++ StreamOut.U32 tour ++ replicate 4 0).

Definition sample_history : list submission :=
  [mkSubmission 1800000001 (sample_body 85 393 40 1) (1787343209 * second_ns);
   mkSubmission 1800000002 (sample_body 85 393 60 2) (1787343210 * second_ns);
   mkSubmission 1800000001 (sample_body 85 393 55 3) (1787343211 * second_ns);
   mkSubmission 1800000001 (sample_body 85 393 50 4) (1787343212 * second_ns)].

Example sample_standing :
  board_at (mkBoardKey 85 393) (submit_all sample_history no_boards) !! 1800000001 =
    Some (mkBoardEntry 1800000001 55 (replicate 132 4) (1787343211 * second_ns)).
Proof. by vm_compute. Qed.

Lemma sample_history_ok : Forall submission_ok sample_history.
Proof.
  assert (forall a b c, 0 <= c < 256 -> Forall is_byte (sample_body 85 a b c)) as Hb.
  { intros a b c Hc. unfold sample_body. rewrite !Forall_app.
    split_and!; try apply le_bytes_range; by apply Forall_replicate. }
  unfold sample_history. rewrite !Forall_cons, Forall_nil.
  split_and!; try done; unfold submission_ok; cbn [su_pid su_body]; (split; [by unfold is_uint|split; [by apply Hb|done]]).
Qed.

Lemma results_nonempty k pid h : results k pid h <> [] ->
  exists s score profile, s ∈ h /\
    parseScoreSubmission (su_body s) = Some (bk_Tournament k, bk_Category k, score, profile).
Proof.
  unfold results. intros Hne. destruct (omap _ h) as [|x l] eqn:E; [done|].
  assert (x ∈ omap (result_of k pid) h) as (s & Hin & Hr)%list_elem_of_omap
    by (rewrite E; apply elem_of_cons; by left).
  unfold result_of in Hr. exists s.
  destruct (parseScoreSubmission (su_body s)) as [[[[t c] score] profile]|]; [|done].
  exists score, profile. split; [done|].
  destruct (bool_decide_reflect (mkBoardKey t c = k)) as [<-|]; [done|]. by rewrite andb_false_r in Hr.
Qed.

Lemma competition_page_witness :
  let b := submit_all sample_history no_boards in
  exists entries body,
    (@competitionRanking canonical_range canonical_range canonical_range merge_slice None
       (sample_request 85) b).1 = NewRMCSuccess ProtocolRanking 0x10 7 body /\
    is_ranking (board_at (mkBoardKey 85 393) b) entries /\ entries <> [] /\
    read_board body = (393, imap row_of entries, len entries).
Proof.
  intros b.
  destruct (@competition_page canonical_range canonical_range canonical_range merge_slice None (sample_request 85) b
    (submit_all_ok _ sample_history_ok) ltac:(vm_compute; reflexivity) ltac:(vm_compute; discriminate))
    as (_ & _ & Hpage).
  destruct Hpage as (cat & heading & entries & body & Hr & Hcat & Hh & Hu & Hrk & Hne & Hread & _).
  { exists 393. vm_compute. eexists. reflexivity. }
  assert (forall c, is_Some (boards b !! mkBoardKey 85 c) -> c = 393) as Hone.
  { intros c [m Hm]. assert (map_Forall (fun k _ => bk_Category k = 393) (boards b)) as Hall
      by (apply (bool_decide_unpack _); vm_compute; exact I).
    exact (Hall _ _ Hm). }
  assert (cat = 393) as -> by (apply Hone; exact Hcat).
  assert (heading = 393) as -> by (apply Hone; exact Hh).
  exists entries, body. split; [exact Hr|]. split; [exact Hrk|]. split; [exact Hne|exact Hread].
Defined.

Lemma board_survives_restart_witness :
  exists file b',
    @boardFlush canonical_range (submit_all sample_history no_boards) = (Some file, b') /\
    score_at (boards (boardInit (Some file) no_boards)) (mkBoardKey 85 393) 1800000001 =
      Some (mkBoardEntry 1800000001 55 (replicate 132 4) (1787343211 * second_ns)).
Proof.
  pose proof (@board_survives_restart canonical_range (submit_all sample_history no_boards)) as Hr.
  destruct (@boardFlush canonical_range (submit_all sample_history no_boards)) as [[file|] b'] eqn:E.
  - exists file, b'. split; [reflexivity|].
    specialize (Hr file b' (mkBoardKey 85 393) 1800000001
      (submit_all_ok _ sample_history_ok) eq_refl).
    rewrite Hr. vm_compute. reflexivity.
  - exfalso. vm_compute in E. discriminate E.
Defined.

Lemma first_standings_empty_witness :
  (@competitionRanking canonical_range canonical_range canonical_range merge_slice
    (Some [mkBoardPersisted 85 393 1800000001 55 (replicate 132 4) 1787343211]) (sample_request 85)
    no_boards).1 = NewRMCSuccess ProtocolRanking 0x10 7 (StreamOut.U32 0).
Proof.
  refine (proj2 (@first_standings_empty canonical_range canonical_range canonical_range merge_slice
    [mkBoardPersisted 85 393 1800000001 55 (replicate 132 4) 1787343211] (sample_request 85) _) _);
    [vm_compute; discriminate|]. intros p ->%list_elem_of_singleton _ _. discriminate.
Defined.

(** The opposite iteration order. *)
Definition reversed_range : GoRange :=
  {| range := fun K V _ _ m => reverse (map_to_list m);
     range_perm := fun K V _ _ m => reverse_Permutation (map_to_list m) |}.

(** A tournament with results in two categories: one request may announce one
    category and list the players of the other, because the category is looked up twice
    and each lookup iterates the map in an order of its own. *)
Theorem standings_under_other_category :
  exists (r1 r2 r3 : GoRange) h req c1 c2 rows total body,
    c1 <> c2 /\
    (@competitionRanking r1 r2 r3 merge_slice None req (submit_all h no_boards)).1 =
      NewRMCSuccess ProtocolRanking (Method req) (CallID req) body /\
    read_board body = (c1, rows, total) /\
    rw_pid <$> rows = (map_to_list (board_at (mkBoardKey 85 c2) (submit_all h no_boards))).*1 /\
    Forall (fun r => board_at (mkBoardKey 85 c1) (submit_all h no_boards) !! rw_pid r = None) rows.
Proof.
  exists canonical_range, canonical_range, reversed_range,
    [mkSubmission 1 (sample_body 85 393 40 1) 0; mkSubmission 2 (sample_body 85 394 60 2) 0],
    (sample_request 85).
  match goal with |- exists c1 c2 rows total body, _ /\ (competitionRanking _ _ _ _ ?req ?b).1 = _ /\ _ =>
    let r := eval vm_compute in
      (Body (@competitionRanking canonical_range canonical_range reversed_range merge_slice None req b).1) in
    let d := eval vm_compute in (read_board r) in
    match d with (?c1, ?rows, ?total) => exists c1, (787 - c1), rows, total, r end
  end.
  split_and!; [done|by vm_compute|by vm_compute|by vm_compute|].
  repeat constructor; by vm_compute.
Qed.
