(* ===== verification/Ranking.v ===== *)
(** * Player profiles and the ranking protocol (nextendo-nex/ranking.go)

    The store of the profile each player last published, its file, the submitted results
    kept for analysis, and the handler of the protocol.  A file is the decoded JSON object;
    its keys are decimal account numbers and its values base64. *)

From S2P Require Import Prelude GoStd GoTime Settings Stream Types Rmc Base64.
From S2P Require Import Tournament RankingBoard.
Import GoStrings GoStrconv Base64.

Definition MethodUploadCommonData : Z := 0x4.
Definition methodRankingGetCompetitionInfo : Z := 0x12.
Definition methodRankingCompetitionRanking : Z := 0x10.
Definition methodRankingCommonDataByPIDs : Z := 0x16.
Definition methodRankingSubmitScore : Z := 0x11.
Definition methodRankingSubmitTime : Z := 0x13.
Definition commonDataMaxLen : Z := 4096.
Definition commonDataMaxEntries : Z := 256.
Definition commonDataMaxStored : Z := 50000.

(** The package's variables. *)
Record Profiles := mkProfiles {
  commonDataStore : gmap Z bytes;
  commonDataOnce : bool;
  commonDataDirty : bool;
  scoresStore : gmap gostring bytes
}.
Definition no_profiles : Profiles := mkProfiles ∅ false false ∅.
Definition with_store (m : gmap Z bytes) (p : Profiles) : Profiles :=
  mkProfiles m (commonDataOnce p) (commonDataDirty p) (scoresStore p).

(** [fmt.Sscanf(k, "%d", &pid)]: ASCII space is skipped, a line break is an error, and
    what follows the digits is ignored. *)
Fixpoint skip_scan_space (s : gostring) : option gostring :=
  match s with
  | [] => Some []
  | b :: s' =>
      if bool_decide (b = 10) then None
      else if is_space b then skip_scan_space s' else Some s
  end.
Fixpoint leading_digits (s : gostring) : gostring :=
  match s with
  | b :: s => if is_digit b then b :: leading_digits s else []
  | [] => []
  end.
Definition scan_uint (k : gostring) : option Z :=
  s ← skip_scan_space k;
  match parse_uint (leading_digits s) with NumOk n => Some n | _ => None end.

Definition load_profile (m : gmap Z bytes) (kv : gostring * gostring) : gmap Z bytes :=
  match scan_uint kv.1, DecodeString StdEncoding kv.2 with
  | Some pid, Some blob =>
      if bool_decide (len blob = 0) || bool_decide (commonDataMaxLen < len blob) then m
      else <[pid := blob]> m
  | _, _ => m
  end.

Definition loadCommonData `{GoRange} (file : gmap gostring gostring) (m : gmap Z bytes) : gmap Z bytes :=
  foldl load_profile m (range file).

(** [file]: [None] when no file is configured or it cannot be read or decoded. *)
Definition commonDataInit `{GoRange} (file : option (gmap gostring gostring)) (p : Profiles) : Profiles :=
  if commonDataOnce p then p
  else mkProfiles (match file with Some f => loadCommonData f (commonDataStore p)
                   | None => commonDataStore p end)
         true (commonDataDirty p) (scoresStore p).

Definition write_profile (out : gmap gostring gostring) (kv : Z * bytes) : gmap gostring gostring :=
  if bool_decide (Z.of_nat (size out) < commonDataMaxStored)
  then <[utoa kv.1 := EncodeToString StdEncoding kv.2]> out else out.
Definition writeCommonData `{GoRange} (m : gmap Z bytes) : gmap gostring gostring :=
  foldl write_profile ∅ (range m).

(** A tick of the flusher: the file it writes, if any. *)
Definition commonDataFlush `{GoRange} (p : Profiles) : option (gmap gostring gostring) * Profiles :=
  if commonDataDirty p
  then (Some (writeCommonData (commonDataStore p)),
        mkProfiles (commonDataStore p) (commonDataOnce p) false (scoresStore p))
  else (None, p).

Section Ranking.
Context `{GoRange} (file : option (gmap gostring gostring)).

Definition PutCommonData (pid : Z) (blob : bytes) (p : Profiles) : Profiles :=
  if bool_decide (len blob = 0) || bool_decide (commonDataMaxLen < len blob) then p
  else
    let p := commonDataInit file p in
    mkProfiles (<[pid := blob]> (commonDataStore p)) (commonDataOnce p) true (scoresStore p).

(** [[]] is nil. *)
Definition CommonData (pid : Z) (p : Profiles) : bytes * Profiles :=
  let p := commonDataInit file p in (default [] (commonDataStore p !! pid), p).

Definition ForgetCommonData (pid : Z) (p : Profiles) : Profiles :=
  with_store (delete pid (commonDataStore p)) p.

Definition rankingReply (req : RMCMessage) (body : bytes) : RMCMessage :=
  NewRMCSuccess ProtocolRanking (Method req) (CallID req) body.

Definition uploadCommonData (pid : Z) (req : RMCMessage) (p : Profiles) : RMCMessage * Profiles :=
  let '(blob, st) := StreamInOps.Buffer (NewStreamIn (Body req)) in
  (rankingReply req [], if si_err st then p else PutCommonData pid blob p).

(** The loop over the asked accounts: the entries written, or [None] when the request
    runs short. *)
Fixpoint profile_entries (s : Settings) (n : nat) (st : StreamIn) (p : Profiles)
    : option bytes * Profiles :=
  match n with
  | O => (Some [], p)
  | S n =>
      let '(pid, st) := StreamInOps.PID s st in
      if si_err st then (None, p)
      else
        let '(blob, p) := CommonData pid p in
        let '(rest, p) := profile_entries s n st p in
        ((fun r => StreamOut.QBuffer blob ++ r) <$> rest, p)
  end.

Definition commonDataByPIDs (s : Settings) (req : RMCMessage) (p : Profiles)
    : RMCMessage * Profiles :=
  let vide := rankingReply req (StreamOut.U32 0) in
  if bool_decide (len (Body req) < 4) then (vide, p)
  else
    let '(count, st) := StreamInOps.U32 (NewStreamIn (Body req)) in
    if si_err st || bool_decide (count = 0) || bool_decide (commonDataMaxEntries < count) then (vide, p)
    else
      let '(entries, p) := profile_entries s (Z.to_nat count) st p in
      match entries with
      | None => (vide, p)
      | Some l =>
          let body := StreamOut.U32 count ++ l in
          (rankingReply req (StreamOut.U8 0 ++ StreamOut.U32 (u32 (len body)) ++ body), p)
      end.

Definition score_key (pid method : Z) : gostring := utoa pid ++ 47 :: utoa method.
Definition keepSubmittedScore (pid method : Z) (body : bytes) (p : Profiles) : Profiles :=
  if bool_decide (len body = 0) || bool_decide (commonDataMaxLen < len body) then p
  else mkProfiles (commonDataStore p) (commonDataOnce p) (commonDataDirty p)
         (<[score_key pid method := body]> (scoresStore p)).
Definition SubmittedScore (pid method : Z) (p : Profiles) : bytes :=
  default [] (scoresStore p !! score_key pid method).

(** [r1], [r2], [r3] and the sort are those of the standings, [bfile] their file, [now]
    the clock. *)
Definition RankingHandler (s : Settings) (r1 r2 r3 : GoRange) `{GoSort}
    (bfile : option (list boardPersisted)) (now : Z) (ts : tournamentStore) (pid : Z)
    (req : RMCMessage) (p : Profiles) (b : Boards) : RMCMessage * Profiles * Boards :=
  let meth m := bool_decide (Method req = m) in
  if meth MethodUploadCommonData then
    let '(r, p) := uploadCommonData pid req p in (r, p, b)
  else if meth methodRankingCommonDataByPIDs then
    let '(r, p) := commonDataByPIDs s req p in (r, p, b)
  else if meth methodRankingGetCompetitionInfo then (rankingReply req (TournamentSummaries ts), p, b)
  else if meth methodRankingCompetitionRanking then
    let '(r, b) := competitionRanking r1 r2 r3 bfile req b in (r, p, b)
  else if meth methodRankingSubmitScore || meth methodRankingSubmitTime then
    (rankingReply req [0], keepSubmittedScore pid (Method req) (Body req) p,
     if meth methodRankingSubmitScore then (recordScore bfile now pid (Body req) b).2 else b)
  else (notImplemented ProtocolRanking req, p, b).

End Ranking.

(** ** Profiles as the players publish and read them *)

(** The profile an upload publishes, if it is acceptable. *)
Definition upload_blob (body : bytes) : option bytes :=
  let '(blob, st) := StreamInOps.Buffer (NewStreamIn body) in
  if si_err st || bool_decide (len blob = 0) || bool_decide (commonDataMaxLen < len blob) then None
  else Some blob.

(** A sequence of uploads: account and request. *)
Definition upload_all `{GoRange} (h : list (Z * RMCMessage)) (p : Profiles) : Profiles :=
  foldl (fun p u => (uploadCommonData None u.1 u.2 p).2) p h.

(** What [pid] published last. *)
Definition published (h : list (Z * RMCMessage)) (pid : Z) : option bytes :=
  last (omap (fun u => if bool_decide (u.1 = pid) then upload_blob (Body u.2) else None) h).

Lemma init_none_store `{GoRange} p : commonDataStore (commonDataInit None p) = commonDataStore p.
Proof. unfold commonDataInit. by destruct (commonDataOnce p). Qed.

Lemma upload_store `{GoRange} pid req p :
  commonDataStore (uploadCommonData None pid req p).2 =
    match upload_blob (Body req) with
    | Some blob => <[pid := blob]> (commonDataStore p)
    | None => commonDataStore p
    end.
Proof.
  unfold uploadCommonData, upload_blob.
  destruct (StreamInOps.Buffer (NewStreamIn (Body req))) as [blob st]. cbn [snd].
  destruct (si_err st); [done|]. cbn [orb]. unfold PutCommonData.
  destruct (bool_decide (len blob = 0) || bool_decide (commonDataMaxLen < len blob)); [done|].
  cbn. by rewrite init_none_store.
Qed.

Lemma upload_all_store `{GoRange} h pid :
  commonDataStore (upload_all h no_profiles) !! pid = published h pid.
Proof.
  induction h as [|u h IH] using rev_ind; [done|].
  unfold upload_all, published in *. rewrite foldl_app, omap_app. cbn [foldl omap list_omap].
  rewrite upload_store. destruct (bool_decide_reflect (u.1 = pid)) as [Hp|Hp].
  - destruct (upload_blob (Body u.2)) as [blob|]; [|by rewrite app_nil_r].
    rewrite last_snoc, Hp. by rewrite lookup_insert_eq.
  - rewrite app_nil_r. destruct (upload_blob (Body u.2)) as [blob|]; [|done].
    by rewrite lookup_insert_ne.
Qed.

Lemma upload_blob_len body blob : upload_blob body = Some blob -> 0 < len blob <= commonDataMaxLen.
Proof.
  unfold upload_blob. destruct (StreamInOps.Buffer (NewStreamIn body)) as [b st].
  destruct (_ || _) eqn:E; [done|]. intros [= <-]. destruct_bool_decide. pose proof (len_nonneg b). lia.
Qed.

Lemma published_len h pid blob : published h pid = Some blob -> 0 < len blob <= commonDataMaxLen.
Proof.
  unfold published. intros (u & _ & Hu)%last_Some_elem_of%list_elem_of_omap.
  case_bool_decide; [|done]. by eapply upload_blob_len.
Qed.

(** The answer of [commonDataByPIDs] as the game reads it. *)
Definition read_profiles (body : bytes) : list bytes :=
  let '(sub, _) := (_v <-- StreamInOps.U8 ;; StreamInOps.Substream)%reader (NewStreamIn body) in
  (StreamInOps.ReadList StreamInOps.QBuffer sub).1.

Lemma profile_entries_spec `{GoRange} s pids p rest :
  Forall (is_pid s) pids ->
  exists p', profile_entries None s (length pids)
      (NewStreamIn (concat (StreamOut.PID s <$> pids) ++ rest)) p =
    (Some (concat ((fun pid => StreamOut.QBuffer (default [] (commonDataStore p !! pid))) <$> pids)), p').
Proof.
  revert p. induction pids as [|pid pids IH]; intros p Hall; [by exists p|].
  apply Forall_cons in Hall as [Hp Hall]. cbn [length profile_entries fmap list_fmap concat].
  rewrite <- app_assoc, (decodes_PID s pid Hp). cbn [si_err NewStreamIn]. unfold CommonData.
  destruct (IH (commonDataInit None p) Hall) as [p' E]. rewrite init_none_store in E.
  change (mkStreamIn ?x false) with (NewStreamIn x). rewrite E.
  exists p'. cbn. by rewrite init_none_store.
Qed.

(** A list of profiles written under its envelope is read back. *)
Lemma read_profiles_written blobs :
  len blobs <= 256 -> Forall (fun b => len b <= 4096) blobs ->
  read_profiles (StreamOut.U8 0 ++ StreamOut.Buffer (StreamOut.WriteList blobs StreamOut.QBuffer)) = blobs.
Proof.
  intros Hlen Hbl.
  assert (len (StreamOut.WriteList blobs StreamOut.QBuffer) < 2 ^ 32) as Hsmall.
  { unfold StreamOut.WriteList. rewrite len_app, len_U32.
    assert (len (concat (StreamOut.QBuffer <$> blobs)) <= 4098 * len blobs); [|lia]. clear Hlen.
    induction Hbl as [|b l Hb' Hl IH]; [done|]. cbn [fmap list_fmap concat].
    rewrite len_app, len_QBuffer, len_cons. lia. }
  assert (decodes (_v <-- StreamInOps.U8 ;; StreamInOps.Substream)%reader
    (StreamOut.U8 0 ++ StreamOut.Buffer (StreamOut.WriteList blobs StreamOut.QBuffer))
    (NewStreamIn (StreamOut.WriteList blobs StreamOut.QBuffer))) as Hd.
  { eapply decodes_bind; [by apply decodes_U8|]. by apply decodes_bind_ret, decodes_Buffer. }
  unfold read_profiles. specialize (Hd []). rewrite app_nil_r in Hd. rewrite Hd.
  assert (decodes (StreamInOps.ReadList StreamInOps.QBuffer)
    (StreamOut.WriteList blobs StreamOut.QBuffer) blobs) as Hr.
  { apply decodes_ReadList; [lia|]. eapply Forall_impl; [done|]. cbn. intros b Hb'.
    split; [apply decodes_QBuffer; lia|]. rewrite len_QBuffer. pose proof (len_nonneg b). lia. }
  specialize (Hr []). rewrite app_nil_r in Hr. by rewrite Hr.
Qed.

(** After any sequence of uploads, the answer to a request for up to 256
    accounts lists, in the order asked, the profile each account published last -- an
    empty one for an account that published none, and no upload of a wrong size ever
    replaces a profile. *)
Theorem profiles_in_order `{GoRange} s h req pids rest :
  1 <= len pids <= 256 -> Forall (is_pid s) pids ->
  Body req = StreamOut.U32 (len pids) ++ concat (StreamOut.PID s <$> pids) ++ rest ->
  exists body,
    (commonDataByPIDs None s req (upload_all h no_profiles)).1 = rankingReply req body /\
    read_profiles body = (fun pid => default [] (published h pid)) <$> pids.
Proof.
  intros Hlen Hpids Hb. unfold commonDataByPIDs. set (p := upload_all h no_profiles).
  rewrite bool_decide_eq_false_2 by
    (rewrite Hb, len_app, len_U32; pose proof (len_nonneg (concat (StreamOut.PID s <$> pids) ++ rest)); lia).
  rewrite Hb, decodes_U32 by (unfold is_uint; lia). cbn [si_err NewStreamIn orb].
  rewrite !bool_decide_eq_false_2 by (unfold commonDataMaxEntries; lia). cbn [orb].
  unfold len at 1. rewrite Nat2Z.id.
  destruct (profile_entries_spec s pids p rest Hpids) as [p' E].
  change (mkStreamIn ?x false) with (NewStreamIn x). rewrite E. cbn [fst].
  set (blobs := (fun pid => default [] (published h pid)) <$> pids).
  assert (StreamOut.U32 (len pids) ++
    concat ((fun pid => StreamOut.QBuffer (default [] (commonDataStore p !! pid))) <$> pids) =
    StreamOut.WriteList blobs StreamOut.QBuffer) as ->.
  { unfold StreamOut.WriteList, blobs. rewrite len_fmap. unfold u32. rewrite Z.mod_small by lia.
    f_equal. rewrite <- list_fmap_compose. f_equal. apply list_fmap_ext. intros _ pid _. cbn.
    unfold p. by rewrite upload_all_store. }
  eexists. split; [done|]. apply (read_profiles_written blobs); unfold blobs.
  - rewrite len_fmap. lia.
  - apply Forall_fmap, Forall_forall. intros pid _. cbn. destruct (published h pid) eqn:Ep; cbn; [|done].
    apply published_len in Ep. unfold commonDataMaxLen in Ep. lia.
Qed.

(** ** The file of profiles *)
Definition store_ok (m : gmap Z bytes) : Prop :=
  map_Forall (fun pid b => is_uint 64 pid /\ 0 < len b <= commonDataMaxLen /\ Forall is_byte b) m.

Lemma digits_are_digits f n : 0 <= n -> Forall (fun b => is_digit b = true) (digits f n).
Proof.
  revert n. induction f as [|f IH]; intros n Hn; [done|]. cbn [digits]. case_bool_decide.
  - apply Forall_singleton. apply is_digit_spec. lia.
  - apply Forall_app. split; [apply IH, Z.div_pos; lia|]. apply Forall_singleton, is_digit_spec.
    pose proof (Z.mod_pos_bound n 10). lia.
Qed.

Lemma scan_uint_utoa pid : is_uint 64 pid -> scan_uint (utoa pid) = Some pid.
Proof.
  intros Hp. unfold scan_uint. pose proof (digits_are_digits 20 pid (proj1 Hp)) as Hd.
  fold (utoa pid) in Hd.
  assert (leading_digits (utoa pid) = utoa pid) as Hl.
  { revert Hd. clear. induction (utoa pid) as [|b l IH]; [done|].
    intros [Hb Hl]%Forall_cons. cbn. by rewrite Hb, IH. }
  assert (skip_scan_space (utoa pid) = Some (utoa pid)) as Hs.
  { revert Hd. clear. destruct (utoa pid) as [|b l]; [done|]. intros [Hb _]%Forall_cons. cbn [skip_scan_space].
    unfold is_digit in Hb. destruct_bool_decide. rewrite bool_decide_eq_false_2 by lia.
    unfold is_space. rewrite (bool_decide_eq_false_2 (b = 32)), (bool_decide_eq_false_2 (b <= 13)) by lia.
    by rewrite andb_false_r. }
  rewrite Hs. cbn [mbind option_bind]. rewrite Hl. by rewrite parse_uint_utoa.
Qed.

Definition profile_line (kv : Z * bytes) : gostring * gostring :=
  (utoa kv.1, EncodeToString StdEncoding kv.2).

Lemma load_line m kv :
  is_uint 64 kv.1 -> 0 < len kv.2 <= commonDataMaxLen -> Forall is_byte kv.2 ->
  load_profile m (profile_line kv) = <[kv.1 := kv.2]> m.
Proof.
  intros Hp Hl Hb. unfold load_profile, profile_line. cbn [fst snd].
  rewrite scan_uint_utoa, decode_encode by (done || by left).
  by rewrite !bool_decide_eq_false_2 by lia.
Qed.

(** While there is room every line is written. *)
Lemma write_all l out :
  Z.of_nat (size out) + len l <= commonDataMaxStored ->
  foldl write_profile out l = foldl (fun m kv => <[kv.1 := kv.2]> m) out (profile_line <$> l).
Proof.
  revert out. induction l as [|kv l IH]; intros out Hs; [done|]. cbn [foldl fmap list_fmap].
  rewrite len_cons in Hs. pose proof (len_nonneg l).
  unfold write_profile at 2. rewrite bool_decide_eq_true_2 by lia. apply IH.
  rewrite map_size_insert. case_match; unfold id; lia.
Qed.

Lemma profile_line_nodup l :
  Forall (fun kv : Z * bytes => is_uint 64 kv.1) l -> NoDup l.*1 -> NoDup (profile_line <$> l).*1.
Proof.
  intros Hu Hnd. induction Hu as [|kv l Hk Hu IH]; [constructor|]. cbn [fmap list_fmap] in *.
  apply NoDup_cons in Hnd as [Hni Hnd]. constructor; [|by apply IH].
  rewrite <- list_fmap_compose. intros (kv' & E & Hin)%list_elem_of_fmap.
  change (utoa kv.1 = utoa kv'.1) in E.
  apply Hni. apply list_elem_of_fmap. exists kv'. split; [|done].
  rewrite Forall_forall in Hu. pose proof (parse_uint_utoa _ Hk) as H1.
  rewrite E, (parse_uint_utoa _ (Hu _ Hin)) in H1. by injection H1.
Qed.

(** Up to fifty thousand profiles survive a restart: what the flusher wrote,
    loaded by a new process, is the table that was written, in whatever order either
    iterates. *)
Theorem profiles_survive_restart (r1 r2 : GoRange) m :
  store_ok m -> Z.of_nat (size m) <= commonDataMaxStored ->
  @loadCommonData r2 (@writeCommonData r1 m) ∅ = m.
Proof.
  intros Hm Hs. unfold loadCommonData, writeCommonData.
  set (l := @range r1 _ _ _ _ m).
  assert (l ≡ₚ map_to_list m) as Hp by apply range_perm.
  assert (Forall (fun kv => is_uint 64 kv.1 /\ 0 < len kv.2 <= commonDataMaxLen /\ Forall is_byte kv.2) l)
    as Hl.
  { apply Forall_forall. intros [pid b] Hin. rewrite Hp in Hin.
    apply elem_of_map_to_list in Hin. by apply (Hm pid b). }
  rewrite write_all by (unfold len; rewrite Hp, length_map_to_list, map_size_empty; lia).
  rewrite foldl_insert_list.
  2:{ apply profile_line_nodup; [by eapply Forall_impl; [done|]; intros ? [? _]|].
      rewrite Hp. apply NoDup_fst_map_to_list. }
  set (f := list_to_map _ : gmap gostring gostring).
  assert (@range r2 _ _ _ _ f ≡ₚ profile_line <$> l) as Hf.
  { rewrite range_perm. apply map_to_list_to_map. apply profile_line_nodup.
    - by eapply Forall_impl; [done|]; intros ? [? _].
    - rewrite Hp. apply NoDup_fst_map_to_list. }
  apply Permutation_map_inv in Hf as (l' & E & Hl'). rewrite E.
  assert (foldl load_profile ∅ (profile_line <$> l') = foldl (fun m kv => <[kv.1 := kv.2]> m) ∅ l') as Hload.
  { assert (Forall (fun kv => is_uint 64 kv.1 /\ 0 < len kv.2 <= commonDataMaxLen /\ Forall is_byte kv.2) l')
      as Hg by (by rewrite <- Hl'). clear -Hg. generalize (∅ : gmap Z bytes).
    induction Hg as [|kv l' (? & ? & ?) Hg IH]; intros m0; [done|]. cbn [fmap list_fmap foldl].
    by rewrite load_line. }
  change (map profile_line l') with (profile_line <$> l'). rewrite Hload.
  apply foldl_insert_perm. by rewrite <- Hl', Hp.
Qed.

Definition sample_uploads : list (Z * RMCMessage) :=
  [(1800000001, NewRMCRequest ProtocolRanking MethodUploadCommonData 1 (StreamOut.Buffer [82; 70; 0; 0; 1]));
   (1800000002, NewRMCRequest ProtocolRanking MethodUploadCommonData 1 (StreamOut.Buffer [82; 70; 0; 0; 2]));
   (1800000001, NewRMCRequest ProtocolRanking MethodUploadCommonData 2 (StreamOut.Buffer []))].

Lemma profiles_in_order_witness :
  let s := NewSwitchSettings (str "09c1c475") 40000 in
  let req := NewRMCRequest ProtocolRanking methodRankingCommonDataByPIDs 3
    (StreamOut.U32 3 ++ concat (StreamOut.PID s <$> [1800000002; 5; 1800000001]) ++ []) in
  exists body,
    (@commonDataByPIDs canonical_range None s req (@upload_all canonical_range sample_uploads no_profiles)).1 =
      rankingReply req body /\
    read_profiles body = [[82; 70; 0; 0; 2]; []; [82; 70; 0; 0; 1]].
Proof.
  intros s req.
  destruct (@profiles_in_order canonical_range s sample_uploads req [1800000002; 5; 1800000001] [])
    as (body & H1 & H2).
  - vm_compute. split; discriminate.
  - repeat constructor; vm_compute; (reflexivity || discriminate).
  - reflexivity.
  - exists body. split; [exact H1|]. rewrite H2. vm_compute. reflexivity.
Defined.

Lemma profiles_survive_restart_witness :
  @loadCommonData canonical_range
    (@writeCommonData reversed_range {[1800000001 := [82; 70]; 1800000002 := [1]]}) ∅ =
  {[1800000001 := [82; 70]; 1800000002 := [1]]}.
Proof.
  apply profiles_survive_restart; [|vm_compute; discriminate].
  apply (bool_decide_unpack _). vm_compute. exact I.
Defined.
