(* ===== verification/Persistence.v ===== *)
(** * Files behind the tables (the flushers of ranking.go, ranking_board.go, tournament.go)

    The profile table, the competition boards and the tournaments are each written to a
    file by a goroutine of the same shape: a mark says that the table has changed; every
    few seconds the goroutine takes the mark back, collects the table, writes a temporary
    file and renames it over the file.  The class [Durable] states what the goroutine
    relies on; its steps are interleaved with the operations of the table, whose mark may
    come after the change it announces.  Writing and renaming can fail. *)

From S2P Require Import Prelude GoStd GoNet GoTime Base64 Settings Stream Types Rmc.
From S2P Require Import Tournament TournamentProps RankingBoard Ranking.
Import GoTime.

(** A table [St] with its mark, and the image [Img] of it that a file holds. *)
Class Durable (St Img : Type) := {
  image : St -> Img;
  marked : St -> bool;
  mark : bool -> St -> St;
  client : St -> St -> Prop;
  image_mark : forall b s, image (mark b s) = image s;
  marked_mark : forall b s, marked (mark b s) = b;
  client_marks : forall s s', client s s' -> image s' = image s \/ marked s' = true
}.

(** ** The goroutine *)
Section Flusher.
Context `{Durable St Img}.

(** [clean]: nothing has changed since the mark was taken back. *)
Inductive stage :=
  | Idle
  | Collecting (clean : bool)
  | Writing (i : Img) (clean : bool)
  | Renaming (i : Img) (clean : bool).

(** [fs_owed]: operations that have changed the table and not yet set the mark.
    [fs_tmp], [fs_file]: the contents of the two files, [None] when there is none or it
    was only written in part.  [fs_failed]: the last attempt failed. *)
Record flushing := mkFlushing {
  fs_store : St;
  fs_owed : nat;
  fs_stage : stage;
  fs_tmp : option Img;
  fs_file : option Img;
  fs_failed : bool
}.

Definition soil (sg : stage) : stage :=
  match sg with
  | Idle => Idle
  | Collecting _ => Collecting false
  | Writing i _ => Writing i false
  | Renaming i _ => Renaming i false
  end.

(** The steps of the goroutine. *)
Inductive flusher_step : flushing -> flushing -> Prop :=
  | fl_take st : fs_stage st = Idle -> marked (fs_store st) = true ->
      flusher_step st (mkFlushing (mark false (fs_store st)) (fs_owed st) (Collecting true)
        (fs_tmp st) (fs_file st) (fs_failed st))
  | fl_collect st i clean : fs_stage st = Collecting clean -> (clean = true -> i = image (fs_store st)) ->
      flusher_step st (mkFlushing (fs_store st) (fs_owed st) (Writing i clean) (fs_tmp st) (fs_file st) (fs_failed st))
  | fl_write st i clean : fs_stage st = Writing i clean ->
      flusher_step st (mkFlushing (fs_store st) (fs_owed st) (Renaming i clean) (Some i) (fs_file st) (fs_failed st))
  | fl_write_fails st i clean : fs_stage st = Writing i clean ->
      flusher_step st (mkFlushing (fs_store st) (fs_owed st) Idle None (fs_file st) true)
  | fl_rename st i clean : fs_stage st = Renaming i clean ->
      flusher_step st (mkFlushing (fs_store st) (fs_owed st) Idle None (fs_tmp st) false)
  | fl_rename_fails st i clean : fs_stage st = Renaming i clean ->
      flusher_step st (mkFlushing (fs_store st) (fs_owed st) Idle (fs_tmp st) (fs_file st) true).

(** An operation changes the table; it sets the mark then or later. *)
Inductive flush_step : flushing -> flushing -> Prop :=
  | fu_change st s' : client (fs_store st) s' ->
      flush_step st (mkFlushing (mark (marked (fs_store st)) s') (S (fs_owed st)) (soil (fs_stage st))
        (fs_tmp st) (fs_file st) (fs_failed st))
  | fu_mark st k : fs_owed st = S k ->
      flush_step st (mkFlushing (mark true (fs_store st)) k (fs_stage st) (fs_tmp st) (fs_file st) (fs_failed st))
  | fu_flusher st st' : flusher_step st st' -> flush_step st st'.

(** The table [s0] was loaded from the file, or there is none. *)
Definition flush_start (s0 : St) (f0 : option Img) : flushing := mkFlushing s0 0 Idle None f0 false.

(** Nothing is under way or owed. *)
Definition quiescent (st : flushing) : Prop :=
  fs_stage st = Idle /\ marked (fs_store st) = false /\ fs_owed st = 0%nat.

(** ** What the file holds *)

(** What the stages owe to the file; [up]: the file is up to date or was at the start. *)
Definition flush_inv (s0 : St) (f0 : option Img) (st : flushing) : Prop :=
  let up := fs_file st = Some (image (fs_store st)) \/
            (image (fs_store st) = image s0 /\ fs_file st = f0) in
  let due := marked (fs_store st) = true \/ fs_owed st <> 0%nat in
  match fs_stage st with
  | Idle => due \/ fs_failed st = true \/ up
  | Collecting clean => clean = true \/ due
  | Writing i clean => (clean = true /\ i = image (fs_store st)) \/ due
  | Renaming i clean => fs_tmp st = Some i /\ ((clean = true /\ i = image (fs_store st)) \/ due)
  end.

Lemma flusher_step_inv s0 f0 st st' : flusher_step st st' -> flush_inv s0 f0 st -> flush_inv s0 f0 st'.
Proof.
  unfold flush_inv. intros Hs.
  destruct Hs as [st Hg Hm|st i clean Hg Hi|st i clean Hg|st i clean Hg|st i clean Hg|st i clean Hg]; rewrite Hg; cbn.
  - intros _. by left.
  - intros [->|Hd]; [|by right]. left. split; [done|by apply Hi].
  - intros Hd. by split.
  - intros _. right. by left.
  - intros [Ht [[-> Hi]|Hd]]; [|by left]. right. right. left. by rewrite Ht, Hi.
  - intros _. right. by left.
Qed.

Lemma flush_step_inv s0 f0 st st' : flush_step st st' -> flush_inv s0 f0 st -> flush_inv s0 f0 st'.
Proof.
  intros [st1 s' Hc|st1 k Hk|st1 st2 Hs]; [| |by apply flusher_step_inv]; unfold flush_inv; cbn.
  - destruct (fs_stage st1) as [|c|i c|i c]; cbn; intros Hi; [left; by right|by right; right|by right; right|].
    split; [apply Hi|]. by right; right.
  - rewrite marked_mark. destruct (fs_stage st1) as [|c|i c|i c]; cbn; intros Hi; [by left; left|by right; left|by right; left|].
    split; [apply Hi|]. by right; left.
Qed.

Lemma flush_reachable s0 f0 st : rtc flush_step (flush_start s0 f0) st -> flush_inv s0 f0 st.
Proof.
  intros Hr. remember (flush_start s0 f0) as st0 eqn:E.
  assert (flush_inv s0 f0 st0) as Hi by (subst; right; right; by right).
  clear E. induction Hr; eauto using flush_step_inv.
Qed.

(** The goroutine has caught up: when nothing is under way and its last attempt did not
    fail, the file is the image of the table, or nothing has been changed since the start
    and the file is untouched. *)
Lemma caught_up s0 f0 st :
  rtc flush_step (flush_start s0 f0) st -> quiescent st -> fs_failed st = false ->
  fs_file st = Some (image (fs_store st)) \/ (image (fs_store st) = image s0 /\ fs_file st = f0).
Proof.
  intros Hr%flush_reachable (Hg & Hm & Ho) Hf. unfold flush_inv in Hr. rewrite Hg, Hm, Ho, Hf in Hr.
  destruct Hr as [[?|?]|[?|?]]; done.
Qed.

(** An interrupted write does not truncate the file: at every moment it is the file of the
    start or a whole image. *)
Lemma file_whole s0 f0 st :
  rtc flush_step (flush_start s0 f0) st -> fs_file st = f0 \/ is_Some (fs_file st).
Proof.
  intros Hr. remember (flush_start s0 f0) as st0 eqn:E.
  assert (flush_inv s0 f0 st0 /\ (fs_file st0 = f0 \/ is_Some (fs_file st0))) as Hi
    by (subst; split; [right; right; by right|by left]).
  clear E. induction Hr as [|x y z Hs _ IH]; [apply Hi|]. apply IH. destruct Hi as [Hi Hf].
  split; [by eapply flush_step_inv|]. destruct Hs as [| |st1 st2 Hs]; [done..|].
  destruct Hs as [| | | |st1 i clean Hg|]; [done..| |done]. right. unfold flush_inv in Hi. rewrite Hg in Hi.
  destruct Hi as [Ht _]. cbn. by rewrite Ht.
Qed.

(** What the operations preserve holds of the table whatever the goroutine does. *)
Lemma flush_preserves (P : St -> Prop) :
  (forall b s, P s -> P (mark b s)) -> (forall s s', client s s' -> P s -> P s') ->
  forall s0 f0 st, rtc flush_step (flush_start s0 f0) st -> P s0 -> P (fs_store st).
Proof.
  intros Hm Hc s0 f0 st Hr Hp. remember (flush_start s0 f0) as st0 eqn:E.
  assert (P (fs_store st0)) as Hi by by subst. clear E.
  induction Hr as [|x y z Hs _ IH]; [done|]. apply IH.
  destruct Hs as [st1 s' Hcl|st1 k Hk|st1 st2 Hs]; [apply Hm; by eapply Hc|by apply Hm|].
  destruct Hs; [by apply Hm|done..].
Qed.

(** One change, saved: the operation, its mark, and a round of the goroutine. *)
Definition saved (s1 : St) : flushing :=
  mkFlushing (mark false (mark true (mark false s1))) 0 Idle None (Some (image s1)) false.

Lemma change_is_saved s0 f0 s1 :
  marked s0 = false -> client s0 s1 -> rtc flush_step (flush_start s0 f0) (saved s1) /\ quiescent (saved s1).
Proof.
  intros Hm Hc. split; [|split; [done|split; [apply marked_mark|done]]].
  eapply rtc_l; [by apply fu_change|]. cbn. rewrite Hm. eapply rtc_l; [by apply fu_mark|]. cbn.
  eapply rtc_l; [apply fu_flusher, fl_take; [done|apply marked_mark]|]. cbn.
  eapply rtc_l; [apply fu_flusher, (fl_collect _ (image s1) true); [done|intros _; cbn; by rewrite !image_mark]|]. cbn.
  eapply rtc_l; [by eapply fu_flusher, fl_write|]. cbn.
  eapply rtc_l; [by eapply fu_flusher, fl_rename|]. done.
Qed.

(** ** Without further operations *)

(** The goroutine's own steps: each brings it nearer to rest. *)
Definition work (st : flushing) : nat :=
  (match fs_stage st with Idle => 0 | Collecting _ => 3 | Writing _ _ => 2 | Renaming _ _ => 1 end +
   if marked (fs_store st) then 4 else 0)%nat.

Lemma flusher_works st st' : flusher_step st st' -> (work st' < work st)%nat.
Proof.
  intros [st1 Hg Hm|st1 i clean Hg _|st1 i clean Hg|st1 i clean Hg|st1 i clean Hg|st1 i clean Hg];
    unfold work; cbn; rewrite ?marked_mark, ?Hm, Hg; lia.
Qed.

Lemma flusher_bound n st st' : nsteps flusher_step n st st' -> (n + work st' <= work st)%nat.
Proof. induction 1 as [|n x y z Hxy _ IH]; [lia|]. apply flusher_works in Hxy. lia. Qed.

Lemma work_bound st : (work st <= 7)%nat.
Proof. unfold work. destruct (fs_stage st), (marked (fs_store st)); lia. Qed.

(** What marks do not touch, it does not touch. *)
Lemma flusher_keeps {A} (f : St -> A) st st' :
  (forall b s, f (mark b s) = f s) -> rtc flusher_step st st' -> f (fs_store st') = f (fs_store st).
Proof. intros Hf. induction 1 as [|x y z Hxy _ IH]; [done|]. rewrite IH. by destruct Hxy; cbn. Qed.

Lemma flusher_owes st st' : rtc flusher_step st st' -> fs_owed st' = fs_owed st.
Proof. induction 1 as [|x y z Hxy _ IH]; [done|]. rewrite IH. by destruct Hxy. Qed.

(** It stops only at rest. *)
Lemma flusher_rests st :
  (forall st', ~ flusher_step st st') <-> fs_stage st = Idle /\ marked (fs_store st) = false.
Proof.
  split; [|by intros [Hg Hm] st' Hs; destruct Hs; congruence]. intros Hn.
  destruct (fs_stage st) as [|clean|i clean|i clean] eqn:Hg.
  - split; [done|]. destruct (marked (fs_store st)) eqn:Hm; [|done]. by destruct (Hn _ (fl_take _ Hg Hm)).
  - by destruct (Hn _ (fl_collect _ (image (fs_store st)) _ Hg (fun _ => eq_refl))).
  - by destruct (Hn _ (fl_write _ _ _ Hg)).
  - by destruct (Hn _ (fl_rename _ _ _ Hg)).
Qed.

(** Left alone, with writes that succeed, it comes to rest. *)
Lemma flusher_settles st :
  fs_failed st = false -> exists st', rtc flusher_step st st' /\ (forall st'', ~ flusher_step st' st'') /\ fs_failed st' = false.
Proof.
  remember (work st) as k eqn:Hk. revert st Hk. induction (lt_wf k) as [k _ IH]. intros st -> Hf.
  assert (forall st1, flusher_step st st1 -> fs_failed st1 = false ->
    exists st', rtc flusher_step st st' /\ (forall st'', ~ flusher_step st' st'') /\ fs_failed st' = false) as Hgo.
  { intros st1 Hs Hf1. destruct (IH _ (flusher_works _ _ Hs) st1 eq_refl Hf1) as (st' & Hr & Hx).
    exists st'. split; [by eapply rtc_l|done]. }
  destruct (fs_stage st) as [|clean|i clean|i clean] eqn:Hg.
  - destruct (marked (fs_store st)) eqn:Hm; [eapply Hgo; [by apply fl_take|done]|].
    exists st. split; [done|]. split; [|done]. by apply flusher_rests.
  - eapply Hgo; [by apply (fl_collect _ (image (fs_store st)) clean)|done].
  - eapply Hgo; [by eapply fl_write|done].
  - eapply Hgo; [by eapply fl_rename|done].
Qed.

(** Without further operations on the table the goroutine does nothing. *)
Lemma quiescent_stuck st st' : quiescent st -> rtc flusher_step st st' -> st' = st.
Proof.
  intros Hq Hr. destruct Hr as [|st1 st2 st3 Hs _]; [done|]. destruct Hq as (Hg & Hm & _).
  destruct Hs; congruence.
Qed.
End Flusher.
Arguments flushing : clear implicits.

(** ** The three tables *)

(** Reading does not change a table that has been loaded. *)
Lemma init_again `{GoRange} file p : commonDataOnce p = true -> commonDataInit file p = p.
Proof. intros Hp. unfold commonDataInit. by rewrite Hp. Qed.

Lemma entries_again `{GoRange} file s n st p : commonDataOnce p = true -> (profile_entries file s n st p).2 = p.
Proof.
  intros Hp. revert st. induction n as [|n IH]; intros st; [done|]. cbn [profile_entries].
  destruct (StreamInOps.PID s st) as [pid st']. destruct (si_err st'); [done|].
  unfold CommonData. rewrite init_again by done. specialize (IH st').
  by destruct (profile_entries file s n st' p).
Qed.

Lemma by_pids_again `{GoRange} file s req p : commonDataOnce p = true -> (commonDataByPIDs file s req p).2 = p.
Proof.
  intros Hp. unfold commonDataByPIDs. case_bool_decide; [done|].
  destruct (StreamInOps.U32 _) as [count st]. destruct (_ || _); [done|].
  pose proof (entries_again file s (Z.to_nat count) st p Hp) as He.
  by destruct (profile_entries _ _ _ _ _) as [[l|] p1].
Qed.

Lemma standings_again `{GoSort} r1 r2 r3 file req b :
  boardOnce b = true -> (competitionRanking r1 r2 r3 file req b).2 = b.
Proof.
  intros Hb. unfold competitionRanking, boardInit. rewrite Hb. by repeat case_bool_decide.
Qed.

(** What a read returns was in the stream. *)
Lemma read_bytes n st : Forall is_byte (si_rest st) -> Forall is_byte (StreamInOps.Read n st).1 /\
  Forall is_byte (si_rest (StreamInOps.Read n st).2).
Proof.
  intros Hs. unfold StreamInOps.Read. destruct (_ || _ || _); cbn; [by destruct (_ && _)|].
  split; [by apply Forall_take|by apply Forall_drop].
Qed.

Lemma buffer_bytes body blob st :
  Forall is_byte body -> StreamInOps.Buffer (NewStreamIn body) = (blob, st) -> Forall is_byte blob.
Proof.
  intros Hb Hr. pose proof (read_bytes 4 (NewStreamIn body) Hb) as [_ H4].
  unfold StreamInOps.Buffer, StreamInOps.U32, StreamInOps.get_le, rbind, rret in Hr.
  destruct (StreamInOps.Read 4 (NewStreamIn body)) as [b4 st4].
  match type of Hr with StreamInOps.Read ?n _ = _ => destruct (read_bytes n st4 H4) as [Hx _] end.
  by rewrite Hr in Hx.
Qed.

Section Tables.
Context `{GoRange, GoSort}.

Definition mark_profiles (b : bool) (p : Profiles) : Profiles :=
  mkProfiles (commonDataStore p) (commonDataOnce p) b (scoresStore p).
Definition mark_boards (d : bool) (b : Boards) : Boards := mkBoards (boards b) (boardOnce b) d.
Definition mark_tournaments (d : bool) (s : tournamentStore) : tournamentStore :=
  mkTStore (byID s) (quarantined s) (nextID s) d.

(** A request to the ranking protocol, on a process that has loaded its files. *)
Definition ranking_client (p p' : Profiles) (b b' : Boards) : Prop :=
  commonDataOnce p = true /\ boardOnce b = true /\
  exists s r1 r2 r3 pfile bfile now ts pid req r,
    is_uint 64 pid /\ Forall is_byte (Body req) /\ 0 <= now < 2 ^ 63 /\
    RankingHandler pfile s r1 r2 r3 bfile now ts pid req p b = (r, p', b').

(** The records the board flusher writes. *)
Definition board_records (b : Boards) : list boardPersisted := default [] (boardFlush (mark_boards true b)).1.

Inductive tournament_client : tournamentStore -> tournamentStore -> Prop :=
  | tc_create e pid req s : nextID s < 2 ^ 32 - 1 -> tournament_client s (createTournament e pid req s).2
  | tc_remove pid req s : tournament_client s (removeTournament pid req s).2
  | tc_register pid req s : tournament_client s (registerTournament pid req s).2.

(** The only request that changes the profiles is the upload of one. *)
Lemma profile_client_upload p p' b b' :
  ranking_client p p' b b' ->
  commonDataStore p' = commonDataStore p \/ exists pid blob, is_uint 64 pid /\ 0 < len blob <= commonDataMaxLen /\
    Forall is_byte blob /\ commonDataStore p' = <[pid := blob]> (commonDataStore p) /\ commonDataDirty p' = true.
Proof.
  intros (Hp & _ & s & r1 & r2 & r3 & pfile & bfile & now & ts & pid & req & r & Hpid & Hbody & _ & Hr).
  unfold RankingHandler in Hr. case_bool_decide.
  { unfold uploadCommonData in Hr. destruct (StreamInOps.Buffer _) as [blob st] eqn:Eb. injection Hr as _ <- _.
    destruct (si_err st); [by left|]. unfold PutCommonData. destruct (_ || _) eqn:Ez; [by left|].
    right. exists pid, blob. destruct_bool_decide. pose proof (len_nonneg blob).
    split_and!; [done|lia|lia|by eapply buffer_bytes|cbn; by rewrite init_again|done]. }
  left. case_bool_decide.
  { pose proof (by_pids_again pfile s req p Hp) as He. destruct (commonDataByPIDs _ _ _ _) as [r' p1].
    cbn in He. congruence. }
  case_bool_decide; [congruence|].
  case_bool_decide; [destruct (competitionRanking _ _ _ _ _ _); congruence|].
  destruct (_ || _); [|congruence]. injection Hr as _ <- _. unfold keepSubmittedScore. by destruct (_ || _).
Qed.

Lemma profile_client_ok p p' b b' :
  ranking_client p p' b b' -> store_ok (commonDataStore p) -> store_ok (commonDataStore p').
Proof.
  intros [->|(pid & blob & ? & ? & ? & -> & _)]%profile_client_upload Hok; [done|].
  by apply map_Forall_insert_2.
Qed.

(** The only request that changes a board is the submission of a result. *)
Lemma board_client_record p p' b b' :
  ranking_client p p' b b' ->
  b' = b \/ exists file now pid body, boardOnce b = true /\ is_uint 64 pid /\ Forall is_byte body /\
    0 <= now < 2 ^ 63 /\ b' = (recordScore file now pid body b).2.
Proof.
  intros (_ & Hb & s & r1 & r2 & r3 & pfile & bfile & now & ts & pid & req & r & Hpid & Hbody & Hnow & Hr).
  unfold RankingHandler in Hr. case_bool_decide; [destruct (uploadCommonData _ _ _ _); left; congruence|].
  case_bool_decide; [destruct (commonDataByPIDs _ _ _ _); left; congruence|].
  case_bool_decide; [left; congruence|].
  case_bool_decide.
  { left. pose proof (standings_again r1 r2 r3 bfile req b Hb) as He.
    destruct (competitionRanking _ _ _ _ _ _). cbn in He. congruence. }
  destruct (_ || _); [|left; congruence]. injection Hr as _ _ <-. case_bool_decide; [|by left].
  right. by exists bfile, now, pid, (Body req).
Qed.

Lemma board_client p p' b b' :
  ranking_client p p' b b' -> boards b' = boards b \/ boardDirty b' = true.
Proof.
  intros [->|(file & now & pid & body & Hb & _ & _ & _ & ->)]%board_client_record; [by left|].
  unfold recordScore, boardInit. rewrite Hb. destruct (parseScoreSubmission _) as [[[[? ?] ?] ?]|]; [by right|by left].
Qed.

Lemma board_client_ok p p' b b' : ranking_client p p' b b' -> boards_ok b -> boards_ok b'.
Proof.
  intros [->|(file & now & pid & body & Hb & Hp & Hby & Hn & ->)]%board_client_record Hok; [done|].
  apply record_ok; [|done..]. unfold boardInit. by rewrite Hb.
Qed.

Lemma create_marks e owner payload s :
  byID (CreateTournament e owner payload s).2 = byID s /\ quarantined (CreateTournament e owner payload s).2 = quarantined s
  \/ dirty (CreateTournament e owner payload s).2 = true.
Proof.
  unfold CreateTournament. destruct (tournamentCodeOffset payload); [|by left].
  destruct (_ || _ || _); [by left|]. case_bool_decide; [by left|]. case_match; [by left|by right].
Qed.

Lemma create_quarantined e owner payload s :
  quarantined (CreateTournament e owner payload s).2 = quarantined s.
Proof.
  unfold CreateTournament. destruct (tournamentCodeOffset payload); [|done].
  destruct (_ || _ || _); [done|]. case_bool_decide; [done|]. by case_match.
Qed.

Lemma tournament_client_marks s s' :
  tournament_client s s' -> (byID s' = byID s /\ quarantined s' = quarantined s) \/ dirty s' = true.
Proof.
  intros [e pid req t Hn|pid req t|pid req t].
  - unfold createTournament. case_bool_decide; [by left|]. destruct (_ || _); [by left|].
    match goal with |- context [CreateTournament ?e ?o ?p ?x] => pose proof (create_marks e o p x) as Hc;
      by destruct (CreateTournament e o p x) as [[?|] ?] end.
  - unfold removeTournament, deleteTournament. cbn. case_bool_decide; [|by left].
    destruct (tournamentByID t _); [|by left]. case_bool_decide; [by left|by right].
  - unfold registerTournament, joinTournament. cbn. case_bool_decide; [|by left].
    destruct (tournamentByID t _); [|by left]. case_bool_decide; [by left|by right].
Qed.

Lemma tournament_client_ok s s' :
  tournament_client s s' -> tournaments_ok s -> tournaments_ok s' /\ quarantined s' = quarantined s.
Proof.
  intros [e pid req t Hn|pid req t|pid req t] Hok.
  - unfold createTournament. case_bool_decide; [done|]. destruct (_ || _); [done|].
    match goal with |- context [CreateTournament ?e ?o ?p ?x] =>
      pose proof (create_ok e o p x Hok Hn) as Hc; pose proof (create_quarantined e o p x) as Hq;
      by destruct (CreateTournament e o p x) as [[?|] ?] end.
  - unfold removeTournament. cbn. case_bool_decide; [|done]. split; [by apply delete_ok|].
    unfold deleteTournament. destruct (tournamentByID t _); [|done]. by case_bool_decide.
  - unfold registerTournament. cbn. case_bool_decide; [|done]. split; [by apply join_ok|].
    unfold joinTournament. destruct (tournamentByID t _); [|done]. by case_bool_decide.
Qed.

#[export] Instance profiles_durable : Durable Profiles (gmap gostring gostring).
Proof using H H0.
  refine {| image p := writeCommonData (commonDataStore p); marked := commonDataDirty; mark := mark_profiles;
    client p p' := exists b b', ranking_client p p' b b' |}; [done|done|].
  intros p p' (b & b' & Hc). destruct (profile_client_upload _ _ _ _ Hc) as [->|(? & ? & _ & _ & _ & _ & ?)]; [by left|by right].
Defined.

#[export] Instance boards_durable : Durable Boards (list boardPersisted).
Proof using H H0.
  refine {| image := board_records; marked := boardDirty; mark := mark_boards;
    client b b' := exists p p', ranking_client p p' b b' |}; [done|done|].
  intros b b' (p & p' & Hc). destruct (board_client _ _ _ _ Hc) as [E|?]; [left|by right].
  unfold board_records, boardFlush. cbn. by rewrite E.
Defined.

#[export] Instance tournaments_durable : Durable tournamentStore (list Tournament).
Proof using H.
  refine {| image := flush_list; marked := dirty; mark := mark_tournaments; client := tournament_client |}; [done|done|].
  intros s s' [[E1 E2]|?]%tournament_client_marks; [left|by right]. unfold flush_list. by rewrite E1, E2.
Defined.
End Tables.

(** ** Restarts *)

Lemma valid_id t : validStoredTournament t = true -> t_ID t <> 0.
Proof. unfold validStoredTournament. intros Hv Hz. rewrite Hz in Hv. by rewrite bool_decide_eq_true_2 in Hv. Qed.

(** The loop over the file: tournaments that no longer pass the check, then those that do. *)
Lemma restore_quarantine (l : list Tournament) s :
  Forall (fun t => t_ID t <> 0 /\ validStoredTournament t = false) l ->
  let s' := foldl restore_one s (Some <$> l) in
  quarantined s' = quarantined s ++ l /\ byID s' = byID s.
Proof.
  revert s. induction l as [|t l IH]; intros s; [by rewrite app_nil_r|].
  intros [[Hz Hv] Hl]%Forall_cons. cbn [fmap list_fmap foldl].
  assert (quarantined (restore_one s (Some t)) = quarantined s ++ [t] /\ byID (restore_one s (Some t)) = byID s)
    as [E1 E2] by (unfold restore_one; by rewrite bool_decide_eq_false_2, Hv).
  destruct (IH (restore_one s (Some t)) Hl) as [-> ->]. by rewrite E1, E2, <- app_assoc.
Qed.

Lemma restore_entries (l : list (Z * Tournament)) s :
  Forall (fun kv => t_ID kv.2 = kv.1 /\ kv.1 <> 0 /\ validStoredTournament kv.2 = true) l ->
  let s' := foldl restore_one s (Some <$> l.*2) in
  quarantined s' = quarantined s /\ byID s' = foldl (fun m kv => <[kv.1 := kv.2]> m) (byID s) l.
Proof.
  revert s. induction l as [|[id t] l IH]; intros s; [done|].
  intros [(Hid & Hz & Hv) Hl]%Forall_cons. cbn [fmap list_fmap foldl fst snd] in *. subst id.
  assert (quarantined (restore_one s (Some t)) = quarantined s /\
    byID (restore_one s (Some t)) = <[t_ID t := t]> (byID s))
    as [E1 E2] by (unfold restore_one; by rewrite bool_decide_eq_false_2, Hv).
  destruct (IH (restore_one s (Some t)) Hl) as [-> ->]. by rewrite E1, E2.
Qed.

(** The next number after a restart is above 1000 and above every number in the file,
    and no greater than need be. *)
Lemma restore_next (l : list Tournament) s n :
  Forall (fun t => t_ID t + 1 <= n) l -> 0 <= nextID s <= n -> n < 2 ^ 32 ->
  nextID (foldl restore_one s (Some <$> l)) <= n.
Proof.
  intros Hl Hs Hn. revert s Hs. induction Hl as [|t l Ht Hl IH]; intros s Hs; [cbn; lia|].
  cbn [fmap list_fmap foldl]. apply IH. unfold restore_one. case_bool_decide; [done|].
  assert (0 <= t_ID t -> u32 (t_ID t + 1) = t_ID t + 1) as Hu by (intros; apply Z.mod_small; lia).
  case_match; cbn; (case_bool_decide; [rewrite Hu by lia|]; lia).
Qed.

(** A process that loads the file the tournaments were written to has the same
    tournaments and keeps the same unusable ones aside. *)
Lemma tournaments_survive_restart `{GoRange} s :
  tournaments_ok s ->
  Forall (fun t => t_ID t <> 0 /\ validStoredTournament t = false) (quarantined s) ->
  let s' := tournamentInit (Some <$> flush_list s) in
  byID s' = byID s /\ quarantined s' = quarantined s.
Proof.
  intros Hok Hq. unfold tournamentInit, flush_list. rewrite fmap_app, foldl_app.
  destruct (restore_quarantine (quarantined s) empty_tournaments Hq) as [Eq Eb].
  set (s1 := foldl restore_one empty_tournaments _) in *.
  destruct (restore_entries (range (byID s)) s1) as [E1 E2].
  { apply Forall_forall. intros [id t] Hin%elem_of_range. destruct (to_entry _ Hok id t Hin) as (H1 & H2 & _).
    cbn. split_and!; [done|rewrite <- H1; by apply valid_id|done]. }
  cbn zeta. rewrite E1, E2, Eq, Eb. cbn. split; [|done]. apply foldl_insert_range.
Qed.

(** The number of a deleted tournament comes back: when the newest tournament is deleted
    and the process restarts, the next number to be given is at most the deleted one's, so
    a later tournament gets it, and with it the results kept on the board of that number. *)
Lemma deleted_number_returns `{GoRange} e owner payload s t s1 :
  tournaments_ok s -> quarantined s = [] -> CreateTournament e owner payload s = (Some t, s1) ->
  let s2 := (deleteTournament (t_ID t) owner s1).2 in
  byID s2 !! t_ID t = None /\ nextID s2 <> t_ID t /\
  nextID (tournamentInit (Some <$> flush_list s2)) <= t_ID t.
Proof.
  intros Hok Hq Hc.
  assert (t_ID t = nextID s /\ t_Owner t = owner /\ validStoredTournament t = true /\
    s1 = mkTStore (<[nextID s := t]> (byID s)) (quarantined s) (u32 (nextID s + 1)) true) as (Hid & Ho & Hv & ->).
  { revert Hc. unfold CreateTournament. destruct (tournamentCodeOffset payload); [|done].
    destruct (_ || _ || _); [done|]. case_bool_decide; [done|]. destruct (validStoredTournament _) eqn:Hv; [|done].
    cbn. by intros [= <- <-]. }
  assert ((deleteTournament (t_ID t) owner (mkTStore (<[nextID s := t]> (byID s)) (quarantined s) (u32 (nextID s + 1)) true)).2
    = mkTStore (delete (nextID s) (byID s)) [] (u32 (nextID s + 1)) true) as ->.
  { unfold deleteTournament, tournamentByID. cbn. rewrite Hid, lookup_insert_eq, Hv.
    rewrite bool_decide_eq_false_2 by (intros Hx; by apply Hx). cbn. by rewrite Hq, delete_insert_eq. }
  destruct (to_next _ Hok) as [Hn1 Hn2]. cbn. rewrite Hid. split_and!; [apply lookup_delete_eq| |].
  - intros Hx. destruct (decide (nextID s = 2 ^ 32 - 1)) as [E|]; [rewrite E in Hx; vm_compute in Hx; done|].
    assert (u32 (nextID s + 1) = nextID s + 1) by (apply Z.mod_small; lia). lia.
  - apply restore_next; [|cbn; lia|done]. cbn. apply Forall_forall.
    intros t0 ([id t1] & -> & Hin)%list_elem_of_fmap. apply elem_of_range, lookup_delete_Some in Hin as [_ Hin].
    destruct (to_entry _ Hok _ _ Hin) as (H1 & _ & H3 & _). cbn. lia.
Qed.

(** ** The tables and their files *)

(** Once the flusher has caught up, the file restores the boards. *)
Lemma boards_restored `{GoRange, GoSort} b0 f0 st k pid :
  rtc flush_step (flush_start b0 f0) st -> quiescent st -> fs_failed st = false ->
  image (fs_store st) <> image b0 -> boards_ok b0 ->
  exists file, fs_file st = Some file /\
    score_at (boards (boardInit (Some file) no_boards)) k pid =
      (fun e => mkBoardEntry (be_PID e) (be_Score e) (be_Profile e) (unix (be_At e) * second_ns)) <$>
        score_at (boards (fs_store st)) k pid.
Proof.
  intros Hr Hq Hf Hne Hb0. assert (boards_ok (fs_store st)) as Hok.
  { eapply (flush_preserves boards_ok); [done| |exact Hr|exact Hb0]. intros b b' (p & p' & Hc). by eapply board_client_ok. }
  destruct (caught_up b0 f0 st Hr Hq Hf) as [Hfile|[He _]]; [|done].
  exists (image (fs_store st)). split; [done|].
  apply (board_survives_restart (mark_boards true (fs_store st)) _ (mark_boards false (fs_store st))); [exact Hok|].
  done.
Qed.

(** [C36] Competition boards over the life of the process.  Requests and the flusher interleave
    in any way; then the requests stop.  The flusher comes to rest within seven steps, with
    writes that succeed it reaches such a state, and whenever it rests after a last attempt
    that did not fail, a new process that loads the file shows every player with the same
    score and profile on every board, its date cut to the second. *)
Theorem boards_reach_disk `{GoRange, GoSort} b0 f0 st k pid :
  rtc flush_step (flush_start b0 f0) st -> fs_owed st = 0%nat -> fs_failed st = false ->
  image (fs_store st) <> image b0 -> boards_ok b0 ->
  (forall n st', nsteps flusher_step n st st' -> (n <= 7)%nat) /\
  (exists st', rtc flusher_step st st' /\ (forall st'', ~ flusher_step st' st'') /\ fs_failed st' = false) /\
  forall st', rtc flusher_step st st' -> (forall st'', ~ flusher_step st' st'') -> fs_failed st' = false ->
    exists file, fs_file st' = Some file /\
      score_at (boards (boardInit (Some file) no_boards)) k pid =
        (fun e => mkBoardEntry (be_PID e) (be_Score e) (be_Profile e) (unix (be_At e) * second_ns)) <$>
          score_at (boards (fs_store st)) k pid.
Proof.
  intros Hr Ho Hf Hne Hb0. split; [|split; [by apply flusher_settles|]].
  { intros n st' Hn. pose proof (flusher_bound _ _ _ Hn). pose proof (work_bound st). lia. }
  intros st' Hr' Hrest Hf'. apply flusher_rests in Hrest as [Hg Hm].
  assert (rtc flush_step (flush_start b0 f0) st') as Hall.
  { etrans; [exact Hr|]. clear -Hr'. induction Hr' as [|x y z Hxy _ IH]; [done|].
    eapply rtc_l; [by apply fu_flusher|done]. }
  rewrite <- (flusher_keeps boards st st') by done. apply (boards_restored b0 f0 st'); [done| |done| |done].
  - split; [done|]. split; [done|]. by rewrite (flusher_owes _ _ Hr').
  - by rewrite (flusher_keeps image st st' image_mark Hr').
Qed.

(** Profiles, likewise: up to fifty thousand of them come back. *)
Lemma profiles_outlive_process `{GoRange, GoSort} (r2 : GoRange) p0 f0 st :
  rtc flush_step (flush_start p0 f0) st -> quiescent st -> fs_failed st = false ->
  image (fs_store st) <> image p0 -> store_ok (commonDataStore p0) ->
  Z.of_nat (size (commonDataStore (fs_store st))) <= commonDataMaxStored ->
  exists file, fs_file st = Some file /\
    commonDataStore (@commonDataInit r2 (Some file) no_profiles) = commonDataStore (fs_store st).
Proof.
  intros Hr Hq Hf Hne Hp0 Hs. destruct (caught_up p0 f0 st Hr Hq Hf) as [Hfile|[He _]]; [|done].
  eexists. split; [exact Hfile|]. apply profiles_survive_restart; [|done].
  eapply (flush_preserves (fun p => store_ok (commonDataStore p))); [done| |exact Hr|exact Hp0].
  intros p p' (b & b' & Hc). by eapply profile_client_ok.
Qed.

(** Tournaments, likewise: what the file holds once the flusher has caught up restores
    the same tournaments. *)
Lemma tournaments_outlive_process `{GoRange} s0 f0 st :
  rtc flush_step (flush_start s0 f0) st -> quiescent st -> fs_failed st = false ->
  image (fs_store st) <> image s0 -> tournaments_ok s0 ->
  Forall (fun t => t_ID t <> 0 /\ validStoredTournament t = false) (quarantined s0) ->
  exists file, fs_file st = Some file /\ byID (tournamentInit (Some <$> file)) = byID (fs_store st).
Proof.
  intros Hr Hq Hf Hne Hok0 Hqu0.
  assert (tournaments_ok (fs_store st) /\ quarantined (fs_store st) = quarantined s0) as [Hok Hqu].
  { eapply (flush_preserves (fun s => tournaments_ok s /\ quarantined s = quarantined s0)); [| |exact Hr|done].
    - intros d s [[H1 H2 H3] ?]. by split.
    - intros s s' Hc [H1 H2]. destruct (tournament_client_ok s s' Hc H1) as [? E]. by rewrite E. }
  destruct (caught_up s0 f0 st Hr Hq Hf) as [Hfile|[He _]]; [|done].
  exists (flush_list (fs_store st)). split; [exact Hfile|]. apply tournaments_survive_restart; [done|]. by rewrite Hqu.
Qed.

(** ** Failed writes *)

(** A failed write is forgotten: the mark was taken back before the attempt, so the table
    stays unsaved, and the goroutine does nothing more until the table changes again. *)
Lemma failed_write_forgotten `{Durable St Img} (st : flushing St Img) i clean :
  fs_stage st = Writing i clean -> marked (fs_store st) = false -> fs_owed st = 0%nat ->
  exists st', flusher_step st st' /\ fs_store st' = fs_store st /\ fs_file st' = fs_file st /\
    quiescent st' /\ forall st'', rtc flusher_step st' st'' -> st'' = st'.
Proof.
  intros Hg Hm Ho. eexists. split; [by eapply fl_write_fails|]. cbn. split_and!; [done|done|done|].
  intros st''. by apply quiescent_stuck.
Qed.

(** ** Samples *)
#[local] Instance sample_range : GoRange := canonical_range.
#[local] Instance sample_sort : GoSort := merge_slice.

(** One result is submitted on a process that has loaded its files. *)
Definition sample_boards : Boards := boardInit None no_boards.
Definition sample_profiles : Profiles := commonDataInit None no_profiles.
Definition sample_submit : RMCMessage :=
  NewRMCRequest ProtocolRanking methodRankingSubmitScore 7 (sample_body 85 393 40 1).
Definition sample_handled : RMCMessage * Profiles * Boards :=
  RankingHandler None mk8_settings sample_range sample_range sample_range None
    (1787343209 * second_ns) empty_tournaments 1800000001 sample_submit sample_profiles sample_boards.
Definition sample_after : Boards := sample_handled.2.

Lemma sample_client : client sample_boards sample_after.
Proof.
  exists sample_profiles, sample_handled.1.2. split; [reflexivity|]. split; [reflexivity|].
  exists mk8_settings, sample_range, sample_range, sample_range, None, None,
    (1787343209 * second_ns), empty_tournaments, 1800000001, sample_submit, sample_handled.1.1.
  split; [done|]. split; [by apply (bool_decide_unpack _); vm_compute|]. split; [done|].
  unfold sample_after. rewrite <- !surjective_pairing. reflexivity.
Qed.

Lemma boards_reach_disk_witness :
  exists file, fs_file (saved sample_after) = Some file /\
    is_Some (score_at (boards (boardInit (Some file) no_boards)) (mkBoardKey 85 393) 1800000001).
Proof.
  destruct (change_is_saved sample_boards None sample_after) as [Hr Hq]; [vm_compute; reflexivity|exact sample_client|].
  destruct (boards_reach_disk sample_boards None (saved sample_after) (mkBoardKey 85 393) 1800000001 Hr eq_refl eq_refl)
    as (_ & _ & Hall).
  - intros E%(f_equal length). vm_compute in E. discriminate E.
  - by apply map_Forall_empty.
  - destruct (Hall (saved sample_after) (rtc_refl _ _)) as (file & Hf & Hs).
    + apply flusher_rests. split; [reflexivity|vm_compute; reflexivity].
    + reflexivity.
    + exists file. split; [exact Hf|]. rewrite Hs. apply fmap_is_Some. vm_compute. eexists. reflexivity.
Defined.

(** A tournament is created and deleted, and the process restarts: its number 1000 is
    the next to be given. *)
Example sample_number_returns :
  let created := CreateTournament ex_tenv 42 ex_payload empty_tournaments in
  t_ID <$> created.1 = Some 1000 /\
  nextID (tournamentInit (Some <$> flush_list (deleteTournament 1000 42 created.2).2)) = 1000.
Proof. split; vm_compute; reflexivity. Qed.

(** The write of the sample's board fails: the board exists, the file does not, and the
    goroutine has nothing left to do. *)
Example sample_write_lost :
  exists st' : flushing Boards (list boardPersisted),
    rtc flush_step (flush_start sample_boards None) st' /\ fs_file st' = None /\
    board_records (fs_store st') <> [] /\ forall st'', rtc flusher_step st' st'' -> st'' = st'.
Proof.
  set (st := mkFlushing (mark_boards false sample_after) 0 (Writing (image sample_after) true) None None false).
  destruct (failed_write_forgotten st (image sample_after) true)
    as (st' & Hs & Hst & Hf & _ & Hstuck); [done|done|done|].
  exists st'. split_and!; [|exact Hf|rewrite Hst; vm_compute; discriminate|exact Hstuck].
  eapply rtc_r; [|by apply fu_flusher]. subst st.
  eapply rtc_l; [apply fu_change, sample_client|]. cbn.
  eapply rtc_l; [by eapply fu_mark|]. cbn.
  eapply rtc_l; [by apply fu_flusher, fl_take|]. cbn.
  eapply rtc_l; [by apply fu_flusher, (fl_collect _ (image sample_after) true)|]. done.
Qed.
