(* ===== verification/Account.v ===== *)
(** * Accounts at login (server/main.go, server/gates.go, nextendo-nex/authbinding.go)

    How a login name becomes an account: signed tokens, bare account numbers, console
    identifiers resolved by the account service, and anonymous names.

    The account service answers over HTTP and is not part of the program: what a call to
    it returns is an argument.  So is the JSON claim of a login's identity token.  The
    three lock-free and locked sections of the console-identifier lookup are separate
    operations, and the goroutines that run them form a step relation. *)

From S2P Require Import Prelude GoStd GoTime Sha256 Crypto Base64.
Import GoStrings GoStrconv Base64.

(** ** The signing secret *)
Definition unhex (c : Z) : option Z :=
  if bool_decide (48 <= c <= 57) then Some (c - 48)
  else if bool_decide (97 <= c <= 102) then Some (c - 87)
  else if bool_decide (65 <= c <= 70) then Some (c - 55)
  else None.
Fixpoint hex_DecodeString (s : gostring) : option bytes :=
  match s with
  | [] => Some []
  | [_] => None
  | a :: b :: s => a ← unhex a; b ← unhex b; r ← hex_DecodeString s; Some (a * 16 + b :: r)
  end.

(** [env] is the variable, [file] the content of the key file; [[]] is the nil slice. *)
Definition loadNextendoSecret (env : gostring) (file : option gostring) : bytes :=
  match env, file with
  | _ :: _, _ => env
  | [], Some b =>
      match hex_DecodeString (trim_space b) with
      | Some dec => if bool_decide (16 <= len dec) then dec else []
      | None => []
      end
  | [], None => []
  end.

(** ** Signed tokens *)
Definition revokedNexPayloads : list gostring := [str "1800000006.Kazuu.1787343209"].

Definition token_mac (secret raw : bytes) : gostring :=
  EncodeToString RawURLEncoding (Hmac.mac Sha256.Sum256 secret (str "nex:" ++ raw)).

(** [strings.SplitN(s, ".", 3)] when it has three parts. *)
Definition three_fields (s : gostring) : option (gostring * gostring * gostring) :=
  let '(a, r) := splitn2 46 s in
  r ← r; let '(b, c) := splitn2 46 r in c ← c; Some (a, b, c).

(** [now] is [time.Now().Unix()]. *)
Definition nextendoPIDFromToken (secret : bytes) (now : Z) (s : gostring) : option Z :=
  if bool_decide (secret = []) || negb (has_prefix (str "nx2.") s) then None
  else match split 46 (drop 4 s) with
  | [p0; p1] =>
      match DecodeString RawURLEncoding p0 with
      | None => None
      | Some raw =>
          if bool_decide (token_mac secret raw <> p1) then None
          else if bool_decide (raw ∈ revokedNexPayloads) then None
          else match three_fields raw with
          | None => None
          | Some (f0, _, f2) =>
              match parse_uint f0 with
              | NumOk pid =>
                  match parse_int f2 with
                  | NumOk exp => if bool_decide (exp < now) then None else Some pid
                  | _ => None
                  end
              | _ => None
              end
          end
      end
  | _ => None
  end.

(** ** The token inside a login (authbinding.go) *)
Definition isJWTByte (b : Z) : bool :=
  bool_decide (b = 46) || bool_decide (b = 45) || bool_decide (b = 95) ||
  bool_decide (48 <= b <= 57) || bool_decide (65 <= b <= 90) || bool_decide (97 <= b <= 122).

Fixpoint jwt_run (s : bytes) : bytes :=
  match s with
  | b :: s => if isJWTByte b then b :: jwt_run s else []
  | [] => []
  end.

(** [nnex payload]: the claim, when [json.Unmarshal] succeeds ([[]]: no such claim). *)
Definition NexTokenFromLoginExtraData (nnex : bytes -> option gostring) (extraData : bytes)
    : option gostring :=
  match index (str "eyJ") extraData with
  | None => None
  | Some i =>
      match split 46 (jwt_run (drop i extraData)) with
      | _ :: seg :: _ =>
          payload ← DecodeString RawURLEncoding seg;
          claim ← nnex payload;
          if bool_decide (claim = []) then None else Some claim
      | _ => None
      end
  end.

(** ** Console identifiers (gates.go) *)
Inductive nsaStatus := nsaOK | nsaUnknown | nsaUnreachable.
#[export] Instance nsaStatus_eq_dec : EqDecision nsaStatus.
Proof. solve_decision. Defined.

Record nsaNegEntry := mkNeg { ng_status : nsaStatus; ng_at : Z }.
Definition nsaNegTTL : Z := 60 * GoTime.second_ns.
Definition nsaMaxInflight : Z := 16.
Definition nsaNegCacheMax : Z := 4096.

(** The two caches and the number of taken slots of [nsaInflight]. *)
Record NsaState := mkNsa {
  nsaCache : gmap Z Z;
  nsaNegCache : gmap Z nsaNegEntry;
  nsaInflight : Z
}.
Definition empty_nsa : NsaState := mkNsa ∅ ∅ 0.

(** What the HTTP call to /api/nsa gives: an error, or a status code with the pid of the
    body when the body decodes. *)
Inductive nsaReply := ReplyError | Reply (code : Z) (pid : option Z).

(** The first locked section: an answer from the caches, if they have one. *)
Definition nsa_cached (now nsa : Z) (st : NsaState) : option (Z * nsaStatus) :=
  match nsaCache st !! nsa with
  | Some pid => Some (pid, nsaOK)
  | None =>
      match nsaNegCache st !! nsa with
      | Some neg => if bool_decide (now - ng_at neg < nsaNegTTL) then Some (0, ng_status neg) else None
      | None => None
      end
  end.

(** The [select]: a slot if one is free. *)
Definition nsa_acquire (st : NsaState) : option NsaState :=
  if bool_decide (nsaInflight st < nsaMaxInflight)
  then Some (mkNsa (nsaCache st) (nsaNegCache st) (nsaInflight st + 1)) else None.

Definition rememberNSAFailure (now nsa : Z) (status : nsaStatus) (st : NsaState) : NsaState :=
  let neg := if bool_decide (nsaNegCacheMax <= Z.of_nat (size (nsaNegCache st))) then ∅
             else nsaNegCache st in
  mkNsa (nsaCache st) (<[nsa := mkNeg status now]> neg) (nsaInflight st).

(** What follows the reply: the second locked section. *)
Definition nsa_finish (now nsa : Z) (reply : nsaReply) (st : NsaState)
    : (Z * nsaStatus) * NsaState :=
  let fail status := ((0, status), rememberNSAFailure now nsa status st) in
  match reply with
  | ReplyError => fail nsaUnreachable
  | Reply code pid =>
      if bool_decide (code = 404) then fail nsaUnknown
      else if bool_decide (code <> 200) then fail nsaUnreachable
      else match pid with
      | None => fail nsaUnreachable
      | Some pid =>
          if bool_decide (pid = 0) then fail nsaUnreachable
          else ((pid, nsaOK),
                mkNsa (<[nsa := pid]> (nsaCache st)) (delete nsa (nsaNegCache st)) (nsaInflight st))
      end
  end.

(** The deferred release of the slot. *)
Definition nsa_release (st : NsaState) : NsaState :=
  mkNsa (nsaCache st) (nsaNegCache st) (nsaInflight st - 1).

(** The whole lookup, when no other goroutine runs in between. *)
Definition resolveNSAtoPID (now nsa : Z) (reply : nsaReply) (st : NsaState)
    : (Z * nsaStatus) * NsaState :=
  match nsa_cached now nsa st with
  | Some r => (r, st)
  | None =>
      match nsa_acquire st with
      | None => ((0, nsaUnreachable), st)
      | Some st => let '(r, st) := nsa_finish now nsa reply st in (r, nsa_release st)
      end
  end.

(** ** Resolving a login *)

(** Settings of the process. *)
Record AccountConfig := mkAccountConfig {
  nextendoSecret : bytes; requireAccount : bool; requireSignedToken : bool
}.

(** What a login reads from outside: the clock, the answers of the account service
    ([None]: no usable answer) and the JSON decoder. *)
Record LoginEnv := mkLoginEnv {
  le_now : Z;
  le_online : Z -> gostring -> option (bool * gostring);
  le_nsa : Z -> nsaReply;
  le_nnex : bytes -> option gostring
}.

(** Fail-open. *)
Definition nextendoOnlineCheck (e : LoginEnv) (pid : Z) (kind : gostring) : bool * gostring :=
  default (true, []) (le_online e pid kind).

Definition fnv32a (s : gostring) : Z :=
  foldl (fun h b => u32 (Z.lxor h b * 16777619)) 2166136261 s.
Definition anonymousPID (username : gostring) : Z := 1800000000 + fnv32a username mod 100000000.

Definition sourceKey_of (username : gostring) : bytes :=
  Sha256.Sum256 (str "nextendo-src:" ++ username).

Definition numeric_account (username : gostring) : option Z :=
  match parse_uint username with
  | NumOk n => if bool_decide (1800000000 <= n) then Some n else None
  | _ => None
  end.

Definition resolveUser (cfg : AccountConfig) (e : LoginEnv) (username : gostring)
    (extraData : bytes) (st : NsaState) : option (Z * bytes) * NsaState :=
  let now := GoTime.unix (le_now e) in
  let gate pid kind st :=
    if (nextendoOnlineCheck e pid kind).1 then (Some (pid, sourceKey_of username), st) else (None, st) in
  match nextendoPIDFromToken (nextendoSecret cfg) now username with
  | Some pid => gate pid (str "ryujinx") st
  | None =>
      match numeric_account username with
      | Some n =>
          let proven := tok ← NexTokenFromLoginExtraData (le_nnex e) extraData;
                        nextendoPIDFromToken (nextendoSecret cfg) now tok in
          if bool_decide (n < 1810000000) then
            if requireSignedToken cfg && bool_decide (proven <> Some n) then (None, st)
            else gate n (str "ryujinx") st
          else
            let '((rp, status), st) := resolveNSAtoPID (le_now e) n (le_nsa e n) st in
            match status with
            | nsaOK => gate rp (str "switch") st
            | nsaUnknown | nsaUnreachable => (None, st)
            end
      | None =>
          if requireAccount cfg then (None, st)
          else (Some (anonymousPID username, sourceKey_of username), st)
      end
  end.

(** ** Tokens *)

(** [tok] proves account [pid] at second [now]: it carries the service's authentication
    code over a payload that names the account, is not revoked and has not expired. *)
Definition proves (secret : bytes) (now : Z) (tok : gostring) (pid : Z) : Prop :=
  secret <> [] /\ exists p0 raw f0 user f2 exp,
    tok = str "nx2." ++ p0 ++ 46 :: token_mac secret raw /\
    DecodeString RawURLEncoding p0 = Some raw /\ raw ∉ revokedNexPayloads /\
    raw = f0 ++ 46 :: user ++ 46 :: f2 /\
    parse_uint f0 = NumOk pid /\ parse_int f2 = NumOk exp /\ now <= exp.

Lemma has_prefix_drop p s : has_prefix p s = true -> s = p ++ drop (length p) s.
Proof.
  revert s; induction p as [|a p IH]; intros s Hs; [done|].
  destruct s as [|b s]; [done|]. cbn in *. apply andb_true_iff in Hs as [->%bool_decide_eq_true_1 Hs].
  f_equal. by apply IH.
Qed.

Lemma join_split c s : join c (split c s) = s.
Proof.
  induction s as [|b s IH]; [done|]. cbn [split]. pose proof (split_nonempty c s) as Hne.
  case_bool_decide as Hb.
  - subst. destruct (split c s) as [|w ws]; [done|].
    change (c :: join c (w :: ws) = c :: s). by rewrite IH.
  - destruct (split c s) as [|w [|w' ws]]; [done| |]; cbn [join app] in *; by rewrite IH.
Qed.

Lemma splitn2_some c s a r : splitn2 c s = (a, Some r) -> s = a ++ c :: r.
Proof.
  revert a; induction s as [|b s IH]; intros a; [done|]. cbn. case_bool_decide as Hb.
  - intros [= <- <-]. by subst.
  - destruct (splitn2 c s) as [h t]. intros [= <- ->]. cbn. f_equal. by apply IH.
Qed.

(** An accepted token proves the account it is accepted for. *)
Lemma token_sound secret now tok pid :
  nextendoPIDFromToken secret now tok = Some pid -> proves secret now tok pid.
Proof.
  unfold nextendoPIDFromToken. case_bool_decide as Hs; [done|]. cbn [orb].
  destruct (has_prefix (str "nx2.") tok) eqn:Hp; [cbn [negb]|done].
  apply has_prefix_drop in Hp. change (length (str "nx2.")) with 4%nat in Hp.
  destruct (split 46 (drop 4 tok)) as [|p0 [|p1 [|]]] eqn:Hsp; try done.
  pose proof (join_split 46 (drop 4 tok)) as Hj. rewrite Hsp in Hj. cbn [join] in Hj.
  destruct (DecodeString RawURLEncoding p0) as [raw|] eqn:Hd; [|done].
  case_bool_decide as Hm; [done|].
  case_bool_decide as Hr; [done|].
  unfold three_fields. destruct (splitn2 46 raw) as [f0 [r|]] eqn:H1; [cbn|done].
  destruct (splitn2 46 r) as [user [f2|]] eqn:H2; [cbn|done].
  destruct (parse_uint f0) as [n|?|] eqn:Hn; [|done..].
  destruct (parse_int f2) as [exp|?|] eqn:He; [|done..].
  case_bool_decide as Hx; [done|]. intros [= <-]. split; [done|].
  exists p0, raw, f0, user, f2, exp. apply splitn2_some in H1, H2.
  split_and!; try done; [by rewrite Hm, Hj|by rewrite H1, H2|lia].
Qed.

(** The token the account service issues. *)
Definition token_payload (pid : Z) (user : gostring) (exp : Z) : gostring :=
  utoa pid ++ 46 :: user ++ 46 :: itoa exp.
Definition issue_token (secret : bytes) (pid : Z) (user : gostring) (exp : Z) : gostring :=
  let raw := token_payload pid user exp in
  str "nx2." ++ EncodeToString RawURLEncoding raw ++ 46 :: token_mac secret raw.

Lemma Sum256_bytes m : Forall is_byte (Sha256.Sum256 m).
Proof.
  unfold Sha256.Sum256. apply Forall_concat, Forall_fmap, Forall_forall. intros w _.
  unfold Sha256.be_bytes, compose. apply Forall_reverse, le_bytes_range.
Qed.

Lemma raw_url_ok : encoding_ok RawURLEncoding.
Proof. by right. Qed.

Lemma token_mac_no_dot secret raw : 46 ∉ token_mac secret raw.
Proof. apply encode_no_char; [apply raw_url_ok|done|done|]. apply Sum256_bytes. Qed.

Lemma digits_no_dot f n : 0 <= n -> 46 ∉ digits f n.
Proof. intros Hn Hb. apply digits_chars in Hb; lia. Qed.

Lemma itoa_is_bytes n : Forall is_byte (itoa n).
Proof. apply Forall_forall. intros b Hb%itoa_chars. unfold is_byte. lia. Qed.

Lemma payload_bytes pid user exp :
  0 <= pid -> Forall is_byte user -> Forall is_byte (token_payload pid user exp).
Proof.
  intros Hp Hu. unfold token_payload. rewrite Forall_app, Forall_cons, Forall_app, Forall_cons.
  split_and!; try done; [|apply itoa_is_bytes]. apply Forall_forall.
  intros b Hb%digits_chars; [unfold is_byte; lia|done].
Qed.

(** A token issued for an account is accepted for exactly that account until
    its expiry, and refused after it; whatever the name in it, as long as the name has no
    dot and the payload is not on the list of revoked ones. *)
Theorem token_roundtrip secret pid user exp now :
  secret <> [] -> is_uint 64 pid -> - 2 ^ 63 <= exp < 2 ^ 63 ->
  Forall is_byte user -> 46 ∉ user -> token_payload pid user exp ∉ revokedNexPayloads ->
  nextendoPIDFromToken secret now (issue_token secret pid user exp) =
    if bool_decide (exp < now) then None else Some pid.
Proof.
  intros Hs Hpid Hexp Hu Hd Hr. unfold nextendoPIDFromToken, issue_token. cbv zeta.
  set (raw := token_payload pid user exp) in *.
  assert (Forall is_byte raw) as Hraw by (apply payload_bytes; [apply Hpid|done]).
  rewrite bool_decide_eq_false_2, has_prefix_app by done. cbn [orb negb].
  change (drop 4 (str "nx2." ++ ?x)) with x.
  rewrite split_app by (apply encode_no_char; [apply raw_url_ok|done|done|done]).
  rewrite split_no_sep by apply token_mac_no_dot.
  rewrite decode_encode by (apply raw_url_ok || done).
  rewrite bool_decide_eq_false_2 by (by intros ?). rewrite bool_decide_eq_false_2 by done.
  unfold three_fields, raw, token_payload.
  rewrite splitn2_app by (apply digits_no_dot, Hpid). cbn [mbind option_bind].
  rewrite splitn2_app by done. cbn [mbind option_bind].
  by rewrite parse_uint_utoa, parse_int_itoa by done.
Qed.

Lemma token_roundtrip_witness :
  nextendoPIDFromToken (str "shared secret") 1787343210
    (issue_token (str "shared secret") 1800000006 (str "Kazuu") 1787343210) = Some 1800000006.
Proof.
  rewrite (token_roundtrip (str "shared secret") 1800000006 (str "Kazuu") 1787343210 1787343210).
  - reflexivity.
  - discriminate.
  - unfold is_uint. lia.
  - lia.
  - apply (bool_decide_unpack _). vm_compute. exact I.
  - apply (bool_decide_unpack _). vm_compute. exact I.
  - apply (bool_decide_unpack _). vm_compute. exact I.
Defined.

(** ** Who may log in *)

(** What vouches for account [pid] in a login. *)
Inductive vouched (cfg : AccountConfig) (e : LoginEnv) (username : gostring) (extraData : bytes)
    (st : NsaState) : Z -> Prop :=
  | by_token pid :
      proves (nextendoSecret cfg) (GoTime.unix (le_now e)) username pid ->
      vouched cfg e username extraData st pid
  | by_bound_token pid tok :
      parse_uint username = NumOk pid -> 1800000000 <= pid < 1810000000 ->
      NexTokenFromLoginExtraData (le_nnex e) extraData = Some tok ->
      proves (nextendoSecret cfg) (GoTime.unix (le_now e)) tok pid ->
      vouched cfg e username extraData st pid
  | by_service nsa pid :
      parse_uint username = NumOk nsa -> 1810000000 <= nsa ->
      nsaCache st !! nsa = Some pid \/ le_nsa e nsa = Reply 200 (Some pid) ->
      vouched cfg e username extraData st pid.

Lemma resolve_nsa_ok now nsa reply st pid st' :
  (forall n neg, nsaNegCache st !! n = Some neg -> ng_status neg <> nsaOK) ->
  resolveNSAtoPID now nsa reply st = ((pid, nsaOK), st') ->
  nsaCache st !! nsa = Some pid \/ reply = Reply 200 (Some pid).
Proof.
  intros Hneg. unfold resolveNSAtoPID, nsa_cached.
  destruct (nsaCache st !! nsa) as [p|] eqn:Hc; [intros [= -> _]; by left|].
  destruct (nsaNegCache st !! nsa) as [neg|] eqn:Hn;
    [case_bool_decide; [intros [= _ Hs _]; by apply Hneg in Hn|]|];
  (unfold nsa_acquire; case_bool_decide; [|done]; unfold nsa_finish; destruct reply as [|code [p|]];
   [done| |]; repeat (case_bool_decide; [done|]); [|done]; intros [= -> _]; right; subst;
   f_equal; by apply dec_stable).
Qed.

(** The caches as the lookups leave them. *)
Record nsa_wf (st : NsaState) : Prop := {
  nw_neg : forall n neg, nsaNegCache st !! n = Some neg -> ng_status neg <> nsaOK;
  nw_pos : forall n pid, nsaCache st !! n = Some pid -> pid <> 0;
  nw_bound : Z.of_nat (size (nsaNegCache st)) <= nsaNegCacheMax
}.

(** On a server that requires accounts and signed tokens, whoever logs in as
    an account holds a token for exactly that account signed with the shared secret,
    neither revoked nor expired -- as the login name or inside the login data -- or is a
    console whose identifier the account service maps to the account; the account passed
    the online check, and the ticket key depends on the login name alone. *)
Theorem login_identity cfg e username extraData st pid key st' :
  nsa_wf st -> requireAccount cfg = true -> requireSignedToken cfg = true ->
  resolveUser cfg e username extraData st = (Some (pid, key), st') ->
  vouched cfg e username extraData st pid /\ key = sourceKey_of username /\
  exists kind, (nextendoOnlineCheck e pid kind).1 = true.
Proof.
  intros Hwf Hacc Hsig. unfold resolveUser.
  destruct (nextendoPIDFromToken _ _ username) as [p|] eqn:Ht.
  { destruct (nextendoOnlineCheck e p (str "ryujinx")).1 eqn:Hg; [|done]. intros [= <- <- _].
    split_and!; [by apply by_token, token_sound|done|by eexists]. }
  rewrite Hacc. unfold numeric_account. destruct (parse_uint username) as [n|?|] eqn:Hn; [|done..].
  case_bool_decide as Hge; [|done]. case_bool_decide as Hlt.
  - rewrite Hsig. case_bool_decide as Hp; [done|]. cbn [andb].
    destruct (nextendoOnlineCheck e n (str "ryujinx")).1 eqn:Hg; [|done]. intros [= <- <- _].
    destruct (NexTokenFromLoginExtraData _ _) as [tok|] eqn:Hx; [|done]. cbn in Hp.
    split_and!; [by eapply by_bound_token; eauto using token_sound|done|by eexists].
  - destruct (resolveNSAtoPID _ n _ st) as [[rp status] st1] eqn:Hr.
    destruct status; [|done..].
    destruct (nextendoOnlineCheck e rp (str "switch")).1 eqn:Hg; [|done]. intros [= <- <- _].
    split_and!; [|done|by eexists]. eapply by_service; [done|lia|].
    eapply resolve_nsa_ok; [apply (nw_neg _ Hwf)|done].
Qed.

(** Without the account requirement, an anonymous login name is given the
    number of an existing member: the anonymous range is the members' own, and the online
    check of that member is not made. *)
Theorem anonymous_takes_member cfg e extraData st :
  requireAccount cfg = false ->
  resolveUser cfg e (str "guestklmwlb") extraData st =
    (Some (1800000006, sourceKey_of (str "guestklmwlb")), st) /\
  (forall now, nextendoPIDFromToken (nextendoSecret cfg) now (str "guestklmwlb") = None).
Proof.
  intros Hacc.
  assert (forall now, nextendoPIDFromToken (nextendoSecret cfg) now (str "guestklmwlb") = None) as Ht.
  { intros now. unfold nextendoPIDFromToken. by rewrite orb_true_r. }
  split; [|done]. unfold resolveUser. rewrite Ht, Hacc.
  change (numeric_account (str "guestklmwlb")) with (@None Z). cbn iota.
  assert (anonymousPID (str "guestklmwlb") = 1800000006) as -> by (by vm_compute). done.
Qed.

Definition sample_account : AccountConfig := mkAccountConfig (str "shared secret") true true.
Definition sample_login : LoginEnv :=
  mkLoginEnv (1787343209 * GoTime.second_ns) (fun _ _ => Some (true, []))
    (fun _ => Reply 200 (Some 1800000006)) (fun _ => None).

Lemma empty_nsa_wf : nsa_wf empty_nsa.
Proof. by split. Qed.

Lemma login_identity_witness :
  exists st',
    resolveUser sample_account sample_login (str "1810000007") [] empty_nsa =
      (Some (1800000006, sourceKey_of (str "1810000007")), st') /\
    vouched sample_account sample_login (str "1810000007") [] empty_nsa 1800000006.
Proof.
  eexists. split; [vm_compute; reflexivity|].
  destruct (login_identity sample_account sample_login (str "1810000007") [] empty_nsa 1800000006
    (sourceKey_of (str "1810000007")) (mkNsa {[1810000007 := 1800000006]} ∅ 0)) as [Hv _].
  - apply empty_nsa_wf.
  - reflexivity.
  - reflexivity.
  - vm_compute. reflexivity.
  - exact Hv.
Defined.

Lemma anonymous_takes_member_witness :
  (resolveUser (mkAccountConfig [] false false)
     (mkLoginEnv 0 (fun _ _ => Some (false, [])) (fun _ => ReplyError) (fun _ => None))
     (str "guestklmwlb") [] empty_nsa).1 = Some (1800000006, sourceKey_of (str "guestklmwlb")).
Proof.
  destruct (anonymous_takes_member (mkAccountConfig [] false false)
     (mkLoginEnv 0 (fun _ _ => Some (false, [])) (fun _ => ReplyError) (fun _ => None)) [] empty_nsa
     eq_refl) as [H _].
  rewrite H. reflexivity.
Defined.

(** ** Concurrent lookups

    Every login that carries a console identifier runs in a goroutine of its own. *)
Inductive nsa_pc :=
  | NAsk (nsa : Z)
  | NSelect (nsa : Z)
  | NFetch (nsa : Z)
  | NRelease (nsa : Z) (r : Z * nsaStatus)
  | NDone (nsa : Z) (r : Z * nsaStatus).

(** The goroutine holds a slot. *)
Definition holds_slot (p : nsa_pc) : bool :=
  match p with NFetch _ | NRelease _ _ => true | _ => false end.

(** The shared state, the goroutines, and the accounts the service has named so far. *)
Record NsaSystem := mkNsaSystem {
  ns_state : NsaState; ns_threads : gmap Z nsa_pc; ns_named : gset (Z * Z)
}.
Definition nsa_start : NsaSystem := mkNsaSystem empty_nsa ∅ ∅.

(** Only an answer with status 200 names an account. *)
Definition named_by (nsa : Z) (reply : nsaReply) : gset (Z * Z) :=
  match reply with
  | Reply code (Some pid) => if bool_decide (code = 200) then {[(nsa, pid)]} else ∅
  | _ => ∅
  end.

Inductive nsa_step : NsaSystem -> NsaSystem -> Prop :=
  | step_login t nsa st ths k : ths !! t = None ->
      nsa_step (mkNsaSystem st ths k) (mkNsaSystem st (<[t := NAsk nsa]> ths) k)
  | step_hit t nsa now r st ths k : ths !! t = Some (NAsk nsa) -> nsa_cached now nsa st = Some r ->
      nsa_step (mkNsaSystem st ths k) (mkNsaSystem st (<[t := NDone nsa r]> ths) k)
  | step_miss t nsa now st ths k : ths !! t = Some (NAsk nsa) -> nsa_cached now nsa st = None ->
      nsa_step (mkNsaSystem st ths k) (mkNsaSystem st (<[t := NSelect nsa]> ths) k)
  | step_slot t nsa st st' ths k : ths !! t = Some (NSelect nsa) -> nsa_acquire st = Some st' ->
      nsa_step (mkNsaSystem st ths k) (mkNsaSystem st' (<[t := NFetch nsa]> ths) k)
  | step_busy t nsa st ths k : ths !! t = Some (NSelect nsa) -> nsa_acquire st = None ->
      nsa_step (mkNsaSystem st ths k)
        (mkNsaSystem st (<[t := NDone nsa (0, nsaUnreachable)]> ths) k)
  | step_reply t nsa now reply r st st' ths k : ths !! t = Some (NFetch nsa) ->
      nsa_finish now nsa reply st = (r, st') ->
      nsa_step (mkNsaSystem st ths k)
        (mkNsaSystem st' (<[t := NRelease nsa r]> ths) (named_by nsa reply ∪ k))
  | step_release t nsa r st ths k : ths !! t = Some (NRelease nsa r) ->
      nsa_step (mkNsaSystem st ths k) (mkNsaSystem (nsa_release st) (<[t := NDone nsa r]> ths) k).

Definition slots (ths : gmap Z nsa_pc) : Z :=
  Z.of_nat (size (filter (fun kv : Z * nsa_pc => holds_slot kv.2 = true) ths)).

Lemma slots_insert_new ths t p : ths !! t = None ->
  slots (<[t := p]> ths) = slots ths + (if holds_slot p then 1 else 0).
Proof.
  intros Hn. unfold slots. destruct (holds_slot p) eqn:Hp.
  - rewrite map_filter_insert_True by done. rewrite map_size_insert_None; [lia|].
    apply map_lookup_filter_None. by left.
  - rewrite map_filter_insert_False by (cbn; by rewrite Hp). rewrite delete_id by done. lia.
Qed.

(** Moving one goroutine changes the number of slots held by its own. *)
Lemma slots_move ths t old p : ths !! t = Some old ->
  slots (<[t := p]> ths) =
    slots ths - (if holds_slot old then 1 else 0) + (if holds_slot p then 1 else 0).
Proof.
  intros Ho. rewrite <- (insert_delete_id ths t old Ho) at 2.
  rewrite <- (insert_delete_eq ths t p).
  rewrite !slots_insert_new by apply lookup_delete_eq. lia.
Qed.

Lemma remember_wf now nsa status st :
  nsa_wf st -> status <> nsaOK -> nsa_wf (rememberNSAFailure now nsa status st).
Proof.
  intros [Hn Hp Hb] Hs. unfold rememberNSAFailure. split; cbn [nsaCache nsaNegCache].
  - intros n neg [[<- <-]|[_ Hl]]%lookup_insert_Some; [done|].
    case_bool_decide; [done|]. by eapply Hn.
  - done.
  - case_bool_decide as Hf.
    + rewrite map_size_insert_None by done. rewrite map_size_empty. unfold nsaNegCacheMax. lia.
    + rewrite map_size_insert. case_match; unfold nsaNegCacheMax, id in *; lia.
Qed.

Lemma finish_spec now nsa reply st r st' :
  nsa_wf st -> nsa_finish now nsa reply st = (r, st') ->
  nsa_wf st' /\ nsaInflight st' = nsaInflight st /\
  ((exists pid, r = (pid, nsaOK) /\ (nsa, pid) ∈ named_by nsa reply /\ pid <> 0 /\
     nsaCache st' = <[nsa := pid]> (nsaCache st)) \/
   (r.1 = 0 /\ r.2 <> nsaOK /\ nsaCache st' = nsaCache st)).
Proof.
  intros Hwf. unfold nsa_finish.
  assert (forall status, status <> nsaOK -> (0, status, rememberNSAFailure now nsa status st) = (r, st') ->
    nsa_wf st' /\ nsaInflight st' = nsaInflight st /\ (r.1 = 0 /\ r.2 <> nsaOK /\ nsaCache st' = nsaCache st))
    as Hfail.
  { intros status Hs [= <- <-]. split; [by apply remember_wf|done]. }
  destruct reply as [|code pid]; [intros E; destruct (Hfail nsaUnreachable) as (? & ? & ?); eauto|].
  case_bool_decide; [intros E; destruct (Hfail nsaUnknown) as (? & ? & ?); eauto|].
  case_bool_decide as Hcode; [intros E; destruct (Hfail nsaUnreachable) as (? & ? & ?); eauto|].
  subst code. destruct pid as [pid|]; [|intros E; destruct (Hfail nsaUnreachable) as (? & ? & ?); eauto].
  case_bool_decide as Hp; [intros E; destruct (Hfail nsaUnreachable) as (? & ? & ?); eauto|].
  intros [= <- <-]. destruct Hwf as [Hn Hpos Hb]. split_and!; [split; cbn|done|].
  - intros n neg [_ Hl]%lookup_delete_Some. by eapply Hn.
  - intros n p [[<- <-]|[_ Hl]]%lookup_insert_Some; [done|by eapply Hpos].
  - rewrite map_size_delete. case_match; unfold id; lia.
  - left. exists pid. by split_and!; [|cbn; apply elem_of_singleton| |].
Qed.

Record nsa_inv (x : NsaSystem) : Prop := {
  ni_wf : nsa_wf (ns_state x);
  ni_slots : nsaInflight (ns_state x) = slots (ns_threads x);
  ni_cap : nsaInflight (ns_state x) <= nsaMaxInflight;
  ni_named : forall n pid, nsaCache (ns_state x) !! n = Some pid -> (n, pid) ∈ ns_named x;
  ni_results : forall t nsa pid,
    ns_threads x !! t = Some (NRelease nsa (pid, nsaOK)) \/
    ns_threads x !! t = Some (NDone nsa (pid, nsaOK)) -> (nsa, pid) ∈ ns_named x
}.

Lemma cached_ok now nsa st pid :
  nsa_wf st -> nsa_cached now nsa st = Some (pid, nsaOK) -> nsaCache st !! nsa = Some pid.
Proof.
  intros Hwf. unfold nsa_cached. destruct (nsaCache st !! nsa); [by intros [= ->]|].
  destruct (nsaNegCache st !! nsa) as [neg|] eqn:Hn; [|done].
  case_bool_decide; [|done]. intros [= _ Hs]. by apply (nw_neg _ Hwf) in Hn.
Qed.

(** The accounts the finished lookups report are among [k]. *)
Definition results_named (ths : gmap Z nsa_pc) (k : gset (Z * Z)) : Prop :=
  forall t nsa pid, ths !! t = Some (NRelease nsa (pid, nsaOK)) \/
    ths !! t = Some (NDone nsa (pid, nsaOK)) -> (nsa, pid) ∈ k.

Lemma results_named_insert ths k k' t p :
  results_named ths k -> k ⊆ k' ->
  (forall nsa pid, p = NRelease nsa (pid, nsaOK) \/ p = NDone nsa (pid, nsaOK) -> (nsa, pid) ∈ k') ->
  results_named (<[t := p]> ths) k'.
Proof.
  intros Hr Hk Hp t' nsa pid. destruct (decide (t = t')) as [<-|Hne].
  - rewrite lookup_insert_eq. intros [[= ->]|[= ->]]; apply Hp; auto.
  - rewrite lookup_insert_ne by done. intros H. by apply Hk, (Hr t').
Qed.

Lemma nsa_step_inv x y : nsa_step x y -> nsa_inv x -> nsa_inv y.
Proof.
  intros Hstep [Hwf Hs Hc Hn Hr]. fold (results_named (ns_threads x) (ns_named x)) in Hr.
  destruct Hstep as
    [t nsa st ths k Ht|t nsa now r st ths k Ht Hhit|t nsa now st ths k Ht _
    |t nsa st st' ths k Ht Ha|t nsa st ths k Ht Ha|t nsa now reply r st st' ths k Ht Hf|t nsa r st ths k Ht];
    cbn [ns_state ns_threads ns_named] in *.
  - split; cbn; try done; [rewrite slots_insert_new by done; cbn; lia|].
    apply (results_named_insert ths k); [done|done|by intros ?? [?|?]].
  - split; cbn; try done; [rewrite (slots_move _ _ _ _ Ht); cbn; lia|].
    apply (results_named_insert ths k); [done|done|].
    intros nsa' pid [?|?]; [done|]. simplify_eq. by eapply Hn, cached_ok.
  - split; cbn; try done; [rewrite (slots_move _ _ _ _ Ht); cbn; lia|].
    apply (results_named_insert ths k); [done|done|by intros ?? [?|?]].
  - unfold nsa_acquire in Ha. case_bool_decide as Hlt; [|done]. injection Ha as <-.
    split; cbn; [by destruct Hwf|rewrite (slots_move _ _ _ _ Ht); cbn; lia|lia|done|].
    apply (results_named_insert ths k); [done|done|by intros ?? [?|?]].
  - split; cbn; try done; [rewrite (slots_move _ _ _ _ Ht); cbn; lia|].
    apply (results_named_insert ths k); [done|done|by intros ?? [?|?]].
  - destruct (finish_spec _ _ _ _ _ _ Hwf Hf) as (Hwf' & Hin & Hcase).
    assert (k ⊆ named_by nsa reply ∪ k) as Hsub by set_solver.
    split; cbn; [done|rewrite (slots_move _ _ _ _ Ht); cbn; lia|lia| |].
    + intros n pid Hl. destruct Hcase as [(p & _ & Hp & _ & Hcache)|(_ & _ & Hcache)]; rewrite Hcache in Hl.
      * apply lookup_insert_Some in Hl as [[<- <-]|[_ Hl]]; [set_solver|]. apply Hsub. by apply Hn.
      * apply Hsub. by apply Hn.
    + apply (results_named_insert ths k); [done|done|]. intros nsa' pid [?|?]; simplify_eq.
      destruct Hcase as [(p & Heq & Hp & _)|(_ & Hne & _)]; [|done]. simplify_eq. set_solver.
  - split; cbn; [by destruct Hwf|rewrite (slots_move _ _ _ _ Ht); cbn; lia|lia|done|].
    apply (results_named_insert ths k); [done|done|].
    intros nsa' pid [?|?]; [done|]. simplify_eq. apply (Hr t). by left.
Qed.


(** One lookup is answered with an account, another with the same body and status 500. *)
Definition looked_up : NsaSystem :=
  mkNsaSystem (nsa_finish 0 1810000008 (Reply 500 (Some 1800000009))
      (mkNsa {[1810000007 := 1800000006]} ∅ 2)).2
    (<[2 := NRelease 1810000008 (0, nsaUnreachable)]> (<[2 := NFetch 1810000008]> (<[2 := NSelect 1810000008]>
      (<[2 := NAsk 1810000008]> (<[1 := NRelease 1810000007 (1800000006, nsaOK)]> (<[1 := NFetch 1810000007]>
      (<[1 := NSelect 1810000007]> (<[1 := NAsk 1810000007]> ∅))))))))
    (named_by 1810000008 (Reply 500 (Some 1800000009)) ∪
      (named_by 1810000007 (Reply 200 (Some 1800000006)) ∪ ∅)).

