(* ===== verification/ProxyProto.v ===== *)
(** * The PROXY-protocol listener (nextendo-nex/proxyproto.go)

    The authentication server may sit behind a proxy that announces the address of each
    client in a first line of text.  This file models the reader of that line, the
    listener that applies it to each accepted connection, and the link it restores
    between a login and the console's direct connection to the secure server. *)

From S2P Require Import Prelude GoStd GoNet Settings Stream Types StationURL Rmc Crypto Kerberos.
From S2P Require Import TicketGranting.
Import GoStrings GoStrconv GoNet.

(** ** Accepting a connection *)

(** The peer of the TCP connection, the bytes of the stream not read yet, and the
    address of the header. *)
Record proxyConn := mkProxyConn {
  pc_Conn : TCPAddr; pc_reader : bytes; pc_remoteAddr : option TCPAddr
}.
Definition proxy_RemoteAddr (c : proxyConn) : TCPAddr := default (pc_Conn c) (pc_remoteAddr c).

Definition newline : Z := 10.

(** [ReadString('\n')]: the line with its delimiter and what follows; [None] when the
    stream ends first. *)
Definition ReadString (s : bytes) : option (bytes * bytes) :=
  match splitn2 newline s with
  | (line, Some rest) => Some (line ++ [newline], rest)
  | (_, None) => None
  end.

(** The client's address in a header line. *)
Definition header_addr (line : gostring) : option TCPAddr :=
  match fields (trim_space line) with
  | _ :: proto :: src :: _ :: sport :: _ :: _ =>
      if bool_decide (proto = str "TCP4") || bool_decide (proto = str "TCP6")
      then (fun ip => mkTCPAddr ip (atoi_value sport)) <$> ParseIP src
      else None
  | _ => None
  end.

(** [stream]: everything the peer sends. *)
Definition Accept (peer : TCPAddr) (stream : bytes) : proxyConn :=
  if has_prefix (str "PROXY ") stream then
    match ReadString stream with
    | Some (line, rest) => mkProxyConn peer rest (header_addr line)
    | None => mkProxyConn peer [] None
    end
  else mkProxyConn peer stream None.

(** ** Waiting for the header

    [Accept] reads from the connection before it returns, and the accept loop calls it
    for one connection after the other. *)
Record Pending := mkPending { pd_peer : TCPAddr; pd_recv : bytes; pd_eof : bool }.

(** The bytes received so far let [Accept] return. *)
Definition accept_ready (p : Pending) : bool :=
  pd_eof p ||
  (bool_decide (6 <= len (pd_recv p)) &&
   (negb (has_prefix (str "PROXY ") (pd_recv p)) || bool_decide (newline ∈ pd_recv p))).

Record Listener := mkListener { ls_queue : list (Z * Pending); ls_accepted : list (Z * proxyConn) }.

(** Steps are labelled by the client that acts; [None] is the server. *)
Inductive listener_step : option Z -> Listener -> Listener -> Prop :=
  | ls_connect id peer q acc :
      listener_step (Some id) (mkListener q acc) (mkListener (q ++ [(id, mkPending peer [] false)]) acc)
  | ls_send id peer recv more q1 q2 acc :
      listener_step (Some id) (mkListener (q1 ++ (id, mkPending peer recv false) :: q2) acc)
        (mkListener (q1 ++ (id, mkPending peer (recv ++ more) false) :: q2) acc)
  | ls_hangup id peer recv q1 q2 acc :
      listener_step (Some id) (mkListener (q1 ++ (id, mkPending peer recv false) :: q2) acc)
        (mkListener (q1 ++ (id, mkPending peer recv true) :: q2) acc)
  | ls_accept id p q acc :
      accept_ready p = true ->
      listener_step None (mkListener ((id, p) :: q) acc)
        (mkListener q (acc ++ [(id, Accept (pd_peer p) (pd_recv p))])).

Inductive listener_run : list (option Z) -> Listener -> Listener -> Prop :=
  | run_nil l : listener_run [] l l
  | run_cons a l1 l2 as_ l3 :
      listener_step a l1 l2 -> listener_run as_ l2 l3 -> listener_run (a :: as_) l1 l3.

(** ** Reading a header *)

(** A non-empty printable ASCII word. *)
Definition word (w : gostring) : Prop := w <> [] /\ Forall (fun b => 33 <= b < 128) w.

Definition header_line (proto src dst sport dport : gostring) : gostring :=
  join 32 [str "PROXY"; proto; src; dst; sport; dport] ++ [13; newline].

Lemma no_wide_space (tr : gostring -> gostring) b s :
  Forall (fun w => 128 <= default 0 (head (tr w))) wide_spaces ->
  33 <= b < 128 -> space_width tr (b :: s) = O.
Proof.
  intros Hw Hb. unfold space_width, is_space.
  rewrite (bool_decide_eq_false_2 (b = 32)), (bool_decide_eq_false_2 (b <= 13)) by lia.
  rewrite andb_false_r. cbn [orb].
  induction Hw as [|w ws Hh Hws IH]; [done|]. cbn [List.find].
  destruct (tr w) as [|x r]; cbn in Hh; [lia|]. cbn [has_prefix]. by rewrite bool_decide_eq_false_2 by lia.
Qed.

Lemma word_byte_width b s : 33 <= b < 128 -> space_width id (b :: s) = O.
Proof. apply no_wide_space. apply (bool_decide_unpack _). by vm_compute. Qed.
Lemma word_byte_width_rev b s : 33 <= b < 128 -> space_width reverse (b :: s) = O.
Proof. apply no_wide_space. apply (bool_decide_unpack _). by vm_compute. Qed.

Lemma fields_acc_word cur w s :
  Forall (fun b => 33 <= b < 128) w -> fields_acc O cur (w ++ s) = fields_acc O (reverse w ++ cur) s.
Proof.
  intros Hw. revert cur. induction Hw as [|b w Hb Hw IH]; intros cur; [done|].
  cbn [app fields_acc]. rewrite word_byte_width by done. by rewrite IH, reverse_cons, <- app_assoc.
Qed.

Lemma fields_words ws : Forall word ws -> fields (join 32 ws) = ws.
Proof.
  intros Hws. unfold fields. induction Hws as [|w ws [Hne Hw] Hws IH]; [done|].
  assert (reverse w ++ [] <> []) as Hr by (rewrite app_nil_r; intros E%(f_equal reverse); by rewrite reverse_involutive in E).
  destruct ws as [|w' ws]; cbn [join].
  - rewrite <- (app_nil_r w), fields_acc_word by done. cbn [fields_acc].
    destruct (reverse w ++ []) eqn:E; [done|]. by rewrite <- E, app_nil_r, reverse_involutive, app_nil_r.
  - rewrite fields_acc_word by done. cbn [fields_acc]. change (space_width id (32 :: ?x)) with 1%nat.
    cbv iota. destruct (reverse w ++ []) eqn:E; [done|]. rewrite <- E, app_nil_r, reverse_involutive.
    f_equal. exact IH.
Qed.

Lemma join_snoc_last c ws : ws <> [] -> Forall word ws ->
  exists s b, join c ws = s ++ [b] /\ 33 <= b < 128.
Proof.
  intros Hne Hws. induction Hws as [|w ws [Hw Hb] Hws IH]; [done|].
  destruct ws as [|w' ws]; [|change (join c (w :: w' :: ws)) with (w ++ c :: join c (w' :: ws))].
  - destruct (exists_last Hw) as (s & b & ->). exists s, b. split; [done|].
    apply Forall_app in Hb as [_ Hb]. by apply (Forall_singleton (fun b => 33 <= b < 128)).
  - destruct IH as (s & b & -> & Hs); [done|]. exists (w ++ c :: s), b. by rewrite <- app_assoc.
Qed.

Lemma trim_line ws : Forall word ws -> ws <> [] ->
  trim_space (join 32 ws ++ [13; newline]) = join 32 ws.
Proof.
  intros Hws Hne. destruct (join_snoc_last 32 ws Hne Hws) as (s & z & Hj & Hz).
  assert (exists a r, join 32 ws = a :: r /\ 33 <= a < 128) as (a & r & Ha & Hab).
  { destruct Hws as [|w ws [Hw Hb] _]; [done|]. destruct w as [|a w]; [done|].
    apply Forall_cons in Hb as [Hb _]. destruct ws; cbn [join app]; eauto. }
  unfold trim_space.
  assert (drop_space id O (join 32 ws ++ [13; newline]) = join 32 ws ++ [13; newline]) as ->.
  { rewrite Ha. cbn [app drop_space]. by rewrite word_byte_width. }
  rewrite reverse_app. change (reverse [13; newline]) with [newline; 13]. cbn [app drop_space].
  change (space_width reverse (newline :: ?x)) with 1%nat. cbv iota.
  cbn [drop_space]. change (space_width reverse (13 :: ?x)) with 1%nat. cbv iota.
  rewrite Hj, reverse_snoc. cbn [drop_space]. rewrite word_byte_width_rev by done.
  by rewrite <- reverse_snoc, reverse_involutive.
Qed.

Lemma word_no_newline ws : Forall word ws -> newline ∉ join 32 ws ++ [13].
Proof.
  intros Hws. rewrite not_elem_of_app. split; [|by intros ?%list_elem_of_singleton].
  assert (Forall (fun b => b <> newline) (join 32 ws)) as Hf.
  { apply join_Forall; [done|]. eapply Forall_impl; [done|]. intros w [_ Hw].
    eapply Forall_impl; [done|]. unfold newline. lia. }
  rewrite Forall_forall in Hf. intros Hin. by apply Hf in Hin.
Qed.

Lemma has_prefix_trans p a r : has_prefix p a = true -> has_prefix p (a ++ r) = true.
Proof.
  revert a; induction p as [|x p IH]; intros a; [done|]. destruct a as [|b a]; [done|]. cbn.
  intros [-> Hp]%andb_true_iff. cbn. by apply IH.
Qed.

(** A header that announces an address gives the connection that address, and the
    server reads on after the line. *)
Lemma accept_header peer proto src dst sport dport ip rest :
  proto = str "TCP4" \/ proto = str "TCP6" -> Forall word [src; dst; sport; dport] ->
  ParseIP src = Some ip ->
  Accept peer (header_line proto src dst sport dport ++ rest) =
    mkProxyConn peer rest (Some (mkTCPAddr ip (atoi_value sport))).
Proof.
  intros Hp Hw Hip. set (ws := [str "PROXY"; proto; src; dst; sport; dport]).
  assert (Forall word ws) as Hws.
  { apply Forall_cons. split; [|apply Forall_cons; split; [|done]].
    - split; [done|]. apply (bool_decide_unpack _). by vm_compute.
    - destruct Hp as [-> | ->]; (split; [done|]); apply (bool_decide_unpack _); by vm_compute. }
  unfold Accept.
  assert (has_prefix (str "PROXY ") (header_line proto src dst sport dport ++ rest) = true) as ->.
  { apply has_prefix_trans. unfold header_line. apply has_prefix_trans.
    exact (has_prefix_app (str "PROXY ") (join 32 [proto; src; dst; sport; dport])). }
  assert (ReadString (header_line proto src dst sport dport ++ rest) =
    Some (header_line proto src dst sport dport, rest)) as ->.
  { unfold ReadString, header_line. fold ws.
    replace ((join 32 ws ++ [13; newline]) ++ rest) with ((join 32 ws ++ [13]) ++ newline :: rest)
      by (by rewrite <- !app_assoc).
    rewrite splitn2_app by (by apply word_no_newline). by rewrite <- app_assoc. }
  unfold header_addr, header_line. fold ws. rewrite trim_line, fields_words by done. cbn [ws].
  rewrite Hip. destruct Hp as [-> | ->]; reflexivity.
Qed.

(** ** From a proxied login to a direct connection *)
Lemma ipHost_TCPAddr a : Forall is_byte (ta_IP a) -> ipHost (TCPAddr_String a) = IP_String (ta_IP a).
Proof. intros Hb. unfold ipHost. by rewrite split_TCPAddr. Qed.

(** The logins that follow, each at its instant from its address. *)
Definition other_logins (l : list (Z * gostring * Z)) (t : RecallTable) : RecallTable :=
  foldl (fun t x => RememberAuthPID x.1.1 None x.1.2 x.2 t) t l.

(** The last of them from [host]: its account and its instant. *)
Definition last_from (host : gostring) (l : list (Z * gostring * Z)) : option (Z * Z) :=
  (fun x => (x.2, x.1.1)) <$> last (filter (fun x => ipHost x.1.2 = host) l).

Lemma other_logins_entry l host t :
  authPIDByIP (other_logins l t) !! host =
  match last_from host l with Some (pid, at_) => Some (mkRecall pid at_) | None => authPIDByIP t !! host end.
Proof.
  induction l as [|[[n a] p] l IH] using rev_ind; [done|].
  unfold other_logins. rewrite foldl_snoc. fold (other_logins l t). cbn [fst snd]. rewrite remembered.
  unfold last_from in *. rewrite filter_app, filter_cons, filter_nil. cbn.
  case_decide as Hh; [rewrite last_snoc; subst; apply lookup_insert_eq|].
  rewrite lookup_insert_ne by done. by rewrite IH, app_nil_r.
Qed.

(** [C24] A console that logs in through the proxy and then opens the secure connection
    directly, from any port of the same address: whoever logs in meanwhile, through the same
    proxy or not, the connection is given the account of the last login made from the
    address in the proxy's header, the console's own unless another console behind the same
    address logged in after it, if that login is at most 24 hours old and its account is not
    zero.  The login is remembered under the address of the header, not under the proxy's. *)
Theorem proxy_login_recalled peer proto src dst sport dport ip rest now pid t others now' port :
  proto = str "TCP4" \/ proto = str "TCP6" -> Forall word [src; dst; sport; dport] ->
  ParseIP src = Some ip -> Forall is_byte ip ->
  let conn := Accept peer (header_line proto src dst sport dport ++ rest) in
  let '(who, since) := default (pid, now) (last_from (IP_String ip) others) in
  pc_reader conn = rest /\
  (RecallAuthPID now' None (TCPAddr_String (mkTCPAddr ip port))
     (other_logins others (RememberAuthPID now None (TCPAddr_String (proxy_RemoteAddr conn)) pid t))).1
    = if bool_decide (who = 0) || bool_decide (authRecallTTL < now' - since) then None else Some who.
Proof.
  intros Hproto Hw Hip Hb conn. subst conn.
  rewrite (accept_header _ _ _ _ _ _ _ _ Hproto Hw Hip).
  destruct (default _ _) as [who since] eqn:Ed. split; [done|].
  rewrite recall_named, init_table, other_logins_entry, ipHost_TCPAddr by done. cbn [ta_IP].
  destruct (last_from (IP_String ip) others) as [[who' since']|]; cbn in Ed; simplify_eq; [done|].
  rewrite remembered, ipHost_TCPAddr, lookup_insert_eq by done. done.
Qed.

Lemma proxy_login_recalled_witness :
  let conn := Accept (mkTCPAddr (v4_in_v6 [10; 0; 1; 7]) 5000)
    (str "PROXY TCP4 82.1.2.3 10.0.1.9 41000 443" ++ [13; 10] ++ str "hello") in
  let recall others := (RecallAuthPID (5 * nanos) None (str "82.1.2.3:60003") (other_logins others
    (RememberAuthPID 3 None (TCPAddr_String (proxy_RemoteAddr conn)) 1800000006 empty_table))).1 in
  recall [(4, str "82.1.2.4:9", 1800000007)] = Some 1800000006 /\
  recall [(4, str "82.1.2.3:9", 1800000008); (5, str "82.1.2.4:9", 1800000007)] = Some 1800000008.
Proof.
  assert (Forall word [str "82.1.2.3"; str "10.0.1.9"; str "41000"; str "443"]) as Hw
    by (unfold word; repeat constructor; try discriminate; vm_compute; discriminate).
  assert (Forall is_byte (v4_in_v6 [82; 1; 2; 3])) as Hb
    by (unfold is_byte; repeat constructor; vm_compute; discriminate).
  pose proof (fun l => proxy_login_recalled (mkTCPAddr (v4_in_v6 [10; 0; 1; 7]) 5000) (str "TCP4")
    (str "82.1.2.3") (str "10.0.1.9") (str "41000") (str "443") (v4_in_v6 [82; 1; 2; 3]) (str "hello")
    3 1800000006 empty_table l (5 * nanos) 60003 (or_introl eq_refl) Hw eq_refl Hb) as Hl.
  split.
  - exact (proj2 (Hl [(4, str "82.1.2.4:9", 1800000007)])).
  - exact (proj2 (Hl [(4, str "82.1.2.3:9", 1800000008); (5, str "82.1.2.4:9", 1800000007)])).
Defined.

(** ** Blocking *)

(** The condition is exact: bytes that arrive later do not change what [Accept] returned,
    they are read after it. *)
Lemma splitn2_more c s a r more : splitn2 c s = (a, Some r) -> splitn2 c (s ++ more) = (a, Some (r ++ more)).
Proof.
  revert a; induction s as [|b s IH]; intros a; cbn; [done|]. case_bool_decide; [by intros [= <- <-]|].
  destruct (splitn2 c s) as [h t]. intros [= <- ->]. by rewrite (IH h).
Qed.

Lemma splitn2_mem c s : c ∈ s -> exists a r, splitn2 c s = (a, Some r).
Proof.
  induction s as [|b s IH]; [by intros ?%elem_of_nil|]. cbn. case_bool_decide; [eauto|].
  intros [?|Hin]%elem_of_cons; [done|]. destruct (IH Hin) as (a & r & ->). eauto.
Qed.

Lemma has_prefix_short p a r : (length p <= length a)%nat -> has_prefix p (a ++ r) = has_prefix p a.
Proof.
  revert a; induction p as [|x p IH]; intros [|b a] Hl; cbn in *; try done; [lia|].
  by rewrite IH by lia.
Qed.

Lemma accept_stable peer recv more :
  accept_ready (mkPending peer recv false) = true ->
  Accept peer (recv ++ more) =
    mkProxyConn peer (pc_reader (Accept peer recv) ++ more) (pc_remoteAddr (Accept peer recv)).
Proof.
  unfold accept_ready. cbn [pd_eof pd_recv orb]. intros [Hlen Hr]%andb_true_iff.
  apply bool_decide_eq_true in Hlen. unfold Accept.
  rewrite has_prefix_short by (unfold len in Hlen; cbn; lia).
  destruct (has_prefix (str "PROXY ") recv); [|done]. cbn [negb orb] in Hr.
  apply bool_decide_eq_true in Hr. destruct (splitn2_mem _ _ Hr) as (a & r & Hs).
  unfold ReadString. by rewrite (splitn2_more _ _ _ _ _ Hs), Hs.
Qed.

(** [C25] One client that connects and stays silent stops all logins: as long as it neither
    sends its first bytes nor hangs up, no connection behind it in the queue is accepted,
    whoever they are and whatever they send; and as soon as it hangs up the queue moves
    again. *)
Theorem silent_client_blocks_logins as_ id p q acc l :
  accept_ready p = false ->
  listener_run as_ (mkListener ((id, p) :: q) acc) l -> Some id ∉ as_ ->
  ls_accepted l = acc /\ exists q', ls_queue l = (id, p) :: q' /\
  exists l', listener_run [Some id; None] l l' /\ ls_queue l' = q' /\
    ls_accepted l' = acc ++ [(id, Accept (pd_peer p) (pd_recv p))].
Proof.
  intros Hp Hrun. remember (mkListener ((id, p) :: q) acc) as l0 eqn:E. revert q E.
  induction Hrun as [l|a l1 l2 as_ l3 Hs Hr IH]; intros q -> Hno.
  - split; [done|]. exists q. split; [done|]. exists (mkListener q (acc ++ [(id, Accept (pd_peer p) (pd_recv p))])). split; [|done].
    destruct p as [peer recv eof]. unfold accept_ready in Hp. cbn [pd_eof orb] in Hp.
    destruct eof; [done|].
    eapply run_cons; [apply (ls_hangup id peer recv [] q acc)|].
    eapply run_cons; [by apply (ls_accept id (mkPending peer recv true) q acc)|]. apply run_nil.
  - rewrite not_elem_of_cons in Hno. destruct Hno as [Ha Hno].
    assert (exists q2, l2 = mkListener ((id, p) :: q2) acc) as [q2 ->]; [|by eapply IH].
    inversion Hs as [id' peer q0 acc0 Ea Eq|id' peer recv more q1 q2 acc0 Ea Eq
      |id' peer recv q1 q2 acc0 Ea Eq|id' p' q0 acc0 Hready Ea Eq]; subst.
    + by exists (q ++ [(id', mkPending peer [] false)]).
    + destruct q1 as [|x q1]; cbn in Eq; simplify_eq. by eexists.
    + destruct q1 as [|x q1]; cbn in Eq; simplify_eq. by eexists.
    + congruence.
Qed.

Lemma silent_client_blocks_logins_witness :
  exists l, listener_run [Some 2; Some 2]
    (mkListener [(1, mkPending (mkTCPAddr (v4_in_v6 [10; 0; 1; 7]) 5000) [] false)] []) l /\
    length (ls_queue l) = 2%nat /\ ls_accepted l = [].
Proof.
  set (p1 := mkPending (mkTCPAddr (v4_in_v6 [10; 0; 1; 7]) 5000) [] false).
  set (peer := mkTCPAddr (v4_in_v6 [10; 0; 1; 8]) 5001).
  set (head := str "PROXY TCP4 1.2.3.4 10.0.1.9 7 443" ++ [13; 10]).
  exists (mkListener [(1, p1); (2, mkPending peer head false)] []).
  assert (listener_run [Some 2; Some 2] (mkListener [(1, p1)] [])
    (mkListener [(1, p1); (2, mkPending peer head false)] [])) as Hr.
  { eapply run_cons; [apply (ls_connect 2 peer [(1, p1)] [])|].
    eapply run_cons; [apply (ls_send 2 peer [] head [(1, p1)] [] [])|]. apply run_nil. }
  split; [exact Hr|].
  destruct (silent_client_blocks_logins [Some 2; Some 2] 1 p1 [] [] _ eq_refl Hr) as [Ha _].
  - apply (bool_decide_unpack _). vm_compute. exact I.
  - split; [reflexivity|exact Ha].
Defined.
