(* ===== verification/NatTraversal.v ===== *)
(** * NAT traversal (nextendo-nex/nattraversal.go)

    Coordination of the consoles' hole punching: relaying a caller's station to the peers
    it names, recording the NAT behaviour a console reports, and acknowledgements.  The
    verdicts of [logNATResult] only go to the log. *)

From S2P Require Import Prelude GoStd GoNet Settings Stream Types StationURL Rmc Connection.
From S2P Require Import Stations.
Import GoStrings GoStrconv.

Definition ProtocolNATTraversal : Z := 0x03.
Definition MethodRequestProbeInitiation : Z := 0x1.
Definition MethodInitiateProbe : Z := 0x2.
Definition MethodRequestProbeInitiationExt : Z := 0x3.
Definition MethodReportNATTraversalResult : Z := 0x4.
Definition MethodReportNATProperties : Z := 0x5.
Definition MethodGetRelaySignatureKey : Z := 0x6.
Definition MethodReportNATTraversalResultDetail : Z := 0x7.

Definition probeRepointEnabled (NEXTENDO_PROBE_REPOINT : gostring) : bool :=
  bool_decide (NEXTENDO_PROBE_REPOINT = str "1") || bool_decide (NEXTENDO_PROBE_REPOINT = str "true").

(** The host; it never fails. *)
Definition splitHostPortSafe (addr : gostring) : gostring :=
  match GoNet.SplitHostPort addr with Some (h, _) => h | None => addr end.

Definition natAck (req : RMCMessage) : RMCMessage :=
  NewRMCSuccess ProtocolNATTraversal (Method req) (CallID req) [].

(** [now] is the packed current date. *)
Definition relaySignatureKey (now : Z) (req : RMCMessage) : RMCMessage :=
  NewRMCSuccess ProtocolNATTraversal (Method req) (CallID req)
    (StreamOut.U32 0 ++ StreamOut.DateTime now ++ StreamOut.GoString [] ++ StreamOut.U16 0 ++
     StreamOut.U32 0 ++ StreamOut.U32 0).

(** The station with the address and port the server observes; [look] is [natPortForIP]. *)
Definition repoint (look : gostring -> NatCache -> option Z * NatCache) (host station : gostring)
    (k : NatCache) : gostring * NatCache :=
  let u := ParseStationURL station in
  let u := if bool_decide (Get u (str "address") <> host) then Set_ u (str "address") host else u in
  let '(port, k) := look host k in
  let u := match port with Some p => SetInt u (str "port") p | None => u end in
  (ToString u, k).

(** The connection a target names by its RVCID. *)
Definition probe_target (ep : Registry) (raw : gostring) : option Z :=
  let rvcid := u32 (GetInt (ParseStationURL raw) (str "RVCID")) in
  if bool_decide (rvcid = 0) then None else FindConnectionByID ep rvcid.

Definition probe_request (req : RMCMessage) (station : gostring) : RMCMessage :=
  NewRMCRequest ProtocolNATTraversal MethodInitiateProbe (u32 (0xFFFF0000 + CallID req))
    (write_StationURL (ParseStationURL station)).

(** The requests pushed, in order. *)
Definition pushInitiateProbe (enabled : bool) (look : gostring -> NatCache -> option Z * NatCache)
    (ep : Registry) (c : Connection) (req : RMCMessage) (k : NatCache)
    : list (Z * RMCMessage) * NatCache :=
  let '((targetList, stationToProbe), st) :=
    (l <-- StreamInOps.ReadList StreamInOps.GoString ;; x <-- StreamInOps.GoString ;;
     rret (l, x))%reader (NewStreamIn (Body req)) in
  if si_err st then ([], k)
  else
    let host := splitHostPortSafe (RemoteAddr c) in
    let '(station, k) := if enabled && negb (isPrivateIP host)
                         then repoint look host stationToProbe k else (stationToProbe, k) in
    (omap (fun raw => (fun ref => (ref, probe_request req station)) <$> probe_target ep raw) targetList,
     k).

(** [OnNATProperties] is the endpoint's hook, on the application's state [a]. *)
Definition noteNATProperties {App} (OnNATProperties : option (Z -> Z -> Z -> Z -> App -> App))
    (c : Connection) (req : RMCMessage) (a : App) : Connection * App :=
  let '((natMap, natFilter, rtt), st) :=
    (m <-- StreamInOps.U32 ;; f <-- StreamInOps.U32 ;; rtt <-- StreamInOps.U32 ;;
     rret (m, f, rtt))%reader (NewStreamIn (Body req)) in
  if si_err st then (c, a)
  else (SetNATProps natMap natFilter c,
        match OnNATProperties with Some hook => hook (PID c) natMap natFilter rtt a | None => a end).

(** The caller's connection after the call, the requests pushed to others, the response,
    the observation cache and the application's state. *)
Definition NATTraversalHandler {App} (OnNATProperties : option (Z -> Z -> Z -> Z -> App -> App))
    (enabled : bool) (look : gostring -> NatCache -> option Z * NatCache)
    (now : Z) (ep : Registry) (c : Connection) (req : RMCMessage) (k : NatCache) (a : App)
    : Connection * list (Z * RMCMessage) * RMCMessage * NatCache * App :=
  let meth m := bool_decide (Method req = m) in
  if meth MethodRequestProbeInitiationExt then
    let '(pushes, k) := pushInitiateProbe enabled look ep c req k in (c, pushes, natAck req, k, a)
  else if meth MethodReportNATTraversalResult || meth MethodReportNATTraversalResultDetail then
    (c, [], natAck req, k, a)
  else if meth MethodReportNATProperties then
    let '(c, a) := noteNATProperties OnNATProperties c req a in (c, [], natAck req, k, a)
  else if meth MethodGetRelaySignatureKey then (c, [], relaySignatureKey now req, k, a)
  else if meth MethodRequestProbeInitiation || meth MethodInitiateProbe then (c, [], natAck req, k, a)
  else (c, [], notImplemented ProtocolNATTraversal req, k, a).

(** ** What the peers receive *)
Lemma Set_printable u k v :
  url_printable u -> semi ∉ k -> equals ∉ k -> semi ∉ v -> url_printable (Set_ u k v).
Proof.
  intros (Hs & Hc & Hk) H1 H2 H3. split_and!; [done|done|]. cbn [Set_ keys].
  assert (Forall (fun k0 => (semi ∉ k0) /\ (equals ∉ k0) /\ semi ∉ Get (Set_ u k v) k0) (keys u)) as Hold.
  { eapply Forall_impl; [done|]. intros k0 (? & ? & ?). split_and!; [done|done|].
    destruct (decide (k = k0)) as [<-|]; [by rewrite Get_Set|by rewrite Get_Set_ne]. }
  case_bool_decide; [|done]. apply Forall_app. split; [done|]. apply Forall_singleton.
  by rewrite Get_Set.
Qed.

(** The station after repointing. *)
Record repointed (host : gostring) (port : option Z) (u v : StationURL) : Prop := {
  rp_scheme : Scheme v = Scheme u;
  rp_address : Get v (str "address") = host;
  rp_port : Get v (str "port") = match port with Some p => itoa p | None => Get u (str "port") end;
  rp_other : forall key, key <> str "address" -> key <> str "port" -> Get v key = Get u key
}.

Lemma repoint_spec look host u k port k' :
  url_wf u -> url_printable u -> semi ∉ host -> look host k = (port, k') ->
  exists v, repoint look host (ToString u) k = (ToString v, k') /\
    url_wf v /\ url_printable v /\ repointed host port u v.
Proof.
  intros Hwf Hpr Hh Hl. unfold repoint. rewrite parse_print_url, Hl by done.
  set (v := if bool_decide _ then Set_ u _ host else u).
  assert (url_wf v /\ url_printable v /\ Scheme v = Scheme u /\ Get v (str "address") = host /\
    forall key, key <> str "address" -> Get v key = Get u key) as (Hvw & Hvp & Hs & Ha & Ho).
  { subst v. case_bool_decide as E.
    - split_and!; [by apply Set_wf| |done|apply Get_Set|].
      + apply Set_printable; [done| | |done]; apply (bool_decide_unpack _); by vm_compute.
      + intros key Hk. apply Get_Set_ne. congruence.
    - by split_and!. }
  assert (semi ∉ str "port" /\ equals ∉ str "port") as [Hp1 Hp2]
    by (split; apply (bool_decide_unpack _); by vm_compute).
  destruct port as [p|].
  - exists (SetInt v (str "port") p). unfold SetInt. split_and!; [done|by apply Set_wf| |].
    + apply Set_printable; [done..|]. apply itoa_no_char; unfold semi; lia.
    + split; [done| |apply Get_Set|]; intros; rewrite Get_Set_ne by done; auto.
  - exists v. split_and!; [done|done|done|]. split; auto.
Qed.

(** The target names the connection with the number [id]: it is a station url whose
    parameter RVCID is that number in decimal; a target without an RVCID names number 0. *)
Inductive names : gostring -> Z -> Prop :=
  | names_id t id : url_wf t -> url_printable t -> 0 <= id < 2 ^ 32 ->
      Get t (str "RVCID") = itoa id -> names (ToString t) id
  | names_none raw : Get (ParseStationURL raw) (str "RVCID") = [] -> names raw 0.

(** Whom a target that names [id] reaches: the connection the registry has under the
    number, and nobody for 0. *)
Lemma names_target ep raw id :
  names raw id -> probe_target ep raw = if bool_decide (id = 0) then None else connections ep !! id.
Proof.
  intros [t n Hwf Hpr Hn Hg|r Hg]; unfold probe_target, GetInt.
  - rewrite parse_print_url, Hg, atoi_value_itoa by (done || lia). unfold u32. by rewrite (Z.mod_small n).
  - rewrite Hg. reflexivity.
Qed.

(** [C38] A caller's request to be probed, in a message that parses and names its targets
    by their RVCID: the connection registered under each number gets one request, in the
    order of the list; the number 0, a target without RVCID and a number nobody is
    registered under are passed over.  Each request carries the caller's station as the
    caller sent it.  With repointing on and a caller seen at a public address, the
    station's address is the one the server sees and its port the one the NAT responder
    observed, everything else unchanged. *)
Theorem probe_relay {App} hook enabled look now ep c req k (a : App) targets ids u :
  url_wf u -> url_printable u -> str_ok (ToString u) ->
  Forall2 names targets ids -> Forall str_ok targets -> len targets < 2 ^ 32 ->
  semi ∉ splitHostPortSafe (RemoteAddr c) ->
  Method req = MethodRequestProbeInitiationExt ->
  Body req = StreamOut.WriteList targets StreamOut.GoString ++ StreamOut.GoString (ToString u) ->
  let host := splitHostPortSafe (RemoteAddr c) in
  exists v k',
    NATTraversalHandler hook enabled look now ep c req k a =
      (c, omap (fun id => (fun ref => (ref, NewRMCRequest ProtocolNATTraversal MethodInitiateProbe
                              (u32 (0xFFFF0000 + CallID req)) (write_StationURL v))) <$>
                           (if bool_decide (id = 0) then None else connections ep !! id)) ids,
       natAck req, k', a) /\
    (str_ok (ToString v) -> decodes StationURLValue (write_StationURL v) v) /\
    if enabled && negb (isPrivateIP host) then repointed host (look host k).1 u v else v = u.
Proof.
  intros Hwf Hpr Hsu Hids Hts Hlen Hh Hm Hb host. unfold NATTraversalHandler, pushInitiateProbe.
  assert (forall f : Z -> Z * RMCMessage, omap (fun raw => f <$> probe_target ep raw) targets =
    omap (fun id => f <$> (if bool_decide (id = 0) then None else connections ep !! id)) ids) as Hto.
  { intros f. clear -Hids. induction Hids as [|raw id ts js Hn _ IH]; [done|]. cbn.
    by rewrite (names_target ep _ _ Hn), IH. }
  rewrite (bool_decide_eq_true_2 (Method req = _)) by done.
  assert (decodes (l <-- StreamInOps.ReadList StreamInOps.GoString ;; x <-- StreamInOps.GoString ;;
     rret (l, x))%reader (Body req) (targets, ToString u)) as Hd.
  { rewrite Hb. eapply decodes_bind.
    - apply decodes_ReadList; [done|]. eapply Forall_impl; [done|]. intros x Hx.
      split; [by apply decodes_GoString|]. rewrite len_GoString. pose proof (len_nonneg x). lia.
    - by eapply decodes_bind_ret_eq; [apply decodes_GoString|]. }
  specialize (Hd []). rewrite app_nil_r in Hd. rewrite Hd. cbn [NewStreamIn si_err]. fold host.
  assert (forall v, url_wf v -> url_printable v -> str_ok (ToString v) ->
    decodes StationURLValue (write_StationURL v) v) as Hdec.
  { intros v Hv Hp Hs. eapply decodes_bind_ret_eq; [by apply decodes_GoString|]. by apply parse_print_url. }
  destruct (enabled && negb (isPrivateIP host)).
  - destruct (look host k) as [port k'] eqn:Hl.
    destruct (repoint_spec look host u k port k' Hwf Hpr Hh Hl) as (v & -> & Hvw & Hvp & Hr).
    exists v, k'. unfold probe_request. rewrite Hto, parse_print_url by done. auto.
  - exists u, k. unfold probe_request. rewrite Hto, parse_print_url by done. auto.
Qed.

Definition peer_url : StationURL := SetInt (NewStationURL (str "prudp")) (str "RVCID") 7.

Lemma probe_relay_witness :
  let ep := mkRegistry ∅ {[7 := 3]} 7 in
  let c := set_ID 5 (NewConnection (str "82.1.2.3:4000")) in
  let req := NewRMCRequest ProtocolNATTraversal MethodRequestProbeInitiationExt 9
    (StreamOut.WriteList [ToString peer_url; []] StreamOut.GoString ++ StreamOut.GoString (ToString ex_url)) in
  exists v k',
    NATTraversalHandler None true (fun _ k => (Some 61000, k)) 0 ep c req empty_NatCache tt =
      (c, [(3, NewRMCRequest ProtocolNATTraversal MethodInitiateProbe 0xFFFF0009 (write_StationURL v))],
       natAck req, k', tt) /\
    Get v (str "address") = str "82.1.2.3" /\ Get v (str "port") = str "61000".
Proof.
  intros ep c req.
  destruct (probe_relay None true (fun _ k => (Some 61000, k)) 0 ep c req empty_NatCache tt
    [ToString peer_url; []] [7; 0] ex_url) as (v & k' & Hh & _ & Hv).
  - apply Set_wf, Set_wf, NewStationURL_wf.
  - split_and!; [discriminate|apply (bool_decide_unpack _); vm_compute; exact I|].
    apply (bool_decide_unpack _). vm_compute. exact I.
  - unfold str_ok. vm_compute. reflexivity.
  - constructor; [|constructor; [|constructor]].
    + apply names_id; [apply Set_wf, NewStationURL_wf| |lia|vm_compute; reflexivity].
      split_and!; [discriminate|apply (bool_decide_unpack _); vm_compute; exact I|].
      apply (bool_decide_unpack _). vm_compute. exact I.
    + apply names_none. vm_compute. reflexivity.
  - repeat constructor; unfold str_ok; vm_compute; reflexivity.
  - vm_compute. reflexivity.
  - apply (bool_decide_unpack _). vm_compute. exact I.
  - reflexivity.
  - reflexivity.
  - exists v, k'. split; [exact Hh|]. 
    split; [exact (rp_address _ _ _ _ Hv)|exact (rp_port _ _ _ _ Hv)].
Defined.
