(* ===== verification/Utility.v ===== *)
(** * The utility protocol (nextendo-nex/utility.go)

    Empty settings, and a unique id and password derived from the account number. *)

From S2P Require Import Prelude Settings Stream Types Rmc.

Definition ProtocolUtility : Z := 0x6E.
Definition MethodGetIntegerSettings : Z := 0x7.
Definition MethodGetStringSettings : Z := 0x8.
Definition MethodAcquireNexUniqueID : Z := 0x1.
Definition MethodAcquireNexUniqueIDWithPassword : Z := 0x2.
Definition nexUniqueIDPasswordSalt : Z := 0x4e45585f50574421.

Record UniqueIDInfo := mkUniqueID { NEXUniqueID : Z; NEXUniqueIDPassword : Z }.
#[export] Instance UniqueIDInfo_Structure : Structure UniqueIDInfo := [
  {| Version := 0;
     Save := Some (fun s u => StreamOut.U64 (NEXUniqueID u) ++ StreamOut.U64 (NEXUniqueIDPassword u));
     Load := Some (fun s _ => (a <-- StreamInOps.U64 ;; b <-- StreamInOps.U64 ;;
                               rret (mkUniqueID a b))%reader) |}].

Definition UtilityHandler (s : Settings) (pid : Z) (req : RMCMessage) : RMCMessage :=
  let meth m := bool_decide (Method req = m) in
  let reply body := NewRMCSuccess ProtocolUtility (Method req) (CallID req) body in
  if meth MethodGetIntegerSettings || meth MethodGetStringSettings then reply (StreamOut.U32 0)
  else if meth MethodAcquireNexUniqueID then reply (StreamOut.U64 pid)
  else if meth MethodAcquireNexUniqueIDWithPassword then
    reply (WriteStructure s (mkUniqueID pid (Z.lxor pid nexUniqueIDPasswordSalt)))
  else notImplemented ProtocolUtility req.

Lemma lxor_uint a b : is_uint 64 a -> is_uint 64 b -> is_uint 64 (Z.lxor a b).
Proof.
  unfold is_uint. intros Ha Hb.
  replace (Z.lxor a b) with (Z.lxor a b mod 2 ^ 64); [apply Z.mod_pos_bound; lia|].
  apply Z.bits_inj'. intros i Hi. destruct (Z.lt_ge_cases i 64).
  - by rewrite Z.mod_pow2_bits_low by lia.
  - rewrite Z.mod_pow2_bits_high, Z.lxor_spec by lia.
    rewrite <- (Z.mod_small a (2 ^ 64)), <- (Z.mod_small b (2 ^ 64)) by lia.
    by rewrite !Z.mod_pow2_bits_high by lia.
Qed.

(** The unique id of an account is its number, and the password determines it: a console
    that reads the answer gets both, and two accounts never share a password. *)
Theorem unique_id_answer s pid req :
  is_uint 64 pid -> Method req = MethodAcquireNexUniqueIDWithPassword ->
  exists info, info = mkUniqueID pid (Z.lxor pid nexUniqueIDPasswordSalt) /\
    decodes (ReadStructure s (mkUniqueID 0 0)) (Body (UtilityHandler s pid req)) info /\
    Z.lxor (NEXUniqueIDPassword info) nexUniqueIDPasswordSalt = pid.
Proof.
  intros Hp Hm. eexists. split; [done|]. unfold UtilityHandler. rewrite Hm. split.
  - assert (is_uint 64 (Z.lxor pid nexUniqueIDPasswordSalt)) as Hx by (by apply lxor_uint).
    apply (decodes_Structure1 _ s _ (mkUniqueID 0 0)). split_and!; [done|done|].
    eexists. split; [reflexivity|]. intros c. cbn. eapply decodes_bind; [by apply decodes_U64|].
    eapply decodes_bind_ret_eq; [by apply decodes_U64|done].
  - cbn. by rewrite Z.lxor_assoc, Z.lxor_nilpotent, Z.lxor_0_r.
Qed.
