(* ===== verification/Dashboard.v ===== *)
(** * The monitoring interface (server/dashboard.go, nextendo-nex/dashboard_data.go)

    Call counters fed by the endpoint's hooks, snapshots of the live lobbies and
    connections, the statistics built from them, and the two HTTP operations.  The HTTP
    library and the JSON text are not modelled: a request is its query parameters, an
    answer is the value that is encoded.  What the geolocation service answers is an
    input.  Clock readings are inputs, one per call of [time.Now] or [time.Since]. *)

From Stdlib Require Import SpecFloat.
From S2P Require Import Prelude GoStd GoNet GoTime Settings Stream Types StationURL Rmc PrudpLite.
From S2P Require Import Matchmaking Reservations Notification Connection Stations Store Crypto.
From S2P Require Import Kerberos TicketGranting Endpoint.
Import GoStrings GoStrconv.

(** ** Snapshots (dashboard_data.go) *)
Record GatheringInfo := mkGatheringInfo {
  gi_ID : Z; gi_OwnerPID : Z; gi_HostPID : Z; gi_Participants : list Z; gi_GameMode : Z;
  gi_VR : Z; gi_Attribs : list Z; gi_MaxPart : Z; gi_State : Z; gi_Code : gostring
}.

Definition gathering_info (gid : Z) (g : gathering) : GatheringInfo :=
  let s := session g in
  mkGatheringInfo gid (OwnerPID s) (HostPID s) (participants g) (GameMode s)
    (if bool_decide (1 < len (Attribs s)) then nth 1 (Attribs s) 0 else 0)
    (Attribs s) (MaxParticipants s) (g_State (ms_Gathering s)) (code g).

Definition Snapshot `{GoRange} (m : MMStore) : list GatheringInfo :=
  (fun kv => gathering_info kv.1 kv.2) <$> range (gatherings m).

Record ConnInfo := mkConnInfo { ci_PID : Z; ci_ID : Z; ci_Addr : gostring }.

Definition SnapshotConnections `{GoRange} (r : Registry) : list ConnInfo :=
  omap (fun ref => (fun c => mkConnInfo (PID c) (ID c) (RemoteAddr c)) <$> heap r !! ref)
    (snapshotConns r).

(** ** Names *)
Fixpoint hex_upper (fuel : nat) (n : Z) : gostring :=
  let digit d := if bool_decide (d < 10) then 48 + d else 55 + d in
  match fuel with
  | O => []
  | S f => if bool_decide (n < 16) then [digit n] else hex_upper f (n / 16) ++ [digit (n mod 16)]
  end.

(** A map literal indexed by [k]: the empty string when there is no such key. *)
Definition named (l : list (Z * gostring)) (k : Z) : gostring :=
  match List.find (fun x => bool_decide (x.1 = k)) l with Some x => x.2 | None => [] end.

Definition protocol_names : list (Z * gostring) :=
  [(0x0A, str "TicketGranting"); (0x0B, str "SecureConnection"); (0x6E, str "Utility");
   (0x70, str "Ranking"); (0x6D, str "MatchmakeExt"); (0x15, str "MatchMaking");
   (0x32, str "MatchMakingExt"); (0x03, str "NATTraversal"); (0x0E, str "Notifications")].

Definition method_names (proto : Z) : list (Z * gostring) :=
  if bool_decide (proto = 0x0A) then [(1, str "Login"); (2, str "LoginEx"); (3, str "RequestTicket")]
  else if bool_decide (proto = 0x0B) then [(1, str "Register"); (4, str "RegisterEx"); (7, str "ReplaceURL")]
  else if bool_decide (proto = 0x6E) then
    [(1, str "AcquireNexUniqueID"); (7, str "GetIntegerSettings"); (8, str "GetStringSettings")]
  else if bool_decide (proto = 0x70) then
    [(1, str "UploadScore"); (4, str "UploadCommonData"); (6, str "GetCommonData")]
  else if bool_decide (proto = 0x6D) then
    [(0x26, str "CreateMatchmakeSessionWithParam"); (0x27, str "JoinMatchmakeSessionWithParam");
     (0x28, str "AutoMatchmakeWithParamPostpone"); (0x22, str "UpdateProgressScore");
     (0x31, str "FindMatchmakeSessionBySingleID"); (0x3C, str "GetSimplePlayingSession");
     (0x44, str "PrivateRoomCreate"); (0x45, str "ResolveCode")]
  else if bool_decide (proto = 0x15) then
    [(0x02, str "UnregisterGathering"); (0x29, str "GetSessionURLs"); (0x15, str "FindBySingleID")]
  else if bool_decide (proto = 0x32) then [(0x01, str "EndParticipation")]
  else if bool_decide (proto = 0x03) then
    [(2, str "InitiateProbe"); (3, str "RequestProbeInitiationExt"); (5, str "ReportNATProperties")]
  else [].

Definition rmcName (proto method : Z) : gostring :=
  let pn := named protocol_names proto in
  let pn := match pn with [] => str "Proto-0x" ++ hex_upper 4 proto | _ => pn end in
  let mn := named (method_names proto) method in
  let mn := match mn with [] => str "m" ++ utoa method | _ => mn end in
  pn ++ str "::" ++ mn.

Definition gameModeName (mode : Z) : gostring :=
  if bool_decide (mode = 1) then str "Course"
  else if bool_decide (mode = 2) then str "Course (équipe)"
  else if bool_decide (mode = 3) then str "Bataille"
  else if bool_decide (mode = 4) then str "Bataille (équipe)"
  else str "Mode " ++ utoa mode.

Definition natTypeLabel (m f : Z) : gostring :=
  if bool_decide (m = 0) && bool_decide (f = 0) then []
  else if bool_decide (m <= 1) && bool_decide (f <= 1) then str "Ouvert"
  else if bool_decide (m <= 1) then str "Modéré"
  else str "Strict".

Definition dispName (pid : Z) : gostring := str "Joueur-" ++ utoa (pid mod 100000).

(** ** Counters *)

(** A zero [time.Time] is [None]. *)
Record playerInfo := mkPlayerInfo {
  pi_PID : Z; pi_FirstSeen : Z; pi_LastSeen : option Z; pi_IP : gostring; pi_Calls : Z;
  pi_LastProto : Z; pi_LastMethod : Z; pi_NATMap : Z; pi_NATFilter : Z; pi_Ping : Z
}.
Definition new_player (pid now : Z) : playerInfo := mkPlayerInfo pid now None [] 0 0 0 0 0 0.

Record rmcEvent := mkRmcEvent { ev_T : Z; ev_PID : Z; ev_Proto : Z; ev_Method : Z }.

Record geoInfo := mkGeo { Country : gostring; CC : gostring; City : gostring; ISP : gostring }.
Definition no_geo : geoInfo := mkGeo [] [] [] [].

(** The package's variables; [geoFetches] are the lookups started and not answered. *)
Record DashState := mkDash {
  playerMeta : gmap Z playerInfo; sessionsSeen : Z; peakConnected : Z; rmcTotal : Z;
  events : list rmcEvent; methodCount : gmap gostring Z;
  geoCache : gmap gostring geoInfo; geoFetches : list gostring
}.
Definition dash_start : DashState := mkDash ∅ 0 0 0 [] ∅ ∅ [].

Definition ghostIdle (NEXTENDO_GHOST_IDLE_SECONDS : gostring) : Z :=
  match atoi NEXTENDO_GHOST_IDLE_SECONDS with
  | Some n => if bool_decide (0 < n) then sint 64 (n * nanos) else 15 * 60 * nanos
  | None => 15 * 60 * nanos
  end.

(** [None]: the player was not known. *)
Definition player_called (ghost now pid : Z) (addr : gostring) (proto method : Z)
    (old : option playerInfo) : playerInfo :=
  let pi := default (new_player pid now) old in
  let first := match pi_LastSeen pi with
    | Some l => if bool_decide (ghost < now - l) then now else pi_FirstSeen pi
    | None => pi_FirstSeen pi
    end in
  mkPlayerInfo (pi_PID pi) first (Some now)
    (if bool_decide (addr = []) then pi_IP pi else addr) (sint 64 (pi_Calls pi + 1)) proto method
    (pi_NATMap pi) (pi_NATFilter pi) (pi_Ping pi).

(** [now] and [now'] are the two clock readings. *)
Definition noteRMC (ghost now now' : Z) (c : Connection) (req : RMCMessage) (d : DashState) : DashState :=
  let pid := PID c in
  if bool_decide (pid = 0) then d
  else
    let old := playerMeta d !! pid in
    let evs := events d ++ [mkRmcEvent now' pid (Protocol req) (Method req)] in
    let name := rmcName (Protocol req) (Method req) in
    mkDash
      (<[pid := player_called ghost now pid (RemoteAddr c) (Protocol req) (Method req) old]> (playerMeta d))
      (match old with None => sint 64 (sessionsSeen d + 1) | Some _ => sessionsSeen d end)
      (peakConnected d) (sint 64 (rmcTotal d + 1))
      (if bool_decide (100 < len evs) then zdrop (len evs - 100) evs else evs)
      (<[name := sint 64 (default 0 (methodCount d !! name) + 1)]> (methodCount d))
      (geoCache d) (geoFetches d).

Definition noteNAT (now pid natMap natFilter rtt : Z) (d : DashState) : DashState :=
  if bool_decide (pid = 0) then d
  else
    let pi := default (new_player pid now) (playerMeta d !! pid) in
    let pi := mkPlayerInfo (pi_PID pi) (pi_FirstSeen pi) (pi_LastSeen pi) (pi_IP pi) (pi_Calls pi)
                (pi_LastProto pi) (pi_LastMethod pi) natMap natFilter
                (if bool_decide (0 < rtt) then rtt else pi_Ping pi) in
    mkDash (<[pid := pi]> (playerMeta d)) (sessionsSeen d) (peakConnected d) (rmcTotal d) (events d)
      (methodCount d) (geoCache d) (geoFetches d).

(** ** Geolocation *)
Definition ipOnly (addr : gostring) : gostring :=
  match GoNet.last_index GoNet.colon addr with
  | Some (S i) => take (S i) addr
  | _ => addr
  end.

Definition geoLookup (addr : gostring) (d : DashState) : geoInfo * DashState :=
  let ip := ipOnly addr in
  match geoCache d !! ip with
  | Some g => (g, d)
  | None =>
      (no_geo, mkDash (playerMeta d) (sessionsSeen d) (peakConnected d) (rmcTotal d) (events d)
                 (methodCount d) (<[ip := no_geo]> (geoCache d)) (geoFetches d ++ [ip]))
  end.

(** The goroutine of the [i]-th fetch stores the answer it got. *)
Definition geo_fetched (i : nat) (g : geoInfo) (d : DashState) : DashState :=
  match geoFetches d !! i with
  | None => d
  | Some ip =>
      mkDash (playerMeta d) (sessionsSeen d) (peakConnected d) (rmcTotal d) (events d)
        (methodCount d) (<[ip := g]> (geoCache d)) (delete i (geoFetches d))
  end.

(** ** Statistics *)
Record apiPlayer := mkApiPlayer {
  ap_PID : Z; ap_Name : gostring; ap_IP : gostring; ap_State : gostring; ap_Gathering : Z;
  ap_OnlineSecs : Z; ap_Calls : Z; ap_LastAction : gostring; ap_IdleSecs : Z; ap_Geo : geoInfo;
  ap_NatType : gostring; ap_Ping : Z; ap_VR : Z; ap_Mode : gostring; ap_IsHost : bool
}.
Record apiLobbyP := mkApiLobbyP { al_PID : Z; al_Name : gostring; al_VR : Z; al_Host : bool }.
Record apiGathering := mkApiGathering {
  ag_ID : Z; ag_HostPID : Z; ag_HostName : gostring; ag_Type : gostring; ag_Mode : Z; ag_VR : Z;
  ag_Players : list apiLobbyP; ag_Count : Z; ag_Max : Z; ag_State : gostring; ag_Code : gostring;
  ag_Attribs : list Z
}.
Record apiEvent := mkApiEvent { ae_Ago : Z; ae_PID : Z; ae_Action : gostring }.
Record apiMethod := mkApiMethod { am_Name : gostring; am_Count : Z }.
Record apiServer := mkApiServer {
  as_AccessKey : gostring; as_NexVersion : gostring; as_AuthPort : gostring; as_SecurePort : Z;
  as_SNIHost : gostring; as_SessionKey : Z; as_Stack : gostring
}.
Record apiStats := mkApiStats {
  st_ServerTime : gostring; UptimeSeconds : Z; Connected : Z; InLobby : Z; ActiveLobbies : Z;
  TotalSessions : Z; TotalRMC : Z; GatheringsMade : Z; PeakConnected : Z; st_Server : apiServer;
  Players : list apiPlayer; Gatherings : list apiGathering; Events : list apiEvent;
  Methods : list apiMethod
}.

(** [int(d.Seconds())]: the quotient and the remainder over a second are added as
    double-precision numbers, and the sum is truncated. *)
Definition f64_of_Z (z : Z) : spec_float := binary_normalize 53 1024 z 0 false.
Definition Seconds (d : Z) : spec_float :=
  SFadd 53 1024 (f64_of_Z (Z.quot d nanos)) (SFdiv 53 1024 (f64_of_Z (Z.rem d nanos)) (f64_of_Z nanos)).
Definition int_of_f64 (f : spec_float) : Z :=
  match f with
  | S754_finite s m e =>
      let v := if bool_decide (0 <= e) then Z.pos m * 2 ^ e else Z.pos m / 2 ^ (- e) in
      if s then - v else v
  | _ => 0
  end.
Definition whole_seconds (d : Z) : Z := int_of_f64 (Seconds d).

(** [Format("15:04:05")] *)
Definition pad2 (n : Z) : gostring := if bool_decide (n < 10) then 48 :: utoa n else utoa n.
Definition clock_string (c : GoTime.Civil) : gostring :=
  pad2 (GoTime.c_Hour c) ++ str ":" ++ pad2 (GoTime.c_Minute c) ++ str ":" ++ pad2 (GoTime.c_Second c).

(** The clock readings of one call: for a player, those of the ghost test, of the online
    time and of the idle time; for an event; for the uptime; and the local time. *)
Record Readings := mkReadings {
  rd_ghost : Z -> Z; rd_online : Z -> Z; rd_idle : Z -> Z; rd_event : nat -> Z; rd_now : Z;
  rd_local : GoTime.Civil
}.

(** The four maps from a participant to its lobby. *)
Record LobbyMaps := mkLobbyMaps {
  pidGathering : gmap Z Z; pidMode : gmap Z Z; pidVR : gmap Z Z; pidIsHost : gmap Z bool
}.

Definition note_participant (g : GatheringInfo) (acc : LobbyMaps * list apiLobbyP) (p : Z)
    : LobbyMaps * list apiLobbyP :=
  let '(k, lps) := acc in
  let host := bool_decide (p = gi_HostPID g) in
  (mkLobbyMaps (<[p := gi_ID g]> (pidGathering k)) (<[p := gi_GameMode g]> (pidMode k))
     (<[p := gi_VR g]> (pidVR k)) (if host then <[p := true]> (pidIsHost k) else pidIsHost k),
   lps ++ [mkApiLobbyP p (dispName p) (gi_VR g) host]).

Definition note_lobby (acc : LobbyMaps * list apiGathering) (g : GatheringInfo)
    : LobbyMaps * list apiGathering :=
  let '(k, gs) := acc in
  if bool_decide (len (gi_Participants g) = 0) then acc
  else
    let max := if bool_decide (gi_MaxPart g = 0) then 12 else gi_MaxPart g in
    let state := if bool_decide (2 <= len (gi_Participants g)) then str "apparié" else str "en recherche" in
    let '(k, lps) := foldl (note_participant g) (k, []) (gi_Participants g) in
    (k, gs ++ [mkApiGathering (gi_ID g) (gi_HostPID g) (dispName (gi_HostPID g))
                 (gameModeName (gi_GameMode g)) (gi_GameMode g) (gi_VR g) lps
                 (len (gi_Participants g)) max state (gi_Code g) (gi_Attribs g)]).

(** What a player's row says, given its lobby. *)
Definition player_row (rd : Readings) (k : LobbyMaps) (pid last : Z) (s : playerInfo) (ip : gostring)
    (geo : geoInfo) : apiPlayer :=
  let gid := default 0 (pidGathering k !! pid) in
  let m := default 0 (pidMode k !! pid) in
  mkApiPlayer pid (dispName pid) ip
    (if bool_decide (gid <> 0) then str "dans un lobby" else str "en ligne") gid
    (whole_seconds (rd_online rd pid - pi_FirstSeen s)) (pi_Calls s)
    (rmcName (pi_LastProto s) (pi_LastMethod s)) (whole_seconds (rd_idle rd pid - last)) geo
    (natTypeLabel (pi_NATMap s) (pi_NATFilter s)) (pi_Ping s) (default 0 (pidVR k !! pid))
    (if bool_decide (m <> 0) then gameModeName m else []) (default false (pidIsHost k !! pid)).

(** The loop over the connections: the rows, the number in a lobby, the accounts seen and
    the dashboard's state. *)
Definition note_conn (ghost : Z) (rd : Readings) (k : LobbyMaps) (meta : gmap Z playerInfo)
    (acc : list apiPlayer * Z * gset Z * DashState) (c : ConnInfo)
    : list apiPlayer * Z * gset Z * DashState :=
  let '(players, inLobby, seen, d) := acc in
  let pid := ci_PID c in
  if bool_decide (pid = 0) || bool_decide (pid ∈ seen) then acc
  else
    match meta !! pid with
    | None => acc
    | Some s =>
        match pi_LastSeen s with
        | None => acc
        | Some last =>
            if bool_decide (ghost < rd_ghost rd pid - last) then acc
            else
              let ip := if bool_decide (ci_Addr c = []) then pi_IP s else ci_Addr c in
              let '(geo, d) := geoLookup ip d in
              let row := player_row rd k pid last s ip geo in
              (players ++ [row],
               if bool_decide (ap_Gathering row <> 0) then inLobby + 1 else inLobby,
               {[pid]} ∪ seen, d)
        end
    end.

Definition set_peak (k : Z) (d : DashState) : DashState :=
  mkDash (playerMeta d) (sessionsSeen d) k (rmcTotal d) (events d) (methodCount d) (geoCache d)
    (geoFetches d).

(** What [main] fixes. *)
Record DashConfig := mkDashConfig { dc_start : Z; dc_authPort : Z; dc_securePort : Z; dc_accessKey : gostring }.

(** What one call finds: the connections, the lobbies, the players' data, the events with
    the method counts, and the totals.  Each is read under a lock of its own (the totals
    atomically), in this order, and other goroutines may run in between. *)
Record View := mkView {
  vw_reg : Registry; vw_store : MMStore; vw_meta : gmap Z playerInfo; vw_events : list rmcEvent;
  vw_methods : gmap gostring Z; vw_sessions : Z; vw_total : Z
}.

(** Nothing runs in between. *)
Definition view_of (r : Registry) (m : MMStore) (d : DashState) : View :=
  mkView r m (playerMeta d) (events d) (methodCount d) (sessionsSeen d) (rmcTotal d).

(** [d] is the state the loop over the connections finds: the geo cache and the peak. *)
Definition buildStats `{GoRange, GoSort} (cfg : DashConfig) (ghost : Z) (rd : Readings) (v : View)
    (d : DashState) : apiStats * DashState :=
  let conns := SnapshotConnections (vw_reg v) in
  let '(k, gs) := foldl note_lobby (mkLobbyMaps ∅ ∅ ∅ ∅, []) (Snapshot (vw_store v)) in
  let gs := sort_slice (fun a b => bool_decide (ag_ID a < ag_ID b)) gs in
  let '(players, inLobby, _, d) :=
    foldl (note_conn ghost rd k (vw_meta v)) ([], 0, ∅, d) conns in
  let players := sort_slice (fun a b => bool_decide (ap_PID a < ap_PID b)) players in
  let d := if bool_decide (peakConnected d < len players) then set_peak (len players) d else d in
  let ev := imap (fun i e => mkApiEvent (whole_seconds (rd_event rd i - ev_T e)) (ev_PID e)
                               (rmcName (ev_Proto e) (ev_Method e))) (reverse (vw_events v)) in
  let ms := (fun kv => mkApiMethod kv.1 kv.2) <$> range (vw_methods v) in
  let ms := sort_slice (fun a b => bool_decide (am_Count b < am_Count a)) ms in
  (mkApiStats (clock_string (rd_local rd)) (whole_seconds (rd_now rd - dc_start cfg)) (len players)
     inLobby (len gs) (vw_sessions v) (vw_total v) (len gs) (peakConnected d)
     (mkApiServer (dc_accessKey cfg) (str "4.0.0") (itoa (dc_authPort cfg)) (dc_securePort cfg)
        (str "g2b309e01-lp1.s.n.srv.nintendo.net") 32 (str "closed-source (no AGPL)"))
     players gs ev ms, d).

(** ** The HTTP operations *)

(** [q] is the query: the first value of a parameter, or the empty string. *)
Definition authed (token : gostring) (q : gostring -> gostring) : bool :=
  bool_decide (token <> []) && bool_decide (q (str "key") = token).

Inductive apiReply :=
  | Forbidden
  | StatsReply (s : apiStats)
  | KickedPID (pid kicked : Z)
  | KickedConn (rvcid : Z) (kicked : bool)
  | Reaped (k : Z).

Definition api_stats `{GoRange, GoSort} (cfg : DashConfig) (token ghostVar : gostring)
    (q : gostring -> gostring) (rd : Readings) (v : View) (d : DashState) : apiReply * DashState :=
  if authed token q then
    let '(s, d) := buildStats cfg (ghostIdle ghostVar) rd v d in (StatsReply s, d)
  else (Forbidden, d).

(** [strconv.ParseUint(s, 10, bits)] without an error. *)
Definition parse_uint_bits (bits : Z) (s : gostring) : option Z :=
  match parse_uint s with
  | NumOk n => if bool_decide (n < 2 ^ bits) then Some n else None
  | _ => None
  end.

Definition nonzero (x : option Z) : option Z :=
  match x with Some n => if bool_decide (n = 0) then None else Some n | None => None end.

Definition api_kick {App} `{GoRange} (e : Endpoint App) (token reapVar : gostring)
    (q : gostring -> gostring) (now : Z) (n : Net App) : apiReply * Net App :=
  if authed token q then
    match nonzero (parse_uint_bits 64 (q (str "pid"))) with
    | Some pid => let '(n, k) := KickPID e pid n in (KickedPID pid k, n)
    | None =>
        match nonzero (parse_uint_bits 32 (q (str "rvcid"))) with
        | Some rv => let '(n, k) := KickConnection e rv n in (KickedConn rv k, n)
        | None => let '(n, k) := ReapIdle e now (ReapIdleTimeout reapVar) n in (Reaped k, n)
        end
    end
  else (Forbidden, n).
