(* ===== verification/DashboardProps.v ===== *)
(** * What the monitoring interface reports

    The counters are those of the calls made, and the statistics list exactly the active
    players and the live lobbies. *)

From S2P Require Import Prelude GoStd GoNet GoTime Settings Stream Types StationURL Rmc PrudpLite.
From S2P Require Import Matchmaking Reservations Notification Connection Stations Store Crypto.
From S2P Require Import Kerberos TicketGranting Endpoint Dashboard.

(** ** Counters *)

(** What the hooks report, in order. *)
Inductive dash_op :=
  | OpCall (now now' : Z) (c : Connection) (req : RMCMessage)
  | OpNAT (now pid natMap natFilter rtt : Z).

Definition run_dash (ghost : Z) (h : list dash_op) (d : DashState) : DashState :=
  foldl (fun d o => match o with
    | OpCall now now' c req => noteRMC ghost now now' c req d
    | OpNAT now pid m f rtt => noteNAT now pid m f rtt d
    end) d h.

(** A call by an account: the instants noted, the account, the protocol and method. *)
Record call := mkCall { ca_now : Z; ca_now' : Z; ca_pid : Z; ca_proto : Z; ca_method : Z }.
Definition call_of (o : dash_op) : option call :=
  match o with
  | OpCall now now' c req =>
      if bool_decide (PID c = 0) then None
      else Some (mkCall now now' (PID c) (Protocol req) (Method req))
  | OpNAT _ _ _ _ _ => None
  end.
Definition account_calls (h : list dash_op) : list call := omap call_of h.
Definition event_of (c : call) : rmcEvent := mkRmcEvent (ca_now' c) (ca_pid c) (ca_proto c) (ca_method c).
Definition calls_named (name : gostring) (cs : list call) : list call :=
  filter (fun c => rmcName (ca_proto c) (ca_method c) = name) cs.
Definition calls_by (pid : Z) (cs : list call) : list call := filter (fun c => ca_pid c = pid) cs.

(** What is noted of a player whose calls are [cs]. *)
Definition noted (pid : Z) (cs : list call) (pi : option playerInfo) : Prop :=
  match last cs, pi with
  | None, None => True
  | None, Some pi => pi_PID pi = pid /\ pi_LastSeen pi = None /\ pi_Calls pi = 0
  | Some c, Some pi =>
      pi_PID pi = pid /\ pi_LastSeen pi = Some (ca_now c) /\ pi_Calls pi = sint 64 (len cs) /\
      pi_LastProto pi = ca_proto c /\ pi_LastMethod pi = ca_method c
  | Some _, None => False
  end.

(** The counters are Go's int. *)
Record accounted (cs : list call) (d : DashState) : Prop := {
  ac_total : rmcTotal d = sint 64 (len cs);
  ac_events : events d = drop (length cs - 100) (event_of <$> cs);
  ac_methods : forall name, default 0 (methodCount d !! name) = sint 64 (len (calls_named name cs));
  ac_players : forall pid, noted pid (calls_by pid cs) (playerMeta d !! pid)
}.

Lemma sint64_small x : 0 <= x < 2 ^ 63 -> sint 64 x = x.
Proof.
  intros Hx. unfold sint. rewrite Z.mod_small by lia. by rewrite bool_decide_eq_true_2 by lia.
Qed.

(** A counter that has wrapped counts on. *)
Lemma sint64_count {A} (l : list A) x : sint 64 (sint 64 (len l) + 1) = sint 64 (len (l ++ [x])).
Proof.
  assert (len (l ++ [x]) = len l + 1) as -> by (unfold len; rewrite length_app; cbn; lia).
  generalize (len l). intros z.
  assert ((sint 64 z + 1) mod 2 ^ 64 = (z + 1) mod 2 ^ 64) as E; [|by unfold sint at 1 3; cbv zeta; rewrite E].
  unfold sint. cbv zeta. case_bool_decide; [apply Zplus_mod_idemp_l|].
  replace (z mod 2 ^ 64 - 2 ^ 64 + 1) with (z mod 2 ^ 64 + 1 + (-1) * 2 ^ 64) by lia.
  rewrite Z.mod_add by lia. apply Zplus_mod_idemp_l.
Qed.

Lemma run_dash_snoc ghost h o d :
  run_dash ghost (h ++ [o]) d = run_dash ghost [o] (run_dash ghost h d).
Proof. unfold run_dash. by rewrite foldl_app. Qed.

Lemma len_filter_le {A} (P : A -> Prop) `{!forall x, Decision (P x)} (l : list A) :
  len (filter P l) <= len l.
Proof. unfold len. pose proof (length_filter P l). lia. Qed.

Lemma keep_last_100 {A} (l : list A) x :
  (if bool_decide (100 < len (drop (length l - 100) l ++ [x]))
   then zdrop (len (drop (length l - 100) l ++ [x]) - 100) (drop (length l - 100) l ++ [x])
   else drop (length l - 100) l ++ [x]) = drop (length (l ++ [x]) - 100) (l ++ [x]).
Proof.
  assert (length (drop (length l - 100) l) = Nat.min 100 (length l)) as Hd by (rewrite length_drop; lia).
  assert (len (drop (length l - 100) l ++ [x]) = Z.of_nat (Nat.min 100 (length l) + 1)) as ->
    by (unfold len; by rewrite length_app, Hd).
  assert (length (l ++ [x]) = S (length l)) as -> by (rewrite length_app; cbn; lia).
  unfold zdrop. case_bool_decide as Hl.
  - assert (Z.to_nat (Z.of_nat (Nat.min 100 (length l) + 1) - 100) = 1%nat) as -> by lia.
    rewrite (drop_app_le _ _ 1) by lia. rewrite drop_drop, drop_app_le by lia. do 2 f_equal. lia.
  - rewrite drop_app_le by lia. do 2 f_equal. lia.
Qed.

Lemma noteRMC_accounted ghost now now' c req cs d :
  PID c <> 0 -> accounted cs d ->
  accounted (cs ++ [mkCall now now' (PID c) (Protocol req) (Method req)]) (noteRMC ghost now now' c req d).
Proof.
  intros Hp [Ht He Hm Hpl]. unfold noteRMC. rewrite bool_decide_eq_false_2 by done.
  split; cbn [rmcTotal events methodCount playerMeta].
  - rewrite Ht. apply sint64_count.
  - rewrite He, fmap_app, length_app. cbn [length fmap list_fmap].
    pose proof (keep_last_100 (event_of <$> cs) (mkRmcEvent now' (PID c) (Protocol req) (Method req))) as Hk.
    rewrite length_app, length_fmap in Hk. exact Hk.
  - intros name. unfold calls_named. rewrite filter_app, filter_cons. cbn [ca_proto ca_method].
    case_decide as Hn; [subst name; rewrite lookup_insert_eq; cbn [default]|rewrite lookup_insert_ne by done;
      rewrite filter_nil, app_nil_r; apply Hm].
    rewrite Hm, filter_nil. apply sint64_count.
  - intros pid. unfold calls_by. rewrite filter_app, filter_cons, filter_nil. cbn [ca_pid].
    case_decide as Hc; [subst pid; rewrite lookup_insert_eq|
      rewrite lookup_insert_ne, app_nil_r by done; apply Hpl].
    specialize (Hpl (PID c)). unfold noted. rewrite last_snoc. unfold noted in Hpl.
    fold (calls_by (PID c) cs) in *.
    unfold player_called.
    destruct (playerMeta d !! PID c) as [pi|]; cbn -[sint].
    + destruct (last (calls_by (PID c) cs)) as [c0|] eqn:El.
      * destruct Hpl as (H1 & _ & H3 & _). rewrite H3. split_and!; try done. apply sint64_count.
      * destruct Hpl as (H1 & H2 & H3). apply last_None in El. rewrite H3, El. by split_and!.
    + destruct (last (calls_by (PID c) cs)) as [c0|] eqn:El; [done|].
      apply last_None in El. rewrite El. by split_and!.
Qed.

Lemma noteNAT_accounted now pid m f rtt cs d : accounted cs d -> accounted cs (noteNAT now pid m f rtt d).
Proof.
  intros [Ht He Hm Hpl]. unfold noteNAT. case_bool_decide; [done|].
  split; cbn [rmcTotal events methodCount playerMeta]; try done. intros pid'.
  destruct (decide (pid = pid')) as [<-|]; [rewrite lookup_insert_eq|by rewrite lookup_insert_ne].
  specialize (Hpl pid). unfold noted in *.
  by destruct (playerMeta d !! pid), (last (calls_by pid cs)); cbn; try done; destruct Hpl.
Qed.

Lemma accounted_same cs d d' :
  rmcTotal d' = rmcTotal d -> events d' = events d -> methodCount d' = methodCount d ->
  playerMeta d' = playerMeta d -> accounted cs d -> accounted cs d'.
Proof. intros E1 E2 E3 E4 [Ht He Hm Hp]. split; by rewrite ?E1, ?E2, ?E3, ?E4. Qed.

Lemma geo_fetched_counts i g cs d : accounted cs d -> accounted cs (geo_fetched i g d).
Proof. apply accounted_same; unfold geo_fetched; by case_match. Qed.

Lemma run_dash_accounted ghost h :
  accounted (account_calls h) (run_dash ghost h dash_start).
Proof.
  induction h as [|o h IH] using rev_ind.
  { by split. }
  rewrite run_dash_snoc. unfold account_calls in *. rewrite omap_app. destruct o as [now now' c req|now pid m f rtt]; cbn in *.
  - case_bool_decide as Hp.
    + rewrite app_nil_r. unfold noteRMC. by rewrite bool_decide_eq_true_2.
    + by apply noteRMC_accounted.
  - rewrite app_nil_r. by apply noteNAT_accounted.
Qed.

(** After any sequence of calls and NAT reports, the total is the number of calls made by
    accounts, each method's count the number of its calls, the recent events the last
    hundred calls in order, and each caller's row shows how many calls it made, when the
    last one was and which. *)
Theorem calls_accounted ghost h :
  len (account_calls h) < 2 ^ 63 ->
  let d := run_dash ghost h dash_start in
  rmcTotal d = len (account_calls h) /\
  events d = drop (length (account_calls h) - 100) (event_of <$> account_calls h) /\
  (forall name, default 0 (methodCount d !! name) = len (calls_named name (account_calls h))) /\
  (forall pid c, last (calls_by pid (account_calls h)) = Some c -> exists pi, playerMeta d !! pid = Some pi /\
     pi_LastSeen pi = Some (ca_now c) /\ pi_Calls pi = len (calls_by pid (account_calls h)) /\
     rmcName (pi_LastProto pi) (pi_LastMethod pi) = rmcName (ca_proto c) (ca_method c)).
Proof.
  intros Hl. destruct (run_dash_accounted ghost h) as [Ht He Hm Hp].
  assert (forall (P : call -> Prop) `{!forall x, Decision (P x)},
    sint 64 (len (filter P (account_calls h))) = len (filter P (account_calls h))) as Hsmall.
  { intros P HP. apply sint64_small. pose proof (len_filter_le P (account_calls h)).
    pose proof (len_nonneg (filter P (account_calls h))). lia. }
  split_and!; [|done| |].
  - rewrite Ht. apply sint64_small. pose proof (len_nonneg (account_calls h)). lia.
  - intros name. rewrite Hm. apply Hsmall.
  - intros pid c Hc. specialize (Hp pid). unfold noted in Hp. rewrite Hc in Hp.
    destruct (playerMeta _ !! pid) as [pi|]; [|done]. destruct Hp as (_ & H1 & H2 & H3 & H4).
    exists pi. split_and!; [done|done|rewrite H2; apply Hsmall|by rewrite H3, H4].
Qed.

Definition sample_conn (pid : Z) : Connection := set_login pid 0 [] (NewConnection (str "82.1.2.3:4000")).
Definition sample_req (k : Z) : RMCMessage := NewRMCRequest 0x6D 0x28 k [].

Lemma calls_accounted_witness :
  rmcTotal (run_dash nanos (imap (fun i _ => OpCall (Z.of_nat i) (Z.of_nat i) (sample_conn 7) (sample_req 1))
    (replicate 120 tt)) dash_start) = 120 /\
  length (events (run_dash nanos (imap (fun i _ => OpCall (Z.of_nat i) (Z.of_nat i) (sample_conn 7) (sample_req 1))
    (replicate 120 tt)) dash_start)) = 100%nat.
Proof.
  destruct (calls_accounted nanos
    (imap (fun i _ => OpCall (Z.of_nat i) (Z.of_nat i) (sample_conn 7) (sample_req 1)) (replicate 120 tt)))
    as (Ht & He & _); [vm_compute; reflexivity|].
  rewrite Ht, He. split; vm_compute; reflexivity.
Defined.

(** ** Statistics *)

Definition lobby_player (g : GatheringInfo) (p : Z) : apiLobbyP :=
  mkApiLobbyP p (dispName p) (gi_VR g) (bool_decide (p = gi_HostPID g)).

Lemma note_participants g ps k lps :
  exists k', foldl (note_participant g) (k, lps) ps = (k', lps ++ (lobby_player g <$> ps)) /\
    forall p, pidGathering k' !! p = if bool_decide (p ∈ ps) then Some (gi_ID g) else pidGathering k !! p.
Proof.
  revert k lps. induction ps as [|p ps IH]; intros k lps; cbn [foldl].
  { exists k. rewrite app_nil_r. split; [done|]. intros p. by rewrite bool_decide_eq_false_2 by apply not_elem_of_nil. }
  destruct (IH (note_participant g (k, lps) p).1 (note_participant g (k, lps) p).2) as (k' & Hf & Hk).
  exists k'. rewrite <- surjective_pairing in Hf. split; [rewrite Hf; cbn; by rewrite <- app_assoc|].
  intros q. rewrite Hk. cbn. destruct (decide (q = p)) as [->|Hne].
  - rewrite lookup_insert_eq, (bool_decide_eq_true_2 (p ∈ p :: ps)) by apply list_elem_of_here.
    by case_bool_decide.
  - rewrite lookup_insert_ne by done.
    by rewrite (bool_decide_ext (q ∈ p :: ps) (q ∈ ps)) by (rewrite elem_of_cons; naive_solver).
Qed.

(** A lobby of the list. *)
Definition lobby_of (g : GatheringInfo) : apiGathering :=
  mkApiGathering (gi_ID g) (gi_HostPID g) (dispName (gi_HostPID g)) (gameModeName (gi_GameMode g))
    (gi_GameMode g) (gi_VR g) (lobby_player g <$> gi_Participants g) (len (gi_Participants g))
    (if bool_decide (gi_MaxPart g = 0) then 12 else gi_MaxPart g)
    (if bool_decide (2 <= len (gi_Participants g)) then str "apparié" else str "en recherche")
    (gi_Code g) (gi_Attribs g).

Definition seated (l : list GatheringInfo) (p gid : Z) : Prop :=
  exists g, g ∈ l /\ gi_ID g = gid /\ p ∈ gi_Participants g.

Lemma note_lobbies l k gs :
  exists k', foldl note_lobby (k, gs) l =
      (k', gs ++ (lobby_of <$> filter (fun g => gi_Participants g <> []) l)) /\
    forall p, match pidGathering k' !! p with
      | Some gid => seated l p gid \/ (pidGathering k !! p = Some gid)
      | None => pidGathering k !! p = None /\ forall gid, ~ seated l p gid
      end.
Proof.
  revert k gs. induction l as [|g l IH]; intros k gs; cbn [foldl].
  { exists k. rewrite app_nil_r. split; [done|]. intros p. destruct (pidGathering k !! p); [by right|].
    split; [done|]. by intros gid (g & ?%elem_of_nil & _). }
  unfold note_lobby at 2. rewrite filter_cons. case_bool_decide as Hz.
  - apply len_0_inv in Hz. rewrite decide_False by (rewrite Hz; intros E; by apply E).
    destruct (IH k gs) as (k' & Hf & Hk). exists k'. split; [done|]. intros p. specialize (Hk p).
    assert (forall gid, seated (g :: l) p gid <-> seated l p gid) as Hs.
    { intros gid. unfold seated. setoid_rewrite elem_of_cons. split; [|naive_solver].
      intros (g' & [->|Hin] & Hid & Hp); [rewrite Hz in Hp; by apply elem_of_nil in Hp|eauto]. }
    destruct (pidGathering k' !! p); setoid_rewrite Hs; done.
  - rewrite decide_True by (intros E; apply Hz; by rewrite E).
    destruct (note_participants g (gi_Participants g) k []) as (k1 & Hf1 & Hk1). rewrite Hf1.
    cbn [app]. destruct (IH k1 (gs ++ [lobby_of g])) as (k' & Hf & Hk). exists k'.
    split; [etransitivity; [exact Hf|]; by rewrite fmap_cons, <- app_assoc|].
    intros p. specialize (Hk p). destruct (pidGathering k' !! p) as [gid|] eqn:E.
    + destruct Hk as [(g' & Hin & Hid & Hp)|Hk];
        [left; exists g'; split_and!; [by apply list_elem_of_further|done|done]|].
      rewrite Hk1 in Hk. case_bool_decide; [|by right]. injection Hk as <-. left. exists g.
      split_and!; [apply list_elem_of_here|done|done].
    + destruct Hk as [Hk Hno]. rewrite Hk1 in Hk. case_bool_decide as Hp; [done|]. split; [done|].
      intros gid (g' & [->|Hin]%elem_of_cons & Hid & Hp'); [done|]. apply (Hno gid). by exists g'.
Qed.

(** The account is counted as online. *)
Definition active (ghost : Z) (rd : Readings) (meta : gmap Z playerInfo) (pid : Z) : Prop :=
  pid <> 0 /\ exists s l, meta !! pid = Some s /\ pi_LastSeen s = Some l /\ rd_ghost rd pid - l <= ghost.

Definition same_counts (d d' : DashState) : Prop :=
  playerMeta d' = playerMeta d /\ sessionsSeen d' = sessionsSeen d /\
  peakConnected d' = peakConnected d /\ rmcTotal d' = rmcTotal d /\ events d' = events d /\
  methodCount d' = methodCount d.

Lemma geoLookup_counts addr d : same_counts d (geoLookup addr d).2.
Proof. unfold geoLookup. by destruct (geoCache d !! ipOnly addr). Qed.

Record conns_noted ghost rd k meta d (cs : list ConnInfo)
    (acc : list apiPlayer * Z * gset Z * DashState) : Prop := {
  cn_nodup : NoDup (ap_PID <$> acc.1.1.1);
  cn_seen : forall pid, pid ∈ acc.1.2 <-> pid ∈ ap_PID <$> acc.1.1.1;
  cn_players : forall pid, pid ∈ ap_PID <$> acc.1.1.1 <->
    (exists c, c ∈ cs /\ ci_PID c = pid) /\ active ghost rd meta pid;
  cn_lobby : acc.1.1.2 = len (filter (fun p => ap_Gathering p <> 0) acc.1.1.1);
  cn_rows : Forall (fun p => ap_Gathering p = default 0 (pidGathering k !! ap_PID p)) acc.1.1.1;
  cn_calls : Forall (fun p => exists s, meta !! ap_PID p = Some s /\ is_Some (pi_LastSeen s) /\
    ap_Calls p = pi_Calls s /\ ap_LastAction p = rmcName (pi_LastProto s) (pi_LastMethod s)) acc.1.1.1;
  cn_counts : same_counts d acc.2
}.

Lemma note_conn_step ghost rd k meta d cs acc c :
  conns_noted ghost rd k meta d cs acc -> conns_noted ghost rd k meta d (cs ++ [c]) (note_conn ghost rd k meta acc c).
Proof.
  destruct acc as [[[players inLobby] seen] d0]. intros [Hnd Hse Hpl Hlo Hro Hca Hco]. cbn in *.
  assert (forall pid, (exists c', c' ∈ cs ++ [c] /\ ci_PID c' = pid) <->
    (exists c', c' ∈ cs /\ ci_PID c' = pid) \/ ci_PID c = pid) as Hcs.
  { intros pid. setoid_rewrite elem_of_app. setoid_rewrite list_elem_of_singleton. naive_solver. }
  assert ((ci_PID c ∈ ap_PID <$> players) \/ ~ active ghost rd meta (ci_PID c) ->
    conns_noted ghost rd k meta d (cs ++ [c]) (players, inLobby, seen, d0)) as Hskip.
  { intros Hc. split; cbn; try done. intros pid. rewrite Hcs, Hpl. split; [naive_solver|].
    intros [[?|<-] Ha]; [done|]. destruct Hc as [Hc|]; [by apply Hpl in Hc|done]. }
  unfold note_conn. destruct (bool_decide_reflect (ci_PID c = 0)) as [Hz|Hz]; cbn [orb].
  { apply Hskip. right. by intros [? _]. }
  case_bool_decide as Hs; [apply Hskip; left; by apply Hse|].
  destruct (meta !! ci_PID c) as [s|] eqn:Hm; [|apply Hskip; right; intros (_ & ? & ? & ? & _); congruence].
  destruct (pi_LastSeen s) as [l|] eqn:Hl; [|apply Hskip; right; intros (_ & ? & ? & ? & ? & _); congruence].
  case_bool_decide as Hg.
  { apply Hskip. right. intros (_ & s' & l' & E1 & E2 & E3). rewrite Hm in E1. simplify_eq. lia. }
  destruct (geoLookup _ d0) as [geo d1] eqn:Egeo.
  assert (same_counts d d1) as Hd1.
  { pose proof (geoLookup_counts (if bool_decide (ci_Addr c = []) then pi_IP s else ci_Addr c) d0) as Hgc.
    rewrite Egeo in Hgc. unfold same_counts in *. cbn in Hgc. destruct_and!. split_and!; congruence. }
  set (row := player_row _ _ _ _ _ _ _).
  assert (ap_PID row = ci_PID c /\ ap_Gathering row = default 0 (pidGathering k !! ci_PID c) /\
    ap_Calls row = pi_Calls s /\ ap_LastAction row = rmcName (pi_LastProto s) (pi_LastMethod s))
    as (Hrow & Hgat & Hcalls & Haction) by done.
  clearbody row.
  assert (ci_PID c ∉ ap_PID <$> players) as Hnew by (by rewrite <- Hse).
  split; cbn.
  - rewrite fmap_app. apply NoDup_app. split_and!; [done| |apply NoDup_singleton].
    cbn. intros x Hx ->%list_elem_of_singleton. by rewrite Hrow in Hx.
  - intros pid. rewrite fmap_app, elem_of_app, elem_of_union, elem_of_singleton, Hse. cbn.
    rewrite list_elem_of_singleton, Hrow. naive_solver.
  - intros pid. rewrite fmap_app, elem_of_app. cbn. rewrite list_elem_of_singleton, Hrow, Hpl, Hcs.
    assert (active ghost rd meta (ci_PID c)) as Ha by (split; [done|]; exists s, l; split_and!; try done; lia).
    split; [intros [[H1 H2]|Hp]; [naive_solver|rewrite Hp in *; naive_solver]|].
    intros [[H1|<-] H2]; [by left|by right].
  - rewrite filter_app, filter_cons, filter_nil, Hlo, <- Hgat. unfold len.
    destruct (decide (ap_Gathering row <> 0)) as [Hr|Hr];
      [rewrite bool_decide_eq_true_2 by exact Hr|rewrite bool_decide_eq_false_2 by exact Hr];
      rewrite length_app; cbn; lia.
  - apply Forall_app. split; [done|]. apply Forall_singleton. by rewrite Hrow.
  - apply Forall_app. split; [done|]. apply Forall_singleton. rewrite Hrow. by exists s.
  - done.
Qed.

Lemma note_conns ghost rd k meta d cs :
  conns_noted ghost rd k meta d cs (foldl (note_conn ghost rd k meta) ([], 0, ∅, d) cs).
Proof.
  induction cs as [|c cs IH] using rev_ind; [|rewrite foldl_snoc; by apply note_conn_step].
  split; cbn; try done; [apply NoDup_nil_2|set_solver|].
  intros pid. split; [by intros ?%elem_of_nil|by intros [(c & ?%elem_of_nil & _) _]].
Qed.

(** Sorting by a key that no two elements share. *)
Lemma sorted_keys `{GoSort} {A} (key : A -> Z) (l : list A) :
  NoDup (key <$> l) ->
  StronglySorted Z.lt (key <$> sort_slice (fun a b => bool_decide (key a < key b)) l).
Proof.
  intros Hnd. set (less := fun a b => bool_decide (key a < key b)).
  assert (StrictWeak less) as Hsw.
  { split; unfold less; intros *; rewrite ?bool_decide_eq_true, ?bool_decide_eq_false; lia. }
  pose proof (sort_sorted less l Hsw) as Hs. pose proof (sort_perm less l) as Hp.
  assert (NoDup (key <$> sort_slice less l)) as Hnd' by (by rewrite Hp).
  revert Hs Hnd'. generalize (sort_slice less l) as l'. clear.
  induction l' as [|a l' IH]; intros Hs Hnd; cbn in *; [constructor|].
  apply StronglySorted_inv in Hs as [Hs Hf]. apply NoDup_cons in Hnd as [Hni Hnd].
  constructor; [by apply IH|]. apply Forall_fmap. rewrite Forall_forall in *. intros b Hb.
  specialize (Hf b Hb). unfold less in Hf. apply bool_decide_eq_false in Hf. cbn.
  assert (key a <> key b); [|lia]. intros E. apply Hni. rewrite E. by apply list_elem_of_fmap_2.
Qed.

Lemma elem_of_SnapshotConnections `{GoRange} r pid :
  (exists c, c ∈ SnapshotConnections r /\ ci_PID c = pid) <->
  exists ref c, registered r ref c /\ PID c = pid.
Proof.
  unfold SnapshotConnections, snapshotConns, registered. setoid_rewrite list_elem_of_omap.
  setoid_rewrite list_elem_of_fmap. split.
  - intros (ci & (ref & ([id ref'] & -> & Hin%elem_of_range) & Hc) & Hp). cbn in Hc.
    destruct (heap r !! ref') as [c|] eqn:Hh; [|done]. cbn in Hc. simplify_eq.
    exists ref', c. split; [|done]. split; [done|]. by exists id.
  - intros (ref & c & [Hh [id Hid]] & Hp). exists (mkConnInfo (PID c) (ID c) (RemoteAddr c)).
    split; [|done]. exists ref. split; [|by rewrite Hh]. exists (id, ref). split; [done|by apply elem_of_range].
Qed.

Lemma elem_of_Snapshot `{GoRange} m g :
  g ∈ Snapshot m <-> exists gid g0, gatherings m !! gid = Some g0 /\ g = gathering_info gid g0.
Proof.
  unfold Snapshot. rewrite list_elem_of_fmap. split.
  - intros ([gid g0] & -> & Hin%elem_of_range). eauto.
  - intros (gid & g0 & Hg & ->). exists (gid, g0). split; [done|by apply elem_of_range].
Qed.

(** The rows of the lobbies. *)
Lemma lobby_rows `{GoRange} m :
  let lob := lobby_of <$> filter (fun g => gi_Participants g <> []) (Snapshot m) in
  NoDup (ag_ID <$> lob) /\
  (forall gid, gid ∈ ag_ID <$> lob <-> exists g, gatherings m !! gid = Some g /\ participants g <> []) /\
  (forall a, a ∈ lob -> exists g, gatherings m !! ag_ID a = Some g /\
     (al_PID <$> ag_Players a) = participants g /\ ag_Count a = len (participants g)).
Proof.
  intros lob. assert (ag_ID <$> lob = gi_ID <$> filter (fun g => gi_Participants g <> []) (Snapshot m)) as Hids
    by (subst lob; by rewrite <- list_fmap_compose). rewrite Hids. split_and!.
  - eapply sublist_NoDup; [|apply fmap_sublist, sublist_filter].
    unfold Snapshot. rewrite <- list_fmap_compose. exact (NoDup_range (gatherings m)).
  - intros gid. rewrite list_elem_of_fmap. split.
    + intros (g & -> & [Hne (i & g0 & Hg & ->)%elem_of_Snapshot]%list_elem_of_filter). by exists g0.
    + intros (g & Hg & Hne). exists (gathering_info gid g). split; [done|]. apply list_elem_of_filter.
      split; [done|]. apply elem_of_Snapshot. eauto.
  - intros a Ha. subst lob. apply list_elem_of_fmap in Ha as (g & -> & Hin).
    apply list_elem_of_filter in Hin as [_ (gid & g0 & Hg & ->)%elem_of_Snapshot]. exists g0. cbn.
    split_and!; [done| |done]. rewrite <- list_fmap_compose. apply list_fmap_id.
Qed.

(** What the statistics say of what they found, after a peak of [peak]. *)
Record reported (ghost : Z) (rd : Readings) (v : View) (peak : Z) (st : apiStats)
    : Prop := {
  rep_players_sorted : StronglySorted Z.lt (ap_PID <$> Players st);
  rep_players : forall pid, pid ∈ ap_PID <$> Players st <->
    active ghost rd (vw_meta v) pid /\ exists ref c, registered (vw_reg v) ref c /\ PID c = pid;
  rep_connected : Connected st = len (Players st);
  rep_inLobby : InLobby st = len (filter (fun p => ap_Gathering p <> 0) (Players st));
  rep_lobby_of : forall p, p ∈ Players st ->
    (exists g, gatherings (vw_store v) !! ap_Gathering p = Some g /\ ap_PID p ∈ participants g) \/
    (ap_Gathering p = 0 /\ forall gid g, gatherings (vw_store v) !! gid = Some g -> ap_PID p ∉ participants g);
  rep_calls : forall p, p ∈ Players st -> exists s, vw_meta v !! ap_PID p = Some s /\
    is_Some (pi_LastSeen s) /\ ap_Calls p = pi_Calls s /\
    ap_LastAction p = rmcName (pi_LastProto s) (pi_LastMethod s);
  rep_lobbies_sorted : StronglySorted Z.lt (ag_ID <$> Gatherings st);
  rep_lobbies : forall gid, gid ∈ ag_ID <$> Gatherings st <->
    exists g, gatherings (vw_store v) !! gid = Some g /\ participants g <> [];
  rep_members : forall a, a ∈ Gatherings st -> exists g, gatherings (vw_store v) !! ag_ID a = Some g /\
    (al_PID <$> ag_Players a) = participants g /\ ag_Count a = len (participants g);
  rep_active : ActiveLobbies st = len (Gatherings st);
  rep_peak : PeakConnected st = Z.max peak (Connected st);
  rep_total : TotalRMC st = vw_total v;
  rep_events : (fun e => (ae_PID e, ae_Action e)) <$> Events st =
    reverse ((fun e => (ev_PID e, rmcName (ev_Proto e) (ev_Method e))) <$> vw_events v);
  rep_methods : forall a, a ∈ Methods st <-> vw_methods v !! am_Name a = Some (am_Count a)
}.

(** The statistics are exact: the players listed are, in the order of their numbers and
    once each, the accounts that have a registered connection and made a call within the
    idle limit; each is shown in a lobby that holds it, or in none if no lobby does; the
    lobbies listed are the live ones with their members; the totals are the numbers of
    rows; and the peak is the greatest number of players reported so far. *)
Theorem stats_report `{GoRange, GoSort} cfg ghost rd v d :
  let '(st, d') := buildStats cfg ghost rd v d in
  reported ghost rd v (peakConnected d) st /\ peakConnected d' = PeakConnected st /\ playerMeta d' = playerMeta d /\
  rmcTotal d' = rmcTotal d /\ events d' = events d /\ methodCount d' = methodCount d.
Proof.
  unfold buildStats. destruct (note_lobbies (Snapshot (vw_store v)) (mkLobbyMaps ∅ ∅ ∅ ∅) []) as (k & Hf & Hk).
  rewrite Hf. cbn [app]. pose proof (note_conns ghost rd k (vw_meta v) d (SnapshotConnections (vw_reg v))) as Hc.
  destruct (foldl (note_conn _ _ _ _) _ _) as [[[players inLobby] seen] d1].
  destruct Hc as [Hnd _ Hpl Hlo Hro Hca (Hc1 & Hc2 & Hc3 & Hc4 & Hc5 & Hc6)]. cbn in *.
  set (ps := sort_slice _ players). assert (ps ≡ₚ players) as Hps by apply sort_perm.
  set (lob := lobby_of <$> _) in *. set (gs := sort_slice _ lob). assert (gs ≡ₚ lob) as Hgs by apply sort_perm.
  destruct (lobby_rows (vw_store v)) as (Hlnd & Hlids & Hlrows). fold lob in Hlnd, Hlids, Hlrows.
  assert (len ps = len players) as Hlen by (unfold len; by rewrite Hps).
  assert (forall d2 : DashState, d2 = d1 \/ (exists k, d2 = set_peak k d1) -> rmcTotal d2 = rmcTotal d /\
    events d2 = events d /\ methodCount d2 = methodCount d /\ playerMeta d2 = playerMeta d) as Hsame
    by (intros d2 [->|[k' ->]]; cbn; by split_and!).
  set (d2 := if bool_decide _ then _ else d1).
  destruct (Hsame d2) as (Ht & He & Hm & Hpm); [subst d2; case_bool_decide; [right; eauto|by left]|].
  split_and!; [split; cbn [Players Connected InLobby Gatherings ActiveLobbies PeakConnected TotalRMC Events Methods]| | | | |].
  - by apply sorted_keys.
  - intros pid. rewrite Hps, Hpl, elem_of_SnapshotConnections. tauto.
  - done.
  - rewrite Hlo. unfold len. by rewrite Hps.
  - intros p Hp. rewrite Hps in Hp. rewrite Forall_forall in Hro. rewrite (Hro p Hp).
    specialize (Hk (ap_PID p)). rewrite lookup_empty in Hk. destruct (pidGathering k !! ap_PID p) as [gid|]; cbn.
    + destruct Hk as [(g & (gid' & g0 & Hg & ->)%elem_of_Snapshot & Hid & Hin)|?]; [|done].
      left. exists g0. cbn in *. by subst.
    + right. split; [done|]. intros gid g Hg Hin. destruct Hk as [_ Hno]. apply (Hno gid).
      exists (gathering_info gid g). split_and!; [|done|done]. apply elem_of_Snapshot. eauto.
  - intros p Hp. rewrite Hps in Hp. rewrite Forall_forall in Hca. by apply Hca.
  - by apply sorted_keys.
  - intros gid. by rewrite Hgs, Hlids.
  - intros a Ha. rewrite Hgs in Ha. by apply Hlrows.
  - done.
  - subst d2. rewrite <- Hc3. case_bool_decide; cbn; lia.
  - done.
  - rewrite fmap_imap. rewrite <- (fmap_reverse _ (vw_events v)).
    exact (imap_const (fun e => (ev_PID e, rmcName (ev_Proto e) (ev_Method e))) _).
  - intros [name count]. rewrite sort_perm, list_elem_of_fmap. cbn. split.
    + by intros ([name' count'] & [= -> ->] & Hin%elem_of_range).
    + intros Hin. exists (name, count). split; [done|by apply elem_of_range].
  - done.
  - exact Hpm.
  - exact Ht.
  - exact He.
  - exact Hm.
Qed.

Lemma api_stats_counts `{GoRange, GoSort} cfg token ghostVar q rd v cs d :
  accounted cs d -> accounted cs (api_stats cfg token ghostVar q rd v d).2.
Proof.
  unfold api_stats. destruct (authed token q); [|done].
  pose proof (stats_report cfg (ghostIdle ghostVar) rd v d) as Hs. destruct (buildStats _ _ _ _ _) as [st d'].
  destruct Hs as (_ & _ & Hp & Ht & He & Hm). by apply accounted_same.
Qed.
