(* ===== verification/Ambient.v ===== *)
(** * Around the protocols: settings, routes, reports and time stamps

    What the code reads from its environment at start-up (endpoint.go, server/main.go),
    which HTTP requests become sockets or administrative calls (server.go,
    server/dashboard.go), what a console reports of its NAT traversal (nattraversal.go),
    the comparison of signatures (endpoint.go), the current date (types.go) and the stamps
    of log lines (diag.go). *)

From S2P Require Import Prelude GoStd GoNet GoTime Settings Stream Types Rmc Connection.
From S2P Require Import PrudpLite Matchmaking Reservations Stations Store Kerberos TicketGranting Endpoint.
From S2P Require Import RankingBoard NatTraversal Account Dashboard.
Import GoTime.

(** ** Settings *)
Definition millisecond_ns : Z := 10 ^ 6.
Definition retransmitInterval : Z := 2 * second_ns.

(** [fragmentPacing]; [v] is the variable NEXTENDO_FRAG_PACING_MS. *)
Definition fragmentPacing (v : gostring) : Z :=
  let ms := match v with [] => 15 | _ => default 15 (GoStrconv.atoi v) end in
  sint 64 (ms * millisecond_ns).

Definition requireSignedToken_of (v : gostring) : bool := bool_decide (v = str "1") || bool_decide (v = str "true").
Definition requireAccount_of (v : gostring) : bool := bool_decide (v = str "1").

(** The account rules of a process, from its secret and its environment. *)
Definition account_rules (secret account signed : gostring) : AccountConfig :=
  mkAccountConfig secret (requireAccount_of account) (requireSignedToken_of signed).

(** ** Signatures *)

(** The loop of [equalBytes], once the lengths agree. *)
Fixpoint equal_loop (a b : bytes) : bool :=
  match a, b with
  | x :: a, y :: b => if bool_decide (x <> y) then false else equal_loop a b
  | _, _ => true
  end.
Definition equalBytes (a b : bytes) : bool :=
  if bool_decide (length a <> length b) then false else equal_loop a b.

(** ** Routes *)

(** [strings.ToLower], as far as a comparison with an ASCII word can tell: besides the
    capital letters, the runes U+212A and U+0130 have an ASCII lower case. *)
Fixpoint ToLower (s : gostring) : gostring :=
  match s with
  | 0xE2 :: 0x84 :: 0xAA :: s => 107 :: ToLower s
  | 0xC4 :: 0xB0 :: s => 105 :: ToLower s
  | c :: s => (if bool_decide (65 <= c <= 90) then c + 32 else c) :: ToLower s
  | [] => []
  end.

Inductive Route := UpgradeSocket | CustomHTTP | NotFound.

(** The handler of [mux]; a missing header is the empty string. *)
Definition mux_route (upgrade key : gostring) (custom : bool) : Route :=
  if bool_decide (ToLower upgrade = str "websocket") || bool_decide (key <> []) then UpgradeSocket
  else if custom then CustomHTTP else NotFound.

Inductive DashRoute := StatsRoute | KickRoute | HealthRoute | NoRoute.

(** The patterns of the dashboard, each matching its own path. *)
Definition dash_route (path : gostring) : DashRoute :=
  if bool_decide (path = str "/api/stats") then StatsRoute
  else if bool_decide (path = str "/api/kick") then KickRoute
  else if bool_decide (path = str "/healthz") then HealthRoute
  else NoRoute.

(** ** Reports *)
Definition natClass_String (c : natClass) : gostring :=
  match c with
  | natOpen => str "open" | natModerate => str "moderate" | natStrict => str "strict"
  | natUnknown => str "unknown"
  end.

Record NatReport := mkNatReport { nr_cid : Z; nr_result : bool; nr_detail : Z; nr_rtt : Z }.

(** What [logNATResult] reads of a report; [None] when it does not parse. *)
Definition logNATResult (req : RMCMessage) : option NatReport :=
  let '(r, st) := (cid <-- StreamInOps.U32 ;; result <-- StreamInOps.Bool ;;
    detail <-- (if bool_decide (Method req = MethodReportNATTraversalResultDetail)
                then v <-- StreamInOps.U32 ;; rret (sint 32 v) else rret 0) ;;
    rtt <-- StreamInOps.U32 ;; rret (mkNatReport cid result detail rtt))%reader (NewStreamIn (Body req)) in
  if si_err st then None else Some r.

(** What a console writes. *)
Definition write_report (detailed : bool) (r : NatReport) : bytes :=
  StreamOut.U32 (nr_cid r) ++ StreamOut.Bool (nr_result r) ++
  (if detailed then StreamOut.U32 (u32 (nr_detail r)) else []) ++ StreamOut.U32 (nr_rtt r).

(** ** Time *)
Definition NowDateTime (now : Z) : Z :=
  let t := UTC now in
  DateTime.MakeDateTime (c_Year t) (c_Month t) (c_Day t) (c_Hour t) (c_Minute t) (c_Second t).

Definition pad3 (n : Z) : gostring := if bool_decide (n < 100) then 48 :: pad2 n else GoStrconv.utoa n.

(** [ts]; [zone] is the local offset from UTC in seconds. *)
Definition ts (now zone : Z) : gostring :=
  clock_string (UTC (now + zone * second_ns)) ++ str "." ++ pad3 (now mod second_ns / millisecond_ns).

(** ** What they mean *)
Lemma equalBytes_spec a b : equalBytes a b = bool_decide (a = b).
Proof.
  unfold equalBytes. destruct (decide (length a = length b)) as [Hl|Hl].
  2:{ rewrite bool_decide_eq_true_2 by done. symmetry. apply bool_decide_eq_false_2. congruence. }
  rewrite bool_decide_eq_false_2 by (by intros Hx; apply Hx).
  revert b Hl. induction a as [|x a IH]; intros [|y b] Hl; try done. cbn [equal_loop].
  destruct (decide (x = y)) as [->|Hne].
  - rewrite bool_decide_eq_false_2 by (by intros Hx; apply Hx). rewrite IH by (by injection Hl).
    apply bool_decide_ext. naive_solver.
  - rewrite bool_decide_eq_true_2 by done. symmetry. apply bool_decide_eq_false_2. congruence.
Qed.

(** The check of a CONNECT's signature, as the code writes it. *)
Lemma connect_signature_check {App} (e : Endpoint App) c p :
  let expected := LitePacketSignature (AccessKey (e_Settings e)) p (connectionSig c) in
  bool_decide (expected <> p_Signature p) = negb (equalBytes expected (p_Signature p)).
Proof. intros expected. rewrite equalBytes_spec. by rewrite bool_decide_not. Qed.

Lemma NowDateTime_seconds now : 0 <= now < 2 ^ 63 -> date_seconds (NowDateTime now) = unix now.
Proof.
  intros Hn. rewrite <- (nexDateTime_seconds now Hn). unfold NowDateTime, nexDateTime. reflexivity.
Qed.

(** A report is read as it was written, with or without the detail. *)
Lemma report_reads_back (protocol call : Z) (detailed : bool) (r : NatReport) :
  let m := if detailed then MethodReportNATTraversalResultDetail else MethodReportNATTraversalResult in
  is_uint 32 (nr_cid r) -> is_uint 32 (nr_rtt r) ->
  (if detailed then - 2 ^ 31 <= nr_detail r < 2 ^ 31 else nr_detail r = 0) ->
  logNATResult (NewRMCRequest protocol m call (write_report detailed r)) = Some r.
Proof.
  intros m Hc Hr Hd. unfold logNATResult. cbn [Body Method NewRMCRequest].
  match goal with |- context [?rd (NewStreamIn _)] =>
    assert (decodes rd (write_report detailed r) r) as Hrd end.
  { unfold write_report. eapply decodes_bind; [by apply decodes_U32|]. eapply decodes_bind; [apply decodes_Bool|].
    eapply (decodes_bind _ _ _ _ (nr_detail r)); [|eapply decodes_bind_ret_eq; [by apply decodes_U32|by destruct r]].
    subst m. destruct detailed; [|rewrite Hd; apply decodes_ret].
    eapply decodes_bind_ret_eq; [apply decodes_U32, u32_uint|]. by apply (sint_uint 32). }
  specialize (Hrd []). rewrite app_nil_r in Hrd. by rewrite Hrd.
Qed.

(** The milliseconds of the day a stamp shows. *)
Definition stamp_ms (s : gostring) : Z :=
  let d i := byte_at s i - 48 in
  3600000 * (10 * d 0 + d 1) + 60000 * (10 * d 3 + d 4) + 1000 * (10 * d 6 + d 7) +
  100 * d 9 + 10 * d 10 + d 11.

Lemma pad2_digits n : 0 <= n < 100 -> pad2 n = [48 + n / 10; 48 + n mod 10].
Proof.
  intros Hn. unfold pad2. case_bool_decide.
  - unfold GoStrconv.utoa. cbn [GoStrconv.digits]. rewrite bool_decide_eq_true_2 by lia.
    rewrite Z.div_small, Z.mod_small by lia. done.
  - unfold GoStrconv.utoa. do 2 (cbn [GoStrconv.digits]; try rewrite bool_decide_eq_false_2 by lia).
    rewrite bool_decide_eq_true_2 by (apply Z.div_lt_upper_bound; lia). done.
Qed.

Lemma pad3_digits n : 0 <= n < 1000 -> pad3 n = [48 + n / 100; 48 + n / 10 mod 10; 48 + n mod 10].
Proof.
  intros Hn. unfold pad3. case_bool_decide.
  - rewrite pad2_digits by lia. rewrite (Z.div_small n 100) by lia.
    by rewrite (Z.mod_small (n / 10)) by (split; [apply Z.div_pos; lia|apply Z.div_lt_upper_bound; lia]).
  - unfold GoStrconv.utoa. cbn [GoStrconv.digits]. rewrite bool_decide_eq_false_2 by lia.
    rewrite bool_decide_eq_false_2 by (apply Z.le_ngt, Z.div_le_lower_bound; lia).
    rewrite bool_decide_eq_true_2 by (rewrite Z.div_div by lia; apply Z.div_lt_upper_bound; lia).
    rewrite Z.div_div by lia. done.
Qed.

(** The clock of an instant. *)
Lemma UTC_clock t :
  let r := unix t mod 86400 in
  clock_string (UTC t) = [48 + r / 3600 / 10; 48 + (r / 3600) mod 10; 58;
    48 + r mod 3600 / 60 / 10; 48 + (r mod 3600 / 60) mod 10; 58; 48 + r mod 60 / 10; 48 + (r mod 60) mod 10].
Proof.
  intros r. assert (0 <= r < 86400) as Hr by (apply Z.mod_pos_bound; lia).
  assert (c_Hour (UTC t) = r / 3600 /\ c_Minute (UTC t) = r mod 3600 / 60 /\ c_Second (UTC t) = r mod 60) as (Hh & Hm & Hs).
  { unfold UTC. destruct (year_of _) as [y yd]. destruct (month_of _ _) as [mo d]. done. }
  unfold clock_string. rewrite Hh, Hm, Hs. rewrite !pad2_digits; [done| | |]; euclid.
Qed.

(** Milliseconds and seconds of the day. *)
Lemma day_ms q zone :
  1000 * ((q / 1000 + zone) mod 86400) + q mod 1000 = (q + zone * 1000) mod 86400000.
Proof.
  apply (Z.mod_unique _ _ ((q / 1000 + zone) / 86400)); euclid.
Qed.

(** A stamp shows the local time of day to the millisecond, so that the stamps of one day
    put events in order. *)
Lemma ts_reads_back now zone :
  stamp_ms (ts now zone) = (now / millisecond_ns + zone * 1000) mod 86400000.
Proof.
  unfold ts. rewrite UTC_clock. rewrite pad3_digits by (unfold second_ns, millisecond_ns; euclid).
  assert (unix (now + zone * second_ns) = now / millisecond_ns / 1000 + zone) as ->
    by (unfold unix, second_ns, millisecond_ns; rewrite Z.div_div by lia; rewrite Z.div_add by lia; done).
  assert (now mod second_ns / millisecond_ns = (now / millisecond_ns) mod 1000) as ->
    by (unfold second_ns, millisecond_ns; euclid).
  rewrite <- day_ms. generalize (now / millisecond_ns). intros q.
  assert (0 <= (q / 1000 + zone) mod 86400 < 86400) as Hr by (apply Z.mod_pos_bound; lia).
  assert (0 <= q mod 1000 < 1000) as Hq by (apply Z.mod_pos_bound; lia).
  revert Hr Hq. generalize ((q / 1000 + zone) mod 86400) (q mod 1000). intros r m Hr Hm.
  change (str ".") with [46]. unfold stamp_ms, byte_at.
  change (Z.to_nat 0) with 0%nat. change (Z.to_nat 1) with 1%nat. change (Z.to_nat 3) with 3%nat.
  change (Z.to_nat 4) with 4%nat. change (Z.to_nat 6) with 6%nat. change (Z.to_nat 7) with 7%nat.
  change (Z.to_nat 9) with 9%nat. change (Z.to_nat 10) with 10%nat. change (Z.to_nat 11) with 11%nat.
  cbn [Datatypes.app nth].
  assert (forall x, 10 * (48 + x / 10 - 48) + (48 + x mod 10 - 48) = x) as Htwo
    by (intros x; pose proof (Z.div_mod x 10 ltac:(lia)); lia).
  rewrite !Htwo. pose proof (Z.div_mod m 10 ltac:(lia)). pose proof (Z.div_mod (m / 10) 10 ltac:(lia)).
  rewrite Z.div_div in * by lia. euclid.
Qed.

Example ts_sample : ts (1787343209 * second_ns + 45 * millisecond_ns + 7) 7200 = str "22:13:29.045".
Proof. vm_compute. reflexivity. Qed.
Example upgrade_sample : mux_route (str "WebSocket") [] false = UpgradeSocket /\ mux_route [] [] false = NotFound.
Proof. split; vm_compute; reflexivity. Qed.
Example pacing_sample : fragmentPacing [] = 15000000 /\ fragmentPacing (str "0") = 0 /\ fragmentPacing (str "x") = 15000000.
Proof. split_and!; vm_compute; reflexivity. Qed.
