(* ===== verification/Server.v ===== *)
(** * The MK8 secure server (server/main.go)

    The secure endpoint with the handlers, the deduplicator and the disconnection hook
    that [main] registers, and its runs: sockets open and close, frames arrive, senders
    and retransmissions proceed, idle connections are reaped.  Requests are served one
    after the other; the interleavings inside the deduplicator and the seat table are the
    subject of their own files.  A request that does not return sets [sv_stuck], and runs
    only go on from states where it is not set.  What only goes to the log is left out. *)

From S2P Require Import Prelude GoStd GoNet GoTime Settings Stream Types StationURL Rmc PrudpLite.
From S2P Require Import Matchmaking Reservations Notification Connection Stations Store StoreInv.
From S2P Require Import Tournament Handlers HandlerInv HandlerProps Sha256 Dedup Crypto Kerberos.
From S2P Require Import TicketGranting Endpoint NatTraversal RankingBoard Ranking Utility Dashboard.

Definition accessKey : gostring := str "09c1c475".
Definition nexVersion : Z := 40000.
Definition securePID : Z := 2.
Definition securePassword : gostring := str "securepasswordplz1".
Definition server_settings : Settings := NewSwitchSettings accessKey nexVersion.

(** What the handlers of the process share. *)
Record Service := mkService {
  sv_world : World;
  sv_dedup : rmcDeduplicator;
  sv_profiles : Profiles;
  sv_boards : Boards;
  sv_notifCalls : Z;
  sv_waiting : list (Z * RMCMessage * Z);
  sv_stuck : bool;
  sv_dash : DashState
}.
Definition set_world (w : World) (a : Service) : Service :=
  mkService w (sv_dedup a) (sv_profiles a) (sv_boards a) (sv_notifCalls a) (sv_waiting a) (sv_stuck a) (sv_dash a).
Definition set_dedup (d : rmcDeduplicator) (a : Service) : Service :=
  mkService (sv_world a) d (sv_profiles a) (sv_boards a) (sv_notifCalls a) (sv_waiting a) (sv_stuck a) (sv_dash a).
Definition set_ranking (p : Profiles) (b : Boards) (a : Service) : Service :=
  mkService (sv_world a) (sv_dedup a) p b (sv_notifCalls a) (sv_waiting a) (sv_stuck a) (sv_dash a).
Definition set_notifCalls (k : Z) (a : Service) : Service :=
  mkService (sv_world a) (sv_dedup a) (sv_profiles a) (sv_boards a) k (sv_waiting a) (sv_stuck a) (sv_dash a).
Definition set_waiting (l : list (Z * RMCMessage * Z)) (a : Service) : Service :=
  mkService (sv_world a) (sv_dedup a) (sv_profiles a) (sv_boards a) (sv_notifCalls a) l (sv_stuck a) (sv_dash a).
Definition set_stuck (a : Service) : Service :=
  mkService (sv_world a) (sv_dedup a) (sv_profiles a) (sv_boards a) (sv_notifCalls a) (sv_waiting a) true (sv_dash a).
Definition set_dash (d : DashState) (a : Service) : Service :=
  mkService (sv_world a) (sv_dedup a) (sv_profiles a) (sv_boards a) (sv_notifCalls a) (sv_waiting a)
    (sv_stuck a) d.

(** What serving a frame draws from outside: clock readings, random values, files. *)
Record ServerEnv := mkServerEnv {
  sn_henv : HEnv;
  sn_now : Z;
  sn_now' : Z;
  sn_repoint : gostring;
  sn_date : Z;
  sn_profiles : option (gmap gostring gostring);
  sn_boards : option (list boardPersisted);
  sn_ghost : gostring;
  sn_seen : Z;
  sn_seen' : Z
}.

Section Server.
Context `{GoRange, GoSort} (pe : ProcEnv).
Let s := server_settings.
Let base : Endpoint Service := NewEndpoint s.

(** [SendNotification] to a connection. *)
Definition push_event (n : Net Service) (ev : Z * NotificationEvent) : Net Service :=
  let '(msg, k) := SendNotification s (sv_notifCalls (app n)) ev.2 in
  SendRMC base ev.1 msg (with_app (set_notifCalls k) n).

(** A matchmaking handler on the shared store; [waiting] starts the background answer. *)
Definition serve_matchmaking (h : Registry -> Conn -> RMCMessage -> World -> Outcome)
    : RMCHandler Service := fun ref req n =>
  match heap (reg n) !! ref with
  | None => (n, None)
  | Some c =>
      match h (reg n) (mkConn ref c) req (sv_world (app n)) with
      | Hangs => (with_app set_stuck n, None)
      | Returns w pushes resp waiting =>
          let n := with_app (set_world w) n in
          let n := foldl push_event n pushes in
          (match waiting with
           | Some host => with_app (fun a => set_waiting (sv_waiting a ++ [(ref, req, host)]) a) n
           | None => n
           end, resp)
      end
  end.

(** [rmcDeduplicator.wrap]. *)
Definition wrap (now now' : Z) (next : RMCHandler Service) : RMCHandler Service := fun ref req n =>
  match heap (reg n) !! ref with
  | None => next ref req n
  | Some c =>
      if negb (deduplicateMatchmaking req) then next ref req n
      else
        let key := request_key (ID c) (PID c) req in
        let '(a, d) := admit_call now key (sv_dedup (app n)) in
        let n := with_app (set_dedup d) n in
        match a with
        | Wait _ => (with_app set_stuck n, None)
        | Replay r => (n, r)
        | Bypass => next ref req n
        | Execute p =>
            let '(n, resp) := next ref req n in
            if sv_stuck (app n) then (n, resp)
            else (with_app (fun a => set_dedup (complete now' key p resp (sv_dedup a)) a) n, resp)
        end
  end.

Definition serve_secure : RMCHandler Service := fun ref req n =>
  match heap (reg n) !! ref with
  | None => (n, None)
  | Some c =>
      let '(c, resp) := SecureConnectionHandlerWithConfig SwitchPia519Config s c req in
      (set_conn ref c n, Some resp)
  end.

(** [OnNATProperties]. *)
Definition on_nat (env : ServerEnv) (pid natMap natFilter rtt : Z) (a : Service) : Service :=
  set_dash (noteNAT (sn_seen env) pid natMap natFilter rtt (sv_dash a)) a.

Definition serve_nat (env : ServerEnv) : RMCHandler Service := fun ref req n =>
  match heap (reg n) !! ref with
  | None => (n, None)
  | Some c =>
      let he := sn_henv env in
      let '(c, pushes, resp, k, a) :=
        NATTraversalHandler (Some (on_nat env)) (probeRepointEnabled (sn_repoint env))
          (fun ip => natPortForIP (he_now he) (he_now' he) (he_natfile he) ip) (sn_date env)
          (reg n) c req (w_nat (sv_world (app n))) (app n) in
      let n := with_app (fun _ => set_world (with_nat k (sv_world a)) a) (set_conn ref c n) in
      (foldl (fun n p => SendRMC base p.1 p.2 n) n pushes, Some resp)
  end.

Definition serve_ranking (env : ServerEnv) : RMCHandler Service := fun ref req n =>
  match heap (reg n) !! ref with
  | None => (n, None)
  | Some c =>
      let a := app n in
      let '(resp, p, b) :=
        RankingHandler (sn_profiles env) s _ _ _ (sn_boards env) (sn_now env) (w_ts (sv_world a))
          (PID c) req (sv_profiles a) (sv_boards a) in
      (with_app (set_ranking p b) n, Some resp)
  end.

Definition serve_utility : RMCHandler Service := fun ref req n =>
  match heap (reg n) !! ref with
  | None => (n, None)
  | Some c => (n, Some (UtilityHandler s (PID c) req))
  end.

(** The disconnection hook. *)
Definition on_disconnect (c : Connection) (a : Service) : Service :=
  set_world (with_mm (RemovePlayer (PID c) (w_mm (sv_world a))) (sv_world a)) a.

(** [OnRMC]: the dashboard's counters. *)
Definition on_rmc (env : ServerEnv) (c : Connection) (req : RMCMessage) (a : Service) : Service :=
  set_dash (noteRMC (ghostIdle (sn_ghost env)) (sn_seen env) (sn_seen' env) c req (sv_dash a)) a.

Definition set_hooks (env : ServerEnv) (e : Endpoint Service) : Endpoint Service :=
  mkEndpoint (e_Settings e) (Secure e) (SecureKey e) (Some (fun _ a => a)) (Some on_disconnect)
    (Some (on_rmc env)) (handlers e) (fallbackHandler e) (customPacketHandlers e).

Definition secureEndpoint (env : ServerEnv) : Endpoint Service :=
  let he := sn_henv env in
  let dedup h := wrap (sn_now env) (sn_now' env) (serve_matchmaking h) in
  let e := SetSecureAccount securePassword securePID (NewEndpoint s) in
  let e := Register ProtocolSecureConnection serve_secure e in
  let e := Register ProtocolMatchmakeExtension (dedup (fun ep => ExtensionHandler s pe ep he)) e in
  let e := Register ProtocolMatchMaking (dedup (fun ep => MatchMakingHandler s ep he)) e in
  let e := Register ProtocolMatchMakingExt (dedup (fun _ => MatchMakingExtHandler)) e in
  let e := Register ProtocolNATTraversal (serve_nat env) e in
  let e := Register ProtocolRanking (serve_ranking env) e in
  let e := Register ProtocolUtility serve_utility e in
  set_hooks env e.

(** The background answer to GetSessionURLs leaves, with whatever it found. *)
Definition answer_waiting (i : nat) (urls : list StationURL) (n : Net Service) : Net Service :=
  match sv_waiting (app n) !! i with
  | None => n
  | Some (ref, req, _) =>
      SendRMC base ref (sessionURLsResponse req urls)
        (with_app (fun a => set_waiting (delete i (sv_waiting a)) a) n)
  end.

End Server.

(** ** The start of the process *)
Definition envOr (v def : gostring) : gostring := match v with [] => def | _ => v end.
Definition envOrInt (v : gostring) (def : Z) : Z :=
  match v with [] => def | _ => default def (GoStrconv.atoi v) end.

(** [time.Duration(n) * time.Second]. *)
Definition duration_s (n : Z) : Z := sint 64 (n * nanos).

Definition server_start (c : Config) (ttl dedupTTL dedupMax : Z) (ts : tournamentStore) : Net Service :=
  mkNet empty_registry [] [] empty_table
    (mkService (initial_world c ttl ts) (newRMCDeduplicator dedupTTL dedupMax) no_profiles no_boards 0 []
       false dash_start).

(** The values of MATCHMAKING_RESERVATION_SECONDS, MATCHMAKING_DEDUP_SECONDS and
    MATCHMAKING_DEDUP_MAX_ENTRIES. *)
Definition secure_start (reservation dedupSeconds dedupMax : gostring) (c : Config) (ts : tournamentStore)
    : Net Service :=
  server_start c (duration_s (envOrInt reservation 8)) (duration_s (envOrInt dedupSeconds 20))
    (envOrInt dedupMax defaultRMCDedupEntries) ts.
