(* ===== verification/ServerProps.v ===== *)
(** * What the MK8 secure server guarantees

    Every run of the server over its sockets is a run of the matchmaking store; retried
    requests are executed once; and what closing a connection does to its player. *)

From S2P Require Import Prelude GoStd GoNet GoTime Settings Stream Types StationURL Rmc PrudpLite.
From S2P Require Import Matchmaking Reservations Notification Connection Stations Store StoreInv.
From S2P Require Import Tournament Handlers HandlerInv HandlerProps Sha256 Dedup Crypto Kerberos.
From S2P Require Import TicketGranting Endpoint EndpointInv EndpointProps NatTraversal RankingBoard.
From S2P Require Import Ranking Utility Dashboard DashboardProps Server.

(** ** Transport operations leave the application alone *)
Section Transport.
Context {App : Type} (e : Endpoint App).

Lemma app_with_conn ref f (n : Net App) :
  (forall c, heap (reg n) !! ref = Some c -> app (f c n) = app n) -> app (with_conn ref f n) = app n.
Proof. intros Hf. unfold with_conn. destruct (heap (reg n) !! ref) as [c|]; [by apply Hf|done]. Qed.

Lemma app_SendRMC ref msg (n : Net App) : app (SendRMC e ref msg n) = app n.
Proof. apply seen_app, seen_SendRMC. Qed.
Lemma app_sendAck ref p (n : Net App) : app (sendAck ref p n) = app n.
Proof. apply seen_app, seen_sendAck. Qed.
End Transport.

Section Runs.
Context `{GoRange, GoSort} (pe : ProcEnv).
Let s := server_settings.

(** The matchmaking world inside the server. *)
Definition store_of (n : Net Service) : World := sv_world (app n).

(** From [n] to [n'] the store made steps of its own only. *)
Definition evolves (n n' : Net Service) : Prop :=
  rtc (world_step s pe) (store_of n) (store_of n').

Lemma evolves_app n n' : app n' = app n -> evolves n n'.
Proof. intros E. unfold evolves, store_of. by rewrite E. Qed.

Lemma evolves_world n n' : store_of n' = store_of n -> evolves n n'.
Proof. intros E. unfold evolves. by rewrite E. Qed.

Lemma evolves_trans n1 n2 n3 : evolves n1 n2 -> evolves n2 n3 -> evolves n1 n3.
Proof. unfold evolves. intros. by etrans. Qed.

Lemma push_events_world l n : store_of (foldl push_event n l) = store_of n.
Proof.
  revert n. induction l as [|ev l IH]; intros n; [done|]. cbn [foldl]. rewrite IH.
  unfold push_event. destruct (SendNotification _ _ _) as [msg k]. unfold store_of. by rewrite app_SendRMC.
Qed.

Lemma serve_matchmaking_evolves h ref req n n' r :
  (forall ep c w' ps r wt, h ep c req (store_of n) = Returns w' ps r wt ->
     world_step s pe (store_of n) w') ->
  serve_matchmaking h ref req n = (n', r) -> evolves n n'.
Proof.
  intros Hh. unfold serve_matchmaking. destruct (heap (reg n) !! ref) as [c|]; [|intros [= <- _]; by apply evolves_app].
  destruct (h _ _ _ _) as [w' ps resp wt|] eqn:E; intros [= <- _]; [|by apply evolves_world].
  eapply rtc_l; [by eapply Hh|].
  assert (store_of (foldl push_event (with_app (set_world w') n) ps) = w') as Hw
    by (by rewrite push_events_world).
  destruct wt; [|by rewrite Hw]. unfold store_of in *. cbn. by rewrite Hw.
Qed.

Lemma wrap_evolves now now' next ref req n n' r :
  (forall n1 n2 r, store_of n1 = store_of n -> next ref req n1 = (n2, r) -> evolves n1 n2) ->
  wrap now now' next ref req n = (n', r) -> evolves n n'.
Proof.
  intros Hn. unfold wrap. destruct (heap (reg n) !! ref) as [c|]; [|by apply Hn].
  destruct (negb (deduplicateMatchmaking req)); [by apply Hn|].
  destruct (admit_call _ _ _) as [a d]. set (n0 := with_app (set_dedup d) n).
  assert (evolves n n0) as Hev by (by apply evolves_world).
  assert (forall n2 r, next ref req n0 = (n2, r) -> evolves n n2) as Hnext.
  { intros n2 r2 E. eapply evolves_trans; [done|]. by eapply Hn. }
  destruct a as [p|r0| |p]; try (intros [= <- _]; by apply evolves_world); [by apply Hnext|].
  destruct (next ref req n0) as [n2 resp] eqn:E. specialize (Hnext _ _ eq_refl).
  destruct (sv_stuck (app n2)); intros [= <- _]; [done|].
  eapply evolves_trans; [done|]. by apply evolves_world.
Qed.

(** The NAT handler leaves the world alone but for the observation cache. *)
Lemma nat_handler_world env enabled look now ep c req k a c' ps r k' a' :
  NATTraversalHandler (Some (on_nat env)) enabled look now ep c req k a = (c', ps, r, k', a') ->
  sv_world a' = sv_world a /\ sv_dedup a' = sv_dedup a.
Proof.
  unfold NATTraversalHandler. intros Hh.
  repeat (case_bool_decide; cbn [orb] in Hh; [|]); simplify_eq; try done;
    repeat case_match; simplify_eq; try done.
  all: match goal with E : noteNATProperties _ _ _ _ = _ |- _ => unfold noteNATProperties in E end;
    repeat case_match; by simplify_eq.
Qed.

Lemma serve_nat_evolves env ref req n n' r : serve_nat env ref req n = (n', r) -> evolves n n'.
Proof.
  unfold serve_nat. destruct (heap (reg n) !! ref) as [c|]; [|intros [= <- _]; by apply evolves_app].
  destruct (NATTraversalHandler _ _ _ _ _ _ _ _ _) as [[[[c' pushes] resp] k] a] eqn:E. intros [= <- _].
  apply nat_handler_world in E as [E _]. unfold evolves, store_of.
  rewrite (seen_app _ _ (seen_SendRMC_all _ _ _)). cbn. rewrite E. apply rtc_once. apply ws_nat.
Qed.

(** Serving one request is at most one step of the store. *)
Lemma handler_evolves env proto h ref req n n' r :
  handler (secureEndpoint pe env) proto = Some h -> nextGID (w_mm (store_of n)) < 2 ^ 32 - 1 ->
  h ref req n = (n', r) -> evolves n n'.
Proof.
  intros Hh Hlt. unfold handler in Hh. cbn [secureEndpoint set_hooks Register SetSecureAccount
    NewEndpoint handlers fallbackHandler] in Hh.
  destruct (<[ProtocolUtility := _]> _ !! proto) as [h0|] eqn:El; [|done]. injection Hh as <-.
  repeat match type of El with
  | <[_ := _]> _ !! _ = Some _ => apply lookup_insert_Some in El as [[_ <-]|[_ El]]
  end; [| | | | | | |done].
  - unfold serve_utility. destruct (heap (reg n) !! ref); intros [= <- _]; by apply evolves_app.
  - unfold serve_ranking. destruct (heap (reg n) !! ref) as [c|]; [|intros [= <- _]; by apply evolves_app].
    destruct (RankingHandler _ _ _ _ _ _ _ _ _ _ _ _) as [[resp p] b]. intros [= <- _].
    by apply evolves_world.
  - by apply serve_nat_evolves.
  - intros E. eapply wrap_evolves; [|exact E]. intros n1 n2 r1 Hw. apply serve_matchmaking_evolves.
    intros ep c w' ps r2 wt Ho. by eapply ws_matchmaking_ext.
  - intros E. eapply wrap_evolves; [|exact E]. intros n1 n2 r1 Hw. apply serve_matchmaking_evolves.
    intros ep c w' ps r2 wt Ho. by eapply ws_matchmaking.
  - intros E. eapply wrap_evolves; [|exact E]. intros n1 n2 r1 Hw. apply serve_matchmaking_evolves.
    intros ep c w' ps r2 wt Ho. eapply ws_extension; [by rewrite Hw|done].
  - unfold serve_secure. destruct (heap (reg n) !! ref) as [c|]; [|intros [= <- _]; by apply evolves_app].
    destruct (SecureConnectionHandlerWithConfig _ _ _ _). intros [= <- _]. by apply evolves_app.
Qed.

Lemma dispatch_evolves env ref payload n :
  nextGID (w_mm (store_of n)) < 2 ^ 32 - 1 -> evolves n (dispatchRMC (secureEndpoint pe env) ref payload n).
Proof.
  intros Hlt. unfold dispatchRMC. destruct (ParseRMC payload) as [req|]; [|by apply evolves_app].
  case_bool_decide; [by apply evolves_app|].
  change (OnRMC (secureEndpoint pe env)) with (Some (on_rmc env)).
  cbv iota. set (n0 := with_conn ref _ n).
  assert (store_of n0 = store_of n) as E0
    by (subst n0; unfold with_conn; by destruct (heap (reg n) !! ref)).
  assert (evolves n n0) as Hev by (by apply evolves_world). clearbody n0.
  destruct (handler (secureEndpoint pe env) (Protocol req)) as [h|] eqn:Hh.
  - destruct (h ref req n0) as [n1 resp] eqn:E. eapply evolves_trans; [exact Hev|].
    eapply evolves_trans; [eapply handler_evolves; [exact Hh| |exact E]|].
    + by rewrite E0.
    + destruct resp; apply evolves_app; [apply app_SendRMC|done].
  - eapply evolves_trans; [exact Hev|]. apply evolves_app, app_SendRMC.
Qed.

Lemma close_evolves env ref n : evolves n (close (secureEndpoint pe env) ref n).
Proof.
  unfold close, with_conn. destruct (heap (reg n) !! ref) as [c|]; [|by apply evolves_app].
  case_bool_decide; [by apply evolves_app|].
  change (OnDisconnect (secureEndpoint pe env)) with (Some on_disconnect). cbv iota.
  apply rtc_once. apply (ws_disconnect _ _ (PID c)).
Qed.

Lemma connect_app env penv ref p n n' :
  processCONNECT (secureEndpoint pe env) penv ref p n = Some n' -> app n' = app n.
Proof.
  unfold processCONNECT. destruct (heap (reg n) !! ref) as [c|]; [|by intros [= <-]].
  case_bool_decide; [by intros [= <-]|].
  destruct (processLoginRequest _ _ _ _ _) as [login t].
  destruct login as [[response c']| |]; [|by intros [= <-]|done]. intros [= <-].
  change (OnConnect (secureEndpoint pe env)) with (Some (fun (_ : Connection) (a : Service) => a)).
  cbv iota. by rewrite app_with_conn.
Qed.

Lemma packet_evolves env penv ref p n n' :
  nextGID (w_mm (store_of n)) < 2 ^ 32 - 1 ->
  handlePacket (secureEndpoint pe env) penv ref p n = Some n' -> evolves n n'.
Proof.
  intros Hlt. unfold handlePacket. set (n0 := mark_seen penv ref n).
  assert (app n0 = app n) as E0 by (by apply app_with_conn).
  assert (evolves n n0) as Hev by (by apply evolves_app). clearbody n0.
  assert (nextGID (w_mm (store_of n0)) < 2 ^ 32 - 1) as Hlt0 by (unfold store_of; by rewrite E0).
  intros Hp. eapply evolves_trans; [exact Hev|]. clear Hev E0 Hlt.
  case_bool_decide.
  { destruct (HasFlag p FlagACK); injection Hp as <-; [by apply evolves_app|].
    apply evolves_app. unfold processSYN. by apply app_with_conn. }
  case_bool_decide.
  { destruct (HasFlag p FlagACK); [injection Hp as <-; by apply evolves_app|].
    apply evolves_app. by eapply connect_app. }
  case_bool_decide.
  { injection Hp as <-. unfold processData. destruct (HasFlag p FlagMultiACK).
    { apply evolves_app. destruct (p_Payload p) as [|? [|? [|? [|? ?]]]]; try done. by apply app_with_conn. }
    destruct (HasFlag p FlagACK); [apply evolves_app; by apply app_with_conn|].
    set (n1 := if HasFlag p FlagNeedACK then _ else _).
    assert (app n1 = app n0) as E1 by (subst n1; destruct (HasFlag p FlagNeedACK); [apply app_sendAck|done]).
    eapply evolves_trans; [by apply evolves_app|]. clearbody n1.
    unfold with_conn. destruct (heap (reg n1) !! ref) as [c|]; [|by apply evolves_app].
    destruct (absorb (fragBuf c) p) as [buf full]. set (n2 := set_conn ref _ n1).
    eapply (evolves_trans _ n2); [by apply evolves_app|].
    destruct full; [|by apply evolves_app]. apply dispatch_evolves.
    unfold store_of. change (app n2) with (app n1). by rewrite E1. }
  case_bool_decide.
  { injection Hp as <-. apply evolves_app. unfold processPing.
    repeat case_match; try done; apply app_sendAck. }
  case_bool_decide.
  { destruct (HasFlag p FlagACK); injection Hp as <-; [by apply evolves_app|].
    eapply evolves_trans; [|apply close_evolves]. apply evolves_app.
    destruct (HasFlag p FlagNeedACK); [apply app_sendAck|done]. }
  change (customPacketHandlers (secureEndpoint pe env))
    with (∅ : gmap Z (Z -> Packet -> Net Service -> Net Service)) in Hp.
  rewrite lookup_empty in Hp. injection Hp as <-. by apply evolves_app.
Qed.

(** The packets of a frame are handled in turn, none of them hanging, with gathering ids
    to spare. *)
Fixpoint calm (env : ServerEnv) (penv : PEnv) (ref : Z) (ps : list Packet) (n : Net Service) : Prop :=
  match ps with
  | [] => True
  | p :: ps =>
      nextGID (w_mm (store_of n)) < 2 ^ 32 - 1 /\
      match handlePacket (secureEndpoint pe env) penv ref p n with
      | Some n' => sv_stuck (app n') = false /\ calm env penv ref ps n'
      | None => True
      end
  end.

Lemma handle_all_evolves env penv ref ps n :
  calm env penv ref ps n -> evolves n (handle_all (secureEndpoint pe env) penv ref ps n).
Proof.
  revert n. induction ps as [|p ps IH]; intros n; cbn [calm handle_all]; [intros _; by apply evolves_app|].
  intros [Hlt Hc]. destruct (handlePacket _ _ _ _ n) as [n1|] eqn:E;
    [|apply evolves_app; by apply app_with_conn].
  destruct Hc as [_ Hc]. eapply evolves_trans; [by eapply packet_evolves|]. by apply IH.
Qed.

(** ** Tickets *)

(** A CONNECT presents a ticket in a sealed envelope: a random key and the bytes sealed
    under it and the server's key.  Envelopes other than those [held] do not open: nobody
    without the server's key can seal one. *)
Definition secure_key : bytes := DeriveKey s securePassword securePID.
Definition genuine (held : bytes -> bytes -> Prop) (payload : bytes) : Prop :=
  forall ticketData requestData st ticketKey sealed st' d,
    connect_buffers payload = ((ticketData, requestData), st) -> si_err st = false ->
    connect_buffers ticketData = ((ticketKey, sealed), st') -> si_err st' = false ->
    kerberosDecrypt (md5Sum (secure_key ++ ticketKey)) sealed = Ok d -> held ticketKey sealed.
Definition anything (_ _ : bytes) : Prop := True.

Lemma any_frame ps : Forall (brings (genuine anything)) ps.
Proof. apply Forall_true. intros p _ td rd st tk sl st' d. by intros. Qed.

(** ** Runs of the server *)
(** What happens without the sockets: timers, background answers and the dashboard, whose
    statistics may have been read at any moments. *)
Inductive internal_step : Net Service -> Net Service -> Prop :=
  | sv_send env i n : internal_step n (step_sender (secureEndpoint pe env) i n)
  | sv_resend ref n : internal_step n (retransmit ref n)
  | sv_answer i urls n : internal_step n (answer_waiting i urls n)
  | sv_reap env now maxIdle n : internal_step n (ReapIdle (secureEndpoint pe env) now maxIdle n).1
  | sv_kick env token reapVar q now n :
      internal_step n (api_kick (secureEndpoint pe env) token reapVar q now n).2
  | sv_stats cfg token ghostVar q rd v n :
      internal_step n (with_app (fun a => set_dash (api_stats cfg token ghostVar q rd v (sv_dash a)).2 a) n)
  | sv_geo i g n : internal_step n (with_app (fun a => set_dash (geo_fetched i g (sv_dash a)) a) n)
  | sv_flush_profiles n :
      internal_step n (with_app (fun a => set_ranking (commonDataFlush (sv_profiles a)).2 (sv_boards a) a) n)
  | sv_flush_boards n :
      internal_step n (with_app (fun a => set_ranking (sv_profiles a) (boardFlush (sv_boards a)).2 a) n).

(** [file] is the recall file the process reads; [held] are the ticket envelopes its
    clients may present. *)
Inductive held_step (held : bytes -> bytes -> Prop) (file : option (gmap gostring authRecallPersisted))
    : Net Service -> Net Service -> Prop :=
  | sv_open ref addr n : heap (reg n) !! ref = None -> held_step held file n (OnOpen ref addr n)
  | sv_frame env penv ref data n :
      pe_file penv = file ->
      Forall (brings (genuine held)) (frame_packets ref data n) ->
      calm env penv ref (frame_packets ref data n) (buffered ref data n) ->
      held_step held file n (Feed (secureEndpoint pe env) penv ref data n)
  | sv_close env ref n : held_step held file n (close (secureEndpoint pe env) ref n)
  | sv_internal n n' : internal_step n n' -> held_step held file n n'.

(** Anything may arrive. *)
Definition server_step (file : option (gmap gostring authRecallPersisted)) : Net Service -> Net Service -> Prop :=
  held_step anything file.

Lemma close_if_evolves env test refs n k :
  evolves n (foldl (fun acc ref =>
    let '(n, k) := acc in
    match heap (reg n) !! ref with
    | Some c => if test c : bool then (close (secureEndpoint pe env) ref n, k + 1) else (n, k)
    | None => (n, k)
    end) (n, k) refs).1.
Proof.
  revert n k. induction refs as [|ref refs IH]; intros n k; cbn [foldl]; [by apply evolves_app|].
  destruct (heap (reg n) !! ref) as [c|]; [|apply IH]. destruct (test c); [|apply IH].
  eapply evolves_trans; [apply close_evolves|apply IH].
Qed.

Lemma feed_evolves env penv ref data n :
  calm env penv ref (frame_packets ref data n) (buffered ref data n) ->
  evolves n (Feed (secureEndpoint pe env) penv ref data n).
Proof.
  unfold Feed, frame_packets, buffered.
  destruct (heap (reg n) !! ref) as [c|]; [|intros _; by apply evolves_app].
  destruct (DecodePackets _) as [[ps rest] err]; cbn [fst snd]. intros Hc.
  destruct err; [by apply evolves_app|].
  eapply evolves_trans; [|by apply handle_all_evolves]. by apply evolves_app.
Qed.

Lemma reap_evolves env now maxIdle n : evolves n (ReapIdle (secureEndpoint pe env) now maxIdle n).1.
Proof. unfold ReapIdle. case_bool_decide; [by apply evolves_app|]. apply close_if_evolves. Qed.

Lemma kick_pid_evolves env pid n : evolves n (KickPID (secureEndpoint pe env) pid n).1.
Proof. unfold KickPID. case_bool_decide; [by apply evolves_app|]. apply close_if_evolves. Qed.

Lemma kick_connection_evolves env id n : evolves n (KickConnection (secureEndpoint pe env) id n).1.
Proof.
  unfold KickConnection. generalize (snapshotConns (reg n)) as refs.
  induction refs as [|ref refs IH]; cbn [kick_first]; [by apply evolves_app|].
  destruct (heap (reg n) !! ref) as [c|]; [|done]. case_bool_decide; [apply close_evolves|done].
Qed.

Lemma kick_evolves env token reapVar q now n :
  evolves n (api_kick (secureEndpoint pe env) token reapVar q now n).2.
Proof.
  unfold api_kick. destruct (authed token q); [|by apply evolves_app].
  destruct (nonzero (parse_uint_bits 64 _)) as [pid|].
  { pose proof (kick_pid_evolves env pid n) as Hk. by destruct (KickPID _ _ _). }
  destruct (nonzero (parse_uint_bits 32 _)) as [id|].
  { pose proof (kick_connection_evolves env id n) as Hk. by destruct (KickConnection _ _ _). }
  pose proof (reap_evolves env now (ReapIdleTimeout reapVar) n) as Hk. by destruct (ReapIdle _ _ _ _).
Qed.

Lemma internal_step_evolves n n' : internal_step n n' -> evolves n n'.
Proof.
  intros [env i n1|ref n1|i urls n1|env now maxIdle n1|env token reapVar q now n1
    |cfg token ghostVar q rd v n1|i g n1|n1|n1]; try (by apply evolves_world).
  - apply evolves_app, seen_app, seen_step_sender.
  - apply evolves_app, seen_app, seen_retransmit.
  - unfold answer_waiting. destruct (sv_waiting (app n1) !! i) as [[[ref req] host]|]; [|by apply evolves_app].
    apply evolves_world. unfold store_of. by rewrite app_SendRMC.
  - apply reap_evolves.
  - apply kick_evolves.
Qed.

Lemma server_step_evolves file n n' : server_step file n n' -> evolves n n'.
Proof.
  intros [ref addr n1 _|env penv ref data n1 _ _ Hc|env ref n1|n1 n2 Hi].
  - by apply evolves_app.
  - by apply feed_evolves.
  - apply close_evolves.
  - by apply internal_step_evolves.
Qed.

Lemma server_run_evolves file n n' : rtc (server_step file) n n' -> evolves n n'.
Proof.
  induction 1 as [n|n1 n2 n3 Hs _ IH]; [by apply evolves_app|].
  eapply evolves_trans; [by eapply server_step_evolves|done].
Qed.

(** [C1] Whatever arrives on the sockets -- any bytes, from any number of
    connections, with openings, closings, retransmissions, evictions and retries in any
    order -- the matchmaking store inside the server only moves by its own operations, so
    every lobby the server ever holds is stored under its id, has a member, lists nobody
    twice, reserves no seat for a member and advertises its exact number of members. *)
Theorem server_refines_store file c ttl dttl dmax ts n :
  rtc (server_step file) (server_start c ttl dttl dmax ts) n ->
  rtc (world_step s pe) (initial_world c ttl ts) (store_of n) /\
  forall gid g, gatherings (w_mm (store_of n)) !! gid = Some g ->
    ms_ID (session g) = gid /\ participants g <> [] /\ NoDup (participants g) /\
    (forall pid, pid ∈ participants g -> reservations g !! pid = None) /\
    NumParticipants (session g) = u32 (len (participants g)).
Proof.
  intros Hr. apply server_run_evolves in Hr. split; [exact Hr|]. intros gid g Hg.
  pose proof (reachable_inv s pe _ _ Hr (initial_inv c ttl ts)) as Hm.
  destruct (lookup_ok _ _ _ Hm Hg) as ([Hid [Hnd Hres] Hne] & Hct & _). by split_and!.
Qed.
End Runs.

(** ** Retried requests *)
Section Retry.
Context `{GoRange, GoSort} (pe : ProcEnv).

Lemma push_events_dedup l n : sv_dedup (app (foldl push_event n l)) = sv_dedup (app n).
Proof.
  revert n. induction l as [|ev l IH]; intros n; [done|]. cbn [foldl]. rewrite IH.
  unfold push_event. destruct (SendNotification _ _ _) as [msg k]. by rewrite app_SendRMC.
Qed.

(** A matchmaking handler does not touch the deduplicator. *)
Lemma serve_matchmaking_dedup h ref req n n' r :
  serve_matchmaking h ref req n = (n', r) -> sv_dedup (app n') = sv_dedup (app n).
Proof.
  unfold serve_matchmaking. destruct (heap (reg n) !! ref) as [c|]; [|by intros [= <- _]].
  destruct (h _ _ _ _) as [w' ps resp wt|]; intros [= <- _]; [|done].
  destruct wt; cbn; by rewrite push_events_dedup.
Qed.

(** The deduplicated protocols are served through the deduplicator. *)
Lemma dedup_handler env req : deduplicateMatchmaking req = true ->
  exists h, handler (secureEndpoint pe env) (Protocol req) =
    Some (wrap (sn_now env) (sn_now' env) (serve_matchmaking h)).
Proof.
  unfold deduplicateMatchmaking, handler.
  cbn [secureEndpoint set_hooks Register SetSecureAccount NewEndpoint handlers fallbackHandler].
  case_bool_decide as H1; [intros _; rewrite H1|case_bool_decide as H2; [intros _; rewrite H2|
    case_bool_decide as H3; [intros _; rewrite H3|done]]];
    rewrite ?lookup_insert_ne by done; rewrite lookup_insert_eq; by eexists.
Qed.

(** What serving a request does to the deduplicator: a call passes its sections. *)
Lemma wrap_traffic now now' limit h ref req n n' r :
  now < limit -> wrap now now' (serve_matchmaking h) ref req n = (n', r) ->
  rtc (dedup_traffic limit) (sv_dedup (app n)) (sv_dedup (app n')).
Proof.
  intros Hlt. unfold wrap.
  assert (forall n1 n2 r, serve_matchmaking h ref req n1 = (n2, r) -> sv_dedup (app n2) = sv_dedup (app n1))
    as Hs by (intros; by eapply serve_matchmaking_dedup).
  destruct (heap (reg n) !! ref) as [c|]; [|intros E; by rewrite (Hs _ _ _ E)].
  destruct (negb (deduplicateMatchmaking req)); [intros E; by rewrite (Hs _ _ _ E)|].
  destruct (admit_call _ _ _) as [a d] eqn:Ha.
  assert (dedup_traffic limit (sv_dedup (app n)) d) as Ht by (by eapply dt_admit).
  destruct a as [p|r0| |p]; try (intros [= <- _]; by apply rtc_once).
  - intros E. rewrite (Hs _ _ _ E). by apply rtc_once.
  - destruct (serve_matchmaking _ _ _ _) as [n2 resp] eqn:E. pose proof (Hs _ _ _ E) as Hd. cbn in Hd.
    destruct (sv_stuck (app n2)); intros [= <- _]; cbn; rewrite Hd; [by apply rtc_once|].
    eapply rtc_l; [exact Ht|]. apply rtc_once. eapply dt_complete; [by eapply execute_entry|done].
Qed.

(** ** The table stays in order *)
Definition table_ok (_ : RecallTable) (a : Service) (_ : gmap Z (Z * gostring)) : Prop := heap_bounded (sv_dedup a).

Lemma traffic_bounded limit d d' : rtc (dedup_traffic limit) d d' -> heap_bounded d -> heap_bounded d'.
Proof.
  intros Hr. induction Hr as [|d d1 d2 Hs _ IH]; [done|]. intros Hb. apply IH.
  destruct Hs as [now k a d d1 _ Ha|now k q e' r d Hq _]; [|by eapply complete_bounded].
  pose proof (admit_bounded now k d Hb) as H1. by rewrite Ha in H1.
Qed.

Lemma table_keeps env penv : keeps (secureEndpoint pe env) penv table_ok (fun _ => True).
Proof.
  split; try done.
  - by intros f ref c req t a w [= <-].
  - by intros f c t a w [= <-].
  - by intros f c t a w [= <-].
  - intros proto h ref req n n' r Hh Hn. unfold holds, table_ok in *. unfold handler in Hh.
    cbn [secureEndpoint set_hooks Register SetSecureAccount NewEndpoint handlers fallbackHandler] in Hh.
    destruct (<[ProtocolUtility := _]> _ !! proto) as [h0|] eqn:El; [|done]. injection Hh as <-.
    repeat match type of El with
    | <[_ := _]> _ !! _ = Some _ => apply lookup_insert_Some in El as [[_ <-]|[_ El]]
    end; [| | | | | | |done];
      try (intros E; eapply traffic_bounded; [|exact Hn];
           eapply (wrap_traffic (sn_now env) _ (sn_now env + 1)); [lia|exact E]).
    + unfold serve_utility. destruct (heap (reg n) !! ref); by intros [= <- _].
    + unfold serve_ranking. destruct (heap (reg n) !! ref) as [c|]; [|by intros [= <- _]].
      destruct (RankingHandler _ _ _ _ _ _ _ _ _ _ _ _) as [[resp p] b]. by intros [= <- _].
    + unfold serve_nat. destruct (heap (reg n) !! ref) as [c|]; [|by intros [= <- _]].
      destruct (NATTraversalHandler _ _ _ _ _ _ _ _ _) as [[[[c' pushes] resp] k] a] eqn:E. intros [= <- _].
      rewrite (seen_app _ _ (seen_SendRMC_all _ _ _)). cbn. by apply nat_handler_world in E as [_ ->].
    + unfold serve_secure. destruct (heap (reg n) !! ref) as [c|]; [|by intros [= <- _]].
      destruct (SecureConnectionHandlerWithConfig _ _ _ _). by intros [= <- _].
Qed.

Lemma server_table_ok file n n' : server_step pe file n n' ->
  heap_bounded (sv_dedup (app n)) -> heap_bounded (sv_dedup (app n')).
Proof.
  assert (forall env, keeps (secureEndpoint pe env) (mkPEnv 0 [] None) table_ok (fun _ => True)) as Hk
    by (intros; apply table_keeps).
  intros [ref addr n1 _|env penv ref data n1 _ _ _|env ref n1|n1 n2 Hi] Hn; [done| | |].
  - apply (feed_holds _ penv table_ok _ (table_keeps env penv)); [|exact Hn]. by apply Forall_true.
  - by apply (close_holds _ _ _ _ (Hk env)).
  - destruct Hi as [env i x|ref x|i urls x|env now maxIdle x|env token reapVar q now x
      |cfg token ghostVar q rd v x|i g x|x|x]; try done.
    + by rewrite (seen_app _ _ (seen_step_sender _ _ _)).
    + by rewrite (seen_app _ _ (seen_retransmit _ _)).
    + unfold answer_waiting. destruct (sv_waiting (app x) !! i) as [[[ref req] h]|]; [|done].
      by rewrite (seen_app _ _ (seen_SendRMC _ _ _ _)).
    + by apply (reap_holds _ _ _ _ (Hk env)).
    + unfold api_kick. destruct (authed token q); [|done].
      destruct (nonzero (parse_uint_bits 64 _)) as [pid|].
      { pose proof (kick_pid_holds _ _ _ _ (Hk env) pid x Hn) as H1. by destruct (KickPID _ _ _). }
      destruct (nonzero (parse_uint_bits 32 _)) as [id|].
      { pose proof (kick_connection_holds _ _ _ _ (Hk env) id x Hn) as H1. by destruct (KickConnection _ _ _). }
      pose proof (reap_holds _ _ _ _ (Hk env) now (ReapIdleTimeout reapVar) x Hn) as H1.
      by destruct (ReapIdle _ _ _ _).
Qed.

Lemma server_reachable_table file c ttl dttl dmax ts n :
  rtc (server_step pe file) (server_start c ttl dttl dmax ts) n -> heap_bounded (sv_dedup (app n)).
Proof.
  intros Hr. pattern n. revert n Hr. apply rtc_ind_r; [apply new_bounded|].
  intros x y _ Hxy Hx. by eapply server_table_ok.
Qed.

(** [C2] A request of the three matchmaking protocols that changes the store, in any
    reachable state of the server: when its first copy (no copy is in flight or has an
    answer that is still good) was executed and answered, then
    - if the table had room for it (fewer than its bound of entries in use), a copy that
      arrives on the same connection, under the same account, before the answer expires
      gets the same answer, sends no notification and leaves the store, the connections
      and everything else on the server as they are, whatever other calls passed through
      the table meanwhile;
    - if the table was full, the answer is not kept. *)
Theorem retry_executes_once file cfg ttl dttl dmax ts env1 ref req n n1 h1 resp c :
  rtc (server_step pe file) (server_start cfg ttl dttl dmax ts) n ->
  deduplicateMatchmaking req = true -> heap (reg n) !! ref = Some c ->
  let key := request_key (ID c) (PID c) req in
  let d := sv_dedup (app n) in
  let expires := sn_now' env1 + d_ttl d in
  first_copy (sn_now env1) key d ->
  handler (secureEndpoint pe env1) (Protocol req) = Some h1 ->
  h1 ref req n = (n1, Some resp) -> sv_stuck (app n1) = false ->
  if bool_decide (in_use (sn_now env1) d < maxEntries d) then
    forall env2 n2 c2,
      heap (reg n2) !! ref = Some c2 -> ID c2 = ID c -> PID c2 = PID c ->
      rtc (dedup_traffic expires) (sv_dedup (app n1)) (sv_dedup (app n2)) -> sn_now env2 < expires ->
      exists h2 d2, handler (secureEndpoint pe env2) (Protocol req) = Some h2 /\
        h2 ref req n2 = (with_app (set_dedup d2) n2, Some resp)
  else entry_of (sv_dedup (app n1)) key = None.
Proof.
  intros Hreach Hd Hc key d expires Hf Hh1 E1 Hst. pose proof (server_reachable_table _ _ _ _ _ _ _ Hreach) as Hb.
  destruct (dedup_handler env1 req Hd) as [g1 Hg1]. rewrite Hg1 in Hh1. injection Hh1 as <-.
  destruct (admit_first (sn_now env1) key d Hf) as (es & k & Ha & Hno & Hroom).
  pose proof (admit_bounded (sn_now env1) key d Hb) as Hb1.
  unfold wrap in E1. rewrite Hc, Hd in E1. cbn [negb] in E1. fold key d in E1. rewrite Ha in E1, Hb1.
  unfold allocate in E1, Hb1. cbn [maxEntries entries d_next d_heap d_ttl calls] in E1, Hb1.
  destruct (decide (maxEntries d <= Z.of_nat (size es))) as [Hfull|Hfree].
  - rewrite (bool_decide_eq_true_2 _ Hfull) in E1. apply Hroom in Hfull. rewrite bool_decide_eq_false_2 by lia.
    by rewrite (serve_matchmaking_dedup _ _ _ _ _ _ E1).
  - rewrite (bool_decide_eq_false_2 _ Hfree) in E1, Hb1. rewrite bool_decide_eq_true_2 by lia.
    destruct (serve_matchmaking g1 ref req _) as [m resp'] eqn:Es.
    pose proof (serve_matchmaking_dedup _ _ _ _ _ _ Es) as Hsd. cbn [app with_app set_dedup sv_dedup] in Hsd.
    destruct (sv_stuck (app m)) eqn:Hsm; injection E1 as <- ->; [congruence|].
    cbn [app with_app set_dedup sv_dedup]. rewrite Hsd. unfold complete. cbn [entries d_heap d_ttl].
    rewrite lookup_insert_eq, bool_decide_eq_true_2 by done. cbn [d_next maxEntries calls] in *.
    intros env2 n2 c2 Hc2 HID HPID Ht Hlt.
    destruct (dedup_handler env2 req Hd) as [g2 Hg2].
    destruct (traffic_keeps _ _ _ key (d_next d) (mkEntry false true (Some resp) expires) Ht) as (Hb2 & Hk2 & Hp2);
      [|cbn; by rewrite lookup_insert_eq|cbn; by rewrite lookup_insert_eq|done|done|].
    { intros q e. cbn. intros [[<- _]|[_ Hq]]%lookup_insert_Some; [lia|]. by apply (Hb1 q e). }
    destruct (admit_call (sn_now env2) key (sv_dedup (app n2))) as [a d2] eqn:Ha2.
    destruct (admit_keeps _ _ _ _ _ key _ _ Hb2 Hk2 Hp2 (or_intror Hlt) Ha2) as (_ & _ & Hdec).
    eexists _, d2. split; [exact Hg2|]. unfold wrap. rewrite Hc2, Hd. cbn [negb].
    rewrite HID, HPID. fold key. by rewrite Ha2, (Hdec eq_refl).
Qed.

(** ** Leaving *)

(** The account neither sits in a lobby nor has a seat reserved in one. *)
Definition absent (pid : Z) (n : Net Service) : Prop :=
  forall gid g, gatherings (w_mm (store_of n)) !! gid = Some g ->
    pid ∉ participants g /\ reservations g !! pid = None.

Lemma removal_absent pid p g g' :
  after_removal p g = Some g' ->
  p = pid \/ ((pid ∉ participants g) /\ reservations g !! pid = None) ->
  (pid ∉ participants g') /\ reservations g' !! pid = None.
Proof.
  intros Hr Hp. assert (participants g' = removePID (participants g) p /\
    reservations g' = delete p (reservations g)) as [-> ->].
  { unfold after_removal in Hr. repeat case_match; by simplify_eq. }
  rewrite elem_of_removePID, lookup_delete_None. naive_solver.
Qed.

Lemma close_absent env ref n c pid :
  heap (reg n) !! ref = Some c -> cstate c <> stateClosed -> pid <> 0 ->
  PID c = pid \/ absent pid n -> absent pid (close (secureEndpoint pe env) ref n).
Proof.
  intros Hc Hs Hz Hp gid g'. unfold close, with_conn. rewrite Hc, bool_decide_eq_false_2 by done.
  change (OnDisconnect (secureEndpoint pe env)) with (Some on_disconnect). cbv iota. unfold store_of. cbn.
  destruct (decide (PID c = 0)) as [Hzero|Hnz].
  { unfold RemovePlayer. rewrite bool_decide_eq_true_2 by done. destruct Hp as [Hp|Hp]; [congruence|by apply Hp]. }
  rewrite (remove_player_gatherings _ _ Hnz), lookup_omap.
  destruct (gatherings (w_mm (sv_world (app n))) !! gid) as [g|] eqn:Hg; [cbn|done]. intros Hr.
  eapply removal_absent; [exact Hr|]. destruct Hp as [Hp|Hp]; [by left|right; by apply (Hp gid)].
Qed.

(** ** Two connections of one player *)

(** Closing one connection of a player takes the player out of every lobby
    and drops its reserved seats, even though another, live connection of the same player
    stays registered: a console that reconnected loses its lobby when its old connection
    is finally closed. *)
Theorem stale_close_evicts env n ref1 ref2 c1 c2 pid :
  pid <> 0 ->
  heap (reg n) !! ref1 = Some c1 -> cstate c1 <> stateClosed -> PID c1 = pid ->
  heap (reg n) !! ref2 = Some c2 -> cstate c2 = stateConnected -> PID c2 = pid -> ref1 <> ref2 ->
  ID c1 <> ID c2 -> connections (reg n) !! ID c2 = Some ref2 ->
  let n' := close (secureEndpoint pe env) ref1 n in
  (forall gid g, gatherings (w_mm (store_of n')) !! gid = Some g ->
     pid ∉ participants g /\ reservations g !! pid = None) /\
  heap (reg n') !! ref2 = Some c2 /\ connections (reg n') !! ID c2 = Some ref2.
Proof.
  intros Hz H1 Hs1 Hp1 H2 Hs2 Hp2 Hne Hid Hreg n'. subst n'. split.
  - eapply close_absent; [exact H1|done|done|by left].
  - unfold close, with_conn. rewrite H1, bool_decide_eq_false_2 by done.
    change (OnDisconnect (secureEndpoint pe env)) with (Some on_disconnect). cbv iota.
    unfold unregisterConnection. cbn. rewrite lookup_insert_eq. cbn.
    case_bool_decide; cbn; rewrite lookup_insert_ne by done; [done|].
    split; [done|]. by rewrite lookup_delete_ne.
Qed.
End Retry.

(** ** A sample run

    A console whose address is remembered opens a socket; one frame carries its
    handshake and a matchmaking request. *)
Definition run_pid : Z := 1800000006.
Definition run_addr : gostring := str "82.1.2.3:4000".
Definition run_penv : PEnv :=
  mkPEnv (10 ^ 18) [] (Some {[str "82.1.2.3" := mkPersisted run_pid (10 ^ 9)]}).
Definition run_env (now now' : Z) : ServerEnv := mkServerEnv ex_henv now now' [] 0 None None [] now now'.
Definition run_packet (typ id : Z) (payload : bytes) : Packet :=
  mkPacket typ FlagReliable 0 0 0 0 0 id [] [] 0 0 payload.
Definition run_frame : bytes :=
  EncodePacket (run_packet PacketSYN 0 []) ++ EncodePacket (run_packet PacketCONNECT 1 []) ++
  EncodePacket (run_packet PacketDATA 2 (Encode ex_auto_request)).
Definition run_start : Net Service :=
  server_start default_Config (8 * second_ns) 0 0 empty_tournaments.
Definition run_opened : Net Service := OnOpen 1 run_addr run_start.
#[local] Instance run_range : GoRange := canonical_range.
#[local] Instance run_sort : GoSort := merge_slice.
Definition run_served : Net Service :=
  Feed (secureEndpoint ex_env (run_env 0 1)) run_penv 1 run_frame run_opened.

Example run_served_lobby :
  (participants <$> gatherings (w_mm (store_of run_served)) !! 1) = Some [run_pid].
Proof. vm_compute. reflexivity. Qed.

Lemma run_reaches : rtc (server_step ex_env (pe_file run_penv)) run_start run_served.
Proof.
  eapply rtc_l; [apply (sv_open ex_env _ _ 1 run_addr); reflexivity|].
  apply rtc_once, (sv_frame ex_env _ _ (run_env 0 1) run_penv 1 run_frame).
  - reflexivity.
  - apply any_frame.
  - vm_compute. repeat split.
Qed.

Lemma server_refines_store_witness :
  exists g, gatherings (w_mm (store_of run_served)) !! 1 = Some g /\ participants g = [run_pid] /\
    NumParticipants (session g) = 1.
Proof.
  destruct (server_refines_store ex_env (pe_file run_penv) default_Config (8 * second_ns) 0 0 empty_tournaments run_served
    run_reaches) as [_ Hg].
  assert (exists g, gatherings (w_mm (store_of run_served)) !! 1 = Some g /\ participants g = [run_pid])
    as (g & Hl & Hp) by (vm_compute; eexists; split; reflexivity).
  exists g. split; [exact Hl|]. split; [exact Hp|].
  destruct (Hg 1 g Hl) as (_ & _ & _ & _ & Hn). rewrite Hn, Hp. vm_compute. reflexivity.
Defined.

(** The handshake alone, then the request served twice. *)
Definition run_handshake : bytes :=
  EncodePacket (run_packet PacketSYN 0 []) ++ EncodePacket (run_packet PacketCONNECT 1 []).
Definition run_connected : Net Service :=
  Feed (secureEndpoint ex_env (run_env 0 1)) run_penv 1 run_handshake run_opened.
Definition run_conn : Connection := default (NewConnection []) (heap (reg run_connected) !! 1).
Definition run_handler (env : ServerEnv) : RMCHandler Service :=
  default (fun _ _ n => (n, None)) (handler (secureEndpoint ex_env env) ProtocolMatchmakeExtension).

Lemma run_connects : rtc (server_step ex_env (pe_file run_penv)) run_start run_connected.
Proof.
  eapply rtc_l; [apply (sv_open ex_env _ _ 1 run_addr); reflexivity|].
  fold run_opened. unfold run_connected.
  refine (rtc_once _ _ (sv_frame ex_env anything _ (run_env 0 1) run_penv 1 run_handshake run_opened _ _ _)).
  - reflexivity.
  - apply any_frame.
  - vm_compute. repeat split.
Qed.

(** Another console's call passes through the table before the copy arrives. *)
Definition other_key : rmcDedupKey := mkKey 9 1800000099 ProtocolMatchmakeExtension MethodOpenParticipation 4 [7].

Lemma retry_executes_once_witness :
  exists n1 resp, run_handler (run_env 0 1) 1 ex_auto_request run_connected = (n1, Some resp) /\
    let d := (admit_call 3 other_key (sv_dedup (app n1))).2 in
    exists h2 d2, handler (secureEndpoint ex_env (run_env 5 6)) ProtocolMatchmakeExtension = Some h2 /\
      h2 1 ex_auto_request (with_app (set_dedup d) n1) = (with_app (set_dedup d2) (with_app (set_dedup d) n1), Some resp).
Proof.
  assert (match run_handler (run_env 0 1) 1 ex_auto_request run_connected with
    | (n, Some _) => sv_stuck (app n) = false /\ ID <$> heap (reg n) !! 1 = Some (ID run_conn) /\
                     PID <$> heap (reg n) !! 1 = Some (PID run_conn)
    | _ => False end) as Hfirst by (vm_compute; repeat split).
  destruct (run_handler (run_env 0 1) 1 ex_auto_request run_connected) as [n1 [resp|]] eqn:E;
    [|destruct Hfirst].
  destruct Hfirst as (Hst & Hid & Hpid).
  destruct (heap (reg n1) !! 1) as [c2|] eqn:Hc2; [|inversion Hid].
  apply (inj Some) in Hid. apply (inj Some) in Hpid. exists n1, resp. split; [reflexivity|]. intros d.
  assert (heap (reg run_connected) !! 1 = Some run_conn) as Hc by (vm_compute; reflexivity).
  assert (first_copy 0 (request_key (ID run_conn) (PID run_conn) ex_auto_request) (sv_dedup (app run_connected)))
    as Hfc by (vm_compute; exact I).
  assert (bool_decide (in_use 0 (sv_dedup (app run_connected)) < maxEntries (sv_dedup (app run_connected))) = true)
    as Hroom by (vm_compute; reflexivity).
  pose proof (retry_executes_once ex_env (pe_file run_penv) default_Config (8 * second_ns) 0 0 empty_tournaments
    (run_env 0 1) 1 ex_auto_request run_connected n1 (run_handler (run_env 0 1)) resp run_conn run_connects eq_refl Hc
    Hfc eq_refl E Hst) as Hr.
  change (sn_now (run_env 0 1)) with 0 in Hr. rewrite Hroom in Hr.
  refine (Hr (run_env 5 6) (with_app (set_dedup d) n1) c2 Hc2 Hid Hpid _ _).
  - apply rtc_once. apply (dt_admit _ 3 other_key (admit_call 3 other_key (sv_dedup (app n1))).1);
      [vm_compute; reflexivity|apply surjective_pairing].
  - vm_compute. reflexivity.
Defined.

(** The same player on a second socket. *)
Definition run_twice : Net Service :=
  Feed (secureEndpoint ex_env (run_env 2 3)) run_penv 2 run_handshake (OnOpen 2 run_addr run_served).
Definition run_old : Connection := default (NewConnection []) (heap (reg run_twice) !! 1).
Definition run_new : Connection := default (NewConnection []) (heap (reg run_twice) !! 2).

Lemma stale_close_evicts_witness :
  (participants <$> gatherings (w_mm (store_of run_twice)) !! 1) = Some [run_pid] /\
  connections (reg (close (secureEndpoint ex_env (run_env 4 5)) 1 run_twice)) !! ID run_new = Some 2 /\
  (forall gid g, gatherings (w_mm (store_of (close (secureEndpoint ex_env (run_env 4 5)) 1 run_twice))) !! gid
     = Some g -> run_pid ∉ participants g).
Proof.
  destruct (stale_close_evicts ex_env (run_env 4 5) run_twice 1 2 run_old run_new run_pid) as (Hg & _ & Hc).
  - discriminate.
  - vm_compute. reflexivity.
  - vm_compute. discriminate.
  - vm_compute. reflexivity.
  - vm_compute. reflexivity.
  - vm_compute. reflexivity.
  - vm_compute. reflexivity.
  - discriminate.
  - vm_compute. discriminate.
  - vm_compute. reflexivity.
  - split; [vm_compute; reflexivity|]. split; [exact Hc|].
    intros gid g H. exact (proj1 (Hg gid g H)).
Defined.
