(* ===== verification/Admin.v ===== *)
(** * Administration of a running server (server/dashboard.go on the secure server)

    What the key protects, and what a kick does to the account. *)

From S2P Require Import Prelude GoStd GoNet GoTime Settings Stream Types StationURL Rmc PrudpLite.
From S2P Require Import Matchmaking Reservations Notification Connection Stations Store StoreInv.
From S2P Require Import Tournament Handlers HandlerInv HandlerProps Sha256 Dedup Crypto Kerberos.
From S2P Require Import TicketGranting Endpoint EndpointInv EndpointProps NatTraversal RankingBoard.
From S2P Require Import Ranking Utility Dashboard Server ServerProps.

(** The connection object stands for the account. *)
Definition owned (pid : Z) (n : Net Service) (ref : Z) : Prop :=
  exists c, heap (reg n) !! ref = Some c /\ PID c = pid.
#[export] Instance owned_dec pid n ref : Decision (owned pid n ref).
Proof.
  unfold owned. destruct (heap (reg n) !! ref) as [c|];
    [destruct (decide (PID c = pid)); [left; eauto|right; naive_solver]|right; naive_solver].
Defined.

Section Admin.
Context `{GoRange, GoSort} (pe : ProcEnv).

(** It stands for the account and is open. *)
Definition playing (pid : Z) (n : Net Service) (ref : Z) (c : Connection) : Prop :=
  heap (reg n) !! ref = Some c /\ PID c = pid /\ cstate c <> stateClosed.

(** What closing the listed connections of an account leaves. *)
Record kicked (pid : Z) (refs : list Z) (n n' : Net Service) (k : Z) : Prop := {
  ki_count : k = len (filter (owned pid n) refs);
  ki_heap : forall ref, heap (reg n') !! ref =
    (fun c => if bool_decide (ref ∈ refs /\ PID c = pid) then set_state stateClosed c else c) <$> heap (reg n) !! ref;
  ki_ids : forall id x, connections (reg n') !! id = Some x <->
    connections (reg n) !! id = Some x /\
    ~ exists ref c, ref ∈ refs /\ playing pid n ref c /\ ID c = id /\ id <> 0;
  ki_freed : forall ref c, ref ∈ refs -> playing pid n ref c -> absent pid n';
  ki_kept : (forall ref c, ref ∈ refs -> ~ playing pid n ref c) -> store_of n' = store_of n;
  ki_absent : absent pid n -> absent pid n'
}.

Lemma set_closed_id c : cstate c = stateClosed -> set_state stateClosed c = c.
Proof. destruct c. cbn. by intros ->. Qed.

(** One connection of the account. *)
Lemma close_kicked env pid ref n c : pid <> 0 -> heap (reg n) !! ref = Some c -> PID c = pid ->
  kicked pid [ref] n (close (secureEndpoint pe env) ref n) 1.
Proof.
  intros Hz Hc Hp. assert (owned pid n ref) as Ho by (by exists c).
  destruct (decide (cstate c = stateClosed)) as [Hs|Hs].
  - assert (close (secureEndpoint pe env) ref n = n) as ->
      by (unfold close, with_conn; by rewrite Hc, bool_decide_eq_true_2).
    assert (forall r c, r ∈ [ref] -> ~ playing pid n r c) as Hno.
    { intros r d ->%list_elem_of_singleton (Hd & _ & Hds). congruence. }
    split; try done.
    + by rewrite filter_cons, decide_True, filter_nil by done.
    + intros r. destruct (heap (reg n) !! r) as [d|] eqn:Hd; [cbn; f_equal|done]. case_bool_decide as Hr; [|done].
      destruct Hr as [->%list_elem_of_singleton _]. rewrite set_closed_id; congruence.
    + intros id x. split; [|tauto]. intros Hx. split; [done|]. intros (r & d & Hr & Hpl & _). by eapply Hno.
    + intros r d Hr Hpl. by destruct (Hno r d).
  - assert (absent pid (close (secureEndpoint pe env) ref n)) as Ha by (eapply close_absent; eauto).
    assert (heap (reg (close (secureEndpoint pe env) ref n)) = <[ref := set_state stateClosed c]> (heap (reg n)) /\
      connections (reg (close (secureEndpoint pe env) ref n)) =
        if bool_decide (ID c = 0) then connections (reg n) else delete (ID c) (connections (reg n))) as [Eh Em].
    { unfold close, with_conn. rewrite Hc, bool_decide_eq_false_2 by done.
      change (OnDisconnect (secureEndpoint pe env)) with (Some on_disconnect). cbv iota.
      unfold unregisterConnection. cbn. rewrite lookup_insert_eq. cbn. by case_bool_decide. }
    split; try done.
    + by rewrite filter_cons, decide_True, filter_nil by done.
    + intros r. rewrite Eh. destruct (decide (ref = r)) as [<-|Hne].
      * rewrite lookup_insert_eq, Hc. cbn. by rewrite bool_decide_eq_true_2 by (split; [by apply list_elem_of_singleton|done]).
      * rewrite lookup_insert_ne by done. destruct (heap (reg n) !! r) as [d|]; [cbn; f_equal|done].
        by rewrite bool_decide_eq_false_2 by (rewrite list_elem_of_singleton; naive_solver).
    + intros id x. rewrite Em. setoid_rewrite list_elem_of_singleton. case_bool_decide as Hi.
      * split; [|tauto]. intros Hx. split; [done|]. intros (r & d & -> & (Hd & _) & Hid & Hnz). congruence.
      * rewrite lookup_delete_Some. split.
        -- intros [Hne Hx]. split; [done|]. intros (r & d & -> & (Hd & _) & Hid & Hnz). congruence.
        -- intros [Hx Hno]. split; [|done]. intros <-. apply Hno. exists ref, c. by split_and!.
    + intros Hno. destruct (Hno ref c); [by apply list_elem_of_singleton|by split_and!].
Qed.

Lemma kicked_none pid n : kicked pid [] n n 0.
Proof.
  split; try done.
  - intros ref. by destruct (heap (reg n) !! ref).
  - intros id x. split; [|tauto]. intros Hx. split; [done|]. by intros (r & c & ?%elem_of_nil & _).
  - intros ref c ?%elem_of_nil. done.
Qed.

(** Closing one after the other. *)
Lemma kicked_trans pid r refs n n1 n2 k :
  kicked pid [r] n n1 1 -> kicked pid refs n1 n2 k -> kicked pid (r :: refs) n n2 (k + 1).
Proof.
  intros [K1 H1 I1 F1 S1 A1] [K2 H2 I2 F2 S2 A2].
  assert (forall ref, owned pid n1 ref <-> owned pid n ref) as Hown.
  { intros ref. unfold owned. rewrite H1. destruct (heap (reg n) !! ref) as [c|]; cbn; [|naive_solver].
    split; intros (d & [= <-] & Hp); eexists; (split; [reflexivity|]); by destruct (bool_decide _). }
  assert (forall ref c, ref ∈ refs -> playing pid n1 ref c -> ref <> r /\ playing pid n ref c) as Hpl.
  { intros ref c Hin (Hc & Hp & Hs). rewrite H1 in Hc. destruct (heap (reg n) !! ref) as [d|] eqn:Hd; [|done].
    cbn in Hc. injection Hc as <-. case_bool_decide as Hb; [done|]. split; [|by split_and!].
    intros ->. apply Hb. split; [by apply list_elem_of_singleton|done]. }
  assert (forall ref c, playing pid n ref c -> ref <> r -> playing pid n1 ref c) as Hpl'.
  { intros ref c (Hc & Hp & Hs) Hne. split_and!; [|done|done]. rewrite H1, Hc. cbn.
    by rewrite bool_decide_eq_false_2 by (rewrite list_elem_of_singleton; naive_solver). }
  split.
  - rewrite filter_cons in K1 |- *. rewrite K2, (list_filter_iff _ (owned pid n)) by done.
    case_decide; [by rewrite len_cons; lia|]. by rewrite filter_nil in K1.
  - intros ref. rewrite H2, H1. destruct (heap (reg n) !! ref) as [c|]; [cbn; f_equal|done].
    repeat case_bool_decide; try done; set_solver.
  - intros id x. rewrite I2, I1. setoid_rewrite list_elem_of_singleton. split.
    + intros [[Hx Hn1] Hn2]. split; [done|]. intros (ref & c & [->|Hin]%elem_of_cons & Hp & Hi).
      * apply Hn1. by exists r, c.
      * destruct (decide (ref = r)) as [->|Hne]; [apply Hn1; by exists r, c|]. apply Hn2. exists ref, c. eauto.
    + intros [Hx Hn]. split; [split; [done|]|].
      * intros (ref & c & -> & Hp & Hi). apply Hn. exists r, c. split; [by left|done].
      * intros (ref & c & Hin & Hp & Hi). apply Hn. exists ref, c.
        destruct (Hpl ref c Hin Hp). split; [by right|done].
  - intros ref c [->|Hin]%elem_of_cons Hp.
    + apply A2. eapply F1; [|exact Hp]. by apply list_elem_of_singleton.
    + destruct (decide (ref = r)) as [->|Hne]; [apply A2; eapply F1; [|exact Hp]; by apply list_elem_of_singleton|].
      eapply F2; [exact Hin|]. by apply Hpl'.
  - intros Hno. rewrite S2, S1; [done| |].
    + intros ref c ->%list_elem_of_singleton. apply Hno. by left.
    + intros ref c Hin Hp. destruct (Hpl ref c Hin Hp) as [_ Hp']. apply (Hno ref c); [by right|done].
  - auto.
Qed.

Lemma close_all_kicked env pid refs n k : pid <> 0 ->
  exists n' j, foldl (fun acc ref =>
    let '(n, k) := acc in
    match heap (reg n) !! ref with
    | Some c => if bool_decide (PID c = pid) then (close (secureEndpoint pe env) ref n, k + 1) else (n, k)
    | None => (n, k)
    end) (n, k) refs = (n', k + j) /\ kicked pid refs n n' j.
Proof.
  intros Hz. revert n k. induction refs as [|r refs IH]; intros n k; cbn [foldl].
  { exists n, 0. split; [f_equal; lia|apply kicked_none]. }
  destruct (decide (owned pid n r)) as [(c & Hc & Hp)|Hno].
  - rewrite Hc, bool_decide_eq_true_2 by done.
    destruct (IH (close (secureEndpoint pe env) r n) (k + 1)) as (n' & j & -> & Hk).
    exists n', (j + 1). split; [f_equal; lia|]. eapply kicked_trans; [by eapply close_kicked|exact Hk].
  - destruct (IH n k) as (n' & j & E & [K H1 I F S A]).
    assert (forall c, ~ playing pid n r c) as Hnp by (intros c (Hc & Hp & _); apply Hno; by exists c).
    exists n', j. split; [destruct (heap (reg n) !! r) as [c|] eqn:Hc; [rewrite bool_decide_eq_false_2|]; (exact E || idtac);
      intros Hp; apply Hno; by exists c|]. split; try done.
    + by rewrite filter_cons, decide_False.
    + intros ref. rewrite H1. destruct (heap (reg n) !! ref) as [c|] eqn:Hc; [cbn; f_equal|done].
      repeat case_bool_decide; try done; [set_solver|]. destruct_and!. exfalso. apply Hno.
      assert (ref = r) as -> by set_solver. by exists c.
    + intros id x. rewrite I. split; intros [Hx Hn]; (split; [done|]); intros (ref & c & Hin & Hp & Hi); apply Hn;
        exists ref, c; (split; [|done]); [|by right].
      apply elem_of_cons in Hin as [->|?]; [|done]. by destruct (Hnp c).
    + intros ref c [->|Hin]%elem_of_cons Hp; [by destruct (Hnp c)|by eapply F].
    + intros Hn. apply S. intros ref c Hin. apply Hn. by right.
Qed.

Lemma elem_of_snapshot (n : Net Service) ref :
  ref ∈ snapshotConns (reg n) <-> exists id, connections (reg n) !! id = Some ref.
Proof.
  unfold snapshotConns. rewrite list_elem_of_fmap. split.
  - intros ([id r] & -> & Hi). exists id. by apply elem_of_range in Hi.
  - intros [id Hi]. exists (id, ref). split; [done|]. by apply elem_of_range.
Qed.

(** [C22] Kicking an account, whatever the registry holds.  A request without the configured key
    is refused and changes nothing, and so is every request when no key is configured.
    With the key, the reply counts the ids registered for connections of the account;
    every registered connection of the account is closed and every other connection is as
    it was; an id is given up exactly when it is the current one of a registered, open
    connection of the account.  If there was such a connection, the account is afterwards
    in no lobby and holds no reserved seat; if there was none, every lobby is as it was. *)
Theorem kick_frees_account env token reapVar q now n pid :
  nonzero (parse_uint_bits 64 (q (str "pid"))) = Some pid ->
  let theirs := fun ref c => (exists id, connections (reg n) !! id = Some ref) /\
    heap (reg n) !! ref = Some c /\ PID c = pid in
  (token = [] \/ q (str "key") <> token ->
     api_kick (secureEndpoint pe env) token reapVar q now n = (Forbidden, n)) /\
  (token <> [] -> q (str "key") = token -> exists n' k,
     api_kick (secureEndpoint pe env) token reapVar q now n = (KickedPID pid k, n') /\
     k = len (filter (fun kv : Z * Z => owned pid n kv.2) (range (connections (reg n)))) /\
     (forall ref c, theirs ref c -> heap (reg n') !! ref = Some (set_state stateClosed c)) /\
     (forall ref, (forall c, ~ theirs ref c) -> heap (reg n') !! ref = heap (reg n) !! ref) /\
     (forall id ref, connections (reg n') !! id = Some ref <-> connections (reg n) !! id = Some ref /\
        ~ exists ref' c, theirs ref' c /\ cstate c <> stateClosed /\ ID c = id /\ id <> 0) /\
     (forall ref c, theirs ref c -> cstate c <> stateClosed -> absent pid n') /\
     ((forall ref c, theirs ref c -> cstate c = stateClosed) -> store_of n' = store_of n)).
Proof.
  intros Hq theirs. split.
  - intros Hk. unfold api_kick, authed. destruct Hk as [Hk|Hk].
    + by rewrite bool_decide_eq_false_2 by tauto.
    + by rewrite (bool_decide_eq_false_2 (q (str "key") = token)), andb_false_r by done.
  - intros Ht Hk. unfold api_kick, authed. rewrite !bool_decide_eq_true_2 by done. cbn [andb]. rewrite Hq.
    assert (pid <> 0) as Hz by (unfold nonzero in Hq; repeat case_match; simplify_eq; by destruct_bool_decide).
    unfold KickPID, close_if. rewrite bool_decide_eq_false_2 by done.
    destruct (close_all_kicked env pid (snapshotConns (reg n)) n 0 Hz) as (n' & k & -> & [K H1 I F S _]).
    exists n', k. split; [done|].
    assert (forall ref c, theirs ref c <-> ref ∈ snapshotConns (reg n) /\ heap (reg n) !! ref = Some c /\ PID c = pid)
      as Hth by (intros; unfold theirs; by rewrite elem_of_snapshot).
    split_and!.
    + rewrite K. unfold snapshotConns. generalize (range (connections (reg n))). intros l.
      induction l as [|[id r] l IH]; [done|]. cbn [fmap list_fmap snd]. rewrite !filter_cons. cbn [snd].
      case_decide; [by rewrite !len_cons, IH|exact IH].
    + intros ref c (Hin & Hc & Hp)%Hth. rewrite H1, Hc. cbn. by rewrite bool_decide_eq_true_2.
    + intros ref Hno. rewrite H1. destruct (heap (reg n) !! ref) as [c|] eqn:Hc; [cbn; f_equal|done].
      rewrite bool_decide_eq_false_2; [done|]. intros [Hin Hp]. apply (Hno c), Hth. by split_and!.
    + intros id ref. rewrite I. split; intros [Hx Hn]; (split; [done|]); intros (r & c & H2);
        apply Hn; exists r, c; revert H2; unfold playing; rewrite Hth; tauto.
    + intros ref c (Hin & Hc & Hp)%Hth Hs. by apply (F ref c Hin).
    + intros Hno. apply S. intros ref c Hin (Hc & Hp & Hs). apply Hs, (Hno ref c), Hth. by split_and!.
Qed.
End Admin.

(** A run of the server with a player in a lobby, then the request. *)
Definition admin_query (k : gostring) : gostring :=
  if bool_decide (k = str "key") then str "letmein"
  else if bool_decide (k = str "pid") then str "1800000006" else [].

Definition run_player : Connection := default (NewConnection []) (heap (reg run_served) !! 1).

Lemma kick_frees_account_witness :
  exists n', @api_kick Service run_range (@secureEndpoint run_range run_sort ex_env (run_env 4 5))
    (str "letmein") [] admin_query 0 run_served = (KickedPID run_pid 1, n') /\
    heap (reg n') !! 1 = Some (set_state stateClosed run_player) /\ absent run_pid n'.
Proof.
  destruct (@kick_frees_account run_range run_sort ex_env (run_env 4 5) (str "letmein") [] admin_query 0
    run_served run_pid) as [_ Hk]; [vm_compute; reflexivity|].
  destruct Hk as (n' & k & H1 & Hn & Hh & _ & _ & Ha & _); [discriminate|vm_compute; reflexivity|].
  assert (k = 1) as -> by (rewrite Hn; vm_compute; reflexivity).
  assert ((exists id, connections (reg run_served) !! id = Some 1) /\
    heap (reg run_served) !! 1 = Some run_player /\ PID run_player = run_pid) as Hth.
  { split; [exists 1; vm_compute; reflexivity|]. split; vm_compute; reflexivity. }
  exists n'. split; [exact H1|]. split; [exact (Hh 1 run_player Hth)|].
  apply (Ha 1 run_player Hth). vm_compute. discriminate.
Defined.
