(* ===== verification/RegistryInv.v ===== *)
(** * Who is registered: the registry under an endpoint's traffic

    What the registry says about a connection is its id and its state.  Of everything an
    endpoint does, only a handshake and a close change these; the rest, handlers included,
    leaves them alone.  So the registry of a running endpoint follows a small transition
    system, whose invariant is that exactly the connected connections are registered
    under their id. *)

From S2P Require Import Prelude GoStd GoNet Settings Stream Types StationURL Rmc PrudpLite.
From S2P Require Import Connection Crypto Kerberos TicketGranting Endpoint EndpointInv.

Record Shape := mkShape { sh_heap : gmap Z (Z * Z); sh_conns : gmap Z Z; sh_count : Z }.

Definition shape (r : Registry) : Shape := mkShape (face <$> heap r) (connections r) (connCounter r).

(** A frame on the connection [ref] can complete its handshake; any connection can be
    closed. *)
Inductive shape_step (ref : Z) : Shape -> Shape -> Prop :=
  | sh_register h cs k : is_Some (h !! ref) -> 0 <= k < 2 ^ 32 - 1 ->
      shape_step ref (mkShape h cs k) (mkShape (<[ref := (k + 1, stateConnected)]> h) (<[k + 1 := ref]> cs) (k + 1))
  | sh_close x h cs k id st : h !! x = Some (id, st) -> st <> stateClosed ->
      shape_step ref (mkShape h cs k)
        (mkShape (<[x := (id, stateClosed)]> h) (if bool_decide (id = 0) then cs else delete id cs) k).

(** ** The invariant *)
Record live (s : Shape) : Prop := {
  lv_count : 0 <= sh_count s;
  lv_bound : forall ref id st, sh_heap s !! ref = Some (id, st) -> 0 <= id <= sh_count s;
  lv_unique : forall r1 r2 id s1 s2, sh_heap s !! r1 = Some (id, s1) -> sh_heap s !! r2 = Some (id, s2) ->
    id <> 0 -> r1 = r2;
  lv_target : forall id ref, sh_conns s !! id = Some ref -> 0 < id <= sh_count s /\ is_Some (sh_heap s !! ref);
  lv_exact : forall ref id st, sh_heap s !! ref = Some (id, st) ->
    sh_conns s !! id = Some ref <-> st = stateConnected
}.

Lemma live_empty : live (shape empty_registry).
Proof. split; cbn; rewrite ?fmap_empty; try done; intros *; rewrite lookup_empty; done. Qed.

Lemma live_open ref addr r :
  heap r !! ref = None -> live (shape r) -> live (shape (new_conn ref addr r)).
Proof.
  intros Hf [Hc Hb Hu Ht Hx]. unfold shape, new_conn in *. cbn [sh_heap sh_conns sh_count heap connections connCounter] in *.
  rewrite fmap_insert. assert ((face <$> heap r) !! ref = None) as Hn by (by rewrite lookup_fmap, Hf).
  split; cbn [sh_heap sh_conns sh_count].
  - done.
  - intros x id st [[-> [= <- <-]]|[_ Hl]]%lookup_insert_Some; [lia|by eapply Hb].
  - intros r1 r2 id s1 s2 [[<- [= <- <-]]|[_ H1]]%lookup_insert_Some [[<- Hq]|[_ H2]]%lookup_insert_Some Hz;
      [done|done|by injection Hq as <-|exact (Hu _ _ _ _ _ H1 H2 Hz)].
  - intros id x Hl. destruct (Ht id x Hl) as [Hi Hs]. split; [done|].
    rewrite lookup_insert_ne; [done|]. intros <-. rewrite Hn in Hs. by destruct Hs.
  - intros x id st [[<- [= <- <-]]|[_ Hl]]%lookup_insert_Some; [|by apply Hx].
    split; [|done]. intros Hl. destruct (Ht _ _ Hl). lia.
Qed.

Lemma live_step ref s s' : shape_step ref s s' -> live s -> live s'.
Proof.
  intros [h cs k Hs Hk|x h cs k id st Hl Hst] [Hc Hb Hu Ht Hx]; cbn [sh_heap sh_conns sh_count] in *; split;
    cbn [sh_heap sh_conns sh_count].
  - lia.
  - intros y i t [[<- [= <- <-]]|[_ Hy]]%lookup_insert_Some; [lia|]. pose proof (Hb _ _ _ Hy). lia.
  - intros r1 r2 i s1 s2 [[<- [= <- <-]]|[H1 H1']]%lookup_insert_Some [[<- Hq]|[H2 H2']]%lookup_insert_Some Hz;
      [done|pose proof (Hb _ _ _ H2'); lia| |exact (Hu _ _ _ _ _ H1' H2' Hz)].
    injection Hq as <- _. pose proof (Hb _ _ _ H1'). lia.
  - intros i y [[<- <-]|[_ Hy]]%lookup_insert_Some; [by rewrite lookup_insert_eq; split; [lia|eexists]|].
    destruct (Ht _ _ Hy). split; [lia|]. destruct (decide (ref = y)) as [<-|]; [rewrite lookup_insert_eq; by eexists|].
    by rewrite lookup_insert_ne.
  - intros y i t [[<- [= <- <-]]|[Hne Hy]]%lookup_insert_Some; [by rewrite lookup_insert_eq|].
    pose proof (Hb _ _ _ Hy). rewrite lookup_insert_ne by lia. by apply Hx.
  - done.
  - intros y i t [[<- [= <- <-]]|[_ Hy]]%lookup_insert_Some; by eapply Hb.
  - intros r1 r2 i s1 s2 [[<- [= <- <-]]|[H1 H1']]%lookup_insert_Some [[<- Hq]|[H2 H2']]%lookup_insert_Some Hz;
      [done|exact (Hu _ _ _ _ _ Hl H2' Hz)| |exact (Hu _ _ _ _ _ H1' H2' Hz)].
    injection Hq as <- _. exact (Hu _ _ _ _ _ H1' Hl Hz).
  - intros i y Hy. assert (cs !! i = Some y) as Hy'
      by (case_bool_decide; [done|by apply lookup_delete_Some in Hy as [_ ?]]).
    destruct (Ht _ _ Hy'). split; [done|]. destruct (decide (x = y)) as [<-|];
      [rewrite lookup_insert_eq; by eexists|by rewrite lookup_insert_ne].
  - intros y i t [[<- [= <- <-]]|[Hne Hy]]%lookup_insert_Some.
    + split; [|done]. case_bool_decide as Hz; [|by rewrite lookup_delete_eq].
      subst. intros Hcs. destruct (Ht _ _ Hcs). lia.
    + case_bool_decide as Hz; [by apply Hx|]. destruct (decide (id = i)) as [->|].
      { exfalso. apply Hne. by eapply Hu. }
      rewrite lookup_delete_ne by done. by apply Hx.
Qed.

Lemma live_run ref s s' : rtc (shape_step ref) s s' -> live s -> live s'.
Proof. induction 1; eauto using live_step. Qed.

(** Only [ref] can become connected. *)
Lemma connected_before ref s s' x id :
  rtc (shape_step ref) s s' -> sh_heap s' !! x = Some (id, stateConnected) -> x <> ref ->
  sh_heap s !! x = Some (id, stateConnected).
Proof.
  induction 1 as [s|s1 s2 s3 Hs _ IH]; [done|]. intros Hx Hne. specialize (IH Hx Hne).
  destruct Hs; cbn in *; apply lookup_insert_Some in IH as [[? Hq]|[_ ?]]; done.
Qed.

Lemma shape_dom ref s s' : rtc (shape_step ref) s s' -> dom (sh_heap s') = dom (sh_heap s).
Proof.
  induction 1 as [s|s1 s2 s3 Hs _ IH]; [done|]. rewrite IH. destruct Hs; cbn; rewrite dom_insert_L.
  - assert (ref ∈ dom h) by (by apply elem_of_dom). set_solver.
  - assert (x ∈ dom h) by (apply elem_of_dom; by eexists). set_solver.
Qed.

(** ** The transport *)
Section Transport.
Context {App : Type} (e : Endpoint App).
Implicit Types n : Net App.

Definition shape_of n : Shape := shape (reg n).

Lemma shape_set_conn ref c c' n :
  heap (reg n) !! ref = Some c -> face c' = face c -> shape_of (set_conn ref c' n) = shape_of n.
Proof.
  intros Hc Hf. unfold shape_of, shape. cbn. f_equal. rewrite fmap_insert. apply insert_id.
  by rewrite lookup_fmap, Hc, Hf.
Qed.

Lemma outside_shape n n' : outside n' = outside n -> shape_of n' = shape_of n.
Proof.
  intros [= _ Hv Hc Hk]. unfold shape_of, shape. rewrite Hc, Hk. f_equal.
  apply (f_equal (fmap snd)) in Hv. by rewrite <- !map_fmap_compose in Hv.
Qed.

Lemma shape_with_conn ref f n :
  (forall c, heap (reg n) !! ref = Some c -> shape_of (f c n) = shape_of n) ->
  shape_of (with_conn ref f n) = shape_of n.
Proof. intros Hf. unfold with_conn. destruct (heap (reg n) !! ref) as [c|]; [by apply Hf|done]. Qed.

Lemma close_shape ref x n :
  shape_of (close e x n) = shape_of n \/ shape_step ref (shape_of n) (shape_of (close e x n)).
Proof.
  unfold close, with_conn. destruct (heap (reg n) !! x) as [c|] eqn:Hc; [|by left].
  case_bool_decide as Hs; [by left|]. right. set (n1 := with_reg _ _).
  assert (shape_of n1 = mkShape (<[x := (ID c, stateClosed)]> (face <$> heap (reg n)))
    (if bool_decide (ID c = 0) then connections (reg n) else delete (ID c) (connections (reg n)))
    (connCounter (reg n))) as E.
  { subst n1. unfold unregisterConnection. cbn. rewrite lookup_insert_eq. cbn.
    case_bool_decide; unfold shape_of, shape; cbn; by rewrite fmap_insert. }
  clearbody n1. assert (shape_step ref (shape_of n) (shape_of n1)) as Hst.
  { rewrite E. apply (sh_close _ _ _ _ _ _ (cstate c)); [by rewrite lookup_fmap, Hc|done]. }
  by destruct (OnDisconnect e).
Qed.

Lemma close_run ref x n : rtc (shape_step ref) (shape_of n) (shape_of (close e x n)).
Proof. destruct (close_shape ref x n) as [->|Hs]; [done|by apply rtc_once]. Qed.

Lemma close_if_run ref (test : Connection -> bool) refs n :
  rtc (shape_step ref) (shape_of n) (shape_of (close_if e test refs n).1).
Proof.
  unfold close_if. generalize 0. revert n. induction refs as [|x refs IH]; intros n k; cbn [foldl]; [done|].
  destruct (heap (reg n) !! x) as [c|]; [|apply IH]. destruct (test c); [|apply IH].
  etrans; [apply (close_run ref)|apply IH].
Qed.

Lemma kick_first_run ref id refs n :
  rtc (shape_step ref) (shape_of n) (shape_of (kick_first e id refs n).1).
Proof.
  induction refs as [|x refs IH]; cbn [kick_first]; [done|].
  destruct (heap (reg n) !! x) as [c|]; [|done]. case_bool_decide; [apply close_run|done].
Qed.

Lemma seen_shape n n' : seen n' = seen n -> shape_of n' = shape_of n.
Proof. intros E. by apply outside_shape, seen_outside. Qed.

(** ** Frames *)
Lemma shape_SendRMC ref msg n : shape_of (SendRMC e ref msg n) = shape_of n.
Proof. apply seen_shape, seen_SendRMC. Qed.

Context (Hcustom : customPacketHandlers e = ∅).
Context (Hhandler : forall proto h ref req n n' r,
  handler e proto = Some h -> h ref req n = (n', r) -> shape_of n' = shape_of n).
#[local] Set Default Proof Using "All".

Lemma dispatch_shape ref payload n : shape_of (dispatchRMC e ref payload n) = shape_of n.
Proof.
  unfold dispatchRMC. destruct (ParseRMC payload) as [req|]; [|done]. case_bool_decide; [done|].
  set (n0 := match OnRMC e with Some f => _ | None => n end).
  assert (shape_of n0 = shape_of n) as E0.
  { subst n0. destruct (OnRMC e); [|done]. by apply shape_with_conn. }
  clearbody n0. destruct (handler e (Protocol req)) as [h|] eqn:Hh; [|by rewrite shape_SendRMC].
  destruct (h ref req n0) as [n1 resp] eqn:E. apply (Hhandler _ _ _ _ _ _ _ Hh) in E.
  destruct resp; rewrite ?shape_SendRMC; congruence.
Qed.

Lemma data_shape ref p n : shape_of (processData e ref p n) = shape_of n.
Proof.
  unfold processData. destruct (HasFlag p FlagMultiACK).
  { destruct (p_Payload p) as [|? [|? [|? [|? ?]]]]; try done.
    by apply seen_shape, seen_update. }
  destruct (HasFlag p FlagACK).
  { by apply seen_shape, seen_update. }
  set (n1 := if HasFlag p FlagNeedACK then _ else _).
  assert (shape_of n1 = shape_of n) as <-
    by (subst n1; destruct (HasFlag p FlagNeedACK); [apply seen_shape, seen_sendAck|done]).
  clearbody n1. apply shape_with_conn. intros c Hc. destruct (absorb (fragBuf c) p) as [buf full].
  assert (shape_of (set_conn ref (set_bufs (recvBuf c) buf c) n1) = shape_of n1) as E
    by (by apply (shape_set_conn ref c)).
  destruct full; [|done]. by rewrite dispatch_shape.
Qed.

Lemma login_face env payload c t response c' t' :
  processLoginRequest e env payload c t = (Ok (response, c'), t') -> face c' = face c.
Proof.
  unfold processLoginRequest. destruct (negb (Secure e)); [by intros [= _ <- _]|].
  case_bool_decide.
  { destruct (RecallAuthPID _ _ _ _) as [[pid|] t1]; [by intros [= _ <- _]|done]. }
  destruct (connect_buffers payload) as [[td rd] st]. destruct (si_err st); [done|]. intros [= E _].
  destruct (DecryptServerTicket _ _ _) as [tk| |]; [|done..]. cbn in E.
  destruct (kerberosDecrypt _ _) as [d| |]; [|done..]. cbn in E.
  case_bool_decide; [done|]. destruct (check_data _ _) as [[pid cid] check].
  case_bool_decide; [done|]. by injection E as _ <-.
Qed.

Lemma connect_shape env ref p n n' :
  0 <= connCounter (reg n) < 2 ^ 32 - 1 -> processCONNECT e env ref p n = Some n' ->
  shape_of n' = shape_of n \/ shape_step ref (shape_of n) (shape_of n').
Proof.
  intros Hk. unfold processCONNECT. destruct (heap (reg n) !! ref) as [c|] eqn:Hc; [|intros [= <-]; by left].
  case_bool_decide; [intros [= <-]; by left|].
  destruct (processLoginRequest e env (p_Payload p) c (recall n)) as [login t].
  destruct login as [[response c']| |]; [|intros [= <-]; by left|done]. intros [= <-]. right.
  set (n1 := with_reg _ _). assert (shape_of n1 = mkShape (<[ref := (connCounter (reg n) + 1, stateConnected)]>
    (face <$> heap (reg n))) (<[connCounter (reg n) + 1 := ref]> (connections (reg n)))
    (connCounter (reg n) + 1)) as E.
  { subst n1. unfold shape_of, shape, registerConnection. cbn [reg with_reg set_conn heap connections connCounter emit with_recall].
    assert (u32 (connCounter (reg n) + 1) = connCounter (reg n) + 1) as -> by (apply Z.mod_small; lia). f_equal.
    rewrite insert_insert_eq. apply map_eq. intros x. rewrite lookup_fmap.
    destruct (decide (ref = x)) as [<-|Hne].
    - rewrite lookup_alter_eq, !lookup_insert_eq. done.
    - by rewrite lookup_alter_ne, !lookup_insert_ne, lookup_fmap by done. }
  clearbody n1. assert (shape_step ref (shape_of n) (shape_of n1)) as Hst.
  { rewrite E. apply sh_register; [by rewrite lookup_fmap, Hc; eexists|done]. }
  destruct (OnConnect e); [|done]. by rewrite shape_with_conn.
Qed.

Lemma mark_seen_shape env ref n : shape_of (mark_seen env ref n) = shape_of n.
Proof. unfold mark_seen. by apply seen_shape, seen_update. Qed.

Lemma packet_shape env ref p n n' :
  0 <= connCounter (reg n) < 2 ^ 32 - 1 -> handlePacket e env ref p n = Some n' ->
  shape_of n' = shape_of n \/ shape_step ref (shape_of n) (shape_of n').
Proof.
  intros Hk. unfold handlePacket. pose proof (mark_seen_shape env ref n) as E0.
  set (n0 := mark_seen env ref n) in *. clearbody n0. assert (connCounter (reg n0) = connCounter (reg n)) as Ek by (by injection E0).
  rewrite <- E0. case_bool_decide.
  { destruct (HasFlag p FlagACK); intros [= <-]; [by left|]. left.
    apply seen_shape, seen_processSYN. }
  case_bool_decide.
  { destruct (HasFlag p FlagACK); [intros [= <-]; by left|]. apply connect_shape. by rewrite Ek. }
  case_bool_decide; [intros [= <-]; left; apply data_shape|].
  case_bool_decide.
  { intros [= <-]. left. apply seen_shape, seen_processPing. }
  case_bool_decide.
  { destruct (HasFlag p FlagACK); intros [= <-]; [by left|].
    destruct (HasFlag p FlagNeedACK); [rewrite <- (seen_shape _ _ (seen_sendAck ref p n0))|]; apply close_shape. }
  rewrite Hcustom, lookup_empty. intros [= <-]. by left.
Qed.

Lemma handle_all_shape env ref ps n :
  0 <= connCounter (reg n) -> connCounter (reg n) + len ps < 2 ^ 32 ->
  rtc (shape_step ref) (shape_of n) (shape_of (handle_all e env ref ps n)).
Proof.
  revert n. induction ps as [|p ps IH]; intros n H0 Hk; cbn [handle_all]; [done|].
  unfold len in *. cbn [length] in Hk.
  destruct (handlePacket e env ref p n) as [n1|] eqn:Ep; [|by rewrite mark_seen_shape].
  apply packet_shape in Ep; [|lia].
  assert (0 <= connCounter (reg n1) <= connCounter (reg n) + 1) as Hb.
  { change (connCounter (reg n1)) with (sh_count (shape_of n1)).
    change (connCounter (reg n)) with (sh_count (shape_of n)) in *.
    destruct Ep as [->|Hs]; [lia|]. destruct Hs; cbn in *; lia. }
  etrans; [|apply (IH n1); lia]. destruct Ep as [->|Hs]; [done|by apply rtc_once].
Qed.

Lemma feed_shape env ref data n :
  0 <= connCounter (reg n) ->
  connCounter (reg n) + len (frame_packets ref data n) < 2 ^ 32 ->
  rtc (shape_step ref) (shape_of n) (shape_of (Feed e env ref data n)).
Proof.
  intros H0. unfold Feed, frame_packets. destruct (heap (reg n) !! ref) as [c|] eqn:Hc; [|done].
  destruct (DecodePackets _) as [[ps rest] err]. cbn [fst]. intros Hk.
  assert (forall b, shape_of (set_conn ref (set_bufs b (fragBuf c) c) n) = shape_of n) as E
    by (intros b; by apply (shape_set_conn ref c)).
  destruct err; [by rewrite E|]. rewrite <- (E rest). by apply handle_all_shape.
Qed.
End Transport.
