(* ===== verification/Transport.v ===== *)
(** * The WebSocket transport (server.go)

    A table gives each open socket its connection.  The steps of a server are those of its
    sockets -- opened, closed, a message received -- and its internal ones.  The process
    runs two such servers; a [Transport] says what distinguishes them and the class
    [Orderly] what the transport relies on.  Shown is who is registered in a running server
    and what the end of a socket does. *)

From S2P Require Import Prelude GoStd GoNet Settings Stream Types StationURL Rmc PrudpLite.
From S2P Require Import Connection Crypto Kerberos TicketGranting Endpoint EndpointInv RegistryInv.

(** [Server]: the socket table and the endpoint behind it. *)
Record Sockets (App : Type) := mkSockets { conns : gmap Z Z; ss_net : Net App }.
Arguments mkSockets {App}. Arguments conns {App}. Arguments ss_net {App}.

Definition NewServer {App} (n : Net App) : Sockets App := mkSockets ∅ n.

Section Sockets.
Context {App : Type} (e : Endpoint App).

(** [OnOpen]; [ref] is the new connection object. *)
Definition socket_OnOpen (socket ref : Z) (addr : gostring) (st : Sockets App) : Sockets App :=
  mkSockets (<[socket := ref]> (conns st)) (OnOpen ref addr (ss_net st)).

(** [OnClose]. *)
Definition socket_OnClose (socket : Z) (st : Sockets App) : Sockets App :=
  match conns st !! socket with
  | Some ref => mkSockets (delete socket (conns st)) (close e ref (ss_net st))
  | None => st
  end.

(** [OnMessage]; [binary] says whether the message has the binary opcode. *)
Definition socket_OnMessage (env : PEnv) (socket : Z) (binary : bool) (data : bytes) (st : Sockets App)
    : Sockets App :=
  if negb binary then st
  else
    match conns st !! socket with
    | Some ref => mkSockets (conns st) (Feed e env ref data (ss_net st))
    | None => st
    end.
End Sockets.

(** ** A server and its steps *)

(** Its endpoint, with what the handlers of one step read from outside; the addresses its
    listener reports; the messages whose handling returns; and what it does without its
    sockets. *)
Record Transport (App : Type) := mkTransport {
  tr_env : Type;
  tr_endpoint : tr_env -> Endpoint App;
  tr_addr : gostring -> Prop;
  tr_admits : tr_env -> PEnv -> Z -> bytes -> Net App -> Prop;
  tr_internal : Net App -> Net App -> Prop
}.
Arguments mkTransport {App}. Arguments tr_env {App}. Arguments tr_endpoint {App}.
Arguments tr_addr {App}. Arguments tr_admits {App}. Arguments tr_internal {App}.

Class Orderly {App} (T : Transport App) : Prop := {
  or_custom : forall env, customPacketHandlers (tr_endpoint T env) = ∅;
  or_handler : forall env proto h ref req n n' r,
    handler (tr_endpoint T env) proto = Some h -> h ref req n = (n', r) -> shape_of n' = shape_of n;
  or_internal : forall ref n n', tr_internal T n n' -> rtc (shape_step ref) (shape_of n) (shape_of n')
}.

(** Pointers of live sockets and connections are distinct; connection ids have not wrapped. *)
Inductive socket_step {App} (T : Transport App) : Sockets App -> Sockets App -> Prop :=
  | so_open socket ref addr st :
      conns st !! socket = None -> heap (reg (ss_net st)) !! ref = None -> tr_addr T addr ->
      socket_step T st (socket_OnOpen socket ref addr st)
  | so_message env penv socket binary data st :
      (forall ref, conns st !! socket = Some ref ->
         tr_admits T env penv ref data (ss_net st) /\
         connCounter (reg (ss_net st)) + len (frame_packets ref data (ss_net st)) < 2 ^ 32) ->
      socket_step T st (socket_OnMessage (tr_endpoint T env) penv socket binary data st)
  | so_close env socket st : socket_step T st (socket_OnClose (tr_endpoint T env) socket st)
  | so_internal st n' :
      tr_internal T (ss_net st) n' -> socket_step T st (mkSockets (conns st) n').

(** ** The invariant *)
Section Runs.
Context {App : Type} (T : Transport App) `{HT : !Orderly T}.

Record sockets_ok (st : Sockets App) : Prop := {
  so_live : live (shape_of (ss_net st));
  so_known : forall socket ref, conns st !! socket = Some ref -> is_Some (heap (reg (ss_net st)) !! ref);
  so_inj : forall s1 s2 ref, conns st !! s1 = Some ref -> conns st !! s2 = Some ref -> s1 = s2;
  so_online : forall ref id, sh_heap (shape_of (ss_net st)) !! ref = Some (id, stateConnected) ->
    exists socket, conns st !! socket = Some ref
}.

(** The registry moves, and only [ref] may connect. *)
Lemma ok_run ref st n' :
  rtc (shape_step ref) (shape_of (ss_net st)) (shape_of n') ->
  (forall id, sh_heap (shape_of n') !! ref = Some (id, stateConnected) ->
     exists socket, conns st !! socket = Some ref) ->
  sockets_ok st -> sockets_ok (mkSockets (conns st) n').
Proof.
  intros Hr Href [Hl Hk Hi Ho]. split; cbn [conns ss_net].
  - by eapply live_run.
  - intros socket x Hx. apply Hk, elem_of_dom in Hx. apply elem_of_dom.
    pose proof (shape_dom _ _ _ Hr) as Hd. cbn in Hd. by rewrite !dom_fmap_L in Hd; rewrite Hd.
  - done.
  - intros x id Hx. destruct (decide (x = ref)) as [->|Hne]; [by eapply Href|].
    eapply Ho. by eapply connected_before.
Qed.

Lemma closed_after env ref n c :
  heap (reg n) !! ref = Some c -> exists c', heap (reg (close (tr_endpoint T env) ref n)) !! ref = Some c' /\
    face c' = (ID c, stateClosed).
Proof.
  intros Hc. unfold close, with_conn. rewrite Hc. case_bool_decide as Hs.
  - exists c. split; [done|]. unfold face. by rewrite Hs.
  - exists (set_state stateClosed c). split; [|done].
    unfold unregisterConnection. cbn. rewrite lookup_insert_eq. cbn.
    destruct (OnDisconnect _); case_bool_decide; cbn; by rewrite lookup_insert_eq.
Qed.

Lemma close_ok env socket st :
  sockets_ok st -> sockets_ok (socket_OnClose (tr_endpoint T env) socket st).
Proof.
  intros Hok. unfold socket_OnClose. destruct (conns st !! socket) as [ref|] eqn:Hs; [|done].
  destruct (so_known _ Hok _ _ Hs) as [c Hc].
  destruct (closed_after env ref (ss_net st) c Hc) as (c' & Hc' & Hf).
  destruct (ok_run ref st (close (tr_endpoint T env) ref (ss_net st))) as [Hl Hk Hi Ho];
    [apply close_run|by eauto|done|].
  split; cbn [conns ss_net] in *; [done| | |].
  - intros s1 x [_ Hx]%lookup_delete_Some. by eapply Hk.
  - intros s1 s2 x [_ H1]%lookup_delete_Some [_ H2]%lookup_delete_Some. by eapply Hi.
  - intros x id Hx. destruct (Ho x id Hx) as [s1 H1]. exists s1. rewrite lookup_delete_ne; [done|].
    intros <-. assert (x = ref) as -> by congruence. cbn in Hx. rewrite lookup_fmap, Hc' in Hx. cbn in Hx.
    by rewrite Hf in Hx.
Qed.

Lemma message_ok env penv socket binary data st :
  (forall ref, conns st !! socket = Some ref ->
     connCounter (reg (ss_net st)) + len (frame_packets ref data (ss_net st)) < 2 ^ 32) ->
  sockets_ok st -> sockets_ok (socket_OnMessage (tr_endpoint T env) penv socket binary data st).
Proof using HT.
  unfold socket_OnMessage. intros Hk Hok. destruct (negb binary); [done|].
  destruct (conns st !! socket) as [ref|] eqn:Hs; [|done].
  apply (ok_run ref); [|by eauto|done].
  eapply (feed_shape (tr_endpoint T env) (or_custom env)); [apply or_handler|apply (lv_count _ (so_live _ Hok))|by apply Hk].
Qed.

Lemma open_ok socket ref addr st :
  conns st !! socket = None -> heap (reg (ss_net st)) !! ref = None ->
  sockets_ok st -> sockets_ok (socket_OnOpen socket ref addr st).
Proof.
  intros Hs Hr [Hl Hk Hi Ho].
  assert (forall s, conns st !! s <> Some ref) as Hfree
    by (intros s Hl'; destruct (Hk _ _ Hl') as [c Hc]; congruence).
  split; cbn [conns ss_net socket_OnOpen].
  - by apply live_open.
  - intros s x [[<- <-]|[_ Hx]]%lookup_insert_Some; cbn; [rewrite lookup_insert_eq; by eexists|].
    rewrite lookup_insert_ne by (intros <-; by eapply Hfree). by eapply Hk.
  - intros s1 s2 x [[<- <-]|[_ H1]]%lookup_insert_Some [[<- H2]|[_ H2]]%lookup_insert_Some; [done| | |by eapply Hi].
    + by apply Hfree in H2.
    + subst. by apply Hfree in H1.
  - intros x id Hx. cbn in Hx. rewrite fmap_insert in Hx.
    apply lookup_insert_Some in Hx as [[_ ?]|[_ Hx]]; [done|]. destruct (Ho x id Hx) as [s Hs'].
    exists s. rewrite lookup_insert_ne by congruence. done.
Qed.

Lemma socket_step_ok st st' : socket_step T st st' -> sockets_ok st -> sockets_ok st'.
Proof using HT.
  intros [socket ref addr s1 Hs Hr _|env penv socket binary data s1 Hc|env socket s1|s1 n' Hi].
  - by apply open_ok.
  - apply message_ok. intros ref Hs. by apply Hc.
  - apply close_ok.
  - assert (exists ref, ref ∉ dom (heap (reg (ss_net s1)))) as [ref Hfr] by (eexists; apply is_fresh).
    pose proof (or_internal ref _ _ Hi) as Hr. apply (ok_run ref); [done|].
    intros id Hx. pose proof (shape_dom _ _ _ Hr) as Hd. cbn in Hd. rewrite !dom_fmap_L in Hd.
    exfalso. apply Hfr. rewrite <- Hd. apply elem_of_dom. cbn in Hx. rewrite lookup_fmap in Hx.
    by destruct (heap (reg n') !! ref).
Qed.

Lemma sockets_reachable n0 st :
  reg n0 = empty_registry -> rtc (socket_step T) (NewServer n0) st -> sockets_ok st.
Proof using HT.
  intros H0 Hr. remember (NewServer n0) as s0 eqn:E.
  assert (sockets_ok s0) as Hs0.
  { subst. split; cbn [conns ss_net NewServer]; unfold shape_of; rewrite ?H0; [apply live_empty| | |];
      cbn; intros *; rewrite ?fmap_empty, lookup_empty; done. }
  clear E. induction Hr; eauto using socket_step_ok.
Qed.

(** After any traffic a connection is registered under its id exactly when it is connected;
    then it has one open socket, and no other connection has that id. *)
Lemma who_is_online st :
  sockets_ok st ->
  let r := reg (ss_net st) in
  (forall ref conn, heap r !! ref = Some conn ->
     (connections r !! ID conn = Some ref <-> cstate conn = stateConnected) /\
     (cstate conn = stateConnected ->
        (exists socket, forall s, conns st !! s = Some ref <-> s = socket) /\
        forall ref' conn', heap r !! ref' = Some conn' -> ID conn' = ID conn -> ref' = ref)) /\
  (forall id ref, connections r !! id = Some ref -> 0 < id /\ is_Some (heap r !! ref)).
Proof.
  intros [[Hc Hb Hu Ht Hx] Hk Hi Ho] r. subst r.
  assert (forall ref conn, heap (reg (ss_net st)) !! ref = Some conn ->
    sh_heap (shape_of (ss_net st)) !! ref = Some (ID conn, cstate conn)) as Hface
    by (intros ref conn Hh; cbn; by rewrite lookup_fmap, Hh).
  split.
  - intros ref conn Hh. pose proof (Hface _ _ Hh) as Hs. split; [by apply Hx|]. intros Hst.
    rewrite Hst in Hs. split.
    + destruct (Ho _ _ Hs) as [socket Hsk]. exists socket. intros s. split; [|by intros ->].
      intros Hs'. by eapply Hi.
    + intros ref' conn' Hh' Hid. pose proof (Hface _ _ Hh') as Hs'. rewrite Hid in Hs'.
      apply (Hu _ _ _ _ _ Hs' Hs). pose proof (proj2 (Hx _ _ _ Hs) eq_refl) as Hreg.
      apply Ht in Hreg. lia.
  - intros id ref Hl. destruct (Ht _ _ Hl) as [? [f Hf]]. split; [lia|].
    cbn in Hf. rewrite lookup_fmap in Hf. by destruct (heap (reg (ss_net st)) !! ref); [eexists|].
Qed.

End Runs.
