(* ===== verification/Sockets.v ===== *)
(** * The secure server behind its sockets (server.go, server/main.go)

    The transport of Transport.v with the secure endpoint: what its handlers leave alone,
    who is registered in the running server, what the end of a socket does, and what an
    eviction, which closes the connection and not the socket, leaves behind. *)

From S2P Require Import Prelude GoStd GoNet GoTime Settings Stream Types StationURL Rmc PrudpLite.
From S2P Require Import Matchmaking Reservations Notification Connection Stations Store StoreInv.
From S2P Require Import Tournament Handlers HandlerInv HandlerProps Sha256 Dedup Crypto Kerberos.
From S2P Require Import TicketGranting Endpoint EndpointInv EndpointProps NatTraversal RankingBoard.
From S2P Require Import Ranking Utility Dashboard DashboardProps Server ServerProps Admin RegistryInv Transport.

(** ** Handlers leave the table and the registry alone *)
Section Handlers.
Context `{GoRange, GoSort} (pe : ProcEnv).

(** What matchmaking handlers leave alone besides: the dashboard. *)
Definition aside (n : Net Service) := (outside n, sv_dash (app n)).

Lemma push_events_aside l n : aside (foldl push_event n l) = aside n.
Proof.
  revert n. induction l as [|ev l IH]; intros n; [done|]. cbn [foldl]. rewrite IH.
  unfold push_event, aside. destruct (SendNotification _ _ _) as [msg k].
  by rewrite (seen_outside _ _ (seen_SendRMC _ _ _ _)), (seen_app _ _ (seen_SendRMC _ _ _ _)).
Qed.

Lemma serve_matchmaking_aside h ref req n n' r :
  serve_matchmaking h ref req n = (n', r) -> aside n' = aside n.
Proof.
  unfold serve_matchmaking. destruct (heap (reg n) !! ref) as [c|]; [|by intros [= <- _]].
  destruct (h _ _ _ _) as [w' ps resp wt|]; intros [= <- _]; [|done].
  assert (aside (foldl push_event (with_app (set_world w') n) ps) = aside n) as E
    by (by rewrite push_events_aside).
  by destruct wt.
Qed.

Lemma wrap_aside now now' next ref req n n' r :
  (forall n1 n2 r, next ref req n1 = (n2, r) -> aside n2 = aside n1) ->
  wrap now now' next ref req n = (n', r) -> aside n' = aside n.
Proof.
  intros Hn. unfold wrap. destruct (heap (reg n) !! ref) as [c|]; [|by apply Hn].
  destruct (negb (deduplicateMatchmaking req)); [by apply Hn|].
  destruct (admit_call _ _ _) as [a d]. destruct a as [p|r0| |p]; try (by intros [= <- _]).
  - intros E%Hn. exact E.
  - destruct (next ref req _) as [n2 resp] eqn:E. apply Hn in E.
    destruct (sv_stuck (app n2)); by intros [= <- _].
Qed.

Lemma nat_handler_view env enabled look now ep c req k (a : Service) c' ps r k' a' :
  NATTraversalHandler (Some (on_nat env)) enabled look now ep c req k a = (c', ps, r, k', a') ->
  view c' = view c.
Proof.
  unfold NATTraversalHandler. intros Hh.
  repeat (case_bool_decide; cbn [orb] in Hh; [|]); simplify_eq; try done;
    repeat case_match; simplify_eq; try done.
  all: match goal with E : noteNATProperties _ _ _ _ = _ |- _ => unfold noteNATProperties in E end;
    repeat case_match; by simplify_eq.
Qed.

Lemma nat_handler_counts env enabled look now ep c req k (a : Service) c' ps r k' a' cs :
  NATTraversalHandler (Some (on_nat env)) enabled look now ep c req k a = (c', ps, r, k', a') ->
  accounted cs (sv_dash a) -> accounted cs (sv_dash a').
Proof.
  unfold NATTraversalHandler. intros Hh Ha.
  repeat (case_bool_decide; cbn [orb] in Hh; [|]); simplify_eq; try done;
    repeat case_match; simplify_eq; try done.
  all: match goal with E : noteNATProperties _ _ _ _ = _ |- _ => unfold noteNATProperties in E end;
    repeat case_match; simplify_eq; [done|by apply noteNAT_accounted..].
Qed.

Lemma secure_connection_view s c req c' r :
  SecureConnectionHandlerWithConfig SwitchPia519Config s c req = (c', r) -> view c' = view c.
Proof.
  unfold SecureConnectionHandlerWithConfig, handleRegister, handleReplaceURL.
  repeat case_match; intros; by simplify_eq.
Qed.

Lemma secure_handler_outside env proto h ref req n n' r :
  handler (secureEndpoint pe env) proto = Some h -> h ref req n = (n', r) -> outside n' = outside n.
Proof.
  intros Hh. unfold handler in Hh. cbn [secureEndpoint set_hooks Register SetSecureAccount
    NewEndpoint handlers fallbackHandler] in Hh.
  destruct (<[ProtocolUtility := _]> _ !! proto) as [h0|] eqn:El; [|done]. injection Hh as <-.
  repeat match type of El with
  | <[_ := _]> _ !! _ = Some _ => apply lookup_insert_Some in El as [[_ <-]|[_ El]]
  end; [| | | | | | |done]; try (intros E; refine (f_equal fst (wrap_aside _ _ _ _ _ _ _ _ _ E)); intros *; apply serve_matchmaking_aside).
  - unfold serve_utility. destruct (heap (reg n) !! ref); by intros [= <- _].
  - unfold serve_ranking. destruct (heap (reg n) !! ref) as [c|]; [|by intros [= <- _]].
    destruct (RankingHandler _ _ _ _ _ _ _ _ _ _ _ _) as [[resp p] b]. by intros [= <- _].
  - unfold serve_nat. destruct (heap (reg n) !! ref) as [c|] eqn:Hc; [|by intros [= <- _]].
    destruct (NATTraversalHandler _ _ _ _ _ _ _ _ _) as [[[[c' pushes] resp] k] a] eqn:E. intros [= <- _].
    rewrite (seen_outside _ _ (seen_SendRMC_all _ _ _)). apply (outside_set_conn ref c); [done|by eapply nat_handler_view].
  - unfold serve_secure. destruct (heap (reg n) !! ref) as [c|] eqn:Hc; [|by intros [= <- _]].
    destruct (SecureConnectionHandlerWithConfig _ _ _ _) as [c' resp] eqn:E. intros [= <- _].
    apply (outside_set_conn ref c); [done|by eapply secure_connection_view].
Qed.

(** The dashboard's counts over a handler: only a report of NAT properties is noted. *)
Lemma secure_handler_counts env proto h ref req n n' r cs :
  handler (secureEndpoint pe env) proto = Some h -> h ref req n = (n', r) ->
  accounted cs (sv_dash (app n)) -> accounted cs (sv_dash (app n')).
Proof.
  intros Hh. unfold handler in Hh. cbn [secureEndpoint set_hooks Register SetSecureAccount
    NewEndpoint handlers fallbackHandler] in Hh.
  destruct (<[ProtocolUtility := _]> _ !! proto) as [h0|] eqn:El; [|done]. injection Hh as <-.
  repeat match type of El with
  | <[_ := _]> _ !! _ = Some _ => apply lookup_insert_Some in El as [[_ <-]|[_ El]]
  end; [| | | | | | |done].
  4-6: intros E; assert (sv_dash (app n') = sv_dash (app n)) as ->; [|done];
    refine (f_equal snd (wrap_aside _ _ _ _ _ _ _ _ _ E)); intros *; apply serve_matchmaking_aside.
  - unfold serve_utility. destruct (heap (reg n) !! ref); by intros [= <- _].
  - unfold serve_ranking. destruct (heap (reg n) !! ref) as [c|]; [|by intros [= <- _]].
    destruct (RankingHandler _ _ _ _ _ _ _ _ _ _ _ _) as [[resp p] b]. by intros [= <- _].
  - unfold serve_nat. destruct (heap (reg n) !! ref) as [c|]; [|by intros [= <- _]].
    destruct (NATTraversalHandler _ _ _ _ _ _ _ _ _) as [[[[c' pushes] resp] k] a] eqn:E. intros [= <- _].
    rewrite (seen_app _ _ (seen_SendRMC_all _ _ _)). cbn. by eapply nat_handler_counts.
  - unfold serve_secure. destruct (heap (reg n) !! ref) as [c|]; [|by intros [= <- _]].
    destruct (SecureConnectionHandlerWithConfig _ _ _ _) as [c' resp]. by intros [= <- _].
Qed.

Lemma internal_step_shape ref n n' :
  internal_step pe n n' -> rtc (shape_step ref) (shape_of n) (shape_of n').
Proof.
  intros [env i n1|x n1|i urls n1|env now maxIdle n1|env token reapVar q now n1
    |cfg token ghostVar q rd v n1|i g n1|n1|n1]; try done.
  - by rewrite (seen_shape _ _ (seen_step_sender _ _ _)).
  - by rewrite (seen_shape _ _ (seen_retransmit _ _)).
  - unfold answer_waiting. destruct (sv_waiting (app n1) !! i) as [[[x req] host]|]; [|done].
    by rewrite shape_SendRMC.
  - unfold ReapIdle. case_bool_decide; [done|]. apply close_if_run.
  - unfold api_kick, KickPID, ReapIdle, KickConnection. destruct (authed token q); [|done].
    destruct (nonzero (parse_uint_bits 64 _)) as [pid|].
    { case_bool_decide; [done|]. match goal with |- context [close_if ?e ?t ?l ?n] =>
        pose proof (close_if_run e ref t l n) as Hr; by destruct (close_if e t l n) end. }
    destruct (nonzero (parse_uint_bits 32 _)) as [id|].
    { match goal with |- context [kick_first ?e ?i ?l ?n] =>
        pose proof (kick_first_run e ref i l n) as Hr; by destruct (kick_first e i l n) end. }
    case_bool_decide; [done|]. match goal with |- context [close_if ?e ?t ?l ?n] =>
      pose proof (close_if_run e ref t l n) as Hr; by destruct (close_if e t l n) end.
Qed.
End Handlers.

(** ** Runs over sockets *)
Section Runs.
Context `{GoRange, GoSort} (pe : ProcEnv) (file : option (gmap gostring authRecallPersisted)).

(** [file] is the recall file the process reads. *)
Definition secure_transport : Transport Service := {|
  tr_endpoint := secureEndpoint pe;
  tr_addr := fun _ => True;
  tr_admits := fun env penv ref data n =>
    pe_file penv = file /\ calm pe env penv ref (frame_packets ref data n) (buffered ref data n);
  tr_internal := internal_step pe
|}.

#[export] Instance secure_orderly : Orderly secure_transport.
Proof.
  split; [intros env; exact eq_refl| |apply internal_step_shape].
  intros env proto h ref req n n' r Hh E. exact (outside_shape _ _ (secure_handler_outside pe env proto h ref req n n' r Hh E)).
Qed.

(** Seen without its table, a run over sockets is a run of the server. *)
Lemma socket_step_server st st' :
  socket_step secure_transport st st' -> rtc (server_step pe file) (ss_net st) (ss_net st').
Proof.
  intros [socket ref addr s1 _ Hr _|env penv socket binary data s1 Hc|env socket s1|s1 n' Hi].
  - by apply rtc_once, sv_open.
  - unfold socket_OnMessage. destruct (negb binary); [done|].
    destruct (conns s1 !! socket) as [ref|]; [|done].
    destruct (Hc ref eq_refl) as [[Hp Hcalm] _]. by apply rtc_once, sv_frame; [|apply any_frame|].
  - unfold socket_OnClose. destruct (conns s1 !! socket) as [ref|]; [|done]. apply rtc_once, sv_close.
  - apply rtc_once. by apply sv_internal.
Qed.

Definition sockets_start (c : Config) (ttl dttl dmax : Z) (ts : tournamentStore) : Sockets Service :=
  NewServer (server_start c ttl dttl dmax ts).

Lemma secure_reachable c ttl dttl dmax ts st :
  rtc (socket_step secure_transport) (sockets_start c ttl dttl dmax ts) st -> sockets_ok st.
Proof. apply (sockets_reachable secure_transport). reflexivity. Qed.

(** [C7] Who is online: after any traffic, a connection is registered under its id exactly
    when it is connected; then it has one open socket, and no other connection has that
    id.  Every id in the endpoint's map names a connection the process still holds. *)
Theorem registered_is_online c ttl dttl dmax ts st :
  rtc (socket_step secure_transport) (sockets_start c ttl dttl dmax ts) st ->
  let r := reg (ss_net st) in
  (forall ref conn, heap r !! ref = Some conn ->
     (connections r !! ID conn = Some ref <-> cstate conn = stateConnected) /\
     (cstate conn = stateConnected ->
        (exists socket, forall s, conns st !! s = Some ref <-> s = socket) /\
        forall ref' conn', heap r !! ref' = Some conn' -> ID conn' = ID conn -> ref' = ref)) /\
  (forall id ref, connections r !! id = Some ref -> 0 < id /\ is_Some (heap r !! ref)).
Proof. intros Hr%secure_reachable. by apply who_is_online. Qed.


(** [C39] Eviction closes the connection but not its socket: a request that arrives there
    afterwards is served in the name of the evicted account, from the store as it is, and
    when the socket is finally closed nothing is taken back. *)
Theorem evicted_keeps_playing env penv st socket ref conn p req h :
  conns st !! socket = Some ref -> heap (reg (ss_net st)) !! ref = Some conn -> cstate conn = stateClosed ->
  p_Type p = PacketDATA -> HasFlag p FlagMultiACK = false -> HasFlag p FlagACK = false ->
  p_FragmentID p = 0 -> ParseRMC (fragBuf conn ++ p_Payload p) = Some req -> Mode req = RMCRequest ->
  handler (secureEndpoint pe env) (Protocol req) = Some h ->
  (exists n0 conn', heap (reg n0) !! ref = Some conn' /\ PID conn' = PID conn /\
     store_of n0 = store_of (ss_net st) /\
     handlePacket (secureEndpoint pe env) penv ref p (ss_net st) =
       Some (let '(n1, resp) := h ref req n0 in
             match resp with Some r => SendRMC (secureEndpoint pe env) ref r n1 | None => n1 end)) /\
  forall env' n', (exists conn', heap (reg n') !! ref = Some conn' /\ cstate conn' = stateClosed) ->
    ss_net (socket_OnClose (secureEndpoint pe env') socket (mkSockets (conns st) n')) = n'.
Proof.
  intros Hs Hc Hst Ht Hm Ha Hf Hp Hmode Hh. split.
  - destruct (request_dispatched (secureEndpoint pe env) penv ref conn p req h (ss_net st)
      Hc Ht Hm Ha Hf Hp Hmode Hh) as (n0 & c' & H1 & H2 & _ & _ & H4 & H5).
    exists n0, c'. split_and!; [done|done| |done]. unfold store_of. by rewrite H4.
  - intros env' n' (conn' & Hc' & Hst'). unfold socket_OnClose. cbn [conns]. rewrite Hs. cbn [ss_net].
    unfold close, with_conn. by rewrite Hc', bool_decide_eq_true_2.
Qed.
End Runs.

(** ** A run over sockets

    A console connects on socket 7, is kicked by the administrator, goes on to make a
    lobby on the same socket, and leaves. *)
#[local] Instance so_range : GoRange := canonical_range.
#[local] Instance so_sort : GoSort := merge_slice.
Definition so_endpoint (k : Z) : Endpoint Service := secureEndpoint ex_env (run_env k (k + 1)).
Definition so_receive (k : Z) (data : bytes) (st : Sockets Service) : Sockets Service :=
  socket_OnMessage (so_endpoint k) run_penv 7 true data st.
Definition so_begin : Sockets Service :=
  sockets_start default_Config (8 * second_ns) 0 0 empty_tournaments.
Definition so_opened : Sockets Service := socket_OnOpen 7 1 run_addr so_begin.
Definition so_connected : Sockets Service := so_receive 0 run_handshake so_opened.
Definition so_kicked : Sockets Service :=
  mkSockets (conns so_connected)
    (api_kick (so_endpoint 2) (str "letmein") [] admin_query 0 (ss_net so_connected)).2.
Definition so_request : Packet := run_packet PacketDATA 2 (Encode ex_auto_request).
Definition so_played : Sockets Service := so_receive 4 (EncodePacket so_request) so_kicked.
Definition so_left : Sockets Service := socket_OnClose (so_endpoint 6) 7 so_played.
Definition so_conn (st : Sockets Service) : Connection :=
  default (NewConnection []) (heap (reg (ss_net st)) !! 1).

Example so_kicked_unregistered :
  cstate (so_conn so_connected) = stateConnected /\ cstate (so_conn so_kicked) = stateClosed /\
  connections (reg (ss_net so_kicked)) = ∅.
Proof. vm_compute. repeat split. Qed.

Lemma receive_step k data st :
  (forall ref, conns st !! 7 = Some ref ->
     calm ex_env (run_env k (k + 1)) run_penv ref (frame_packets ref data (ss_net st))
       (buffered ref data (ss_net st)) /\
     connCounter (reg (ss_net st)) + len (frame_packets ref data (ss_net st)) < 2 ^ 32) ->
  rtc (socket_step (secure_transport ex_env (pe_file run_penv))) st (so_receive k data st).
Proof.
  intros Hc. refine (rtc_once _ _
    (so_message (secure_transport ex_env (pe_file run_penv)) (run_env k (k + 1)) run_penv 7 true data st _)).
  intros ref Hs. destruct (Hc ref Hs) as [H1 H2]. split; [split; [reflexivity|exact H1]|exact H2].
Qed.

Lemma close_step k st :
  socket_step (secure_transport ex_env (pe_file run_penv)) st (socket_OnClose (so_endpoint k) 7 st).
Proof. exact (so_close (secure_transport ex_env (pe_file run_penv)) (run_env k (k + 1)) 7 st). Qed.

Lemma so_connects : rtc (socket_step (secure_transport ex_env (pe_file run_penv))) so_begin so_connected.
Proof.
  eapply rtc_l; [apply (so_open (secure_transport ex_env _) 7 1 run_addr); [reflexivity..|exact I]|]. apply receive_step.
  intros ref Hr. vm_compute in Hr. injection Hr as <-. split; vm_compute; [repeat split|reflexivity].
Qed.

(** The account ends up in a lobby of the server although no socket is open and nobody is
    registered. *)
Example lobby_outlives_eviction :
  rtc (socket_step (secure_transport ex_env (pe_file run_penv))) so_begin so_left /\
  conns so_left = ∅ /\ connections (reg (ss_net so_left)) = ∅ /\
  (participants <$> gatherings (w_mm (store_of (ss_net so_left))) !! 1) = Some [run_pid].
Proof.
  split; [|vm_compute; repeat split].
  etrans; [apply so_connects|].
  eapply rtc_l; [apply so_internal, (sv_kick ex_env (run_env 2 3) (str "letmein") [] admin_query 0)|].
  fold (so_endpoint 2). fold so_kicked. etrans; [apply (receive_step 4 (EncodePacket so_request))|].
  - intros ref Hr. vm_compute in Hr. injection Hr as <-. split; vm_compute; [repeat split|reflexivity].
  - exact (rtc_once _ _ (close_step 6 so_played)).
Qed.

Lemma registered_is_online_witness :
  cstate (so_conn so_connected) = stateConnected /\
  connections (reg (ss_net so_connected)) !! ID (so_conn so_connected) = Some 1 /\
  exists socket, forall s, conns so_connected !! s = Some 1 <-> s = socket.
Proof.
  assert (cstate (so_conn so_connected) = stateConnected) as Hs by (vm_compute; reflexivity).
  assert (heap (reg (ss_net so_connected)) !! 1 = Some (so_conn so_connected)) as Hc by (vm_compute; reflexivity).
  destruct (registered_is_online ex_env (pe_file run_penv) default_Config (8 * second_ns) 0 0 empty_tournaments
    so_connected so_connects) as [Hr _].
  destruct (Hr 1 (so_conn so_connected) Hc) as [Hi Ho]. split; [exact Hs|]. split; [exact (proj2 Hi Hs)|].
  exact (proj1 (Ho Hs)).
Defined.


Lemma evicted_keeps_playing_witness :
  exists n0 conn', heap (reg n0) !! 1 = Some conn' /\ PID conn' = run_pid /\
    store_of n0 = store_of (ss_net so_kicked).
Proof.
  destruct (evicted_keeps_playing ex_env (run_env 4 5) run_penv so_kicked 7 1 (so_conn so_kicked) so_request
    ex_auto_request (run_handler (run_env 4 5))) as [(n0 & c & H1 & H2 & H3 & _) _].
  1-9: vm_compute; reflexivity.
  { reflexivity. }
  exists n0, c. split; [exact H1|]. split; [rewrite H2; vm_compute; reflexivity|exact H3].
Defined.
