(* ===== verification/AuthServer.v ===== *)
(** * The authentication server and the whole process (server/main.go)

    The authentication endpoint with the account resolution that [main] plugs into it,
    the two servers side by side with the recall table they share, and what links a
    session on the secure server to a login on the other.

    Logins are resolved one after the other here; the interleavings of the account
    lookups are the subject of Account.  [au_logins] records the successful resolutions:
    no operation reads it.  That nobody forges a ticket is an assumption on what arrives:
    a sealed ticket that the server's key opens is one that a login was issued. *)

From S2P Require Import Prelude GoStd GoNet GoTime Settings Stream Types StationURL Rmc PrudpLite.
From S2P Require Import Matchmaking Reservations Notification Connection Stations Store StoreInv.
From S2P Require Import Tournament Handlers HandlerInv HandlerProps Sha256 Dedup Crypto Kerberos.
From S2P Require Import TicketGranting Endpoint EndpointInv EndpointProps Account ProxyProto.
From S2P Require Import NatTraversal RankingBoard Ranking Utility Dashboard DashboardProps.
From S2P Require Import Server ServerProps RegistryInv Transport Sockets.
Import GoNet.

(** ** The authentication endpoint *)
Record Login := mkLogin {
  lg_now : Z; lg_addr : gostring; lg_user : gostring; lg_extra : bytes; lg_env : LoginEnv;
  lg_nsa : NsaState; lg_pid : Z; lg_auth : AuthEnv
}.

Record AuthService := mkAuthService { au_nsa : NsaState; au_logins : list Login }.

Record AuthServerEnv := mkAuthServerEnv { an_auth : AuthEnv; an_login : LoginEnv }.

Definition secureURL (nextendoHost : gostring) (securePort : Z) : StationURL :=
  let u := NewStationURL (str "prudp") in
  let u := Set_ u (str "address") nextendoHost in
  let u := SetInt u (str "port") securePort in
  let u := SetInt u (str "CID") 1 in
  let u := SetInt u (str "PID") securePID in
  let u := SetInt u (str "sid") 1 in
  let u := SetInt u (str "stream") 10 in
  SetInt u (str "type") 2.

Definition sessionKeyLen : Z := 32.

Definition authCfg (host : gostring) (port : Z) (resolve : gostring -> bytes -> option (Z * bytes))
    : AuthConfig :=
  mkAuthConfig server_settings securePID securePassword (Some (secureURL host port)) []
    (str "Nextendo") sessionKeyLen resolve.

(** The name and data a request asks to log in with, when its method resolves them. *)
Definition login_names (req : RMCMessage) : option (gostring * bytes) :=
  if bool_decide (Method req = MethodLogin) || bool_decide (Method req = MethodLoginEx) then
    Some ((u <-- StreamInOps.GoString ;; x <-- StreamInOps.ReadAll ;; rret (u, x))%reader
            (NewStreamIn (Body req))).1
  else if bool_decide (Method req = MethodLoginWithContext) then
    Some ((_v <-- StreamInOps.U8 ;; _l <-- StreamInOps.U32 ;; _p <-- StreamInOps.U32 ;;
           u <-- StreamInOps.GoString ;; x <-- StreamInOps.ReadAll ;; rret (u, x))%reader
            (NewStreamIn (Body req))).1
  else None.

(** The account state after the request: the lookup caches, and the login if it was
    resolved. *)
Definition resolved (acc : AccountConfig) (env : AuthServerEnv) (addr : gostring) (req : RMCMessage)
    (a : AuthService) : AuthService :=
  match login_names req with
  | None => a
  | Some (u, x) =>
      let '(who, nsa) := resolveUser acc (an_login env) u x (au_nsa a) in
      mkAuthService nsa
        (match who with
         | Some (pid, _) =>
             au_logins a ++ [mkLogin (ae_now (an_auth env)) addr u x (an_login env) (au_nsa a) pid (an_auth env)]
         | None => au_logins a
         end)
  end.

Section Auth.
Context (acc : AccountConfig) (host : gostring) (port : Z).

(** A panic would be recovered by the transport and leave the request unanswered; minting
    does not panic ([mint_returns]). *)
Definition serve_login (env : AuthServerEnv) : RMCHandler AuthService := fun ref req n =>
  match heap (reg n) !! ref with
  | None => (n, None)
  | Some c =>
      let resolve u x := (resolveUser acc (an_login env) u x (au_nsa (app n))).1 in
      let '(r, t) := AuthHandler (authCfg host port resolve) (an_auth env) (RemoteAddr c) req (recall n) in
      let n := with_app (resolved acc env (RemoteAddr c) req) (with_recall t n) in
      match r with
      | Ok resp => (n, Some resp)
      | Error | Panic => (n, None)
      end
  end.

Definition authEndpoint (env : AuthServerEnv) : Endpoint AuthService :=
  Register ProtocolTicketGranting (serve_login env) (NewEndpoint server_settings).

(** The address of a socket the auth server accepts: the peer's, or behind a proxy the
    one of the header. *)
Definition accepted_addr (proxyProto : bool) (peer : TCPAddr) (stream : bytes) : gostring :=
  TCPAddr_String (if proxyProto then proxy_RemoteAddr (Accept peer stream) else peer).

Inductive auth_step `{GoRange} (file : option (gmap gostring authRecallPersisted))
    : Net AuthService -> Net AuthService -> Prop :=
  | au_open ref proxyProto peer stream n :
      heap (reg n) !! ref = None ->
      auth_step file n (OnOpen ref (accepted_addr proxyProto peer stream) n)
  | au_frame env penv ref data n :
      pe_file penv = file -> ae_file (an_auth env) = file ->
      auth_step file n (Feed (authEndpoint env) penv ref data n)
  | au_send env i n : auth_step file n (step_sender (authEndpoint env) i n)
  | au_resend ref n : auth_step file n (retransmit ref n)
  | au_close env ref n : auth_step file n (close (authEndpoint env) ref n).
End Auth.

(** ** Minting returns *)
Lemma Sum256_len m : len (Sha256.Sum256 m) = 32.
Proof.
  assert (forall kw h, length h = 8%nat -> length (Sha256.round h kw) = 8%nat) as Hround.
  { intros kw [|a [|b [|c [|d [|e [|f [|g [|i [|]]]]]]]]]; done. }
  assert (forall l h, length h = 8%nat -> length (foldl Sha256.round h l) = 8%nat) as Hrounds
    by (induction l as [|kw l IH]; intros h Hh; cbn; [done|]; by apply IH, Hround).
  assert (forall l h, length h = 8%nat -> length (foldl Sha256.block h l) = 8%nat) as Hblocks.
  { induction l as [|b l IH]; intros h Hh; [done|]. cbn [foldl]. apply IH. unfold Sha256.block.
    rewrite length_zip_with, Hrounds by done. lia. }
  unfold Sha256.Sum256, len. generalize (Hblocks (Sha256.chunks (length (Sha256.pad m)) 64 (Sha256.pad m)) Sha256.h256 eq_refl).
  generalize (foldl Sha256.block Sha256.h256 (Sha256.chunks (length (Sha256.pad m)) 64 (Sha256.pad m))). intros l.
  by destruct l as [|a [|b [|c [|d [|e [|f [|g [|i [|]]]]]]]]].
Qed.

(** The tickets this server mints. *)
Lemma mint_steps host port resolve e pid sourceKey :
  mint (authCfg host port resolve) e pid sourceKey =
  match ae_session e sessionKeyLen with
  | None => Error
  | Some sessionKey =>
      (internal <?- ServerTicket_Encrypt (ae_ticketKey e) (mkServerTicket (ae_issued e) pid sessionKey)
         secure_key server_settings ;;
       ClientTicket_Encrypt (mkClientTicket sessionKey securePID internal) sourceKey server_settings)%fallible
  end.
Proof. reflexivity. Qed.

Lemma mint_returns host port resolve e pid user :
  mint (authCfg host port resolve) e pid (sourceKey_of user) <> Panic.
Proof.
  rewrite mint_steps. destruct (ae_session e sessionKeyLen) as [skey|]; [|done].
  unfold ServerTicket_Encrypt. destruct (bool_decide _); [done|].
  rewrite bool_decide_eq_true_2 by done. destruct (ae_ticketKey e) as [tk|]; [|done].
  match goal with |- context [kerberosEncrypt (md5Sum ?k) ?d] =>
    destruct (encrypt_total (md5Sum k) d (md5_rc4_key k)) as (enc & -> & _) end. cbn [fbind].
  unfold ClientTicket_Encrypt. destruct (bool_decide _); [done|].
  match goal with |- kerberosEncrypt _ ?d <> _ =>
    destruct (encrypt_total (sourceKey_of user) d) as (enc' & -> & _) end; [|done].
  unfold rc4_key, sourceKey_of. rewrite Sum256_len. lia.
Qed.

(** ** Tickets *)

(** The envelope sealed for a login: the fresh ticket key, and the time, the account and the
    session key under it and the server's key (with their widths in Go). *)
Record sealed_for (lg : Login) (ticketKey sealed : bytes) : Prop := {
  sf_key : ae_ticketKey (lg_auth lg) = Some ticketKey;
  sf_width : is_uint 64 (ae_issued (lg_auth lg)) /\ is_uint 64 (lg_pid lg);
  sf_seal : exists sessionKey, ae_session (lg_auth lg) sessionKeyLen = Some sessionKey /\ len sessionKey = 32 /\
    kerberosEncrypt (md5Sum (secure_key ++ ticketKey))
      (save_ServerTicket server_settings (mkServerTicket (ae_issued (lg_auth lg)) (lg_pid lg) sessionKey)) = Ok sealed
}.

Definition issued (logins : list Login) (ticketKey sealed : bytes) : Prop :=
  exists lg, lg ∈ logins /\ sealed_for lg ticketKey sealed.

(** It is the one the login handler mints. *)
Lemma minted_sealed host port resolve lg sourceKey ticket :
  is_uint 64 (ae_issued (lg_auth lg)) -> is_uint 64 (lg_pid lg) ->
  mint (authCfg host port resolve) (lg_auth lg) (lg_pid lg) sourceKey = Ok ticket ->
  exists ticketKey sealed sessionKey,
    sealed_for lg ticketKey sealed /\
    ClientTicket_Encrypt (mkClientTicket sessionKey securePID (StreamOut.Buffer ticketKey ++ StreamOut.Buffer sealed))
      sourceKey server_settings = Ok ticket.
Proof.
  intros Hi Hp. rewrite mint_steps.
  destruct (ae_session (lg_auth lg) sessionKeyLen) as [skey|] eqn:Hs; [|done].
  unfold ServerTicket_Encrypt. cbn [st_SessionKey]. destruct (bool_decide (len skey <> _)) eqn:Hl; [done|].
  apply bool_decide_eq_false in Hl. rewrite bool_decide_eq_true_2 by done.
  destruct (ae_ticketKey (lg_auth lg)) as [tk|] eqn:Ht; [|done].
  match goal with |- context [kerberosEncrypt (md5Sum ?k) ?d] =>
    destruct (kerberosEncrypt (md5Sum k) d) as [enc| |] eqn:He end; cbn [fbind]; try done.
  intros Hc. exists tk, enc, skey. split; [|exact Hc]. split; [done|done|]. exists skey. split_and!; [done| |exact He].
  destruct (decide (len skey = 32)); [done|]. by destruct Hl.
Qed.

(** A CONNECT payload proves the account [pid]: a ticket in the envelope that the server's
    key opens and whose source is [pid], and check data for [pid] under its session key. *)
Definition presents (payload : bytes) (pid : Z) (ticketKey sealed : bytes) : Prop :=
  exists ticketData requestData st st' ticket d cid check,
    connect_buffers payload = ((ticketData, requestData), st) /\ si_err st = false /\
    connect_buffers ticketData = ((ticketKey, sealed), st') /\
    DecryptServerTicket ticketData secure_key server_settings = Ok ticket /\ st_Source ticket = pid /\
    kerberosDecrypt (st_SessionKey ticket) requestData = Ok d /\ check_data server_settings d = (pid, cid, check).

(** Opening an envelope that was sealed for a login gives the account of the login. *)
Lemma sealed_source logins payload td rd st ticket :
  genuine (issued logins) payload -> connect_buffers payload = ((td, rd), st) -> si_err st = false ->
  DecryptServerTicket td secure_key server_settings = Ok ticket ->
  exists lg tk sealed st', lg ∈ logins /\ connect_buffers td = ((tk, sealed), st') /\
    sealed_for lg tk sealed /\ st_Source ticket = lg_pid lg.
Proof.
  intros Hg Hb He. unfold DecryptServerTicket. rewrite bool_decide_eq_true_2 by done.
  change ((a <-- StreamInOps.Buffer ;; b <-- StreamInOps.Buffer ;; rret (a, b))%reader (NewStreamIn td))
    with (connect_buffers td).
  destruct (connect_buffers td) as [[tk sealed] st'] eqn:Hb'. destruct (si_err st') eqn:He'; [done|]. intros Ho.
  assert (exists d, kerberosDecrypt (md5Sum (secure_key ++ tk)) sealed = Ok d) as [d Hd].
  { unfold open_ServerTicket in Ho. destruct (kerberosDecrypt _ _) as [d| |]; [by eexists|done|done]. }
  destruct (Hg td rd st tk sealed st' d Hb He Hb' He' Hd) as (lg & Hin & Hsf). exists lg, tk, sealed, st'.
  split_and!; [done|done|done|]. destruct Hsf as [_ [Hi Hp] (skey & _ & Hl & Hs)].
  assert (decodes (load_ServerTicket server_settings) (save_ServerTicket server_settings
    (mkServerTicket (ae_issued (lg_auth lg)) (lg_pid lg) skey)) (mkServerTicket (ae_issued (lg_auth lg)) (lg_pid lg) skey))
    as Hdec by (by apply decodes_ServerTicket).
  pose proof (open_sealed _ _ _ _ _ Hs Hdec) as Hx. unfold open_ServerTicket in Ho. rewrite Hx in Ho.
  by injection Ho as <-.
Qed.

(** ** The process: both servers and the table they share *)
Record Process := mkProcess { pr_auth : Net AuthService; pr_secure : Net Service }.

Section Process.
Context `{GoRange, GoSort} (pe : ProcEnv) (acc : AccountConfig) (host : gostring) (port : Z).
Context (file : option (gmap gostring authRecallPersisted)).
(** The logins of earlier processes. *)
Context (past : list Login).

(** Clients hold the tickets issued to logins on this process or an earlier one. *)
Inductive process_step : Process -> Process -> Prop :=
  | ps_auth a a' b :
      auth_step acc host port file a a' ->
      process_step (mkProcess a b) (mkProcess a' (with_recall (recall a') b))
  | ps_secure a b b' :
      held_step pe (issued (past ++ au_logins (app a))) file b b' ->
      process_step (mkProcess a b) (mkProcess (with_recall (recall b') a) b')
  | ps_flush now a b :
      let t := (authRecallFlush now (recall a)).2 in
      process_step (mkProcess a b) (mkProcess (with_recall t a) (with_recall t b)).

Definition process_start (c : Config) (ttl dttl dmax : Z) (ts : tournamentStore) : Process :=
  mkProcess (mkNet empty_registry [] [] empty_table (mkAuthService empty_nsa []))
    (server_start c ttl dttl dmax ts).

(** ** Where remembered accounts come from *)

(** The login [lg] was resolved to its account. *)
Definition login_ok (lg : Login) : Prop :=
  nsa_wf (lg_nsa lg) /\ exists key st',
    resolveUser acc (lg_env lg) (lg_user lg) (lg_extra lg) (lg_nsa lg) = (Some (lg_pid lg, key), st').

(** Every entry of the table is a login of the list, or an entry of the file. *)
Definition sourced (logins : list Login) (t : RecallTable) : Prop :=
  forall h r, authPIDByIP t !! h = Some r ->
    (exists lg, lg ∈ logins /\ ipHost (lg_addr lg) = h /\ lg_pid lg = rc_pid r /\ lg_now lg = rc_at r) \/
    (exists m rec, file = Some m /\ m !! h = Some rec /\ pr_PID rec = rc_pid r /\
       pr_At rec * nanos = rc_at r).

Definition auth_ok (t : RecallTable) (a : AuthService) : Prop :=
  nsa_wf (au_nsa a) /\ Forall login_ok (au_logins a) /\ sourced (au_logins a) t.

Lemma sourced_sub logins t t' :
  (forall h r, authPIDByIP t' !! h = Some r -> authPIDByIP t !! h = Some r) ->
  sourced logins t -> sourced logins t'.
Proof. intros Hs Ht h r Hr. by apply Ht, Hs. Qed.

Lemma sourced_more logins more t : sourced logins t -> sourced (logins ++ more) t.
Proof.
  intros Ht h r Hr. destruct (Ht h r Hr) as [(lg & Hin & Hx)|?]; [left; exists lg; split; [|done]|by right].
  apply elem_of_app. by left.
Qed.

Lemma sourced_init now logins t : sourced logins t -> sourced logins (authRecallInit now file t).
Proof.
  intros Ht. unfold authRecallInit. destruct (recallOnce t); [done|]. intros h r Hr.
  assert (authPIDByIP t !! h = Some r \/
    exists m rec, file = Some m /\ m !! h = Some rec /\ pr_PID rec = rc_pid r /\ pr_At rec * nanos = rc_at r)
    as [Hl|Hf];
    [|by apply Ht|by right].
  clear Ht. destruct file as [m|]; [|by left]. cbn in Hr. apply lookup_union_Some_raw in Hr.
  destruct Hr as [Hr|[_ Hr]]; [|by left]. rewrite lookup_omap in Hr.
  destruct (m !! h) as [rec|] eqn:Hm; [|done]. cbn in Hr. unfold restore in Hr.
  case_decide; [|done]. injection Hr as <-. right. by exists m, rec.
Qed.

Lemma sourced_remember now addr pid logins t lg :
  sourced logins t -> lg_addr lg = addr -> lg_pid lg = pid -> lg_now lg = now ->
  sourced (logins ++ [lg]) (RememberAuthPID now file addr pid t).
Proof.
  intros Ht Ha Hp Hn h r. unfold RememberAuthPID. cbn. rewrite lookup_insert_Some.
  intros [[<- <-]|[_ Hr]].
  - left. exists lg. cbn. rewrite elem_of_app, list_elem_of_singleton, Ha. auto.
  - by apply (sourced_more _ _ _ (sourced_init now _ _ Ht)).
Qed.

Lemma sourced_recall now addr logins t :
  sourced logins t -> sourced logins (RecallAuthPID now file addr t).2.
Proof.
  intros Ht. apply (sourced_init now) in Ht. eapply sourced_sub; [|exact Ht]. intros h r.
  destruct (recall_entries now file addr t h) as [->|[-> _]]; done.
Qed.

Lemma sourced_flush now logins t : sourced logins t -> sourced logins (authRecallFlush now t).2.
Proof.
  apply sourced_sub. intros h r. apply flush_removes.
Qed.

(** ** The invariant of the process *)
Lemma resolve_wf e u x st who st' : nsa_wf st -> resolveUser acc e u x st = (who, st') -> nsa_wf st'.
Proof.
  intros Hwf. unfold resolveUser.
  assert (forall n, nsa_wf (resolveNSAtoPID (le_now e) n (le_nsa e n) st).2) as Hr.
  { intros n. unfold resolveNSAtoPID. destruct (nsa_cached _ _ _); [done|].
    unfold nsa_acquire. case_bool_decide; [|done].
    destruct (nsa_finish _ _ _ _) as [r st1] eqn:E.
    apply finish_spec in E as (Hw & _); [|by destruct Hwf]. by destruct Hw. }
  destruct (nextendoPIDFromToken _ _ _) as [pid|]; [case_match; by intros [= _ <-]|].
  destruct (numeric_account u) as [n|]; [|case_match; by intros [= _ <-]].
  case_bool_decide; [repeat case_match; by intros [= _ <-]|].
  specialize (Hr n). destruct (resolveNSAtoPID _ _ _ _) as [[rp status] st1].
  repeat case_match; by intros [= _ <-].
Qed.

(** A request of the ticket-granting protocol changes the table by the login it resolves. *)
Lemma auth_handler_table resolve env addr req t r t' :
  AuthHandler (authCfg host port resolve) env addr req t = (r, t') ->
  t' = match login_names req ≫= (fun ux => resolve ux.1 ux.2) with
       | Some (pid, _) => RememberAuthPID (ae_now env) (ae_file env) addr pid t
       | None => t
       end.
Proof.
  unfold AuthHandler, login_names, handleLogin, handleLoginWithContext. cbn [ResolveUser authCfg].
  destruct (bool_decide (Method req = MethodLogin) || bool_decide (Method req = MethodLoginEx)).
  { match goal with |- context [Some ?rd.1] => destruct rd as [[u x] st] end. cbn.
    by destruct (resolve u x) as [[pid key]|]; intros [= _ <-]. }
  case_bool_decide; [|by intros [= _ <-]].
  match goal with |- context [Some ?rd.1] => destruct rd as [[u x] st] end. cbn.
  by destruct (resolve u x) as [[pid key]|]; intros [= _ <-].
Qed.

Lemma serve_login_ok env ref req n n' r :
  ae_file (an_auth env) = file -> auth_ok (recall n) (app n) ->
  serve_login acc host port env ref req n = (n', r) ->
  auth_ok (recall n') (app n') /\ au_logins (app n) `prefix_of` au_logins (app n').
Proof.
  intros Hfile (Hwf & Hlg & Hsrc). unfold serve_login.
  destruct (heap (reg n) !! ref) as [c|]; [|intros [= <- _]; by split_and!].
  set (resolve := fun u x => (resolveUser acc (an_login env) u x (au_nsa (app n))).1).
  destruct (AuthHandler _ _ _ _ _) as [res t] eqn:E. apply auth_handler_table in E.
  rewrite Hfile in E.
  assert (auth_ok t (resolved acc env (RemoteAddr c) req (app n)) /\
    au_logins (app n) `prefix_of` au_logins (resolved acc env (RemoteAddr c) req (app n))) as Hok.
  { subst t. unfold resolved. destruct (login_names req) as [[u x]|]; cbn; [|by split_and!].
    unfold resolve. destruct (resolveUser acc (an_login env) u x (au_nsa (app n))) as [who nsa] eqn:Er. cbn.
    pose proof (resolve_wf _ _ _ _ _ _ Hwf Er) as Hwf'.
    destruct who as [[pid key]|]; (split; [split_and!; try done|first [done|by apply prefix_app_r]]).
    - apply Forall_app. split; [done|]. apply Forall_singleton. split; [done|]. by exists key, nsa.
    - by apply sourced_remember. }
  destruct res; intros [= <- _]; exact Hok.
Qed.

(** On the authentication server logins are only added. *)
Definition auth_inv (before : list Login) (t : RecallTable) (a : AuthService) (_ : gmap Z (Z * gostring)) : Prop :=
  auth_ok t a /\ before `prefix_of` au_logins a.

Lemma auth_keeps env penv before :
  pe_file penv = file -> ae_file (an_auth env) = file ->
  keeps (authEndpoint acc host port env) penv (auth_inv before) (fun _ => True).
Proof.
  intros Hp Ha. split; try done.
  - intros proto h ref req n n' r Hh [Hn Hl] E. unfold handler in Hh. cbn in Hh.
    destruct (<[ProtocolTicketGranting := _]> ∅ !! proto) as [h0|] eqn:El; [|done]. injection Hh as ->.
    apply lookup_insert_Some in El as [[_ <-]|[_ El]]; [|done].
    destruct (serve_login_ok _ _ _ _ _ _ Ha Hn E) as [Hok Hmore]. split; [done|by etrans].
  - intros addr t a w [(H1 & H2 & H3) Hl]. rewrite Hp. split; [|done]. split_and!; [done|done|].
    by apply sourced_recall.
  - intros ref payload c t a w response c' t' _ Hw _. by intros [= _ <- <-].
Qed.

Lemma auth_step_ok n n' :
  auth_step acc host port file n n' -> auth_ok (recall n) (app n) ->
  auth_ok (recall n') (app n') /\ au_logins (app n) `prefix_of` au_logins (app n').
Proof.
  intros Hs Hn. assert (holds (auth_inv (au_logins (app n))) n) as Hi by done.
  destruct Hs as [ref proxyProto peer stream n _|env penv ref data n Hp Ha|env i n|ref n|env ref n].
  - done.
  - eapply (feed_holds (authEndpoint acc host port env) penv (auth_inv (au_logins (app n))));
      [by apply auth_keeps|by apply Forall_true|done].
  - by eapply (holds_seen (auth_inv (au_logins (app n)))); [apply seen_step_sender|].
  - by eapply (holds_seen (auth_inv (au_logins (app n)))); [apply seen_retransmit|].
  - unfold close, with_conn. destruct (heap (reg n) !! ref) as [c|]; [|done]. by case_bool_decide.
Qed.

(** A recalled account was logged in from the same host at most a day before. *)
Lemma recall_sourced now addr logins t pid :
  sourced logins t -> (RecallAuthPID now file addr t).1 = Some pid ->
  (exists lg, lg ∈ logins /\ ipHost (lg_addr lg) = ipHost addr /\ lg_pid lg = pid /\
     now - lg_now lg <= authRecallTTL) \/
  (exists m rec, file = Some m /\ m !! ipHost addr = Some rec /\ pr_PID rec = pid /\
     now - pr_At rec * nanos <= authRecallTTL).
Proof.
  intros Ht. apply (sourced_init now) in Ht. rewrite recall_named. unfold recalled.
  destruct (authPIDByIP _ !! ipHost addr) as [r|] eqn:Hl; [|done]. case_bool_decide; [done|]. case_bool_decide; [done|].
  intros [= <-].
  destruct (Ht _ _ Hl) as [(lg & Hin & Hh & Hp & Hn)|(m & rec & Hf & Hm & Hp & Hn)]; [left|right].
  - exists lg. split_and!; [done|done|done|lia].
  - exists m, rec. split_and!; [done|done|done|lia].
Qed.

(** ** Whom the secure server lets in *)

(** The account [pid] was logged in from the host of [addr], or the file of an earlier
    process names it for that host, or a login for it was issued a ticket. *)
Definition proven (logins : list Login) (pid : Z) (addr : gostring) : Prop :=
  (exists lg, lg ∈ logins /\ ipHost (lg_addr lg) = ipHost addr /\ lg_pid lg = pid) \/
  (exists m rec, file = Some m /\ m !! ipHost addr = Some rec /\ pr_PID rec = pid) \/
  (exists lg ticketKey sealed, lg ∈ past ++ logins /\ sealed_for lg ticketKey sealed /\ lg_pid lg = pid).

(** A connection has no account yet or a proven one. *)
Definition admitted (logins : list Login) (w : gmap Z (Z * gostring)) : Prop :=
  map_Forall (fun _ who => who.1 = 0 \/ proven logins who.1 who.2) w.

(** The dashboard's counters are those of the calls [cs], made by proven accounts. *)
Definition counted (logins : list Login) (cs : list call) (a : Service) : Prop :=
  accounted cs (sv_dash a) /\
  Forall (fun k => exists addr, proven logins (ca_pid k) addr) cs.

(** ... and the calls [cs0] were made before. *)
Definition secure_inv (logins : list Login) (cs0 : list call) (t : RecallTable) (a : Service)
    (w : gmap Z (Z * gostring)) : Prop :=
  sourced logins t /\ admitted logins w /\ exists cs, cs0 `prefix_of` cs /\ counted logins cs a.

Lemma proven_more logins more pid addr : logins `prefix_of` more -> proven logins pid addr -> proven more pid addr.
Proof.
  intros [l ->] [(lg & Hin & Hx)|[?|(lg & tk & sl & Hin & Hx)]]; [|by right; left|].
  - left. exists lg. split; [|done]. apply elem_of_app. by left.
  - right. right. exists lg, tk, sl. split; [|done]. rewrite app_assoc. apply elem_of_app. by left.
Qed.

Lemma admitted_more logins more w : logins `prefix_of` more -> admitted logins w -> admitted more w.
Proof.
  intros Hl Hw. eapply map_Forall_impl; [exact Hw|]. intros _ who [?|?]; [by left|right]. by eapply proven_more.
Qed.

Lemma counted_more logins more cs a : logins `prefix_of` more -> counted logins cs a -> counted more cs a.
Proof.
  intros Hl [Ha Hp]. split; [done|]. eapply Forall_impl; [exact Hp|]. intros k [addr Hk]. exists addr.
  by eapply proven_more.
Qed.

(** Steps that leave the counters alone. *)
Lemma counted_same logins cs a a' :
  (forall cs, accounted cs (sv_dash a) -> accounted cs (sv_dash a')) -> counted logins cs a -> counted logins cs a'.
Proof. intros Hs [Ha Hp]. split; [|done]. auto. Qed.

(** A call is counted for the account of its connection. *)
Lemma rmc_counted logins env ref c req w cs a :
  w !! ref = Some (ident c) -> admitted logins w -> counted logins cs a ->
  exists cs', cs `prefix_of` cs' /\ counted logins cs' (on_rmc env c req a).
Proof.
  intros Hw Had [Ha Hp]. destruct (decide (PID c = 0)) as [Hz|Hz].
  - exists cs. split; [done|]. split; [|done]. unfold on_rmc, noteRMC. cbn. by rewrite bool_decide_eq_true_2.
  - eexists. split; [by apply prefix_app_r|]. split; [|apply Forall_app; split; [exact Hp|apply Forall_singleton]].
    + unfold on_rmc. cbn [sv_dash set_dash]. by apply noteRMC_accounted.
    + cbn. destruct (Had _ _ Hw) as [?|?]; [done|]. by eexists.
Qed.

Lemma secure_keeps env penv logins cs0 :
  pe_file penv = file -> keeps (secureEndpoint pe env) penv (secure_inv logins cs0) (genuine (issued (past ++ logins))).
Proof.
  intros Hp. split; try done.
  - intros f ref c req t a w [= <-] Hc (Ht & Hw & cs & Hpre & Hcs). split_and!; [done|done|].
    destruct (rmc_counted _ env _ _ req _ _ _ Hc Hw Hcs) as (cs' & Hx & Hy). exists cs'. split; [by etrans|done].
  - by intros f c t a w [= <-].
  - intros f c t a w [= <-] (Ht & Hw & cs & Hcs). split_and!; [done|done|]. by exists cs.
  - intros proto h ref req n n' r Hh Hn E. unfold holds in *.
    pose proof (secure_handler_outside pe env _ _ _ _ _ _ _ Hh E) as Ho.
    rewrite (outside_recall _ _ Ho), (outside_people _ _ Ho). destruct Hn as (Ht & Hw & cs & Hpre & Hcs).
    split_and!; [done|done|]. exists cs. split; [done|]. eapply counted_same; [|exact Hcs].
    intros cs'. by apply (secure_handler_counts pe env _ _ _ _ _ _ _ _ Hh E).
  - intros addr t a w (Ht & Hw). rewrite Hp. split; [by apply sourced_recall|done].
  - intros ref payload c t a w response c' t' Hq (Ht & Hw & Hcs) Hc Hl.
    destruct (login_proves (secureEndpoint pe env) penv payload c _ _ _ _ eq_refl Hl) as (Hpr & _ & Ha).
    assert (sourced logins t') as Ht'.
    { revert Hl. unfold processLoginRequest. cbn [secureEndpoint]. cbn [negb Secure set_hooks Register SetSecureAccount].
      case_bool_decide.
      - rewrite Hp. pose proof (sourced_recall (pe_now penv) (RemoteAddr c) _ _ Ht) as Hr.
        destruct (RecallAuthPID _ _ _ _) as [who t1]. by intros [= _ <-].
      - destruct (connect_buffers _) as [[td rd] st]. destruct (si_err st); by intros [= _ <-]. }
    split_and!; [done| |done]. apply map_Forall_insert_2; [|done]. right. cbn. rewrite Ha.
    destruct Hpr as [[_ Hpid]|(td & rd & st & ticket & d & cid & check & Hb & Herr & Hd & _ & _ & Hsrc')].
    + rewrite Hp in Hpid. destruct (recall_sourced _ _ _ _ _ Ht Hpid) as [(lg & Hin & Hhost & Hx & _)|(m & rec & Hf & Hm & Hx & _)];
        [left; by exists lg|right; left; by exists m, rec].
    + destruct (sealed_source _ _ _ _ _ _ Hq Hb Herr Hd) as (lg & tk & sl & st' & Hin & _ & Hsf & Hs).
      right. right. exists lg, tk, sl. split_and!; [done|done|congruence].
Qed.

Lemma internal_step_admitted logins cs0 n n' :
  internal_step pe n n' -> holds (secure_inv logins cs0) n -> holds (secure_inv logins cs0) n'.
Proof.
  intros Hs Hn.
  assert (forall m : Net Service, seen m = seen n -> holds (secure_inv logins cs0) m) as Hsame
    by (intros m E; by eapply holds_seen).
  assert (forall env, keeps (secureEndpoint pe env) (mkPEnv 0 [] file) (secure_inv logins cs0)
    (genuine (issued (past ++ logins)))) as Hk
    by (intros env; by apply secure_keeps).
  destruct Hs as [env i n|ref n|i urls n|env now maxIdle n|env token reapVar q now n
    |cfg token ghostVar q rd v n|i g n|n|n]; try done.
  - apply Hsame, seen_step_sender.
  - apply Hsame, seen_retransmit.
  - unfold answer_waiting. destruct (sv_waiting (app n) !! i) as [[[ref req] h]|]; [|done].
    by eapply holds_seen; [apply seen_SendRMC|].
  - by apply (reap_holds _ _ _ _ (Hk env)).
  - unfold api_kick. destruct (authed token q); [|done].
    destruct (nonzero (parse_uint_bits 64 _)) as [pid|].
    { pose proof (kick_pid_holds _ _ _ _ (Hk env) pid n Hn) as H1. by destruct (KickPID _ _ _). }
    destruct (nonzero (parse_uint_bits 32 _)) as [id|].
    { pose proof (kick_connection_holds _ _ _ _ (Hk env) id n Hn) as H1. by destruct (KickConnection _ _ _). }
    pose proof (reap_holds _ _ _ _ (Hk env) now (ReapIdleTimeout reapVar) n Hn) as H1.
    by destruct (ReapIdle _ _ _ _).
  - destruct Hn as (Ht & Hw & cs & Hpre & Hcs). split_and!; [done|done|]. exists cs. split; [done|].
    eapply counted_same; [|exact Hcs]. intros cs'. by apply api_stats_counts.
  - destruct Hn as (Ht & Hw & cs & Hpre & Hcs). split_and!; [done|done|]. exists cs. split; [done|].
    eapply counted_same; [|exact Hcs]. intros cs'. by apply geo_fetched_counts.
Qed.

Lemma server_step_admitted logins cs0 n n' :
  held_step pe (issued (past ++ logins)) file n n' ->
  holds (secure_inv logins cs0) n -> holds (secure_inv logins cs0) n'.
Proof.
  intros [ref addr n1 Hf|env penv ref data n1 Hp Hq _|env ref n1|n1 n2 Hi] Hn.
  - destruct Hn as (Ht & Hw & Hcs). split_and!; [done| |done]. unfold people, admitted. cbn. rewrite fmap_insert.
    apply map_Forall_insert_2; [by left|done].
  - eapply (feed_holds (secureEndpoint pe env) penv (secure_inv logins cs0)); [by apply secure_keeps|exact Hq|done].
  - eapply (close_holds (secureEndpoint pe env) (mkPEnv 0 [] file) (secure_inv logins cs0)); [by apply secure_keeps|done].
  - by eapply internal_step_admitted.
Qed.

Definition process_ok (cs0 : list call) (p : Process) : Prop :=
  auth_ok (recall (pr_auth p)) (app (pr_auth p)) /\ recall (pr_secure p) = recall (pr_auth p) /\
  admitted (au_logins (app (pr_auth p))) (people (pr_secure p)) /\
  exists cs, cs0 `prefix_of` cs /\ counted (au_logins (app (pr_auth p))) cs (app (pr_secure p)).

Lemma process_step_ok cs0 p p' : process_step p p' -> process_ok cs0 p -> process_ok cs0 p'.
Proof.
  intros [a a' b Ha|a b b' Hb|now a b] (Hok & Hr & Hw & cs & Hpre & Hcs); cbn in *.
  - destruct (auth_step_ok _ _ Ha Hok) as [Hok' Hl]. split_and!; [done|done|by eapply admitted_more|].
    exists cs. split; [done|]. by eapply counted_more.
  - destruct Hok as (H1 & H2 & H3). destruct (server_step_admitted (au_logins (app a)) cs0 _ _ Hb) as (Ht & Hw' & Hcs').
    { split_and!; [by rewrite Hr|exact Hw|by exists cs]. }
    split; [|done]. by split_and!.
  - destruct Hok as (H1 & H2 & H3). split; [split_and!; [done|done|by apply sourced_flush]|].
    split_and!; [done|done|by exists cs].
Qed.

Lemma process_runs_ok cs0 p p' : rtc process_step p p' -> process_ok cs0 p -> process_ok cs0 p'.
Proof. induction 1 as [|x y z Hxy _ IH]; [done|]. intros Hx. by eapply IH, process_step_ok. Qed.

Lemma process_reachable_ok c ttl dttl dmax ts p :
  rtc process_step (process_start c ttl dttl dmax ts) p -> process_ok [] p.
Proof.
  intros Hr. eapply process_runs_ok; [exact Hr|].
  split_and!; cbn; try done; [split; cbn; done..|]. exists []. by split.
Qed.

(** Who plays as an account: on a process that requires accounts and signed tokens, after
    any traffic on both servers, a CONNECT without a ticket that the secure server accepts
    gives the connection the account of a login made from the same host at most 24 hours
    before, and that login held a valid token for exactly that account or came from a
    console the account service maps to it; or the account is one the recall file of an
    earlier process names for the host.  A CONNECT with a ticket gives it the account of the
    login that the presented ticket was issued to. *)
Lemma session_identity c ttl dttl dmax ts p env penv ref pk n' conn :
  requireAccount acc = true -> requireSignedToken acc = true ->
  rtc process_step (process_start c ttl dttl dmax ts) p ->
  pe_file penv = file -> heap (reg (pr_secure p)) !! ref = Some conn ->
  genuine (issued (past ++ au_logins (app (pr_auth p)))) (p_Payload pk) ->
  processCONNECT (secureEndpoint pe env) penv ref pk (pr_secure p) = Some n' ->
  reg n' = reg (pr_secure p) \/
  exists conn', heap (reg n') !! ref = Some conn' /\
    if bool_decide (p_Payload pk = []) then
      (exists lg, lg ∈ au_logins (app (pr_auth p)) /\ ipHost (lg_addr lg) = ipHost (RemoteAddr conn) /\
         pe_now penv - lg_now lg <= authRecallTTL /\ lg_pid lg = PID conn') \/
      (exists m rec, file = Some m /\ m !! ipHost (RemoteAddr conn) = Some rec /\ pr_PID rec = PID conn' /\
         pe_now penv - pr_At rec * nanos <= authRecallTTL)
    else exists lg ticketKey sealed, lg ∈ past ++ au_logins (app (pr_auth p)) /\
      presents (p_Payload pk) (PID conn') ticketKey sealed /\ sealed_for lg ticketKey sealed /\
      lg_pid lg = PID conn'.
Proof.
  intros Hacc Hsig Hreach Hfile Hc Hq Hrun.
  apply process_reachable_ok in Hreach as ((_ & Hlg & Hsrc) & Hrec & _).
  destruct (connect_outcome _ _ _ _ _ _ _ Hc Hrun) as [Hs|(resp & c1 & t & Hl & _ & Hh & _)]; [by left|right].
  eexists. split; [exact Hh|].
  destruct (login_proves (secureEndpoint pe env) penv (p_Payload pk) conn _ _ _ _ eq_refl Hl) as (Hpr & _).
  destruct Hpr as [[Hpay Hpid]|(td & rd & st & ticket & d & cid & check & Hb & Herr & Ht & Hd & Hk & Hsrc')].
  - rewrite bool_decide_eq_true_2 by done. rewrite Hrec, Hfile in Hpid.
    destruct (recall_sourced _ _ _ _ _ Hsrc Hpid) as [(lg & Hin & Hhost & Hp & Hn)|Hf]; [left|by right].
    exists lg. by split_and!.
  - case_bool_decide as Hpay; [rewrite Hpay in Hb; vm_compute in Hb; injection Hb as _ _ <-; done|].
    destruct (sealed_source _ _ _ _ _ _ Hq Hb Herr Ht) as (lg & tk & sl & st' & Hin & Hb' & Hsf & Hs).
    exists lg, tk, sl. split_and!; [done| |done|cbn in *; congruence].
    exists td, rd, st, st', ticket, d, cid, check. by split_and!.
Qed.
End Process.

(** ** A sample login

    A console logs in through the proxy with a signed token. *)
Definition sess_token : gostring := issue_token (str "shared secret") 1800000006 (str "kazu") 1787343300.
Definition sess_login : RMCMessage :=
  NewRMCRequest ProtocolTicketGranting MethodLoginEx 1 (StreamOut.GoString sess_token).
Definition sess_now : Z := 1787343209 * GoTime.second_ns.
Definition sess_env : AuthServerEnv :=
  mkAuthServerEnv (mkAuthEnv sess_now None (fun n => Some (replicate (Z.to_nat n) 9)) (Some (replicate 16 3)) 0 0)
    sample_login.
Definition sess_penv : PEnv := mkPEnv (sess_now + 5) [] None.
Definition sess_frame : bytes := run_handshake ++ EncodePacket (run_packet PacketDATA 2 (Encode sess_login)).
Definition sess_header : bytes := str "PROXY TCP4 82.1.2.3 10.0.1.9 41000 443" ++ [13; 10].
Definition sess_start : Process := process_start default_Config (8 * nanos) 0 0 empty_tournaments.
Definition sess_endpoint : Endpoint AuthService := authEndpoint sample_account (str "mk8.example") 60003 sess_env.
Definition sess_opened : Net AuthService :=
  OnOpen 1 (accepted_addr true (mkTCPAddr (v4_in_v6 [10; 0; 1; 7]) 5000) sess_header) (pr_auth sess_start).
Definition sess_connect : Packet := run_packet PacketCONNECT 1 [].
