(* ===== verification/Machine.v ===== *)
(** * The process behind its listeners (server/main.go, server.go)

    Both servers with their socket tables and the recall table they share.  A run over the
    sockets of both is a run of the process of AuthServer, and each server keeps the order
    of Transport; so whoever plays on the secure server does it in the name of an account
    that was proven. *)

From S2P Require Import Prelude GoStd GoNet GoTime Settings Stream Types StationURL Rmc PrudpLite.
From S2P Require Import Matchmaking Reservations Notification Connection Stations Store StoreInv.
From S2P Require Import Tournament Handlers HandlerInv HandlerProps Sha256 Dedup Crypto Kerberos.
From S2P Require Import TicketGranting Endpoint EndpointInv EndpointProps Account ProxyProto.
From S2P Require Import NatTraversal RankingBoard Ranking Utility Dashboard Server ServerProps.
From S2P Require Import RegistryInv Transport Sockets AuthServer.
Import GoNet.

Record Machine := mkMachine { mc_auth : Sockets AuthService; mc_secure : Sockets Service }.

(** The recall table is a variable of the process: a step of one server shows to the other. *)
Definition share {App} (t : RecallTable) (st : Sockets App) : Sockets App :=
  mkSockets (conns st) (with_recall t (ss_net st)).

Definition as_process (m : Machine) : Process := mkProcess (ss_net (mc_auth m)) (ss_net (mc_secure m)).

Lemma share_ok {App} t (st : Sockets App) : sockets_ok st -> sockets_ok (share t st).
Proof. by intros [H1 H2 H3 H4]; split. Qed.

Lemma with_recall_id {App} (n : Net App) : with_recall (recall n) n = n.
Proof. by destruct n. Qed.

Section Machine.
Context `{GoRange, GoSort} (pe : ProcEnv) (acc : AccountConfig) (host : gostring) (port : Z).
Context (file : option (gmap gostring authRecallPersisted)) (past : list Login).

Definition auth_transport : Transport AuthService := {|
  tr_endpoint := authEndpoint acc host port;
  tr_addr := fun addr => exists proxyProto peer stream, addr = accepted_addr proxyProto peer stream;
  tr_admits := fun env penv _ _ n => pe_file penv = file /\ ae_file (an_auth env) = file;
  tr_internal := fun n n' =>
    (exists env i, n' = step_sender (authEndpoint acc host port env) i n) \/ (exists ref, n' = retransmit ref n)
|}.

Lemma serve_login_reg env ref req n n' r :
  serve_login acc host port env ref req n = (n', r) -> reg n' = reg n.
Proof.
  unfold serve_login. destruct (heap (reg n) !! ref) as [c|]; [|by intros [= <- _]].
  destruct (AuthHandler _ _ _ _ _) as [res t]. by destruct res; intros [= <- _].
Qed.

#[export] Instance auth_orderly : Orderly auth_transport.
Proof.
  split.
  - done.
  - intros env proto h ref req n n' r Hh E. unfold handler in Hh. cbn in Hh.
    destruct (<[ProtocolTicketGranting := _]> ∅ !! proto) as [h0|] eqn:El; [|done]. injection Hh as ->.
    apply lookup_insert_Some in El as [[_ <-]|[_ El]]; [|done]. unfold shape_of. by rewrite (serve_login_reg _ _ _ _ _ _ E).
  - intros ref n n' [(env & i & ->)|(x & ->)].
    + by rewrite (seen_shape _ _ (seen_step_sender _ _ _)).
    + by rewrite (seen_shape _ _ (seen_retransmit _ _)).
Qed.

(** Seen without its table, a run over the sockets is a run of the authentication server. *)
Lemma socket_step_auth st st' :
  socket_step auth_transport st st' -> rtc (auth_step acc host port file) (ss_net st) (ss_net st').
Proof.
  intros [socket ref addr s1 _ Hr (proxyProto & peer & stream & ->)|env penv socket binary data s1 Hc|env socket s1
    |s1 n' [(env & i & ->)|(ref & ->)]].
  - by apply rtc_once, au_open.
  - unfold socket_OnMessage. destruct (negb binary); [done|].
    destruct (conns s1 !! socket) as [ref|]; [|done].
    destruct (Hc ref eq_refl) as [[Hp Ha] _]. by apply rtc_once, au_frame.
  - unfold socket_OnClose. destruct (conns s1 !! socket) as [ref|]; [|done]. apply rtc_once, au_close.
  - apply rtc_once, au_send.
  - apply rtc_once, au_resend.
Qed.

(** The secure server whose clients present only tickets that are [held]. *)
Definition held_transport (held : bytes -> bytes -> Prop) : Transport Service := {|
  tr_endpoint := secureEndpoint pe;
  tr_addr := fun _ => True;
  tr_admits := fun env penv ref data n =>
    tr_admits (secure_transport pe file) env penv ref data n /\
    Forall (brings (genuine held)) (frame_packets ref data n);
  tr_internal := internal_step pe
|}.

#[export] Instance held_orderly held : Orderly (held_transport held).
Proof. destruct (secure_orderly pe file) as [H1 H2 H3]. by split. Qed.

Lemma socket_step_held held st st' :
  socket_step (held_transport held) st st' -> rtc (held_step pe held file) (ss_net st) (ss_net st').
Proof.
  intros [socket ref addr s1 _ Hr _|env penv socket binary data s1 Hc|env socket s1|s1 n' Hi].
  - by apply rtc_once, sv_open.
  - unfold socket_OnMessage. destruct (negb binary); [done|].
    destruct (conns s1 !! socket) as [ref|]; [|done].
    destruct (Hc ref eq_refl) as [[[Hp Hcalm] Hq] _]. by apply rtc_once, sv_frame.
  - unfold socket_OnClose. destruct (conns s1 !! socket) as [ref|]; [|done]. apply rtc_once, sv_close.
  - apply rtc_once. by apply sv_internal.
Qed.

(** Clients hold the tickets issued to logins on this process or an earlier one. *)
Inductive machine_step : Machine -> Machine -> Prop :=
  | mc_on_auth a a' b : socket_step auth_transport a a' ->
      machine_step (mkMachine a b) (mkMachine a' (share (recall (ss_net a')) b))
  | mc_on_secure a b b' : socket_step (held_transport (issued (past ++ au_logins (app (ss_net a))))) b b' ->
      machine_step (mkMachine a b) (mkMachine (share (recall (ss_net b')) a) b')
  | mc_on_flush now a b :
      let t := (authRecallFlush now (recall (ss_net a))).2 in
      machine_step (mkMachine a b) (mkMachine (share t a) (share t b)).

Definition machine_start (c : Config) (ttl dttl dmax : Z) (ts : tournamentStore) : Machine :=
  mkMachine (NewServer (pr_auth (process_start c ttl dttl dmax ts))) (sockets_start c ttl dttl dmax ts).

(** ** Refinement *)
Lemma auth_run a a' b :
  rtc (auth_step acc host port file) a a' -> recall b = recall a ->
  rtc (process_step pe acc host port file past) (mkProcess a b) (mkProcess a' (with_recall (recall a') b)).
Proof.
  intros Hr. revert b. induction Hr as [a|a a1 a' Hs _ IH]; intros b Hb; [by rewrite <- Hb, with_recall_id|].
  eapply rtc_l; [by apply ps_auth|]. exact (IH (with_recall (recall a1) b) eq_refl).
Qed.

Lemma secure_run a b b' :
  rtc (held_step pe (issued (past ++ au_logins (app a))) file) b b' -> recall b = recall a ->
  rtc (process_step pe acc host port file past) (mkProcess a b) (mkProcess (with_recall (recall b') a) b').
Proof.
  intros Hr. remember (app a) as lg eqn:Elg. revert a Elg. induction Hr as [b|b b1 b' Hs _ IH]; intros a -> Hb; [by rewrite Hb, with_recall_id|].
  eapply rtc_l; [by apply ps_secure|]. exact (IH (with_recall (recall b1) a) eq_refl eq_refl).
Qed.

Lemma machine_step_process m m' :
  machine_step m m' -> recall (ss_net (mc_secure m)) = recall (ss_net (mc_auth m)) ->
  rtc (process_step pe acc host port file past) (as_process m) (as_process m').
Proof.
  intros [a a' b Hs|a b b' Hs|now a b] Hr.
  - apply auth_run; [by apply socket_step_auth|done].
  - apply secure_run; [by apply socket_step_held|done].
  - apply rtc_once. apply (ps_flush pe acc host port file past now).
Qed.

(** A run over the sockets of both servers is a run of the process, and both tables are in
    order. *)
Lemma machine_reachable c ttl dttl dmax ts m :
  rtc machine_step (machine_start c ttl dttl dmax ts) m ->
  rtc (process_step pe acc host port file past) (process_start c ttl dttl dmax ts) (as_process m) /\
  sockets_ok (mc_auth m) /\ sockets_ok (mc_secure m).
Proof.
  intros Hr. pattern m. revert m Hr. apply rtc_ind_r.
  { split; [done|]. split.
    - apply (sockets_reachable auth_transport (pr_auth (process_start c ttl dttl dmax ts))); [reflexivity|apply rtc_refl].
    - apply (secure_reachable pe file c ttl dttl dmax ts), rtc_refl. }
  intros m m' Hr Hs (Hp & Ha & Hb). pose proof (process_reachable_ok _ _ _ _ _ _ _ _ _ _ _ _ Hp) as (_ & Hrec & _).
  split; [etrans; [exact Hp|by apply machine_step_process]|].
  destruct Hs as [a a' b Hs|a b b' Hs|now a b]; cbn in *.
  - split; [by eapply (socket_step_ok auth_transport)|by apply share_ok].
  - split; [by apply share_ok|by eapply (socket_step_ok (held_transport (issued (past ++ au_logins (app (ss_net a))))))].
  - split; by apply share_ok.
Qed.

(** Who plays on the secure server, after any traffic on the sockets of both servers: a
    connection of the secure server stands for no account, or for that of a login from the
    same host, or for one the recall file of an earlier process names for the host, or for
    that of a login that was issued a ticket.  A connection that is open has exactly one
    open socket. *)
Lemma every_player_proven c ttl dttl dmax ts m ref conn :
  rtc machine_step (machine_start c ttl dttl dmax ts) m ->
  heap (reg (ss_net (mc_secure m))) !! ref = Some conn ->
  (PID conn = 0 \/ proven file past (au_logins (app (ss_net (mc_auth m)))) (PID conn) (RemoteAddr conn)) /\
  (cstate conn = stateConnected -> exists socket, forall s, conns (mc_secure m) !! s = Some ref <-> s = socket).
Proof.
  intros (Hp & _ & Hb)%machine_reachable Hc.
  destruct (process_reachable_ok _ _ _ _ _ _ _ _ _ _ _ _ Hp) as (_ & _ & Hw & _). split.
  - assert (people (ss_net (mc_secure m)) !! ref = Some (PID conn, RemoteAddr conn)) as Hwho
      by (unfold people; by rewrite lookup_fmap, Hc).
    exact (Hw _ _ Hwho).
  - intros Hst. destruct (who_is_online _ Hb) as [Hon _]. by apply Hon in Hc as [_ Hs]; apply Hs.
Qed.
End Machine.

(** ** A sample session

    The console of AuthServer's sample logs in through the proxy on socket 7 of the
    authentication server, then connects on socket 8 of the secure server. *)
#[local] Instance mac_range : GoRange := run_range.
#[local] Instance mac_sort : GoSort := run_sort.
Definition mac_step (file : option (gmap gostring authRecallPersisted)) (past : list Login)
    : Machine -> Machine -> Prop :=
  machine_step ex_env sample_account (str "mk8.example") 60003 file past.
Definition mac_auth : Transport AuthService := auth_transport sample_account (str "mk8.example") 60003 None.
Definition join_env (file : option (gmap gostring authRecallPersisted)) : PEnv := mkPEnv (sess_now + 5) [] file.
Definition mac_addr : gostring := accepted_addr true (mkTCPAddr (v4_in_v6 [10; 0; 1; 7]) 5000) sess_header.

(** What the console does on one server. *)
Definition log_in (a : Sockets AuthService) : Sockets AuthService :=
  socket_OnMessage sess_endpoint sess_penv 7 true sess_frame a.
Definition sent (env : ServerEnv) (frame : bytes) (file : option (gmap gostring authRecallPersisted))
    (b : Sockets Service) : Sockets Service :=
  socket_OnMessage (secureEndpoint ex_env env) (join_env file) 8 true frame b.
Definition join (file : option (gmap gostring authRecallPersisted)) (b : Sockets Service) : Sockets Service :=
  sent (run_env 0 1) run_handshake file b.

Lemma log_in_runs a :
  conns a !! 7 = Some 1 ->
  connCounter (reg (ss_net a)) + len (frame_packets 1 sess_frame (ss_net a)) < 2 ^ 32 ->
  rtc (socket_step mac_auth) a (log_in a).
Proof.
  intros Hs Hk. refine (rtc_once _ _ (so_message mac_auth sess_env sess_penv 7 true sess_frame a _)).
  intros ref Hr. assert (ref = 1) as -> by congruence. by split.
Qed.

(** Packets that present no ticket. *)
Definition ticketless (p : Packet) : bool :=
  negb (bool_decide (p_Type p = PacketCONNECT)) || bool_decide (p_Payload p = []).

Lemma genuine_empty held : genuine held [].
Proof. intros td rd st tk sl st' d Hb Herr. vm_compute in Hb. injection Hb as _ _ <-. done. Qed.

Lemma ticketless_brings held ps : forallb ticketless ps = true -> Forall (brings (genuine held)) ps.
Proof.
  induction ps as [|p ps IH]; cbn; [done|]. intros [Hp Hps]%andb_true_iff. constructor; [|by apply IH].
  intros Ht. unfold ticketless in Hp. rewrite Ht, bool_decide_eq_true_2 in Hp by done. cbn in Hp.
  apply bool_decide_eq_true in Hp. rewrite Hp. apply genuine_empty.
Qed.

Lemma sent_runs held env frame file b :
  conns b !! 8 = Some 1 -> forallb ticketless (frame_packets 1 frame (ss_net b)) = true ->
  calm ex_env env (join_env file) 1 (frame_packets 1 frame (ss_net b)) (buffered 1 frame (ss_net b)) ->
  connCounter (reg (ss_net b)) + len (frame_packets 1 frame (ss_net b)) < 2 ^ 32 ->
  rtc (socket_step (held_transport ex_env file held)) b (sent env frame file b).
Proof.
  intros Hs Hq Hc Hk.
  refine (rtc_once _ _ (so_message (held_transport ex_env file held) env (join_env file) 8 true frame b _)).
  intros ref Hr. assert (ref = 1) as -> by congruence. split; [|done]. split; [done|by apply ticketless_brings].
Qed.

(** Steps of one server, lifted. *)
Lemma mac_on_auth a a' b :
  rtc (socket_step mac_auth) a a' -> recall (ss_net b) = recall (ss_net a) ->
  rtc (mac_step None []) (mkMachine a b) (mkMachine a' (share (recall (ss_net a')) b)).
Proof.
  intros Hr. revert b. induction Hr as [a|a a1 a' Hs _ IH]; intros b Hb.
  { destruct b as [cb nb]. cbn in *. unfold share. cbn. by rewrite <- Hb, with_recall_id. }
  eapply rtc_l; [by apply mc_on_auth|]. exact (IH (share (recall (ss_net a1)) b) eq_refl).
Qed.

Lemma mac_on_secure file past a b b' :
  (forall held, rtc (socket_step (held_transport ex_env file held)) b b') ->
  recall (ss_net b) = recall (ss_net a) ->
  rtc (mac_step file past) (mkMachine a b) (mkMachine (share (recall (ss_net b')) a) b').
Proof.
  intros Hr. specialize (Hr (issued (past ++ au_logins (app (ss_net a))))).
  remember (app (ss_net a)) as s eqn:Es. revert a Es. induction Hr as [b|b b1 b' Hs _ IH]; intros a -> Hb.
  { destruct a as [ca na]. cbn in *. unfold share. cbn. by rewrite Hb, with_recall_id. }
  eapply rtc_l; [by apply mc_on_secure|]. exact (IH (share (recall (ss_net b1)) a) eq_refl eq_refl).
Qed.

Definition after_login (a : Sockets AuthService) (b : Sockets Service) : Machine :=
  let a1 := socket_OnOpen 7 1 mac_addr a in
  let a2 := log_in a1 in
  mkMachine a2 (share (recall (ss_net a2)) (share (recall (ss_net a1)) b)).

Definition after_join (file : option (gmap gostring authRecallPersisted)) (a : Sockets AuthService)
    (b : Sockets Service) : Machine :=
  let b1 := socket_OnOpen 8 1 run_addr b in
  let b2 := join file b1 in
  mkMachine (share (recall (ss_net b2)) (share (recall (ss_net b1)) a)) b2.

Lemma after_login_runs a b :
  let a1 := socket_OnOpen 7 1 mac_addr a in
  conns a !! 7 = None -> heap (reg (ss_net a)) !! 1 = None -> rtc (socket_step mac_auth) a1 (log_in a1) ->
  rtc (mac_step None []) (mkMachine a b) (after_login a b).
Proof.
  intros a1 Ha Hha Hlog. eapply rtc_l.
  { apply mc_on_auth, (so_open mac_auth 7 1 mac_addr); [done|done|].
    by exists true, (mkTCPAddr (v4_in_v6 [10; 0; 1; 7]) 5000), sess_header. }
  apply (mac_on_auth a1 (log_in a1)); [exact Hlog|reflexivity].
Qed.

Lemma after_join_runs file past a b :
  let b1 := socket_OnOpen 8 1 run_addr b in
  conns b !! 8 = None -> heap (reg (ss_net b)) !! 1 = None ->
  (forall held, rtc (socket_step (held_transport ex_env file held)) b1 (join file b1)) ->
  rtc (mac_step file past) (mkMachine a b) (after_join file a b).
Proof.
  intros b1 Hb Hhb Hjoin.
  eapply rtc_l; [apply mc_on_secure, (so_open (held_transport ex_env file _) 8 1 run_addr); done|].
  apply (mac_on_secure file past _ b1 (join file b1)); [exact Hjoin|reflexivity].
Qed.

Definition mac_start : Machine := machine_start default_Config (8 * nanos) 0 0 empty_tournaments.
Definition mac_logged : Machine := after_login (mc_auth mac_start) (mc_secure mac_start).

Lemma mac_logs_in : rtc (mac_step None []) mac_start mac_logged.
Proof.
  apply (after_login_runs (mc_auth mac_start) (mc_secure mac_start)); [reflexivity..|].
  apply log_in_runs; vm_compute; reflexivity.
Qed.
