(* ===== verification/Life.v ===== *)
(** * The process over restarts (ticketgranting.go, server/main.go)

    The recall table outlives the process in a file: a goroutine collects the table, drops
    what has expired, writes a temporary file and renames it; a new process loads the file.
    The process may die at any moment, also between collecting and writing, and a write may
    fail.  Shown is that a restart invents no identity: whoever plays proved the account to a
    login on this process or an earlier one.  (That none is forgotten is shown of the table
    and its file in TicketGranting.) *)

From S2P Require Import Prelude GoStd GoNet GoTime Settings Stream Types StationURL Rmc PrudpLite.
From S2P Require Import Matchmaking Reservations Notification Connection Stations Store StoreInv.
From S2P Require Import Tournament Handlers HandlerInv HandlerProps Sha256 Dedup Crypto Kerberos.
From S2P Require Import TicketGranting Endpoint EndpointInv EndpointProps Account ProxyProto.
From S2P Require Import NatTraversal RankingBoard Ranking Utility Dashboard Server ServerProps.
From S2P Require Import RegistryInv Transport Sockets AuthServer Machine.
Import GoNet.

Abbreviation recallFile := (option (gmap gostring authRecallPersisted)).

(** ** What a flush writes *)

(** An entry written comes from an entry of the table. *)
Lemma flush_entries_from (now : Z) (l : list (gostring * authRecall)) (m m' : gmap gostring authRecall)
    (out out' : gmap gostring authRecallPersisted) :
  (forall k r, (k, r) ∈ l -> m !! k = Some r) ->
  (forall k rec, out !! k = Some rec -> exists r, m !! k = Some r /\ rec = persist r) ->
  forall t, foldl (flush_entry now) (out, t) l = (out', m') ->
  forall k rec, out' !! k = Some rec -> exists r, m !! k = Some r /\ rec = persist r.
Proof.
  revert out. induction l as [|[ip r] l IH]; intros out Hl Ho t; cbn [foldl].
  { intros [= <- _]. exact Ho. }
  assert (forall k r, (k, r) ∈ l -> m !! k = Some r) as Hl' by (intros; apply Hl; by apply elem_of_cons; right).
  unfold flush_entry at 2, flush_look. repeat case_bool_decide; try (by eapply IH).
  all: destruct (expired now r); try (by eapply IH).
  eapply IH; [done|]. intros k rec [[<- <-]|[_ Hk]]%lookup_insert_Some; [|by apply Ho].
  exists r. split; [|done]. apply Hl. by apply elem_of_cons; left.
Qed.

Lemma flush_from `{GoRange} now t f t' h rec :
  authRecallFlush now t = (Some f, t') -> f !! h = Some rec ->
  exists r, authPIDByIP t !! h = Some r /\ rec = persist r.
Proof.
  unfold authRecallFlush. destruct (recallDirty t); [|done].
  destruct (foldl _ _ _) as [out table] eqn:E. intros [= <- _].
  eapply (flush_entries_from now _ (authPIDByIP t)); [|by intros k x; rewrite lookup_empty|exact E].
  intros k r. apply elem_of_range.
Qed.

(** ** Lives of the process *)

(** [lf_loaded]: the file the running process found.  [lf_pending]: what its flusher has
    collected and not yet written.  [lf_disk]: the file now.  [lf_past]: the logins of
    earlier processes; no operation reads it, it says which tickets clients may hold. *)
Record Life := mkLife {
  lf_machine : Machine;
  lf_loaded : recallFile;
  lf_pending : recallFile;
  lf_disk : recallFile;
  lf_past : list Login
}.

Definition logins_now (l : Life) : list Login := au_logins (app (ss_net (mc_auth (lf_machine l)))).
Definition logins_ever (l : Life) : list Login := lf_past l ++ logins_now l.
Definition table_now (l : Life) : RecallTable := recall (ss_net (mc_auth (lf_machine l))).

Section Life.
Context `{GoRange, GoSort} (pe : ProcEnv) (acc : AccountConfig) (host : gostring) (port : Z).

(** A tick of the flusher collects the table; writing it may fail, then nothing follows.
    The process may end at any moment, and is started again with what the disk holds. *)
Inductive life_step : Life -> Life -> Prop :=
  | lf_run l m' : machine_step pe acc host port (lf_loaded l) (lf_past l) (lf_machine l) m' ->
      life_step l (mkLife m' (lf_loaded l) (lf_pending l) (lf_disk l) (lf_past l))
  | lf_collect l now f t : authRecallFlush now (table_now l) = (Some f, t) ->
      life_step l (mkLife (mkMachine (share t (mc_auth (lf_machine l))) (share t (mc_secure (lf_machine l))))
        (lf_loaded l) (Some f) (lf_disk l) (lf_past l))
  | lf_write l f : lf_pending l = Some f ->
      life_step l (mkLife (lf_machine l) (lf_loaded l) None (Some f) (lf_past l))
  | lf_fail l : life_step l (mkLife (lf_machine l) (lf_loaded l) None (lf_disk l) (lf_past l))
  | lf_restart l c ttl dttl dmax ts :
      life_step l (mkLife (machine_start c ttl dttl dmax ts) (lf_disk l) None (lf_disk l) (logins_ever l)).

(** The first process finds no file. *)
Definition life_start (c : Config) (ttl dttl dmax : Z) (ts : tournamentStore) : Life :=
  mkLife (machine_start c ttl dttl dmax ts) None None None [].

(** Every entry of a file is a login, its time cut to the second. *)
Definition file_from (logins : list Login) (f : recallFile) : Prop :=
  forall m h rec, f = Some m -> m !! h = Some rec ->
    exists lg, lg ∈ logins /\ ipHost (lg_addr lg) = h /\ lg_pid lg = pr_PID rec /\ pr_At rec * nanos <= lg_now lg.

Record life_ok (l : Life) : Prop := {
  lo_run : exists c ttl dttl dmax ts,
    rtc (machine_step pe acc host port (lf_loaded l) (lf_past l)) (machine_start c ttl dttl dmax ts) (lf_machine l);
  lo_past : Forall (login_ok acc) (lf_past l);
  lo_loaded : file_from (lf_past l) (lf_loaded l);
  lo_pending : file_from (logins_ever l) (lf_pending l);
  lo_disk : file_from (logins_ever l) (lf_disk l)
}.

Lemma file_from_more logins more f : logins ⊆ more -> file_from logins f -> file_from more f.
Proof.
  intros Hs Hf m h rec Hm Hr. destruct (Hf m h rec Hm Hr) as (lg & Hin & Hx). exists lg. split; [|done]. by apply Hs.
Qed.

Lemma life_process l : life_ok l -> process_ok acc (lf_loaded l) (lf_past l) [] (as_process (lf_machine l)).
Proof.
  intros Hl. destruct (lo_run _ Hl) as (c & ttl & dttl & dmax & ts & Hr).
  apply machine_reachable in Hr as [Hr _]. by apply process_reachable_ok in Hr.
Qed.

(** Logins are only added while a process runs. *)
Lemma machine_step_logins file past cs0 m m' :
  machine_step pe acc host port file past m m' -> process_ok acc file past cs0 (as_process m) ->
  au_logins (app (ss_net (mc_auth m))) `prefix_of` au_logins (app (ss_net (mc_auth m'))).
Proof.
  intros [a a' b Hs|a b b' Hs|now a b] (Hok & _); cbn in *; [|done..].
  apply socket_step_auth in Hs. induction Hs as [|x y z Hxy _ IH]; [done|].
  destruct (auth_step_ok _ _ _ _ _ _ Hxy Hok) as [Hok' Hp]. etrans; [exact Hp|by apply IH].
Qed.

(** Traffic on the running process keeps its invariant, with the calls made before. *)
Lemma machine_runs_process file past cs0 m m' :
  rtc (machine_step pe acc host port file past) m m' ->
  process_ok acc file past cs0 (as_process m) -> process_ok acc file past cs0 (as_process m').
Proof.
  induction 1 as [|x y z Hxy _ IH]; [done|]. intros Hx. apply IH. eapply process_runs_ok; [|exact Hx].
  apply machine_step_process; [exact Hxy|]. by destruct Hx as (_ & Hr & _).
Qed.

(** The life in which the running process has come to [m]. *)
Definition later (l : Life) (m : Machine) : Life :=
  mkLife m (lf_loaded l) (lf_pending l) (lf_disk l) (lf_past l).

(** What the flusher collects are logins. *)
Lemma collected_from l now f t :
  life_ok l -> authRecallFlush now (table_now l) = (Some f, t) -> file_from (logins_ever l) (Some f).
Proof.
  intros Hl Hf m h rec [= <-] Hr. destruct (life_process l Hl) as ((_ & _ & Hsrc) & _).
  destruct (flush_from _ _ _ _ _ _ Hf Hr) as (r & Htab & ->).
  assert (rc_at r / nanos * nanos <= rc_at r) as Hfl
    by (pose proof (Z.mul_div_le (rc_at r) nanos ltac:(done)); lia).
  destruct (Hsrc h r Htab) as [(lg & Hin & Hh & Hp & Hn)|(m & rec & Hm & Hrec & Hp & Hn)].
  - exists lg. unfold logins_ever. rewrite elem_of_app. split_and!; [by right|done|done|cbn; lia].
  - destruct (lo_loaded _ Hl m h rec Hm Hrec) as (lg & Hin & Hh & Hpl & Hat). exists lg.
    unfold logins_ever. rewrite elem_of_app. split_and!; [by left|done|cbn; congruence|cbn; lia].
Qed.

Lemma life_step_ok l l' : life_step l l' -> life_ok l -> life_ok l'.
Proof.
  intros Hs Hl. pose proof (life_process l Hl) as Hpr.
  destruct (lo_run _ Hl) as (c & ttl & dttl & dmax & ts & Hr). destruct Hl as [_ Hpast Hload Hpend Hdisk].
  destruct Hs as [l m' Hs|l now f t Hf|l f Hf|l|l c' ttl' dttl' dmax' ts'].
  - pose proof (machine_step_logins _ _ _ _ _ Hs Hpr) as [more Hm].
    assert (logins_ever l ⊆ lf_past l ++ au_logins (app (ss_net (mc_auth m')))) as Hsub
      by (unfold logins_ever, logins_now; rewrite Hm; set_solver).
    split; cbn; [|done|done|by eapply file_from_more|by eapply file_from_more].
    exists c, ttl, dttl, dmax, ts. by eapply rtc_r.
  - assert (life_ok l) as Hl by (split; eauto 6). split; cbn; [|done|done|by eapply (collected_from l)|done].
    exists c, ttl, dttl, dmax, ts. eapply rtc_r; [exact Hr|].
    assert (t = (authRecallFlush now (table_now l)).2) as -> by (by rewrite Hf).
    destruct (lf_machine l) as [a b] eqn:Em. unfold table_now. rewrite Em. apply mc_on_flush.
  - split; cbn; [by eauto 6|done|done|done|]. by rewrite Hf in Hpend.
  - split; cbn; [by eauto 6|done|done|done|done].
  - split; cbn; [by exists c', ttl', dttl', dmax', ts'| |done|done|].
    + apply Forall_app. split; [done|]. by destruct Hpr as ((_ & Hlg & _) & _).
    + eapply file_from_more; [|exact Hdisk]. unfold logins_ever at 2, logins_now. cbn. set_solver.
Qed.

Lemma later_ok l m :
  life_ok l -> rtc (machine_step pe acc host port (lf_loaded l) (lf_past l)) (lf_machine l) m -> life_ok (later l m).
Proof.
  intros Hl Hr. assert (rtc life_step (later l (lf_machine l)) (later l m)) as Hrun.
  { induction Hr as [|x y z Hxy _ IH]; [done|]. eapply rtc_l; [exact (lf_run (later l x) y Hxy)|exact IH]. }
  assert (life_ok (later l (lf_machine l))) as H1 by (by destruct l).
  clear Hr. revert H1. induction Hrun as [|x y z Hxy _ IH]; [done|]. intros Hx. by eapply IH, life_step_ok.
Qed.

Lemma life_reachable c ttl dttl dmax ts l : rtc life_step (life_start c ttl dttl dmax ts) l -> life_ok l.
Proof.
  intros Hr. pattern l. revert l Hr. apply rtc_ind_r.
  - split; cbn; [by exists c, ttl, dttl, dmax, ts|done|done|done|done].
  - intros x y _ Hxy Hx. by eapply life_step_ok.
Qed.

(** ** Identities over lives *)
Context (Hacc : requireAccount acc = true) (Hsig : requireSignedToken acc = true).

(** The login [lg] proved the account [pid], at the account service's word that it may play. *)
Definition proved (lg : Login) (pid : Z) : Prop :=
  vouched acc (lg_env lg) (lg_user lg) (lg_extra lg) (lg_nsa lg) pid /\
  exists kind, (nextendoOnlineCheck (lg_env lg) pid kind).1 = true.

Lemma login_proved l lg : life_ok l -> lg ∈ logins_ever l -> proved lg (lg_pid lg).
Proof using Hacc Hsig.
  intros Hl Hin. destruct (life_process l Hl) as ((_ & Hlg & _) & _).
  assert (login_ok acc lg) as (Hwf & key & st' & Hr).
  { apply elem_of_app in Hin as [Hin|Hin]; [apply (proj1 (Forall_forall _ _) (lo_past _ Hl) _ Hin)
      |apply (proj1 (Forall_forall _ _) Hlg _ Hin)]. }
  destruct (login_identity _ _ _ _ _ _ _ _ Hwf Hacc Hsig Hr) as (Hv & _ & Hk). by split.
Qed.

(** What the file of an earlier process names was proved to it. *)
Lemma loaded_proved l m h rec :
  life_ok l -> lf_loaded l = Some m -> m !! h = Some rec ->
  exists lg, lg ∈ logins_ever l /\ ipHost (lg_addr lg) = h /\ pr_At rec * nanos <= lg_now lg /\ proved lg (pr_PID rec).
Proof using Hacc Hsig.
  intros Hl Hm Hr. destruct (lo_loaded _ Hl m h rec Hm Hr) as (lg & Hin & Hh & Hp & Hat).
  assert (lg ∈ logins_ever l) as Hin' by (unfold logins_ever; apply elem_of_app; by left).
  exists lg. split_and!; [done|done|done|]. rewrite <- Hp. by eapply login_proved.
Qed.

(** Whoever is proven to the process has a login that proved the account. *)
Lemma proven_proved l pid addr :
  life_ok l -> proven (lf_loaded l) (lf_past l) (logins_now l) pid addr ->
  exists lg, lg ∈ logins_ever l /\ proved lg pid /\
    (ipHost (lg_addr lg) = ipHost addr \/ exists ticketKey sealed, sealed_for lg ticketKey sealed).
Proof using Hacc Hsig.
  intros Hl [(lg & Hin & Hh & <-)|[(m & rec & Hm & Hrec & <-)|(lg & tk & sl & Hin & Hs & <-)]].
  - exists lg. assert (lg ∈ logins_ever l) by (apply elem_of_app; by right).
    split_and!; [done|by eapply login_proved|by left].
  - destruct (loaded_proved l m _ rec Hl Hm Hrec) as (lg & Hin & Hh & _ & Hpr). exists lg. split_and!; [done|done|by left].
  - exists lg. split_and!; [done|by eapply login_proved|right; by exists tk, sl].
Qed.

(** [C5] A returning player: over any number of restarts, with processes that require accounts
    and signed tokens, a CONNECT without a ticket that the secure server accepts gives the
    connection an account that was proved by a login from the same host, on this process
    or an earlier one, at most 24 hours before.  A CONNECT with a ticket is accepted only if
    its payload carries an envelope that was sealed for a login, here or on an earlier
    process, and check data under the ticket's session key; the connection gets the
    account in the envelope and the check data, which that login proved.  It is assumed that nobody
    without the server's key can seal an envelope that the key opens. *)
Theorem returning_player c ttl dttl dmax ts l env penv ref pk n' conn :
  rtc life_step (life_start c ttl dttl dmax ts) l -> pe_file penv = lf_loaded l ->
  genuine (issued (logins_ever l)) (p_Payload pk) ->
  let n := ss_net (mc_secure (lf_machine l)) in
  heap (reg n) !! ref = Some conn -> processCONNECT (secureEndpoint pe env) penv ref pk n = Some n' ->
  reg n' = reg n \/
  exists conn', heap (reg n') !! ref = Some conn' /\
    if bool_decide (p_Payload pk = []) then
      exists lg, lg ∈ logins_ever l /\ ipHost (lg_addr lg) = ipHost (RemoteAddr conn) /\
        pe_now penv - lg_now lg <= authRecallTTL /\ proved lg (PID conn')
    else exists lg ticketKey sealed, lg ∈ logins_ever l /\
      presents (p_Payload pk) (PID conn') ticketKey sealed /\ sealed_for lg ticketKey sealed /\
      proved lg (PID conn').
Proof using Hacc Hsig.
  intros Hl%life_reachable Hfile Hq n Hc Hrun.
  destruct (lo_run _ Hl) as (c0 & ttl0 & dttl0 & dmax0 & ts0 & Hr). apply machine_reachable in Hr as [Hr _].
  destruct (session_identity _ _ _ _ _ _ _ _ _ _ _ _ env penv ref pk n' conn Hacc Hsig Hr Hfile Hc Hq Hrun)
    as [Hs|(conn' & Hc' & Hid)]; [by left|right]. exists conn'. split; [done|].
  case_bool_decide.
  - destruct Hid as [(lg & Hin & Hh & Ht & Hp)|(m & rec & Hm & Hrec & Hp & Ht)].
    + exists lg. rewrite <- Hp. assert (lg ∈ logins_ever l) by (apply elem_of_app; by right).
      split_and!; [done|done|done|by eapply login_proved].
    + destruct (loaded_proved l m _ rec Hl Hm Hrec) as (lg & Hin & Hh & Hat & Hpr). rewrite Hp in Hpr.
      exists lg. split_and!; [done|done|lia|done].
  - destruct Hid as (lg & tk & sl & Hin & Hpr & Hsf & Hp). exists lg, tk, sl.
    split_and!; [done|done|done|]. rewrite <- Hp. by eapply login_proved.
Qed.

(** [C6] Everybody on the secure server: over any number of restarts, after any traffic on the
    sockets of both servers in which only issued tickets are presented, a connection of the
    secure server stands for no account, or for one that a login proved, on this process or
    an earlier one, from the same host or with a ticket sealed for it.  A connection that is open has
    exactly one open socket. *)
Theorem every_player_proved c ttl dttl dmax ts l ref conn :
  rtc life_step (life_start c ttl dttl dmax ts) l ->
  heap (reg (ss_net (mc_secure (lf_machine l)))) !! ref = Some conn ->
  (PID conn = 0 \/
   exists lg, lg ∈ logins_ever l /\ proved lg (PID conn) /\
     (ipHost (lg_addr lg) = ipHost (RemoteAddr conn) \/ exists ticketKey sealed, sealed_for lg ticketKey sealed)) /\
  (cstate conn = stateConnected ->
     exists socket, forall s, conns (mc_secure (lf_machine l)) !! s = Some ref <-> s = socket).
Proof using Hacc Hsig.
  intros Hl%life_reachable Hc. destruct (lo_run _ Hl) as (c0 & ttl0 & dttl0 & dmax0 & ts0 & Hr).
  destruct (every_player_proven _ _ _ _ _ _ _ _ _ _ _ _ ref conn Hr Hc) as [[Hz|Hw] Hon];
    (split; [|done]); [by left|right]. by eapply proven_proved.
Qed.
End Life.

(** ** A sample life

    The console of Machine's sample logs in; its login is written to the file; the process
    is restarted; the console opens the secure connection on the new process. *)
#[local] Instance life_range : GoRange := run_range.
#[local] Instance life_sort : GoSort := run_sort.
Definition sample_step : Life -> Life -> Prop := life_step ex_env sample_account (str "mk8.example") 60003.

Lemma machine_runs file m m' pending disk past :
  rtc (mac_step file past) m m' -> rtc sample_step (mkLife m file pending disk past) (mkLife m' file pending disk past).
Proof.
  intros Hr. induction Hr as [|x y z Hxy _ IH]; [done|]. eapply rtc_l; [|exact IH].
  exact (lf_run ex_env sample_account (str "mk8.example") 60003 (mkLife x file pending disk past) y Hxy).
Qed.

Definition sample_flush : recallFile * RecallTable :=
  authRecallFlush (sess_now + 1) (recall (ss_net (mc_auth mac_logged))).
Definition sample_disk : gmap gostring authRecallPersisted := default ∅ sample_flush.1.
Definition second_end : Machine := after_join (Some sample_disk) (mc_auth mac_start) (mc_secure mac_start).
Definition sample_life : Life :=
  mkLife second_end (Some sample_disk) None (Some sample_disk) (au_logins (app (ss_net (mc_auth mac_logged)))).

Lemma flush_and_restart m f t :
  authRecallFlush (sess_now + 1) (recall (ss_net (mc_auth m))) = (Some f, t) ->
  rtc sample_step (mkLife m None None None []) (mkLife mac_start (Some f) None (Some f) (au_logins (app (ss_net (mc_auth m))))).
Proof.
  intros Hf. eapply rtc_l; [by eapply (lf_collect _ _ _ _ (mkLife m None None None []))|].
  eapply rtc_l; [by eapply lf_write|]. eapply rtc_l; [|apply rtc_refl]. cbn.
  match goal with |- sample_step ?l _ =>
    exact (lf_restart ex_env sample_account (str "mk8.example") 60003 l default_Config (8 * nanos) 0 0 empty_tournaments) end.
Qed.

Lemma sample_reaches :
  rtc sample_step (life_start default_Config (8 * nanos) 0 0 empty_tournaments) sample_life.
Proof.
  etrans; [exact (machine_runs None _ _ None None [] mac_logs_in)|].
  etrans; [apply (flush_and_restart mac_logged sample_disk sample_flush.2)|].
  - assert (is_Some sample_flush.1) as [f Hf] by (vm_compute; eexists; reflexivity).
    unfold sample_disk. rewrite Hf. cbn. rewrite <- Hf. apply surjective_pairing.
  - apply machine_runs.
    apply (after_join_runs (Some sample_disk) _ (mc_auth mac_start) (mc_secure mac_start)); [reflexivity..|intros held].
    apply sent_runs; vm_compute; [reflexivity|reflexivity|repeat split|reflexivity].
Qed.

Definition sample_player : Connection := default (NewConnection []) (heap (reg (ss_net (mc_secure second_end))) !! 1).

Example sample_back : PID sample_player = 1800000006 /\ cstate sample_player = stateConnected.
Proof. vm_compute. split; reflexivity. Qed.

Lemma every_player_proved_witness :
  PID sample_player = 1800000006 /\
  exists socket, forall s, conns (mc_secure (lf_machine sample_life)) !! s = Some 1 <-> s = socket.
Proof.
  destruct sample_back as [Hp Hs]. split; [exact Hp|].
  assert (heap (reg (ss_net (mc_secure (lf_machine sample_life)))) !! 1 = Some sample_player) as Hc
    by (vm_compute; reflexivity).
  destruct (every_player_proved ex_env sample_account (str "mk8.example") 60003 eq_refl eq_refl
    default_Config (8 * nanos) 0 0 empty_tournaments sample_life 1 sample_player sample_reaches Hc) as [_ Ho].
  exact (Ho Hs).
Defined.

(** The console connects once more on the same connection, without a ticket or with the one
    that its login on the first process was issued. *)
Definition sample_sealed : bytes :=
  match kerberosEncrypt (md5Sum (secure_key ++ replicate 16 3))
    (save_ServerTicket server_settings (mkServerTicket 0 1800000006 (replicate 32 9))) with Ok b => b | _ => [] end.
Definition sample_check : bytes :=
  match kerberosEncrypt (replicate 32 9) (client_check server_settings 1800000006 1 6) with Ok b => b | _ => [] end.
Definition ticket_connect : Packet :=
  run_packet PacketCONNECT 1 (StreamOut.Buffer (StreamOut.Buffer (replicate 16 3) ++ StreamOut.Buffer sample_sealed) ++
    StreamOut.Buffer sample_check).

Lemma sample_past :
  exists lg, lf_past sample_life = [lg] /\ lg_auth lg = an_auth sess_env /\ lg_pid lg = 1800000006.
Proof. vm_compute. eexists. split; [reflexivity|]. split; reflexivity. Qed.

Lemma sample_issued lg :
  lg_auth lg = an_auth sess_env -> lg_pid lg = 1800000006 -> sealed_for lg (replicate 16 3) sample_sealed.
Proof.
  intros Ha Hp. split; rewrite Ha; [reflexivity|rewrite Hp; by split|].
  exists (replicate 32 9). rewrite Hp. split_and!; [reflexivity|reflexivity|vm_compute; reflexivity].
Qed.

Lemma ticket_genuine : genuine (issued (logins_ever sample_life)) (p_Payload ticket_connect).
Proof.
  intros td rd st tk sl st' d H1 _ H2 _ _. vm_compute in H1. injection H1 as <- _ _.
  vm_compute in H2. injection H2 as <- <- _. destruct sample_past as (lg & Hl & Ha & Hp). exists lg. split.
  - unfold logins_ever. rewrite Hl. apply elem_of_app. left. apply list_elem_of_here.
  - pose proof (sample_issued lg Ha Hp) as Hs. vm_compute in Hs. exact Hs.
Qed.

(** What the second process does on either CONNECT. *)
Definition reconnects (pk : Packet) (n' : Net Service) : Prop :=
  processCONNECT (secureEndpoint ex_env (run_env 0 1)) (join_env (Some sample_disk)) 1 pk
    (ss_net (mc_secure (lf_machine sample_life))) = Some n' /\
  (PID <$> heap (reg n') !! 1) = Some 1800000006 /\
  connCounter (reg n') <> connCounter (reg (ss_net (mc_secure (lf_machine sample_life)))).

Lemma sample_reconnects : (exists n', reconnects sess_connect n') /\ (exists n', reconnects ticket_connect n').
Proof.
  unfold reconnects. split; vm_compute; eexists; (split; [reflexivity|split; [reflexivity|discriminate]]).
Qed.

Lemma returning_player_witness :
  exists lg, lg ∈ logins_ever sample_life /\ proved sample_account lg 1800000006 /\
    presents (p_Payload ticket_connect) 1800000006 (replicate 16 3) sample_sealed.
Proof.
  assert (heap (reg (ss_net (mc_secure (lf_machine sample_life)))) !! 1 = Some sample_player) as Hc
    by (vm_compute; reflexivity).
  destruct sample_reconnects as [(n1 & Hn1 & Hp1 & Hk1) (n2 & Hn2 & Hp2 & Hk2)].
  pose proof (fun pk n' Hq Hn => returning_player ex_env sample_account (str "mk8.example") 60003 eq_refl eq_refl
    default_Config (8 * nanos) 0 0 empty_tournaments sample_life (run_env 0 1) (join_env (Some sample_disk)) 1
    pk n' sample_player sample_reaches eq_refl Hq Hc Hn) as Hret.
  destruct (Hret sess_connect n1 (genuine_empty _) Hn1) as [Hs|(c1 & Hc1 & Hid1)];
    [exfalso; apply Hk1; rewrite Hs; reflexivity|].
  destruct (Hret ticket_connect n2 ticket_genuine Hn2) as [Hs|(c2 & Hc2 & Hid2)];
    [exfalso; apply Hk2; rewrite Hs; reflexivity|].
  rewrite Hc1 in Hp1. apply (inj Some) in Hp1. rewrite Hc2 in Hp2. apply (inj Some) in Hp2.
  change (bool_decide (p_Payload sess_connect = [])) with true in Hid1. cbv iota in Hid1.
  rewrite bool_decide_eq_false_2 in Hid2 by (vm_compute; discriminate). rewrite Hp1 in Hid1. rewrite Hp2 in Hid2.
  destruct Hid1 as (lg & Hin & _ & _ & Hpr). exists lg. split; [exact Hin|]. split; [exact Hpr|].
  destruct Hid2 as (lg2 & tk & sl & _ & Hpre & _). pose proof Hpre as (td & rd & st & st' & tkt & d & cid & ck & H1 & _ & H2 & _).
  assert (tk = replicate 16 3 /\ sl = sample_sealed) as [-> ->]; [|exact Hpre].
  vm_compute in H1. injection H1 as <- _ _. vm_compute in H2. injection H2 as <- <- _.
  split; vm_compute; reflexivity.
Defined.
