(* ===== verification/Monitor.v ===== *)
(** * What the monitoring page says of the running process (server/dashboard.go, server/main.go)

    The hooks of the secure server feed the dashboard, and the dashboard's request for
    statistics reads the counters, the registry and the store of the same process.  Shown
    is that the page tells the truth about it: its counts are those of calls that were
    made, and every player it lists has proved the account, on this process or on an
    earlier one. *)

From S2P Require Import Prelude GoStd GoNet GoTime Settings Stream Types StationURL Rmc PrudpLite.
From S2P Require Import Matchmaking Reservations Notification Connection Stations Store StoreInv.
From S2P Require Import Tournament Handlers HandlerInv HandlerProps Sha256 Dedup Crypto Kerberos.
From S2P Require Import TicketGranting Endpoint EndpointInv EndpointProps Account ProxyProto.
From S2P Require Import NatTraversal RankingBoard Ranking Utility Dashboard DashboardProps.
From S2P Require Import Server ServerProps RegistryInv Transport Sockets AuthServer Machine Life.
Import GoNet.

(** A call as the page shows it. *)
Definition shown (k : call) : Z * gostring := (ca_pid k, rmcName (ca_proto k) (ca_method k)).

(** What the page says, next to the calls that had been made when it read the players'
    data ([cs]), the events ([ce]) and the totals ([ct]); its numbers are Go's int. *)
Record truthful (cs ce ct : list call) (st : apiStats) : Prop := {
  tr_total : TotalRMC st = sint 64 (len ct);
  tr_events : (fun e => (ae_PID e, ae_Action e)) <$> Events st = reverse (shown <$> drop (length ce - 100) ce);
  tr_methods : forall a, a ∈ Methods st -> am_Count a = sint 64 (len (calls_named (am_Name a) ce));
  tr_players : forall p, p ∈ Players st ->
    exists k, last (calls_by (ap_PID p) cs) = Some k /\ ap_Calls p = sint 64 (len (calls_by (ap_PID p) cs)) /\
      ap_LastAction p = rmcName (ca_proto k) (ca_method k)
}.

(** Counters that account for the calls make a truthful page. *)
Lemma accounted_truthful ghost rd v peak d de dt cs ce ct st :
  accounted cs d -> accounted ce de -> accounted ct dt -> reported ghost rd v peak st ->
  vw_meta v = playerMeta d -> vw_events v = events de -> vw_methods v = methodCount de -> vw_total v = rmcTotal dt ->
  truthful cs ce ct st.
Proof.
  intros [_ _ _ Hp] [_ He Hm _] [Ht _ _ _] Hrep E1 E2 E3 E4. split.
  - by rewrite (rep_total _ _ _ _ _ Hrep), E4.
  - rewrite (rep_events _ _ _ _ _ Hrep), E2, He. f_equal.
    rewrite <- fmap_drop, <- list_fmap_compose. reflexivity.
  - intros a Ha. apply (rep_methods _ _ _ _ _ Hrep) in Ha. rewrite E3 in Ha. rewrite <- Hm, Ha. done.
  - intros p Hin. destruct (rep_calls _ _ _ _ _ Hrep p Hin) as (s & Hs & [l Hl] & Hc & Hact).
    rewrite E1 in Hs. specialize (Hp (ap_PID p)). rewrite Hs in Hp. unfold noted in Hp.
    destruct (last (calls_by (ap_PID p) cs)) as [k|]; [|destruct Hp as (_ & Hn & _); congruence].
    destruct Hp as (_ & _ & Hn & Hpr & Hme). exists k. split_and!; [done|by rewrite Hc|by rewrite Hact, Hpr, Hme].
Qed.

Lemma last_call_of pid cs k : last (calls_by pid cs) = Some k -> k ∈ cs /\ ca_pid k = pid.
Proof. intros Hl%last_Some_elem_of. unfold calls_by in Hl. apply list_elem_of_filter in Hl as [? ?]. done. Qed.

Section Monitor.
Context `{GoRange, GoSort} (pe : ProcEnv) (acc : AccountConfig) (host : gostring) (port : Z).
Context (Hacc : requireAccount acc = true) (Hsig : requireSignedToken acc = true).

(** The account was proved by a login on this process or an earlier one. *)
Definition known (l : Life) (pid : Z) : Prop := exists lg, lg ∈ logins_ever l /\ proved acc lg pid.

Lemma proven_known l pid addr :
  life_ok pe acc host port l -> proven (lf_loaded l) (lf_past l) (logins_now l) pid addr -> known l pid.
Proof using Hacc Hsig.
  intros Hl Hp. destruct (proven_proved _ _ _ _ Hacc Hsig l pid addr Hl Hp) as (lg & Hin & Hpr & _). by exists lg.
Qed.

(** A page is answered only for the key, and says what it found. *)
Lemma api_stats_reply cfg token ghostVar q rd v d st :
  (api_stats cfg token ghostVar q rd v d).1 = StatsReply st ->
  token <> [] /\ q (str "key") = token /\ reported (ghostIdle ghostVar) rd v (peakConnected d) st.
Proof.
  unfold api_stats, authed. case_bool_decide as Htok; cbn [andb]; [|done]. case_bool_decide as Hq; [|done].
  pose proof (stats_report cfg (ghostIdle ghostVar) rd v d) as Hs.
  destruct (buildStats _ _ _ _ _) as [st0 d']. cbn. intros [= <-]. by destruct Hs as [Hs _].
Qed.

(** A request that the server dispatches is one more call, by the account of its
    connection; one without an account is not counted. *)
Lemma request_counted env ref conn payload req n cs :
  heap (reg n) !! ref = Some conn -> ParseRMC payload = Some req -> Mode req = RMCRequest ->
  accounted cs (sv_dash (app n)) ->
  accounted (cs ++ (if bool_decide (PID conn = 0) then []
                    else [mkCall (sn_seen env) (sn_seen' env) (PID conn) (Protocol req) (Method req)]))
    (sv_dash (app (dispatchRMC (secureEndpoint pe env) ref payload n))).
Proof.
  intros Hc Hp Hm Ha. unfold dispatchRMC. rewrite Hp, (bool_decide_eq_false_2 (Mode req <> RMCRequest)) by (by intros E; apply E).
  change (OnRMC (secureEndpoint pe env)) with (Some (on_rmc env)). cbv iota.
  unfold with_conn. rewrite Hc. set (n0 := with_app _ n).
  set (cs' := cs ++ _). assert (accounted cs' (sv_dash (app n0))) as Hn0.
  { subst cs' n0. cbn. case_bool_decide; [rewrite app_nil_r; unfold noteRMC; by rewrite bool_decide_eq_true_2|].
    by apply noteRMC_accounted. }
  clearbody n0 cs'. destruct (handler (secureEndpoint pe env) (Protocol req)) as [h|] eqn:Hh;
    [|by rewrite (seen_app _ _ (seen_SendRMC _ _ _ _))].
  destruct (h ref req n0) as [n1 resp] eqn:E.
  pose proof (secure_handler_counts pe env _ _ _ _ _ _ _ _ Hh E Hn0) as Hn1.
  destruct resp; [by rewrite (seen_app _ _ (seen_SendRMC _ _ _ _))|done].
Qed.

(** ** Reading while the process runs *)
Definition dash_of (m : Machine) : DashState := sv_dash (app (ss_net (mc_secure m))).

(** The calls made so far, all by proven accounts. *)
Definition history (l : Life) (m : Machine) (cs : list call) : Prop :=
  counted (lf_loaded l) (lf_past l) (logins_now (later l m)) cs (app (ss_net (mc_secure m))).

Lemma history_known l m cs :
  life_ok pe acc host port (later l m) -> history l m cs -> Forall (fun k => known (later l m) (ca_pid k)) cs.
Proof using Hacc Hsig.
  intros Hl [_ Hp]. eapply Forall_impl; [exact Hp|]. intros k [addr Hk]. by eapply proven_known.
Qed.

(** It grows while the process runs. *)
Lemma history_grows l m m' cs :
  life_ok pe acc host port (later l m) -> history l m cs ->
  rtc (machine_step pe acc host port (lf_loaded l) (lf_past l)) m m' ->
  life_ok pe acc host port (later l m') /\ exists cs', cs `prefix_of` cs' /\ history l m' cs'.
Proof.
  intros Hl Hh Hr. split; [by apply (later_ok _ _ _ _ (later l m))|].
  destruct (life_process _ _ _ _ _ Hl) as (H1 & H2 & H3 & _).
  destruct (machine_runs_process _ _ _ _ _ _ cs _ _ Hr) as (_ & _ & _ & cs' & Hp & Hc); [|by exists cs'].
  split_and!; [done|done|done|by exists cs].
Qed.

(** What a page finds whose connections are read in [m0], its lobbies in [m1], its players'
    data in [m2], its events in [m3] and its totals in [m4]. *)
Definition view_over (m0 m1 m2 m3 m4 : Machine) : View :=
  mkView (reg (ss_net (mc_secure m0))) (w_mm (store_of (ss_net (mc_secure m1)))) (playerMeta (dash_of m2))
    (events (dash_of m3)) (methodCount (dash_of m3)) (sessionsSeen (dash_of m4)) (rmcTotal (dash_of m4)).

(** [C23] The monitoring page.  Over any number of restarts and after any traffic in which
    only issued tickets are presented, there is a history of calls to the running process,
    every one by an account that a login proved; a request that is dispatched next adds its
    call, of the account of its connection, to the history.  The page answers only a request
    with the configured key.  It reads the connections, the lobbies, the players' data, the
    events and the totals one after the other while the process runs on; each part agrees
    with the history at its moment: the total, the counts by method and the latest hundred
    events are those of the calls made by then, and the players it lists are exactly the
    accounts with a registered connection and a recent call, each of them proved, with the
    number and the last of its calls, and in a lobby that holds it. *)
Theorem monitor_truthful c ttl dttl dmax ts l :
  rtc (life_step pe acc host port) (life_start c ttl dttl dmax ts) l ->
  let m0 := lf_machine l in
  let n := ss_net (mc_secure m0) in
  let run := rtc (machine_step pe acc host port (lf_loaded l) (lf_past l)) in
  exists cs, accounted cs (dash_of m0) /\ Forall (fun k => known l (ca_pid k)) cs /\
    (forall env ref conn payload req,
       heap (reg n) !! ref = Some conn -> ParseRMC payload = Some req -> Mode req = RMCRequest -> PID conn <> 0 ->
       known l (PID conn) /\
       accounted (cs ++ [mkCall (sn_seen env) (sn_seen' env) (PID conn) (Protocol req) (Method req)])
         (sv_dash (app (dispatchRMC (secureEndpoint pe env) ref payload n)))) /\
    forall m1 m2 m3 m4, run m0 m1 -> run m1 m2 -> run m2 m3 -> run m3 m4 ->
    exists cs2 cs3 cs4, cs `prefix_of` cs2 /\ cs2 `prefix_of` cs3 /\ cs3 `prefix_of` cs4 /\
      accounted cs2 (dash_of m2) /\ accounted cs3 (dash_of m3) /\ accounted cs4 (dash_of m4) /\
      Forall (fun k => known (later l m4) (ca_pid k)) cs4 /\
      forall cfg token ghostVar q rd d st,
        (api_stats cfg token ghostVar q rd (view_over m0 m1 m2 m3 m4) d).1 = StatsReply st ->
        token <> [] /\ q (str "key") = token /\ truthful cs2 cs3 cs4 st /\
        reported (ghostIdle ghostVar) rd (view_over m0 m1 m2 m3 m4) (peakConnected d) st /\
        forall p, p ∈ Players st -> known (later l m2) (ap_PID p).
Proof using Hacc Hsig.
  intros Hl%life_reachable m0 n run. destruct (life_process _ _ _ _ _ Hl) as (_ & _ & Had & cs & _ & Hcs). exists cs.
  assert (later l m0 = l) as El by (by destruct l).
  assert (history l m0 cs) as Hh by exact Hcs. assert (life_ok pe acc host port (later l m0)) as Hl0 by (by rewrite El).
  split_and!; [apply Hcs|rewrite <- El; by apply history_known| |].
  { intros env ref conn payload req Hc Hp Hm Hz. split.
    - assert (people n !! ref = Some (ident conn)) as Hw by (unfold people; by rewrite lookup_fmap, Hc).
      destruct (Had _ _ Hw) as [?|Hk]; [done|]. by eapply proven_known.
    - pose proof (request_counted env ref conn payload req n cs Hc Hp Hm (proj1 Hcs)) as Hx.
      by rewrite bool_decide_eq_false_2 in Hx. }
  intros m1 m2 m3 m4 R1 R2 R3 R4.
  destruct (history_grows l m0 m2 cs Hl0 Hh ltac:(by etrans)) as (Hl2 & cs2 & P2 & H2).
  destruct (history_grows l m2 m3 cs2 Hl2 H2 R3) as (Hl3 & cs3 & P3 & H3).
  destruct (history_grows l m3 m4 cs3 Hl3 H3 R4) as (Hl4 & cs4 & P4 & H4). exists cs2, cs3, cs4.
  split_and!; [done|done|done|apply H2|apply H3|apply H4|by apply history_known|].
  intros cfg token ghostVar q rd d st Hst. apply api_stats_reply in Hst as (Htok & Hq & Hrep).
  pose proof (accounted_truthful _ _ _ _ _ _ _ _ _ _ _ (proj1 H2) (proj1 H3) (proj1 H4) Hrep
    eq_refl eq_refl eq_refl eq_refl) as Htr. split_and!; try done.
  intros p Hp. destruct (tr_players _ _ _ _ Htr p Hp) as (k & [Hin <-]%last_call_of & _).
  exact (proj1 (Forall_forall _ _) (history_known l m2 cs2 Hl2 H2) _ Hin).
Qed.
End Monitor.

(** ** A sample page

    The console of Life's sample, back on the second process, asks for a lobby; then the
    page is requested with its key. *)
#[local] Instance page_range : GoRange := run_range.
#[local] Instance page_sort : GoSort := run_sort.
Definition page_env : ServerEnv := run_env 2 3.
Definition page_frame : bytes := EncodePacket (run_packet PacketDATA 2 (Encode ex_auto_request)).
Definition asked : Sockets Service := sent page_env page_frame (Some sample_disk) (mc_secure second_end).
Definition page_machine : Machine := mkMachine (share (recall (ss_net asked)) (mc_auth second_end)) asked.

Lemma asked_runs held : rtc (socket_step (held_transport ex_env (Some sample_disk) held)) (mc_secure second_end) asked.
Proof. apply sent_runs; vm_compute; [reflexivity|reflexivity|repeat split|reflexivity]. Qed.

Lemma page_runs :
  rtc (mac_step (lf_loaded sample_life) (lf_past sample_life)) (lf_machine sample_life) page_machine.
Proof.
  refine (mac_on_secure (Some sample_disk) _ (mc_auth second_end) (mc_secure second_end) asked asked_runs _).
  vm_compute. reflexivity.
Qed.

Definition page_config : DashConfig := mkDashConfig 0 443 60003 accessKey.
Definition page_readings : Readings :=
  mkReadings (fun _ => 3) (fun _ => 3) (fun _ => 3) (fun _ => 3) 3 (GoTime.UTC 3).
Definition page_key (name : gostring) : gostring := if bool_decide (name = str "key") then str "secret" else [].
(** The connections are read before the console asks, the rest after. *)
Definition page_view : View := view_over second_end page_machine page_machine page_machine page_machine.
Definition page : apiReply :=
  (api_stats page_config (str "secret") [] page_key page_readings page_view (dash_of page_machine)).1.
Definition page_stats : apiStats :=
  match page with StatsReply st => st | _ => mkApiStats [] 0 0 0 0 0 0 0 0 (mkApiServer [] [] [] 0 [] 0 []) [] [] [] [] end.

Example page_shows :
  page = StatsReply page_stats /\ TotalRMC page_stats = 1 /\ (ap_PID <$> Players page_stats) = [1800000006] /\
  InLobby page_stats = 1.
Proof. vm_compute. repeat split. Qed.

Lemma monitor_truthful_witness :
  exists c2 c3 c4, c2 `prefix_of` c3 /\ c3 `prefix_of` c4 /\ truthful c2 c3 c4 page_stats /\
    known sample_account (later sample_life page_machine) 1800000006.
Proof.
  destruct page_shows as (Hp & _ & Hl & _).
  destruct (monitor_truthful ex_env sample_account (str "mk8.example") 60003 eq_refl eq_refl
    default_Config (8 * nanos) 0 0 empty_tournaments sample_life sample_reaches) as (cs & _ & _ & _ & Hpage).
  destruct (Hpage page_machine page_machine page_machine page_machine page_runs (rtc_refl _ _) (rtc_refl _ _)
    (rtc_refl _ _)) as (c2 & c3 & c4 & _ & P3 & P4 & _ & _ & _ & _ & Hst).
  destruct (Hst page_config (str "secret") [] page_key page_readings (dash_of page_machine) page_stats Hp)
    as (_ & _ & Htr & _ & Hkn).
  exists c2, c3, c4. split; [exact P3|]. split; [exact P4|]. split; [exact Htr|].
  assert (1800000006 ∈ ap_PID <$> Players page_stats) as Hin by (rewrite Hl; apply list_elem_of_here).
  apply list_elem_of_fmap in Hin as (p & -> & Hin). exact (Hkn p Hin).
Defined.
